(* ===== verification/_CoqProject ===== *)
-Q . S2P
Prelude.v
Float64.v
Bytes.v
Netip.v
GoStrings.v
NetipString.v
NetipParse.v
NetipRun.v
Geoip2.v
Samples.v
Geo.v
GeoOpen.v
GeoTypes.v
GeoSpec.v
Net.v
Iputil.v
IputilText.v
Probe.v
Timing.v
ProbeTree.v
Concurrent.v
Replay.v
Adaptive.v
Scheduler.v
Parallel.v
Interleave.v
Linearize.v
System.v
Confluence.v
Solo.v
