(* ===== verification/Prelude.v ===== *)
(** * echoip / iputil: a verification development

    The program is the [iputil] part of echoip: two Go packages.

    - [src/iputil/geo/geo.go] (package [geo]) is the core.  A [geoip] value
      holds up to three handles to offline geolocation databases (country,
      city, autonomous system), each of them optional.  [Open] builds it from
      three paths; [Country], [City] and [ASN] query one handle for one
      address and merge the raw record of the database library into a small
      output record; [IsEmpty] says whether geographic data is available at
      all.  The database library ([geoip2]) is not part of the repository:
      the code only calls it.
    - [src/iputil/iputil.go] (package [iputil]) holds three independent
      functions: [LookupAddr] (reverse DNS, first name, trailing dots
      removed), [LookupPort] (a TCP dial with a fixed two second timeout, the
      connection closed again) and [ToDecimal] (the bytes of an address read
      as a big-endian unsigned integer).

    ** Files

    - [Prelude] (this file): what every component shares.  Go values that
      have no Rocq counterpart: [error] (a message; the nil error is [None]),
      zero values (class [Zero]), the pair [(T, error)] a Go function
      returns, the execution monad [run], whose [Panic] outcome models a
      nil dereference or an index out of range, and the state and error
      monad [fallible] with [try] and [or_return] for "call, and return the
      error if there is one".  The tactics [go_cases] and [go_crush] and the
      hint database [go].
    - [Float64]: IEEE 754 binary64 values as [SpecFloat.spec_float], with
      [IsNaN] ([math.IsNaN]).
    - [Bytes]: bytes as numbers, big-endian encoding ([BEPut]) and decoding
      ([SetBytes], the meaning of [big.Int.SetBytes]), with bounds, round
      trips and injectivity.
    - [Netip]: [netip.Addr] the way Go represents it (128 bits as two 64-bit
      halves and a zone marker), its constructors, [AsSlice], the
      well-formedness [Addr_ok] of what the constructors build and the
      equivalence [same_bits] (equal up to the zone).
    - [GoStrings]: [strings.TrimRight] as the loop that drops the last byte
      while it is in the cutset ([trim_loop]), one turn of it as a relation
      ([trim_turn]), and its reference [trim_ref].
    - [NetipString]: [netip.Addr.String], the text of an address
      ([Addr_String], with [appendTo4], [appendTo6], [appendTo4In6],
      [appendDecimal], [appendHex] as in the standard library), and a
      reader of dotted decimal ([parseIPv4]).
    - [NetipParse]: a reader of the texts that [Addr_String] writes
      ([ParseAddr], with the state machine [parse6_step] for the groups of
      an IPv6 address), the closed form of what the loops of [appendTo6]
      write ([groups_text], [run_ok]) and the round trip.
    - [NetipRun]: which groups the first loop of [appendTo6] leaves out
      ([compressed]), with the invariant of the loop ([best]).
    - [Geoip2]: the interface of the database library as [geo.go] uses it:
      the fields of the raw records that the code reads, a handle as the
      record of its three queries, [geoip2_Open] against a file system, and
      the library's contract ([query_ok], [handle_ok], [fs_ok]).
    - [Samples]: three addresses, raw records and a file system with three
      databases, on which the theorems are instantiated.
    - [Geo]: package [geo], definition by definition: [Country], [City],
      [ASN], [geoip], [Reader], [geoip_Country], [geoip_City],
      [geoip_ASN], [geoip_IsEmpty], and the theorems on the four methods.
    - [GeoOpen]: the constructor [Open] of package [geo], the
      specification [opens] of what it does to the file system and the
      refinement of it by the code.
    - [GeoSpec]: the contract of section 4 of the specification as Rocq
      functions on optional values ([lookup] and the three merges), the
      refinement theorems (what the code returns is what the contract
      prescribes) and the class [ReaderLaws], the promises of a [Reader] to
      its clients, with [geoip] as its instance.
    - [GeoTypes]: which values of the model are values of the Go types
      ([float64], [uint]) and that [City] and [ASN] return such values.
    - [Net]: the operating system's resolver and TCP stack as an explicit
      world: an oracle for their answers ([Network]), the set of open
      connections and the trace of calls ([World]), with the invariant
      [World_ok].
    - [Iputil]: package [iputil]: [LookupAddr], [LookupPort], [ToDecimal],
      and their theorems; the two halves of [LookupPort], the dial
      ([LookupPort_dial]) and the deferred close ([LookupPort_close]).
    - [IputilText]: the probes with [NetipString.Addr_String] for the text
      of the address ([iputil_LookupAddr], [iputil_LookupPort]).
    - [Probe]: runs of the two probes: the step relation [step] of one call
      from one world to the next, histories [steps], the executable [exec],
      and the invariants of every run.
    - [Timing]: the time the calls of the probes take, read off the trace
      for a given latency of the resolver and of the peer ([Latency],
      [elapsed], [duration]).
    - [Concurrent]: the operations called from several goroutines: threads
      with their requests ([thread]), one step of one thread ([tstep], and
      [advance], the same as a function), one step of the pool under a
      scheduler ([cstep], [sched_step]), histories ([csteps], [run_sched]),
      the invariant [Inv] and the measure [pool_work].
    - [ProbeTree]: the two probes read once more from the source, as
      interaction trees over the calls they make to package [net] ([netE],
      [LookupAddr_tree], [LookupPort_tree]), with two handlers: the world
      of file [Net] ([h_net]) and an environment that answers each call as
      it likes from the history so far ([environment], [h_env]).
    - [Replay]: the open connections and the next connection number as a
      function of the trace ([replay], with its relation [replays]), and
      the preorder [traced] on worlds.
    - [Adaptive]: the pool against a network that is chosen anew before
      every step from the world as it is then ([adaptive], [asteps],
      [run_adaptive]), with [busy_net], a peer that accepts one
      connection at a time; schedules with an observer who is told which
      thread has made which calls ([osteps], [run_observed]).
    - [Scheduler]: the pool under a scheduler, a function from the schedule
      so far and the configuration to the thread that steps next
      ([scheduler], [work_conserving], [run_scheduler]), with two
      schedulers, [lowest] and [round_robin].
    - [Parallel]: a clock for each thread of the pool ([clocks], kept by
      the observer [timekeeper]): the time the thread has been blocked in
      package [net], with [makespan] the largest of them.
    - [Interleave]: the trace of the pool with every call tagged by its
      thread ([tagged], kept by the observer [tagger]), and the calls of
      one thread read out of it ([events_of]).
    - [Linearize]: the moments of a run ([moment]) and what it is for a
      reply to be the sequential one at a moment ([answered_at],
      [linearized]).
    - [Confluence]: the account of a pool: the connections its threads
      have made and the steps they have taken, read off their replies
      ([made], [taken]), and the pool that has been served all its
      requests ([served]).
    - [Solo]: the calls of file [Probe] as requests of one thread
      ([request_of], [reply_of_outcome]).
    - [System]: the whole process: [Open] at startup, then the pool
      ([system]), and the replies a caller can rely on ([sound]).

    The files are listed in [_CoqProject] in the order of their
    dependencies: [Prelude], [Float64], [Bytes], [Netip], [GoStrings],
    [NetipString], [NetipParse], [NetipRun], [Geoip2], [Samples], [Geo],
    [GeoOpen], [GeoTypes], [GeoSpec], [Net], [Iputil], [IputilText],
    [Probe], [Timing], [ProbeTree], [Concurrent], [Replay], [Adaptive],
    [Scheduler], [Parallel], [Interleave], [Linearize], [System],
    [Confluence], [Solo].  [ProbeTree] is the one file that loads the
    library of interaction trees.

    ** How the model corresponds to the code

    A Go struct is a [Record] whose fields carry the struct's name as a
    prefix ([Country_Name] is field [Name] of [Country]).  A method of
    [*geoip] is a function [geoip_<Method>].  A Go function returning
    [(T, error)] returns a pair [T * option error]; both components are
    always there, as in Go, so that "an error comes with a zero record" is a
    theorem and not a property of the type.  A pointer that may be nil is an
    [option]; dereferencing goes through [deref], which panics on [None].
    A sequence of guarded assignments to the fields of a local struct is a
    sequence of [when cond (set_field v)] steps applied to the zero record,
    in the order of the source.  A function that changes what is outside the
    program ([Open], [LookupAddr], [LookupPort]) is a function from the
    state before to a result and the state after: the list of opened files
    for [Open], the [World] for the probes.

    What the repository only calls is a parameter, never a stub: the
    database handles are arbitrary functions from addresses to raw records
    and errors, the file system is an arbitrary function from paths to
    handles and errors, the resolver and the dialer are oracles.  Theorems
    quantify over all of them.  Where a theorem needs the library's contract
    (a query that reports no error returns a record), the contract is a
    hypothesis with a name ([handle_ok], [fs_ok]).  The text of an address
    is a parameter of [Iputil], [Probe] and [Concurrent], whose theorems
    hold for every rendering; [IputilText] puts the standard library's
    rendering in its place.  Package [net] is a parameter in two forms.  In
    [Net] it is an oracle that answers a question the same way every time
    ([Network]); the probes are functions on the [World].  In [ProbeTree]
    nothing is assumed of it: a probe is the tree of the calls it makes,
    with one branch for each answer, and an [environment] picks the
    answers from everything that has happened before.  [probes_interp]
    shows that the trees, run on the [World], are the functions.  For
    the pool, [Adaptive] lets the oracle depend on the world, trace
    included, at every step.

    Calls from several goroutines are interleavings of steps.  A geo lookup
    and a [LookupAddr] are one step each: the first reads an immutable
    reader, the second makes one call to the resolver.  [LookupPort] is two
    steps, [LookupPort_dial] and [LookupPort_close], with the connection
    open in between: [LookupPort_split] shows that the function of the
    source is the first followed by the second.  The reader of the pool is
    any implementation of the interface [Reader]; the theorems that need
    more of it are proved against the class [ReaderLaws].

    The two packages meet in the process that uses them, which is not in
    the repository: it calls [Open] once and, when that succeeds, serves
    requests from its threads with the reader it got.  [system] of file
    [System] is that control flow, with the file system, the network, the
    requests and the schedule as parameters.

    ** What the theorems show

    - [Geo]: for each lookup, the complete result on every path (source
      absent, query error, success), the fallback order of the country name
      and code, the European Union flag, the NaN filter on coordinates, the
      first-subdivision rule, the treatment of AS number zero; that an error
      always comes with the zero record; that no lookup panics under the
      library's contract; that [IsEmpty] ignores the ASN source.
    - [GeoOpen]: [Open] opens the named files in the order country, city,
      ASN and stops at the first failure; it returns a reader exactly when
      it returns no error; the reader holds a handle exactly for the named
      paths; the files opened before a failure stay open; no lookup on a
      reader it built panics.
    - [GeoSpec]: functional refinement of the contract by the code.
    - [Bytes], [Netip], [Iputil]: [ToDecimal] is the number the 128 (or 32)
      bits denote, with its bounds; writing it back gives the bytes of the
      address; it is injective on IPv4 addresses and on IPv6 addresses up to
      the zone, and two addresses that differ in the zone only collide: its
      kernel on one family is the equivalence [same_bits], for which
      [AsSlice] and [ToDecimal] are [Proper].
    - [NetipString], [NetipParse], [IputilText]: the text of every valid
      address reads back as the address (dotted decimal; the groups of an
      IPv6 address, where the reader puts zero groups in the place of
      [::], which is sound because the first loop of [appendTo6] only
      elides zero groups; IPv4-mapped addresses; zones), so the text
      determines the address; the text of an address without a zone is
      made of the characters [0-9a-f.:]; the text of an address with a
      zone is that of the address without it, then [%] and the zone; the
      text is the standard library's on sample addresses of every shape;
      the address [LookupPort] dials determines the target and the port;
      the zero [Addr] is dialed as "invalid IP".
    - [NetipRun]: the text of an IPv6 address leaves out the first of the
      longest runs of at least two zero groups, and no group when no two
      neighbouring groups are zero ([longest_run_first_longest]), so the
      text the probes pass on is the canonical one.
    - [GeoTypes]: the coordinates [City] returns are IEEE 754 binary64
      values and the number [ASN] returns is a 64-bit unsigned integer,
      when the database's answers are; an infinite coordinate, or one of
      1000 degrees, is such a value and is returned as it is
      ([City_copies_infinity]).
    - [GoStrings], [Net], [Iputil]: [LookupAddr] returns the first name
      without any dot at its end, and the empty name with the resolver's
      error otherwise; [LookupPort] returns the verdict of one TCP dial to
      [[ip]:port] with a timeout of two seconds, leaves no connection open
      and makes no other call.  The loop of [TrimRight] terminates:
      [trim_turn] is strongly normalising, the result is reached by turns
      of the loop and is a normal form; any fuel of at least the length
      gives the same result.
    - [Probe]: by induction on runs: no sequence of calls leaves a
      connection open; the outcome of a call depends on the call and the
      outside only, and is never a panic; the trace follows the protocol
      "dial, then close what the dial returned"; one dial per [LookupPort]
      and one resolver call per [LookupAddr], so nothing is retried; every
      list of calls runs to its end.
    - [Timing]: the calls of one [LookupPort] take two seconds at most,
      and exactly two seconds, with an error, when the peer does not
      answer in time; a [LookupAddr] takes as long as the resolver, which
      the code does not bound; a run takes the sum of the times of its
      calls.
    - [Concurrent]: by induction on interleavings, for every scheduler:
      the connections open are exactly those held by the threads that are
      between a dial and its close, so none is open when every thread is
      between two calls ([Inv], [cstep_Inv]); every thread receives the
      replies that its requests get when served alone, and the replies of
      the geo lookups are those the contract of [GeoSpec] prescribes for
      every lawful reader; every step lowers [pool_work], so a history has
      at most two steps per request; a thread with a request left can
      step, whatever the others do, and from every reachable state of the
      pool some schedule finishes every thread.
    - [ProbeTree]: whatever package [net] answers, and however its answers
      change between two calls, a run of probes ends, makes one dial per
      [LookupPort] and one resolver call per [LookupAddr], dials TCP with
      two seconds, and closes a connection before its next call, provided
      a dial does not return a connection with an error; when a dial
      always returns one of the two, no probe panics.  The error of the
      deferred [Close] is dropped ([env_once_run]).
    - [Replay]: the trace accounts for the state: after every run,
      sequential or concurrent, replaying the calls made gives the open
      connections and the next connection number; connection numbers are
      handed out in order; no connection is closed twice; when every
      thread is between two calls the connections closed are those
      dialed.
    - [Adaptive]: the invariant of the pool is split into what depends on
      the answers of the network ([thread_ok]) and what does not
      ([thread_shape], [Inv_of]).  For every network that depends on the
      past and every schedule: no connection leaks, a schedule has two
      steps per request at most, a thread that is not finished can step,
      and the trace replays to the state.  That concurrent calls are
      answered as sequential calls does need a network that answers every
      question the same way: [busy_answers] shows an answer that depends
      on the schedule.
    - [Scheduler]: under every scheduler that does not idle and against
      every network, the pool comes to rest within two steps per request
      with the open connections those of the start; when the network
      answers every question the same way, every request is answered as
      when served alone; [lowest] and [round_robin] do not idle.
    - [Parallel]: threads do not wait for one another: against every
      network and after every schedule the clock of a thread and the time
      its remaining requests need add up to the time of its requests
      served alone, so a thread is blocked for its own requests only, and
      a pool whose threads make [k] requests each, none a reverse lookup,
      has taken [2 k] seconds at most, however many threads it has.
    - [Interleave]: against every network and after every schedule the
      trace of the pool is the tagged trace without its tags, and the
      calls of each thread, taken alone, follow the protocol of file
      [Probe]: what a dial returned to the thread is closed by the next
      call of that thread.  The trace of the pool as a whole does not
      follow it ([busy_interleaved]).
    - [Linearize]: against every network and after every schedule, the
      replies of a thread are those to the first of its requests, in
      order, and each is the reply of the sequential reference against
      the network of one moment of the run; [LookupPort] takes effect at
      its dial.  With a network that does not change this is the
      equivalence with sequential calls of file [Concurrent].
    - [Confluence]: every run keeps the account: the connection numbers
      handed out are the connections the threads have made, the length of
      the schedule is the steps they have taken.  With a network that
      answers every question the same way, all schedules that finish the
      threads end in the same pool, with the same connections open and
      made, after the same number of steps; their traces may differ
      ([sample_schedules_agree]).
    - [Solo]: the two models of the probes agree: a pool of one thread
      has one schedule that finishes it, and it ends in the world,
      trace included, in which the sequential run [exec] of the same
      calls ends, with the same outcomes.
    - [System]: the composition: on a file system that keeps the
      library's contract, a run of the process has opened the named
      databases and no other file, every reply is a return that keeps the
      contract of the reader, and no connection is left open at rest,
      against every network and under every schedule; when [Open] fails
      the run ends with the error of the first database that fails and
      serves nothing.

    ** Bounds and fuel

    Go's [uint] is taken at 64 bits ([uint_ok]); [float64] values are
    [spec_float] with precision 53 and maximal exponent 1024; the words of
    an address are below 2^64 ([Addr_ok]); [big.Int] is [Z].  Two groups of
    definitions use fuel.  [trim_loop], the loop of [strings.TrimRight],
    drops one byte per turn; [TrimRight] gives it the length of the string,
    and [trim_loop_ref] shows that any fuel of at least the length gives
    the result of the structural reference [trim_ref].  The loops of
    [appendTo6] over the groups of an IPv6 address ([zero_run],
    [longest_run], [groups]) run on fuel 8: an address has eight groups
    and every turn moves to a later group.  Every other loop is over a
    finite list.  A history of the thread pool needs no fuel: [run_sched]
    follows a schedule, which is a finite list, and [pool_work] bounds the
    length of every history by twice the number of requests (a
    [LookupPort] takes two steps, every other request one).
    [run_scheduler] runs the pool on fuel, one unit per step, because a
    scheduler is an arbitrary function; [scheduler_completes] shows that
    twice the number of requests is enough fuel for every scheduler that
    does not idle, and that the pool is then at rest, not out of fuel.
    [system] runs a schedule, a finite list, and needs no fuel.
    The interaction trees of [ProbeTree] are finite: their runs are shown
    to end in a value ([probes_interp], [probes_any_environment]), not
    only to be right if they end.

    ** Not modelled

    The contents and file format of the databases, DNS and TCP themselves.
    Time is modelled as far as [net.DialTimeout] promises it (a dial takes
    the latency of the peer or the timeout, whichever is shorter; closing
    takes no time; a geo lookup and the code between two calls take no
    time).  In a pool the clocks of the threads are independent: threads
    that are blocked wait side by side, which is what the runtime does
    with goroutines blocked in package [net]; contention for processors
    is not modelled.  The reader [ParseAddr] reads what
    [String] writes and is not the parser of the standard library, which
    accepts more texts.  Of concurrency, the
    scheduler is any function that picks the next thread, with the steps
    above as the grain of interleaving; Go's memory model is not modelled.
    An environment of [ProbeTree] sees the answers it has given; a
    network of [Adaptive] sees the world, that is the calls made and the
    connections open, so it is a function of the past and cannot answer
    two calls made in the same world in two ways.  The process of
    [System] is the control flow the specification describes; the HTTP
    server that is the caller, what it does with the replies, and requests
    that arrive while the pool runs (the requests of a thread are given at
    its start) are not modelled.
    A [geoip] is immutable after [Open] and the lookups are functions of
    the handle and the address, so calls from several goroutines cannot
    interfere in the model; that the library's handles are safe for
    concurrent use is assumed, as the specification says.  Closing of the
    databases is not modelled because the code has no such operation: a
    [geoip] has no [Close], and the files [Open] has opened stay open
    ([Open_failure_leaves_open] shows it for the failing call). *)

From Stdlib Require Import ZArith String List Lia.
From stdpp Require Import base tactics decidable option list strings numbers.

Declare Scope go_scope.
Delimit Scope go_scope with go.
#[global] Open Scope go_scope.

(** ** Errors *)

(** A Go [error] is an interface with one method, [Error() string]; a value
    of it is modelled by its message.  The nil error is [None]. *)
Record error := Err { Error : string }.

#[export] Instance error_eq_dec : EqDecision error.
Proof. solve_decision. Defined.

Notation "'nil'" := None (at level 0, only parsing) : go_scope.

(** [failed r] is Go's [err != nil] on the result of a call. *)
Definition failed {T : Type} (r : T * option error) : bool :=
  match r.2 with Some _ => true | None => false end.

(** ** Zero values *)

(** Every Go type has a zero value, which a declaration without initialiser
    (or a composite literal [T{}]) yields. *)
Class Zero (T : Type) := zero : T.
#[global] Hint Mode Zero ! : typeclass_instances.

#[export] Instance string_zero : Zero string := ""%string.
#[export] Instance Z_zero : Zero Z := 0%Z.
#[export] Instance bool_zero : Zero bool := false.
#[export] Instance option_zero {T : Type} : Zero (option T) := None.
#[export] Instance list_zero {T : Type} : Zero (list T) := [].

(** ** Machine integers *)

(** Go's [uint] on a 64-bit platform. *)
Definition uint_bits : Z := 64.
Definition uint_ok (n : Z) : Prop := (0 ≤ n < 2 ^ uint_bits)%Z.

#[export] Instance uint_ok_dec n : Decision (uint_ok n).
Proof. unfold uint_ok. apply _. Defined.

(** ** Execution with panics *)

Inductive panic := NilDereference | IndexOutOfRange.

Inductive run (T : Type) : Type :=
| Normal (v : T)
| Panic (p : panic).
Arguments Normal {T} v.
Arguments Panic {T} p.

#[export] Instance panic_eq_dec : EqDecision panic.
Proof. solve_decision. Defined.

#[export] Instance run_ret : MRet run := @Normal.
#[export] Instance run_bind : MBind run := λ A B f m,
  match m with Normal v => f v | Panic p => Panic p end.
#[export] Instance run_fmap : FMap run := λ A B f m,
  match m with Normal v => Normal (f v) | Panic p => Panic p end.

(** [*p] for a pointer that may be nil. *)
Definition deref {T : Type} (p : option T) : run T :=
  match p with Some v => Normal v | None => Panic NilDereference end.

(** [s[i]] for a slice. *)
Definition index {T : Type} (s : list T) (i : nat) : run T :=
  match s !! i with Some v => Normal v | None => Panic IndexOutOfRange end.

(** [panics r] holds when the execution did not return. *)
Definition panics {T : Type} (r : run T) : bool :=
  match r with Normal _ => false | Panic _ => true end.

(** ** Calls in a process with state, and early return on error *)

(** A call that reads and changes the state [S] of the process. *)
Definition stateful (S A : Type) : Type := S → A * S.

(** A body of statements that either runs to its end with a value or stops
    at the first error. *)
Definition fallible (S A : Type) : Type := S → (error + A) * S.

#[export] Instance fallible_ret {S : Type} : MRet (fallible S) :=
  λ A v s, (inr v, s).
#[export] Instance fallible_bind {S : Type} : MBind (fallible S) :=
  λ A B f m s,
    match m s with
    | (inr v, s') => f v s'
    | (inl e, s') => (inl e, s')
    end.

(** [r, err := call(); if err != nil { return zero, err }]: the value of the
    call when it reports no error, the end of the body otherwise. *)
Definition try {S T : Type} (call : stateful S (T * option error)) :
    fallible S T :=
  λ s, match call s with
       | ((_, Some e), s') => (inl e, s')
       | ((v, None), s') => (inr v, s')
       end.

(** A function body whose error exits are [return zero, err] and whose last
    statement is [return v, nil]. *)
Definition or_return {S T : Type} `{!Zero T} (body : fallible S T) :
    stateful S (T * option error) :=
  λ s, match body s with
       | (inr v, s') => ((v, None), s')
       | (inl e, s') => ((zero, Some e), s')
       end.

(** ** Guarded assignment *)

(** [if cond { x.f = v }]: the update [f] is applied when [cond] holds. *)
Definition when {T : Type} (cond : bool) (f : T → T) (x : T) : T :=
  if cond then f x else x.

(** Go's [s != ""]. *)
Definition nonempty (s : string) : bool := bool_decide (s ≠ ""%string).

(** Go's [s == ""]. *)
Definition isempty (s : string) : bool := bool_decide (s = ""%string).

(** Go's [p == nil] for a pointer. *)
Definition is_nil {T : Type} (p : option T) : bool :=
  match p with None => true | Some _ => false end.

(** Go's [a && b], where evaluating [b] may panic: [b] is evaluated only
    when [a] holds. *)
Definition and_then (a : bool) (b : run bool) : run bool :=
  if a then b else Normal false.

(** ** Automation *)

Create HintDb go discriminated.
Create Rewrite HintDb go.

(** [go_cases] splits on every test the model inherits from the code:
    boolean guards, [nonempty] tests, matches on options and on [run]. *)
Ltac go_cases :=
  repeat first
    [ progress simplify_eq/=
    | case_bool_decide
    | case_match ].

(** [go_crush] unfolds the combinators of this file, splits the cases and
    closes what is left with the [go] database. *)
Ltac go_crush :=
  unfold when, nonempty, isempty, is_nil, and_then, failed, or_return, try,
    mbind, mret, fallible_bind, fallible_ret, run_bind, run_ret in *;
  go_cases;
  try done; eauto with go.

(** ** Shared lemmas *)

Lemma nonempty_true (s : string) : nonempty s = true ↔ s ≠ ""%string.
Proof. unfold nonempty. by rewrite bool_decide_eq_true. Qed.

Lemma nonempty_false (s : string) : nonempty s = false ↔ s = ""%string.
Proof.
  unfold nonempty. rewrite bool_decide_eq_false.
  destruct (decide (s = ""%string)); naive_solver.
Qed.

Lemma nonempty_empty : nonempty "" = false.
Proof. done. Qed.

Lemma isempty_negb (s : string) : isempty s = negb (nonempty s).
Proof. unfold isempty, nonempty. by repeat case_bool_decide. Qed.

(** [if s != "" { x = s }] on a variable that holds the empty string is
    plain assignment. *)
Lemma when_nonempty_id (s : string) :
  when (nonempty s) (λ _, s) ""%string = s.
Proof.
  unfold when, nonempty. case_bool_decide as Hs; [done|].
  by destruct (decide (s = ""%string)).
Qed.

Lemma is_nil_true {T : Type} (p : option T) : is_nil p = true ↔ p = None.
Proof. by destruct p. Qed.

Lemma is_nil_false {T : Type} (p : option T) : is_nil p = false ↔ is_Some p.
Proof.
  destruct p as [v|]; simpl; split; done.
Qed.

Lemma when_true {T : Type} (f : T → T) (x : T) : when true f x = f x.
Proof. done. Qed.

Lemma when_false {T : Type} (f : T → T) (x : T) : when false f x = x.
Proof. done. Qed.

Lemma deref_Some {T : Type} (v : T) : deref (Some v) = Normal v.
Proof. done. Qed.

Lemma deref_Normal {T : Type} (p : option T) (v : T) :
  deref p = Normal v ↔ p = Some v.
Proof. destruct p; naive_solver. Qed.

Lemma index_Normal {T : Type} (s : list T) (i : nat) (v : T) :
  index s i = Normal v ↔ s !! i = Some v.
Proof. unfold index. destruct (s !! i); naive_solver. Qed.

Lemma index_lt {T : Type} (s : list T) (i : nat) :
  i < length s → panics (index s i) = false.
Proof.
  intros [v Hv]%lookup_lt_is_Some_2. unfold index. by rewrite Hv.
Qed.

Lemma fallible_bind_eq {S A B : Type} (m : fallible S A)
    (f : A → fallible S B) (s : S) :
  (m ≫= f) s =
    match m s with
    | (inr v, s') => f v s'
    | (inl e, s') => (inl e, s')
    end.
Proof. done. Qed.

Lemma run_bind_Normal {A B : Type} (f : A → run B) (m : run A) (b : B) :
  m ≫= f = Normal b ↔ ∃ a, m = Normal a ∧ f a = Normal b.
Proof.
  destruct m as [a|p]; simpl; split; try done.
  - intros Hf. by exists a.
  - by intros (a' & [= <-] & Hf).
  - by intros (a' & [=] & _).
Qed.

Lemma run_bind_panics {A B : Type} (f : A → run B) (m : run A) :
  panics (m ≫= f) = false ↔
  ∃ a, m = Normal a ∧ panics (f a) = false.
Proof.
  destruct m as [a|p]; simpl; split; try done.
  - intros Hf. by exists a.
  - by intros (a' & [= <-] & Hf).
  - by intros (a' & [=] & _).
Qed.

#[export] Hint Rewrite @when_true @when_false @deref_Some nonempty_empty : go.
#[export] Hint Resolve index_lt : go.

(** ** Lists *)

(** Replacing one element of a list changes a sum by the difference. *)
Lemma sum_list_with_insert {A : Type} (f : A → nat) (l : list A) (i : nat)
    (x y : A) :
  l !! i = Some x →
  (sum_list_with f (<[i:=y]> l) + f x = sum_list_with f l + f y)%nat.
Proof.
  revert i. induction l as [|a l IH]; intros [|i]; simpl; try done.
  - intros [= ->]. lia.
  - intros Hi. specialize (IH i Hi). lia.
Qed.

(** A sum bounds the number of its positive terms. *)
Lemma sum_list_with_pos {A : Type} (f : A → nat) (l : list A) :
  sum_list_with f l = 0%nat → Forall (λ x, f x = 0%nat) l.
Proof.
  induction l as [|a l IH]; simpl; [constructor|].
  intros H. constructor; [lia|apply IH; lia].
Qed.

(** ** Strings *)

Lemma string_app_assoc (a b c : string) :
  ((a +:+ b) +:+ c = a +:+ (b +:+ c))%string.
Proof.
  induction a as [|x a IH]; [done|].
  change (String x ((a +:+ b) +:+ c) = String x (a +:+ (b +:+ c)))%string.
  by rewrite IH.
Qed.

Lemma string_app_nil_r (a : string) : (a +:+ "" = a)%string.
Proof.
  induction a as [|x a IH]; [done|].
  change (String x (a +:+ "") = String x a)%string. by rewrite IH.
Qed.

Lemma string_app_length (a b : string) :
  String.length (a +:+ b) = (String.length a + String.length b)%nat.
Proof.
  induction a as [|x a IH]; [done|].
  change (S (String.length (a +:+ b)) = S (String.length a + String.length b)).
  by rewrite IH.
Qed.

#[export] Hint Rewrite string_app_assoc string_app_nil_r : go.
