(* ===== verification/Float64.v ===== *)
(** * Float64: Go's [float64]

    A [float64] is an IEEE 754 binary64 value.  It is modelled by the
    Standard Library's [spec_float] (zeros, infinities, one NaN, finite
    values as sign, mantissa and exponent), which computes and needs no
    axiom.  [float64_ok] is the format's bound on finite values (precision
    53, maximal exponent 1024).  [IsNaN] is [math.IsNaN], defined as Go
    defines it: [f != f]. *)

From Stdlib Require Import ZArith Floats.SpecFloat.
From stdpp Require Import base tactics decidable.
From S2P Require Import Prelude.

Module float64.

Definition t : Set := spec_float.

Definition prec : Z := 53.
Definition emax : Z := 1024.

(** The finite values of the format; zeros, infinities and NaN always are. *)
Definition ok (f : t) : bool := valid_binary prec emax f.

(** Go's [==] on [float64]: IEEE comparison, under which NaN differs from
    everything and the two zeros are equal. *)
Definition eqb (f g : t) : bool := SFeqb f g.

(** [math.IsNaN]: [return f != f]. *)
Definition IsNaN (f : t) : bool := negb (eqb f f).

(** A literal for tests: [of_Z n] is the float of a small integer. *)
Definition of_Z (n : Z) : t := binary_normalize prec emax n 0 false.

End float64.

#[export] Instance float64_eq_dec : EqDecision float64.t.
Proof. solve_decision. Defined.

(** The zero value of [float64] is positive zero. *)
#[export] Instance float64_zero : Zero float64.t := S754_zero false.

(** ** Lemmas *)

Lemma SFcompare_refl (f : spec_float) :
  f ≠ S754_nan → SFcompare f f = Some Eq.
Proof.
  destruct f as [s|s| |s m e]; simpl; try done.
  - by destruct s.
  - intros _. rewrite Z.compare_refl.
    assert (PosDef.Pos.compare_cont Eq m m = Eq) as ->
      by apply Pos.compare_cont_refl.
    by destruct s.
Qed.

Lemma IsNaN_iff (f : float64.t) : float64.IsNaN f = true ↔ f = S754_nan.
Proof.
  unfold float64.IsNaN, float64.eqb, SFeqb. split.
  - destruct (decide (f = S754_nan)) as [|Hf]; [done|].
    by rewrite (SFcompare_refl f Hf).
  - by intros ->.
Qed.

Lemma IsNaN_false_iff (f : float64.t) :
  float64.IsNaN f = false ↔ f ≠ S754_nan.
Proof.
  rewrite <- IsNaN_iff. destruct (float64.IsNaN f); naive_solver.
Qed.

Lemma IsNaN_zero : float64.IsNaN zero = false.
Proof. done. Qed.

Lemma zero_ok : float64.ok zero = true.
Proof. done. Qed.

#[export] Hint Rewrite IsNaN_zero : go.
