(* ===== verification/Bytes.v ===== *)
(** * Bytes: byte slices as numbers

    [iputil.ToDecimal] hands the bytes of an address to [big.Int.SetBytes],
    which reads a slice as a big-endian unsigned integer.  This file gives
    that reading ([SetBytes], a left-to-right Horner loop), the positional
    sum it computes ([be_sum], the reference), the encoder the address type
    uses to produce the bytes ([BEPut], [byteorder.BEPutUint32] and
    [BEPutUint64] at 4 and 8 bytes), and the facts that relate them: bounds,
    both round trips, injectivity at equal length. *)

From Stdlib Require Import ZArith List Lia.
From stdpp Require Import base tactics list numbers.
From S2P Require Import Prelude.

#[local] Open Scope Z_scope.

Abbreviation byte := Init.Byte.byte.

(** ** Bytes *)

(** The value of a byte, between 0 and 255. *)
Definition byte_to_Z (b : byte) : Z := Z.of_N (Byte.to_N b).

(** Go's conversion [byte(v)]: the low eight bits. *)
Definition byte_of_Z (v : Z) : byte :=
  default Byte.x00 (Byte.of_N (Z.to_N (v mod 256))).

(** ** Big-endian decoding and encoding *)

(** [big.Int.SetBytes]: the bytes of [buf], most significant first. *)
Definition SetBytes (buf : list byte) : Z :=
  fold_left (λ acc b, acc * 256 + byte_to_Z b) buf 0.

(** The number a big-endian byte string denotes, position by position. *)
Fixpoint be_sum (buf : list byte) : Z :=
  match buf with
  | [] => 0
  | b :: rest => byte_to_Z b * 256 ^ Z.of_nat (length rest) + be_sum rest
  end.

(** [BEPut n v]: the [n] low bytes of [v], most significant first.  Byte
    [i] is [byte(v >> (8 * (n - 1 - i)))], as [BEPutUint32] and
    [BEPutUint64] write it. *)
Fixpoint BEPut (n : nat) (v : Z) : list byte :=
  match n with
  | O => []
  | S m => byte_of_Z (Z.shiftr v (8 * Z.of_nat m)) :: BEPut m v
  end.

(** ** Bytes are numbers below 256 *)

Lemma byte_to_Z_range (b : byte) : 0 ≤ byte_to_Z b < 256.
Proof.
  unfold byte_to_Z. pose proof (Byte.to_N_bounded b). lia.
Qed.

Lemma byte_to_of_Z (v : Z) : byte_to_Z (byte_of_Z v) = v mod 256.
Proof.
  unfold byte_to_Z, byte_of_Z.
  pose proof (Z.mod_pos_bound v 256 eq_refl) as Hv.
  destruct (Byte.of_N (Z.to_N (v mod 256))) as [b|] eqn:Hb; simpl.
  - apply Byte.to_of_N in Hb. lia.
  - apply Byte.of_N_None_iff in Hb. lia.
Qed.

Lemma byte_to_Z_inj (a b : byte) : byte_to_Z a = byte_to_Z b → a = b.
Proof.
  unfold byte_to_Z. intros H%N2Z.inj.
  pose proof (Byte.of_to_N a) as Ha. pose proof (Byte.of_to_N b) as Hb.
  congruence.
Qed.

Lemma byte_of_to_Z (b : byte) : byte_of_Z (byte_to_Z b) = b.
Proof.
  apply byte_to_Z_inj. rewrite byte_to_of_Z.
  apply Z.mod_small, byte_to_Z_range.
Qed.

(** ** The Horner loop computes the positional sum *)

Lemma SetBytes_fold (buf : list byte) (acc : Z) :
  fold_left (λ acc b, acc * 256 + byte_to_Z b) buf acc
  = acc * 256 ^ Z.of_nat (length buf) + be_sum buf.
Proof.
  revert acc. induction buf as [|b rest IH]; intros acc; simpl fold_left.
  - simpl. lia.
  - rewrite IH. cbn [be_sum length].
    rewrite Nat2Z.inj_succ, Z.pow_succ_r by lia. lia.
Qed.

Lemma SetBytes_be_sum (buf : list byte) : SetBytes buf = be_sum buf.
Proof. unfold SetBytes. rewrite SetBytes_fold. lia. Qed.

Lemma SetBytes_nil : SetBytes [] = 0.
Proof. done. Qed.

Lemma SetBytes_cons (b : byte) (rest : list byte) :
  SetBytes (b :: rest)
  = byte_to_Z b * 256 ^ Z.of_nat (length rest) + SetBytes rest.
Proof. by rewrite !SetBytes_be_sum. Qed.

Lemma SetBytes_app (xs ys : list byte) :
  SetBytes (xs ++ ys)
  = SetBytes xs * 256 ^ Z.of_nat (length ys) + SetBytes ys.
Proof.
  unfold SetBytes at 1. rewrite fold_left_app.
  fold (SetBytes xs). by rewrite SetBytes_fold, <- SetBytes_be_sum.
Qed.

Lemma SetBytes_range (buf : list byte) :
  0 ≤ SetBytes buf < 256 ^ Z.of_nat (length buf).
Proof.
  induction buf as [|b rest IH]; [done|].
  rewrite SetBytes_cons. cbn [length].
  rewrite Nat2Z.inj_succ, Z.pow_succ_r by lia.
  pose proof (byte_to_Z_range b). nia.
Qed.

(** ** Encoding *)

Lemma BEPut_length (n : nat) (v : Z) : length (BEPut n v) = n.
Proof. induction n; simpl; auto. Qed.

(** Decoding what [BEPut] wrote gives the low [n] bytes of the number. *)
Lemma SetBytes_BEPut (n : nat) (v : Z) :
  SetBytes (BEPut n v) = v mod 256 ^ Z.of_nat n.
Proof.
  induction n as [|m IH]; cbn [BEPut].
  - simpl. by rewrite Z.mod_1_r.
  - rewrite SetBytes_cons, IH, BEPut_length, byte_to_of_Z.
    rewrite Z.shiftr_div_pow2 by lia.
    replace (2 ^ (8 * Z.of_nat m)) with (256 ^ Z.of_nat m)
      by (rewrite Z.pow_mul_r by lia; done).
    rewrite Nat2Z.inj_succ, Z.pow_succ_r by lia.
    rewrite (Z.mul_comm 256), Z.rem_mul_r by lia. lia.
Qed.

Lemma SetBytes_BEPut_small (n : nat) (v : Z) :
  0 ≤ v < 256 ^ Z.of_nat n → SetBytes (BEPut n v) = v.
Proof. intros Hv. rewrite SetBytes_BEPut. by apply Z.mod_small. Qed.

(** Two slices of one length that denote the same number are equal. *)
Lemma SetBytes_inj (xs ys : list byte) :
  length xs = length ys → SetBytes xs = SetBytes ys → xs = ys.
Proof.
  revert ys. induction xs as [|x xs IH]; intros [|y ys] Hlen; try done.
  rewrite !SetBytes_cons. injection Hlen as Hlen. rewrite <- Hlen.
  pose proof (SetBytes_range xs) as Hx.
  pose proof (SetBytes_range ys) as Hy. rewrite <- Hlen in Hy.
  pose proof (byte_to_Z_range x). pose proof (byte_to_Z_range y).
  intros Heq.
  assert (byte_to_Z x = byte_to_Z y) as Hb by nia.
  rewrite Hb in Heq.
  f_equal; [by apply byte_to_Z_inj | apply IH; [done | lia]].
Qed.

(** Encoding what [SetBytes] read gives the bytes back. *)
Lemma BEPut_SetBytes (buf : list byte) :
  BEPut (length buf) (SetBytes buf) = buf.
Proof.
  apply SetBytes_inj; [apply BEPut_length|].
  apply SetBytes_BEPut_small, SetBytes_range.
Qed.

(** [BEPut] reads only the low [n] bytes of its argument. *)
Lemma BEPut_mod (n : nat) (v : Z) :
  BEPut n (v mod 256 ^ Z.of_nat n) = BEPut n v.
Proof.
  apply SetBytes_inj; [by rewrite !BEPut_length|].
  rewrite !SetBytes_BEPut. apply Z.mod_mod. lia.
Qed.

(** On numbers that fit, [BEPut] is injective. *)
Lemma BEPut_inj (n : nat) (v w : Z) :
  0 ≤ v < 256 ^ Z.of_nat n → 0 ≤ w < 256 ^ Z.of_nat n →
  BEPut n v = BEPut n w → v = w.
Proof.
  intros Hv Hw Heq.
  rewrite <- (SetBytes_BEPut_small n v Hv), <- (SetBytes_BEPut_small n w Hw).
  by rewrite Heq.
Qed.

#[export] Hint Rewrite BEPut_length SetBytes_BEPut BEPut_SetBytes : go.
#[export] Hint Resolve SetBytes_range byte_to_Z_range : go.
