(* ===== verification/Netip.v ===== *)
(** * Netip: Go's [netip.Addr]

    An address is 128 bits, kept as two 64-bit halves, and a marker that
    says what the bits are: no address at all (the zero [Addr]), an IPv4
    address (the low 32 bits, under the prefix [::ffff:0:0/96]), or an IPv6
    address with or without a zone.  The constructors and [AsSlice] follow
    the standard library's own definitions; [Addr_ok] is the invariant they
    maintain.  The repository receives addresses already parsed and calls
    [AsSlice] (in [iputil.ToDecimal]) and [String] (in the probes).
    [same_bits] is equality of addresses up to the zone, the equivalence
    that [AsSlice] cannot tell apart. *)

From Stdlib Require Import ZArith List Lia.
From stdpp Require Import base tactics decidable list strings numbers.
From S2P Require Import Prelude Bytes.

#[local] Open Scope Z_scope.

(** ** Data *)

(** The marker [z] of an [Addr]. *)
Inductive zone :=
| z0                       (* the zero Addr: no address *)
| z4                       (* IPv4 *)
| z6noz                    (* IPv6 without zone *)
| z6zone (name : string).  (* IPv6 with a zone, as in [fe80::1%eth0] *)

Record Addr := mkAddr {
  Addr_hi : Z;     (* addr.hi, a uint64 *)
  Addr_lo : Z;     (* addr.lo, a uint64 *)
  Addr_z : zone
}.

#[export] Instance zone_eq_dec : EqDecision zone.
Proof. solve_decision. Defined.
#[export] Instance Addr_eq_dec : EqDecision Addr.
Proof. solve_decision. Defined.

(** The zero value [netip.Addr{}]. *)
#[export] Instance Addr_zero : Zero Addr := mkAddr 0 0 z0.

(** The prefix of an IPv4 address inside the 128 bits. *)
Definition v4_prefix : Z := 0xffff00000000.

(** ** Operations *)

Definition Is4 (ip : Addr) : bool := bool_decide (Addr_z ip = z4).

Definition Is6 (ip : Addr) : bool :=
  bool_decide (Addr_z ip ≠ z0) && bool_decide (Addr_z ip ≠ z4).

Definition IsValid (ip : Addr) : bool := bool_decide (Addr_z ip ≠ z0).

(** [netip.AddrFrom4]: the four bytes of an IPv4 address. *)
Definition AddrFrom4 (a b c d : byte) : Addr :=
  mkAddr 0
    (Z.lor v4_prefix
       (Z.lor (Z.shiftl (byte_to_Z a) 24)
          (Z.lor (Z.shiftl (byte_to_Z b) 16)
             (Z.lor (Z.shiftl (byte_to_Z c) 8) (byte_to_Z d)))))
    z4.

(** [netip.AddrFrom16]: the sixteen bytes of an IPv6 address. *)
Definition AddrFrom16 (bs : list byte) : Addr :=
  mkAddr (SetBytes (take 8 bs)) (SetBytes (drop 8 bs)) z6noz.

(** [Addr.WithZone]: only an IPv6 address carries a zone. *)
Definition WithZone (ip : Addr) (name : string) : Addr :=
  if negb (Is6 ip) then ip
  else if bool_decide (name = ""%string) then mkAddr (Addr_hi ip) (Addr_lo ip) z6noz
  else mkAddr (Addr_hi ip) (Addr_lo ip) (z6zone name).

(** [Addr.AsSlice]: no bytes for the zero [Addr], four for IPv4 (the low
    32 bits, [uint32(ip.addr.lo)]), sixteen otherwise. *)
Definition AsSlice (ip : Addr) : list byte :=
  match Addr_z ip with
  | z0 => []
  | z4 => BEPut 4 (Addr_lo ip mod 2 ^ 32)
  | _ => BEPut 8 (Addr_hi ip) ++ BEPut 8 (Addr_lo ip)
  end.

(** ** Invariant *)

(** What the constructors of the library guarantee: both halves are 64-bit
    numbers, the zero [Addr] has no bits set, an IPv4 address lives under
    the prefix, and a zone name is never empty. *)
Definition Addr_ok (ip : Addr) : Prop :=
  match Addr_z ip with
  | z0 => Addr_hi ip = 0 ∧ Addr_lo ip = 0
  | z4 => Addr_hi ip = 0 ∧ v4_prefix ≤ Addr_lo ip < v4_prefix + 2 ^ 32
  | z6noz => 0 ≤ Addr_hi ip < 2 ^ 64 ∧ 0 ≤ Addr_lo ip < 2 ^ 64
  | z6zone name =>
      0 ≤ Addr_hi ip < 2 ^ 64 ∧ 0 ≤ Addr_lo ip < 2 ^ 64 ∧ name ≠ ""%string
  end.

#[export] Instance Addr_ok_dec ip : Decision (Addr_ok ip).
Proof. unfold Addr_ok. destruct (Addr_z ip); apply _. Defined.

(** The 128-bit number an address carries. *)
Definition Addr_bits (ip : Addr) : Z := Addr_hi ip * 2 ^ 64 + Addr_lo ip.

(** [Addr.BitLen]: 0 for the zero [Addr], 32 for IPv4, 128 for IPv6. *)
Definition BitLen (ip : Addr) : Z :=
  match Addr_z ip with z0 => 0 | z4 => 32 | _ => 128 end.

(** Addresses of one family with the same bits: they differ in the zone
    at most. *)
Definition same_bits (ip ip' : Addr) : Prop :=
  BitLen ip = BitLen ip' ∧ Addr_hi ip = Addr_hi ip' ∧ Addr_lo ip = Addr_lo ip'.

#[export] Instance same_bits_dec ip ip' : Decision (same_bits ip ip').
Proof. unfold same_bits. apply _. Defined.

(** ** Lemmas *)

Lemma zero_Addr_ok : Addr_ok zero.
Proof. done. Qed.

Lemma land_shifted_small (a b n : Z) :
  0 ≤ n → 0 ≤ b < 2 ^ n → Z.land (a * 2 ^ n) b = 0.
Proof.
  intros Hn Hb.
  destruct (decide (b = 0)) as [->|Hb0]; [apply Z.land_0_r|].
  apply Z.bits_inj_0; intros i. rewrite Z.land_spec.
  destruct (decide (i < n)) as [Hi|Hi].
  - by rewrite Z.mul_pow2_bits_low by lia.
  - rewrite (Z.bits_above_log2 b); [by rewrite andb_false_r|lia|].
    apply Z.log2_lt_pow2; [lia|].
    pose proof (Z.pow_le_mono_r 2 n i). lia.
Qed.

(** Or-ing a shifted value with a smaller one is adding them: the way Go
    assembles a word from bytes. *)
Lemma lor_disjoint_add (a b n : Z) :
  0 ≤ n → 0 ≤ b < 2 ^ n → Z.lor (Z.shiftl a n) b = a * 2 ^ n + b.
Proof.
  intros Hn Hb. pose proof (land_shifted_small a b n Hn Hb) as Hl.
  rewrite Z.shiftl_mul_pow2 by done.
  by rewrite Z.add_nocarry_lxor, Z.lxor_lor.
Qed.

(** The low 32 bits of [AddrFrom4] are the four bytes, most significant
    first. *)
Lemma AddrFrom4_lo (a b c d : byte) :
  Addr_lo (AddrFrom4 a b c d) = v4_prefix + SetBytes [a; b; c; d].
Proof.
  pose proof (byte_to_Z_range a). pose proof (byte_to_Z_range b).
  pose proof (byte_to_Z_range c). pose proof (byte_to_Z_range d).
  rewrite SetBytes_be_sum. cbn [AddrFrom4 Addr_lo be_sum length].
  rewrite (lor_disjoint_add _ _ 8), (lor_disjoint_add _ _ 16),
    (lor_disjoint_add _ _ 24) by lia.
  change v4_prefix with (Z.shiftl 0xffff 32) at 1.
  rewrite lor_disjoint_add by lia.
  change (Z.of_nat 3) with 3. change (Z.of_nat 2) with 2.
  change (Z.of_nat 1) with 1. change (Z.of_nat 0) with 0.
  unfold v4_prefix. lia.
Qed.

Lemma AddrFrom4_ok (a b c d : byte) : Addr_ok (AddrFrom4 a b c d).
Proof.
  unfold Addr_ok. cbn [Addr_z AddrFrom4 Addr_hi]. split; [done|].
  fold (Addr_lo (AddrFrom4 a b c d)). rewrite AddrFrom4_lo.
  pose proof (SetBytes_range [a; b; c; d]) as H. cbn [length] in H. lia.
Qed.

Lemma AddrFrom16_ok (bs : list byte) :
  length bs = 16%nat → Addr_ok (AddrFrom16 bs).
Proof.
  intros Hlen. unfold Addr_ok; cbn.
  pose proof (SetBytes_range (take 8 bs)) as H1.
  pose proof (SetBytes_range (drop 8 bs)) as H2.
  rewrite length_take in H1. rewrite length_drop in H2.
  rewrite Hlen in H1, H2. split; [apply H1 | apply H2].
Qed.

Lemma WithZone_ok (ip : Addr) (name : string) :
  Addr_ok ip → Addr_ok (WithZone ip name).
Proof.
  unfold WithZone, Is6, Addr_ok.
  destruct ip as [hi lo []]; cbn;
    repeat (case_bool_decide; cbn); try done; tauto.
Qed.

Lemma AsSlice_length (ip : Addr) :
  length (AsSlice ip) =
  match Addr_z ip with z0 => 0 | z4 => 4 | _ => 16 end%nat.
Proof.
  unfold AsSlice.
  destruct (Addr_z ip); rewrite ?length_app, ?BEPut_length; done.
Qed.

(** [AddrFrom4] and [AsSlice] are inverse. *)
Lemma AsSlice_AddrFrom4 (a b c d : byte) :
  AsSlice (AddrFrom4 a b c d) = [a; b; c; d].
Proof.
  unfold AsSlice. cbn [Addr_z AddrFrom4].
  fold (Addr_lo (AddrFrom4 a b c d)). rewrite AddrFrom4_lo.
  pose proof (SetBytes_range [a; b; c; d]) as H. cbn [length] in H.
  replace ((v4_prefix + SetBytes [a; b; c; d]) mod 2 ^ 32)
    with (SetBytes [a; b; c; d]).
  - apply (BEPut_SetBytes [a; b; c; d]).
  - unfold v4_prefix.
    replace 0xffff00000000 with (0xffff * 2 ^ 32) by done.
    rewrite Z.add_comm, Z.mod_add by lia. symmetry. apply Z.mod_small. lia.
Qed.

(** [AddrFrom16] and [AsSlice] are inverse. *)
Lemma AsSlice_AddrFrom16 (bs : list byte) :
  length bs = 16%nat → AsSlice (AddrFrom16 bs) = bs.
Proof.
  intros Hlen. unfold AsSlice, AddrFrom16. cbn [Addr_z Addr_hi Addr_lo].
  pose proof (BEPut_SetBytes (take 8 bs)) as H1.
  pose proof (BEPut_SetBytes (drop 8 bs)) as H2.
  rewrite length_take, Hlen in H1. rewrite length_drop, Hlen in H2.
  transitivity (take 8 bs ++ drop 8 bs); [|apply take_drop].
  f_equal; [exact H1 | exact H2].
Qed.

(** ** The number the bytes of an address denote *)

Lemma SetBytes_AsSlice (ip : Addr) :
  SetBytes (AsSlice ip) =
    match Addr_z ip with
    | z0 => 0
    | z4 => Addr_lo ip mod 2 ^ 32
    | _ => (Addr_hi ip mod 2 ^ 64) * 2 ^ 64 + Addr_lo ip mod 2 ^ 64
    end.
Proof.
  unfold AsSlice. destruct (Addr_z ip); [done| | |].
  - rewrite SetBytes_BEPut. apply Z.mod_small, Z.mod_pos_bound. lia.
  - by rewrite SetBytes_app, !SetBytes_BEPut, BEPut_length.
  - by rewrite SetBytes_app, !SetBytes_BEPut, BEPut_length.
Qed.

(** Under the invariant nothing is cut off. *)
Lemma SetBytes_AsSlice_ok (ip : Addr) :
  Addr_ok ip →
  SetBytes (AsSlice ip) =
    match Addr_z ip with
    | z0 => 0
    | z4 => Addr_lo ip - v4_prefix
    | _ => Addr_bits ip
    end.
Proof.
  rewrite SetBytes_AsSlice. unfold Addr_ok, Addr_bits, v4_prefix.
  destruct (Addr_z ip); intros H; [done| | |].
  - replace (Addr_lo ip) with ((Addr_lo ip - 0xffff00000000) + 0xffff * 2 ^ 32)
      at 1 by lia.
    rewrite Z.mod_add by lia. apply Z.mod_small. lia.
  - by rewrite !Z.mod_small by lia.
  - by rewrite !Z.mod_small by lia.
Qed.

(** Two addresses with the same fields are equal. *)
Lemma Addr_ext (ip ip' : Addr) :
  Addr_hi ip = Addr_hi ip' → Addr_lo ip = Addr_lo ip' →
  Addr_z ip = Addr_z ip' → ip = ip'.
Proof. destruct ip, ip'. cbn. by intros -> -> ->. Qed.

(** ** Addresses up to the zone *)

#[export] Instance same_bits_equiv : Equivalence same_bits.
Proof.
  unfold same_bits. split.
  - by intros ip.
  - by intros ip ip' (-> & -> & ->).
  - by intros ip ip' ip'' (-> & -> & ->) (-> & -> & ->).
Qed.

(** The bytes of an address do not hold its zone. *)
#[export] Instance AsSlice_proper : Proper (same_bits ==> (=)) AsSlice.
Proof.
  intros ip ip' (Hlen & Hhi & Hlo). unfold AsSlice, BitLen in *.
  rewrite Hhi, Hlo. by destruct (Addr_z ip), (Addr_z ip').
Qed.

Lemma same_bits_WithZone (ip : Addr) (name : string) :
  same_bits ip (WithZone ip name).
Proof.
  unfold same_bits, WithZone, Is6, BitLen.
  destruct ip as [hi lo []]; cbn; by repeat case_bool_decide.
Qed.

(** Addresses with the same bits and the same zone are equal. *)
Lemma same_bits_eq (ip ip' : Addr) :
  same_bits ip ip' → Addr_z ip = Addr_z ip' → ip = ip'.
Proof. destruct ip, ip'. intros (_ & ? & ?) ?. simpl in *. congruence. Qed.

(** An address without a zone is determined by its family and its bits. *)
Lemma same_bits_no_zone (ip ip' : Addr) :
  same_bits ip ip' →
  (∀ name, Addr_z ip ≠ z6zone name) → (∀ name, Addr_z ip' ≠ z6zone name) →
  ip = ip'.
Proof.
  intros Hs Hz Hz'. apply same_bits_eq; [done|].
  destruct Hs as (Hlen & _). unfold BitLen in Hlen.
  destruct (Addr_z ip) eqn:E, (Addr_z ip') eqn:E'; try done.
  - by destruct (Hz' name).
  - by destruct (Hz name).
  - by destruct (Hz name).
Qed.

#[export] Hint Resolve zero_Addr_ok AddrFrom4_ok AddrFrom16_ok WithZone_ok : go.
#[export] Hint Rewrite AsSlice_AddrFrom4 : go.
