(* ===== verification/GoStrings.v ===== *)
(** * GoStrings: [strings.TrimRight]

    [iputil.LookupAddr] calls [strings.TrimRight(names[0], ".")].  A Go
    string is a sequence of bytes, here a [string] of [ascii].  [TrimRight]
    is the loop of the standard library for a cutset of ASCII characters:
    while the string is not empty and its last byte is in the cutset, drop
    the last byte.  The loop runs on fuel, the length of the string, which
    is enough because every turn shortens the string.  [trim_ref] is the
    same function by structural recursion; it is the reference the loop is
    proved equal to, and the properties are proved on it.  [trim_turn] is
    one turn of the loop as a relation, for its termination. *)

From Stdlib Require Import String Ascii List Arith Lia.
From stdpp Require Import base tactics decidable strings relations well_founded.
From S2P Require Import Prelude.

#[local] Open Scope string_scope.

(** ** The loop *)

(** [s[len(s)-1]], when [len(s) > 0]. *)
Fixpoint last_byte (s : string) : option ascii :=
  match s with
  | "" => None
  | String a "" => Some a
  | String _ rest => last_byte rest
  end.

(** [s[:len(s)-1]]. *)
Fixpoint drop_last (s : string) : string :=
  match s with
  | "" => ""
  | String _ "" => ""
  | String a rest => String a (drop_last rest)
  end.

(** Whether a byte occurs in the cutset. *)
Fixpoint in_cutset (a : ascii) (cutset : string) : bool :=
  match cutset with
  | "" => false
  | String c rest => bool_decide (a = c) || in_cutset a rest
  end.

(** [for len(s) > 0 && in(s[len(s)-1], cutset) { s = s[:len(s)-1] }], at
    most [fuel] turns. *)
Fixpoint trim_loop (fuel : nat) (s cutset : string) : string :=
  match fuel with
  | O => s
  | S fuel' =>
      match last_byte s with
      | Some a =>
          if in_cutset a cutset then trim_loop fuel' (drop_last s) cutset
          else s
      | None => s
      end
  end.

(** [strings.TrimRight(s, cutset)] for a cutset of ASCII characters. *)
Definition TrimRight (s cutset : string) : string :=
  trim_loop (String.length s) s cutset.

(** ** The reference *)

Fixpoint trim_ref (s cutset : string) : string :=
  match s with
  | "" => ""
  | String a rest =>
      match trim_ref rest cutset with
      | "" => if in_cutset a cutset then "" else String a ""
      | t => String a t
      end
  end.

(** Every byte of [s] is in the cutset. *)
Fixpoint all_in (s cutset : string) : bool :=
  match s with
  | "" => true
  | String a rest => in_cutset a cutset && all_in rest cutset
  end.

(** [s] ends with a byte of the cutset. *)
Definition ends_in (s cutset : string) : bool :=
  match last_byte s with
  | Some a => in_cutset a cutset
  | None => false
  end.

(** ** The loop as a relation *)

(** One turn of the loop: the last byte is in the cutset and is dropped. *)
Inductive trim_turn (cutset : string) : relation string :=
| trim_turn_drop s a :
    last_byte s = Some a → in_cutset a cutset = true →
    trim_turn cutset s (drop_last s).

(** ** Last byte and prefix *)

Lemma last_byte_cons (a : ascii) (s : string) :
  s ≠ "" → last_byte (String a s) = last_byte s.
Proof. by destruct s. Qed.

Lemma drop_last_cons (a : ascii) (s : string) :
  s ≠ "" → drop_last (String a s) = String a (drop_last s).
Proof. by destruct s. Qed.

Lemma last_byte_None (s : string) : last_byte s = None ↔ s = "".
Proof.
  induction s as [|a s IH]; [done|].
  destruct s as [|b s]; [done|]. rewrite last_byte_cons by done.
  rewrite IH. split; intros; discriminate.
Qed.

Lemma drop_last_length (s : string) :
  s ≠ "" → S (String.length (drop_last s)) = String.length s.
Proof.
  induction s as [|a s IH]; [done|]. intros _.
  destruct s as [|b s]; [done|].
  rewrite drop_last_cons by done. simpl in *. by rewrite IH.
Qed.

(** A string that is not empty is its prefix followed by its last byte. *)
Lemma drop_last_snoc (s : string) (a : ascii) :
  last_byte s = Some a → s = drop_last s ++ String a "".
Proof.
  induction s as [|b s IH]; [done|].
  destruct s as [|c s]; [by intros [= ->]|].
  rewrite last_byte_cons, drop_last_cons by done.
  intros H. rewrite (IH H) at 1. reflexivity.
Qed.

(** ** The reference on a string seen from its end *)

Lemma trim_ref_cons (a : ascii) (rest cutset : string) :
  trim_ref (String a rest) cutset =
    match trim_ref rest cutset with
    | "" => if in_cutset a cutset then "" else String a ""
    | t => String a t
    end.
Proof. done. Qed.

Lemma trim_ref_keep (s cutset : string) (a : ascii) :
  last_byte s = Some a → in_cutset a cutset = false → trim_ref s cutset = s.
Proof.
  induction s as [|b s IH]; [done|].
  destruct s as [|c s].
  - intros [= ->] Ha. simpl. by rewrite Ha.
  - rewrite last_byte_cons by done. intros Hl Ha.
    by rewrite trim_ref_cons, IH.
Qed.

Lemma trim_ref_drop (s cutset : string) (a : ascii) :
  last_byte s = Some a → in_cutset a cutset = true →
  trim_ref s cutset = trim_ref (drop_last s) cutset.
Proof.
  induction s as [|b s IH]; [done|].
  destruct s as [|c s].
  - intros [= ->] Ha. simpl. by rewrite Ha.
  - rewrite last_byte_cons, drop_last_cons by done. intros Hl Ha.
    by rewrite (trim_ref_cons b (String c s)),
      (trim_ref_cons b (drop_last (String c s))), IH.
Qed.

(** ** The loop computes the reference; the length is fuel enough *)

Lemma trim_loop_ref (fuel : nat) (s cutset : string) :
  (String.length s ≤ fuel)%nat →
  trim_loop fuel s cutset = trim_ref s cutset.
Proof.
  revert s. induction fuel as [|fuel IH]; intros s Hlen.
  - destruct s; [done|simpl in Hlen; lia].
  - cbn [trim_loop]. destruct (last_byte s) as [a|] eqn:Hl.
    + destruct (in_cutset a cutset) eqn:Ha.
      * assert (s ≠ "") as Hs by (intros ->; done).
        pose proof (drop_last_length s Hs).
        rewrite IH by lia. symmetry. by eapply trim_ref_drop.
      * symmetry. by eapply trim_ref_keep.
    + by apply last_byte_None in Hl as ->.
Qed.

Lemma TrimRight_ref (s cutset : string) : TrimRight s cutset = trim_ref s cutset.
Proof. by apply trim_loop_ref. Qed.

(** ** Properties of the result *)

(** The result is what is left of [s] when a run of cutset bytes is taken
    off its end. *)
Lemma trim_ref_split (s cutset : string) :
  ∃ tail, s = trim_ref s cutset ++ tail ∧ all_in tail cutset = true.
Proof.
  induction s as [|a s (tail & Hs & Ht)]; [by exists ""|].
  rewrite trim_ref_cons.
  destruct (trim_ref s cutset) as [|b t] eqn:Hr.
  - change (s = tail) in Hs. subst tail.
    destruct (in_cutset a cutset) eqn:Ha.
    + exists (String a s). split; [done|]. simpl. by rewrite Ha.
    + by exists s.
  - exists tail. split; [|done]. rewrite Hs at 1. reflexivity.
Qed.

(** The result does not end with a byte of the cutset. *)
Lemma trim_ref_ends (s cutset : string) :
  ends_in (trim_ref s cutset) cutset = false.
Proof.
  unfold ends_in. induction s as [|a s IH]; [done|]. rewrite trim_ref_cons.
  destruct (trim_ref s cutset) as [|b t] eqn:Hr.
  - destruct (in_cutset a cutset) eqn:Ha; simpl; by rewrite ?Ha.
  - by rewrite last_byte_cons.
Qed.

(** A string that does not end with a byte of the cutset is unchanged. *)
Lemma trim_ref_fixed (s cutset : string) :
  ends_in s cutset = false → trim_ref s cutset = s.
Proof.
  unfold ends_in. destruct (last_byte s) as [a|] eqn:Hl.
  - by apply trim_ref_keep.
  - by apply last_byte_None in Hl as ->.
Qed.

Lemma trim_ref_idem (s cutset : string) :
  trim_ref (trim_ref s cutset) cutset = trim_ref s cutset.
Proof. apply trim_ref_fixed, trim_ref_ends. Qed.

(** Appending a run of cutset bytes does not change the result. *)
Lemma trim_ref_app (s tail cutset : string) :
  all_in tail cutset = true →
  trim_ref (s ++ tail) cutset = trim_ref s cutset.
Proof.
  intros Ht. induction s as [|a s IH].
  - change ("" ++ tail) with tail.
    induction tail as [|b tail IHt]; [done|].
    simpl in Ht. apply andb_true_iff in Ht as [Hb Ht].
    by rewrite trim_ref_cons, IHt, Hb.
  - change (String a s ++ tail) with (String a (s ++ tail)).
    by rewrite !trim_ref_cons, IH.
Qed.

Lemma all_in_app (s t cutset : string) :
  all_in (s ++ t) cutset = all_in s cutset && all_in t cutset.
Proof.
  induction s as [|a s IH]; [done|].
  change (String a s ++ t) with (String a (s ++ t)). cbn [all_in].
  by rewrite IH, andb_assoc.
Qed.

(** A string of cutset bytes holds no other byte. *)
Lemma all_in_not_in (s cutset : string) (a : ascii) :
  all_in s cutset = true → in_cutset a cutset = false →
  in_cutset a s = false.
Proof.
  intros Hs Ha. induction s as [|b s IH]; [done|]. cbn in *.
  apply andb_true_iff in Hs as [Hb Hs]. rewrite (IH Hs), orb_false_r.
  apply bool_decide_eq_false. intros ->. congruence.
Qed.

(** A byte of a string of cutset bytes is a cutset byte. *)
Lemma all_in_elem (s cutset : string) (a : ascii) :
  all_in s cutset = true → in_cutset a s = true →
  in_cutset a cutset = true.
Proof.
  intros Hs Ha. destruct (in_cutset a cutset) eqn:Hc; [done|].
  by rewrite (all_in_not_in s cutset a) in Ha.
Qed.

Lemma in_cutset_app (a : ascii) (s t : string) :
  in_cutset a (s ++ t) = in_cutset a s || in_cutset a t.
Proof.
  induction s as [|b s IH]; [done|].
  change (String b s ++ t) with (String b (s ++ t)). cbn [in_cutset].
  by rewrite IH, orb_assoc.
Qed.

(** ** Termination *)

Lemma trim_turn_length (cutset s s' : string) :
  trim_turn cutset s s' → (String.length s' < String.length s)%nat.
Proof.
  intros Hstep. destruct Hstep as [s a Hl _].
  assert (s ≠ "") as Hs by (by intros ->).
  pose proof (drop_last_length s Hs). lia.
Qed.

Lemma trim_turn_nf (cutset s : string) :
  nf (trim_turn cutset) s ↔ ends_in s cutset = false.
Proof.
  unfold nf, red, ends_in. split.
  - intros Hnf. destruct (last_byte s) as [a|] eqn:Hl; [|done].
    destruct (in_cutset a cutset) eqn:Ha; [|done].
    destruct Hnf. eexists. by econstructor.
  - intros He [s' Hstep]. destruct Hstep as [s a Hl Ha].
    by rewrite Hl, Ha in He.
Qed.

(** The turns the loop makes. *)
Lemma trim_loop_turns (fuel : nat) (s cutset : string) :
  rtc (trim_turn cutset) s (trim_loop fuel s cutset).
Proof.
  revert s. induction fuel as [|fuel IH]; intros s; cbn [trim_loop]; [done|].
  destruct (last_byte s) as [a|] eqn:Hl; [|done].
  destruct (in_cutset a cutset) eqn:Ha; [|done].
  eapply rtc_l; [by econstructor|apply IH].
Qed.

(** C19: the loop of [TrimRight] terminates: no sequence of turns is
    infinite, and [TrimRight] returns the string at which the turns from
    [s] stop. *)
Theorem TrimRight_terminates (s cutset : string) :
  sn (trim_turn cutset) s ∧
  rtc (trim_turn cutset) s (TrimRight s cutset) ∧
  nf (trim_turn cutset) (TrimRight s cutset).
Proof.
  split_and!.
  - apply (wf_projected lt String.length); [|apply lt_wf].
    intros x y. apply trim_turn_length.
  - apply trim_loop_turns.
  - apply trim_turn_nf. rewrite TrimRight_ref. apply trim_ref_ends.
Qed.

(** The loop computes the reference: with fuel of at least the length
    of the string, and so in [TrimRight], the loop from the end of the
    string returns what the structural recursion from its start returns;
    more fuel changes nothing. *)
Theorem trim_loop_equiv (fuel : nat) (s cutset : string) :
  (String.length s ≤ fuel)%nat →
  trim_loop fuel s cutset = trim_ref s cutset ∧
  trim_loop fuel s cutset = TrimRight s cutset.
Proof.
  intros Hlen. by rewrite TrimRight_ref, trim_loop_ref.
Qed.

Lemma trim_loop_equiv_witness :
  trim_loop 20 "example.com.." "." = trim_ref "example.com.." "." ∧
  trim_loop 20 "example.com.." "." = TrimRight "example.com.." ".".
Proof. apply (trim_loop_equiv 20 "example.com.." "."). simpl. lia. Defined.

(** Fuel below the number of bytes to drop is not enough. *)
Example trim_loop_short : trim_loop 1 "example.com.." "." = "example.com.".
Proof. done. Qed.

#[export] Hint Rewrite TrimRight_ref trim_ref_idem : go.
