(* ===== verification/NetipString.v ===== *)
(** * NetipString: the text of an address

    [iputil.LookupAddr] passes [ip.String()] to the resolver and
    [iputil.LookupPort] formats the address with [%s], which calls the same
    method.  This file models [netip.Addr.String] as the standard library
    defines it: ["invalid IP"] for the zero [Addr], dotted decimal for
    IPv4, for IPv6 the eight groups in hexadecimal without leading zeros,
    the first longest run of two or more zero groups written as [::], an
    IPv4-mapped address as [::ffff:a.b.c.d], and the zone after a [%].
    The loops over the groups run on fuel 8, the number of groups. *)

From Stdlib Require Import ZArith String Ascii List Lia.
From stdpp Require Import base tactics decidable option list strings.
From S2P Require Import Prelude Bytes Netip GoStrings.

#[local] Open Scope Z_scope.

(** ** Digits *)

(** [const digits = "0123456789abcdef"]. *)
Definition digits : string := "0123456789abcdef".

(** [digits[x]]. *)
Definition digit (x : Z) : ascii :=
  default "0"%char (String.get (Z.to_nat x) digits).

(** [append(b, c)]. *)
Definition push (b : string) (c : ascii) : string := b +:+ String c "".

(** [appendDecimal(b, x)] for a [uint8]. *)
Definition appendDecimal (b : string) (x : Z) : string :=
  let b := if 100 <=? x then push b (digit (x / 100)) else b in
  let b := if 10 <=? x then push b (digit (x / 10 mod 10)) else b in
  push b (digit (x mod 10)).

(** [appendHex(b, x)] for a [uint16]. *)
Definition appendHex (b : string) (x : Z) : string :=
  let b := if 0x1000 <=? x then push b (digit (Z.shiftr x 12)) else b in
  let b :=
    if 0x100 <=? x then push b (digit (Z.land (Z.shiftr x 8) 0xf)) else b in
  let b :=
    if 0x10 <=? x then push b (digit (Z.land (Z.shiftr x 4) 0xf)) else b in
  push b (digit (Z.land x 0xf)).

(** What [appendDecimal] and [appendHex] append. *)
Definition dec (x : Z) : string := appendDecimal "" x.
Definition hex (x : Z) : string := appendHex "" x.

(** The decimal text of a byte. *)
Definition decimal (b : byte) : string := dec (byte_to_Z b).

(** ** Parts of an address *)

(** [ip.v4(i)]: byte [i] of an IPv4 address, [uint8(ip.addr.lo >> ((3-i)*8))]. *)
Definition v4 (ip : Addr) (i : Z) : Z :=
  Z.shiftr (Addr_lo ip) ((3 - i) * 8) mod 2 ^ 8.

(** [ip.v6u16(i)]: group [i] of an IPv6 address. *)
Definition v6u16 (ip : Addr) (i : Z) : Z :=
  let half := if (i / 4) mod 2 =? 0 then Addr_hi ip else Addr_lo ip in
  Z.shiftr half ((3 - i mod 4) * 16) mod 2 ^ 16.

(** [ip.Is4In6()]. *)
Definition Is4In6 (ip : Addr) : bool :=
  Is6 ip && (Addr_hi ip =? 0) && (Z.shiftr (Addr_lo ip) 32 =? 0xffff).

(** [ip.Unmap()]. *)
Definition Unmap (ip : Addr) : Addr :=
  if Is4In6 ip then mkAddr (Addr_hi ip) (Addr_lo ip) z4 else ip.

(** [ip.Zone()]. *)
Definition Zone (ip : Addr) : string :=
  match Addr_z ip with
  | z6zone name => name
  | _ => ""
  end.

(** [if ip.z != z6noz { ret = append(ret, '%'); ret = append(ret, zone...) }]. *)
Definition appendZone (ip : Addr) (ret : string) : string :=
  if bool_decide (Addr_z ip ≠ z6noz) then push ret "%" +:+ Zone ip else ret.

(** ** IPv4 *)

(** [ip.appendTo4(ret)]. *)
Definition appendTo4 (ip : Addr) (ret : string) : string :=
  let ret := appendDecimal ret (v4 ip 0) in
  let ret := push ret "." in
  let ret := appendDecimal ret (v4 ip 1) in
  let ret := push ret "." in
  let ret := appendDecimal ret (v4 ip 2) in
  let ret := push ret "." in
  let ret := appendDecimal ret (v4 ip 3) in
  ret.

(** [ip.appendTo4In6(ret)]. *)
Definition appendTo4In6 (ip : Addr) (ret : string) : string :=
  let ret := ret +:+ "::ffff:" in
  let ret := appendTo4 (Unmap ip) ret in
  appendZone ip ret.

(** ** IPv6 *)

(** [for j < 8 && ip.v6u16(j) == 0 { j++ }]: the end of the run of zero
    groups that starts at [j]. *)
Fixpoint zero_run (fuel : nat) (ip : Addr) (j : Z) : Z :=
  match fuel with
  | O => j
  | S fuel =>
      if (j <? 8) && (v6u16 ip j =? 0) then zero_run fuel ip (j + 1) else j
  end.

(** The first loop of [appendTo6]: the first longest run of at least two
    zero groups, as [(zeroStart, zeroEnd)]; both are 255 when there is
    none. *)
Fixpoint longest_run (fuel : nat) (ip : Addr) (i : Z) (zero : Z * Z) :
    Z * Z :=
  match fuel with
  | O => zero
  | S fuel =>
      if i <? 8 then
        let j := zero_run 8 ip i in
        let l := j - i in
        let zero :=
          if (2 <=? l) && (zero.2 - zero.1 <? l) then (i, j) else zero in
        longest_run fuel ip (i + 1) zero
      else zero
  end.

(** The second loop of [appendTo6]: the groups from [i] on. *)
Fixpoint groups (fuel : nat) (ip : Addr) (zero : Z * Z) (i : Z)
    (ret : string) : string :=
  match fuel with
  | O => ret
  | S fuel =>
      if i <? 8 then
        if i =? zero.1 then
          let ret := push (push ret ":") ":" in
          let i := zero.2 in
          if 8 <=? i then ret
          else groups fuel ip zero (i + 1) (appendHex ret (v6u16 ip i))
        else
          let ret := if 0 <? i then push ret ":" else ret in
          groups fuel ip zero (i + 1) (appendHex ret (v6u16 ip i))
      else ret
  end.

(** [ip.appendTo6(ret)]. *)
Definition appendTo6 (ip : Addr) (ret : string) : string :=
  let zero := longest_run 8 ip 0 (255, 255) in
  let ret := groups 8 ip zero 0 ret in
  appendZone ip ret.

(** ** [String] *)

(** [ip.String()]. *)
Definition Addr_String (ip : Addr) : string :=
  match Addr_z ip with
  | z0 => "invalid IP"
  | z4 => appendTo4 ip ""
  | _ => if Is4In6 ip then appendTo4In6 ip "" else appendTo6 ip ""
  end.

(** ** The bytes of a text *)

(** The bytes the text of an address without zone is made of. *)
Definition host_chars : string := "0123456789abcdef.:".

(** The digits with the dot of an IPv4 address, and with the colon of
    the groups of an IPv6 address. *)
Definition dot_chars : string := "0123456789abcdef.".
Definition colon_chars : string := "0123456789abcdef:".

(** ** Reading an IPv4 address *)

(** The reader of dotted decimal, after [parseIPv4] of the standard
    library: one pass over the bytes with the fields read so far, the value
    of the field being read and the number of its digits.  A field has at
    least one digit, no leading zero and a value of at most 255. *)
Record parse4_state := {
  p4_fields : list Z;
  p4_val : Z;
  p4_digLen : nat
}.

Definition digit_value (c : ascii) : option Z :=
  let n := Z.of_N (N_of_ascii c) in
  if (48 <=? n) && (n <=? 57) then Some (n - 48) else None.

Definition parse4_step (st : parse4_state) (c : ascii) :
    option parse4_state :=
  match digit_value c with
  | Some d =>
      if (p4_digLen st =? 1)%nat && (p4_val st =? 0) then None
      else
        let val := p4_val st * 10 + d in
        if 255 <? val then None
        else Some {| p4_fields := p4_fields st; p4_val := val;
                     p4_digLen := S (p4_digLen st) |}
  | None =>
      if bool_decide (c = "."%char) then
        if (p4_digLen st =? 0)%nat then None
        else if (length (p4_fields st) =? 3)%nat then None
        else Some {| p4_fields := p4_fields st ++ [p4_val st]; p4_val := 0;
                     p4_digLen := 0 |}
      else None
  end.

(** The digits of one field, from the value and the number of digits read
    so far. *)
Fixpoint read_field (s : string) (val : Z) (n : nat) : option (Z * nat) :=
  match s with
  | "" => Some (val, n)
  | String c s =>
      match digit_value c with
      | Some d =>
          if (n =? 1)%nat && (val =? 0) then None
          else
            let val := val * 10 + d in
            if 255 <? val then None else read_field s val (S n)
      | None => None
      end
  end.

Fixpoint parse4_run (s : string) (st : parse4_state) : option parse4_state :=
  match s with
  | "" => Some st
  | String c s => st ← parse4_step st c; parse4_run s st
  end.

Definition parseIPv4 (s : string) : option Addr :=
  st ← parse4_run s {| p4_fields := []; p4_val := 0; p4_digLen := 0 |};
  match p4_fields st with
  | [a; b; c] =>
      if (p4_digLen st =? 0)%nat then None
      else Some (AddrFrom4 (byte_of_Z a) (byte_of_Z b) (byte_of_Z c)
                   (byte_of_Z (p4_val st)))
  | _ => None
  end.

(** ** Sample addresses *)

Definition addr6 (hi lo : Z) : Addr := mkAddr hi lo z6noz.

(** The texts the standard library gives. *)
Example String_samples :
  Addr_String zero = "invalid IP" ∧
  Addr_String (AddrFrom4 Byte.xc0 Byte.x00 Byte.x02 Byte.x01) = "192.0.2.1" ∧
  Addr_String (AddrFrom4 Byte.x00 Byte.x00 Byte.x00 Byte.x00) = "0.0.0.0" ∧
  Addr_String (AddrFrom4 Byte.xff Byte.xff Byte.xff Byte.xff)
  = "255.255.255.255" ∧
  Addr_String (addr6 0 0) = "::" ∧
  Addr_String (addr6 0 1) = "::1" ∧
  Addr_String (addr6 0x20010db800000000 1) = "2001:db8::1" ∧
  Addr_String (addr6 0x20010db800000000 0x0001000000000001)
  = "2001:db8::1:0:0:1" ∧
  Addr_String (addr6 0x20010db800000001 0x0001000100010001)
  = "2001:db8:0:1:1:1:1:1" ∧
  Addr_String (addr6 0x0001000000000000 0) = "1::" ∧
  Addr_String (addr6 0xfe80000000000000 0xabcdef0123456789)
  = "fe80::abcd:ef01:2345:6789" ∧
  Addr_String (WithZone (addr6 0xfe80000000000000 1) "eth0") = "fe80::1%eth0" ∧
  Addr_String (addr6 0 0xffffc0000201) = "::ffff:192.0.2.1" ∧
  Addr_String (WithZone (addr6 0 0xffffc0000201) "eth0")
  = "::ffff:192.0.2.1%eth0".
Proof. by vm_compute. Qed.

(** ** Appending to a buffer *)

(** Every function of this file that takes the buffer [ret] appends to
    it. *)

Lemma app_push (a b : string) (c : ascii) :
  a +:+ push b c = push (a +:+ b) c.
Proof. unfold push. by rewrite string_app_assoc. Qed.

Lemma appendDecimal_dec (b : string) (x : Z) :
  appendDecimal b x = b +:+ dec x.
Proof.
  unfold dec, appendDecimal.
  repeat case_match; by rewrite ?app_push, ?string_app_nil_r.
Qed.

Lemma appendHex_hex (b : string) (x : Z) : appendHex b x = b +:+ hex x.
Proof.
  unfold hex, appendHex.
  repeat case_match; by rewrite ?app_push, ?string_app_nil_r.
Qed.

Lemma appendZone_app (ip : Addr) (ret : string) :
  appendZone ip ret = ret +:+ appendZone ip "".
Proof.
  unfold appendZone, push.
  case_bool_decide; by rewrite ?string_app_assoc, ?string_app_nil_r.
Qed.

Lemma appendTo4_eq (ip : Addr) (ret : string) :
  appendTo4 ip ret
  = ret +:+ dec (v4 ip 0) +:+ "." +:+ dec (v4 ip 1) +:+ "."
    +:+ dec (v4 ip 2) +:+ "." +:+ dec (v4 ip 3).
Proof.
  unfold appendTo4, push. by rewrite !appendDecimal_dec, !string_app_assoc.
Qed.

Lemma groups_app (fuel : nat) (ip : Addr) (zero : Z * Z) (i : Z)
    (ret : string) :
  groups fuel ip zero i ret = ret +:+ groups fuel ip zero i "".
Proof.
  destruct zero as [zs ze]. revert i ret.
  induction fuel as [|fuel IH]; intros i ret; cbn [groups fst snd].
  { by rewrite string_app_nil_r. }
  unfold push.
  repeat case_match; rewrite ?string_app_nil_r, ?string_app_assoc; try done;
    rewrite IH, (IH _ (appendHex _ _)), !appendHex_hex;
    by rewrite ?string_app_assoc.
Qed.

(** ** IPv4 *)

(** The digit [x] of a number in base 256, above [lo] and below [hi]. *)
Lemma digit_256 (hi x lo m : Z) :
  0 < m → 0 ≤ lo < m → 0 ≤ x < 256 →
  ((hi * 256 + x) * m + lo) / m mod 256 = x.
Proof.
  intros Hm Hlo Hx. rewrite Z.div_add_l, Z.div_small, Z.add_0_r by lia.
  rewrite Z.add_comm, Z.mod_add by lia. by apply Z.mod_small.
Qed.

Lemma v4_AddrFrom4 (a b c d : byte) :
  let ip := AddrFrom4 a b c d in
  v4 ip 0 = byte_to_Z a ∧ v4 ip 1 = byte_to_Z b ∧
  v4 ip 2 = byte_to_Z c ∧ v4 ip 3 = byte_to_Z d.
Proof.
  intros ip. unfold v4. subst ip. rewrite AddrFrom4_lo, SetBytes_be_sum.
  cbn [be_sum length]. rewrite !Z.shiftr_div_pow2 by lia.
  pose proof (byte_to_Z_range a) as Ha. pose proof (byte_to_Z_range b) as Hb.
  pose proof (byte_to_Z_range c) as Hc. pose proof (byte_to_Z_range d) as Hd.
  set (x := v4_prefix + _).
  assert (x = (0xffff * 256 + byte_to_Z a) * 2 ^ 24
              + (byte_to_Z b * 65536 + byte_to_Z c * 256 + byte_to_Z d)
          ∧ x = ((0xffff * 256 + byte_to_Z a) * 256 + byte_to_Z b) * 2 ^ 16
              + (byte_to_Z c * 256 + byte_to_Z d)
          ∧ x = ((0xffff * 65536 + byte_to_Z a * 256 + byte_to_Z b) * 256
                 + byte_to_Z c) * 2 ^ 8 + byte_to_Z d
          ∧ x = ((0xffff * 16777216 + byte_to_Z a * 65536 + byte_to_Z b * 256
                 + byte_to_Z c) * 256 + byte_to_Z d) * 2 ^ 0 + 0)
    as (H0 & H1 & H2 & H3).
  { subst x. unfold v4_prefix. change (Z.of_nat 3) with 3.
    change (Z.of_nat 2) with 2. change (Z.of_nat 1) with 1.
    change (Z.of_nat 0) with 0. lia. }
  split_and!.
  - rewrite H0 at 1. apply digit_256; lia.
  - rewrite H1 at 1. apply digit_256; lia.
  - rewrite H2 at 1. apply digit_256; lia.
  - rewrite H3 at 1. apply digit_256; lia.
Qed.

(** The text of an IPv4 address is its four bytes in decimal with dots
    between them. *)
Lemma Addr_String_AddrFrom4 (a b c d : byte) :
  Addr_String (AddrFrom4 a b c d)
  = decimal a +:+ "." +:+ decimal b +:+ "." +:+ decimal c +:+ "."
    +:+ decimal d.
Proof.
  destruct (v4_AddrFrom4 a b c d) as (Ha & Hb & Hc & Hd).
  unfold Addr_String. cbn [Addr_z AddrFrom4].
  fold (AddrFrom4 a b c d). by rewrite appendTo4_eq, Ha, Hb, Hc, Hd.
Qed.

(** ** Reading back what was written *)

Lemma decimal_length (b : byte) : (1 ≤ String.length (decimal b))%nat.
Proof. destruct b; vm_compute; lia. Qed.

(** The reader over the digits of a field. *)
Lemma parse4_run_field (s rest : string) (fields : list Z) (val : Z)
    (n : nat) (val' : Z) (n' : nat) :
  read_field s val n = Some (val', n') →
  parse4_run (s +:+ rest)
    {| p4_fields := fields; p4_val := val; p4_digLen := n |}
  = parse4_run rest
      {| p4_fields := fields; p4_val := val'; p4_digLen := n' |}.
Proof.
  revert val n. induction s as [|c s IH]; intros val n; cbn [read_field].
  { by intros [= -> ->]. }
  change (String c s +:+ rest) with (String c (s +:+ rest)).
  cbn [parse4_run]. unfold parse4_step. cbn [p4_val p4_digLen p4_fields].
  destruct (digit_value c) as [d|]; [|done].
  destruct ((n =? 1)%nat && (val =? 0)); [done|].
  destruct (255 <? val * 10 + d); [done|]. apply IH.
Qed.

Lemma read_field_decimal (b : byte) :
  read_field (decimal b) 0 0
  = Some (byte_to_Z b, String.length (decimal b)).
Proof. destruct b; by vm_compute. Qed.

(** The reader over the text of one byte. *)
Lemma parse4_run_decimal (b : byte) (fields : list Z) (rest : string) :
  parse4_run (decimal b +:+ rest)
    {| p4_fields := fields; p4_val := 0; p4_digLen := 0 |}
  = parse4_run rest
      {| p4_fields := fields; p4_val := byte_to_Z b;
         p4_digLen := String.length (decimal b) |}.
Proof. apply parse4_run_field, read_field_decimal. Qed.

(** The reader over a dot. *)
Lemma parse4_run_dot (fields : list Z) (val : Z) (n : nat) (rest : string) :
  (1 ≤ n)%nat → (length fields < 3)%nat →
  parse4_run ("." +:+ rest)
    {| p4_fields := fields; p4_val := val; p4_digLen := n |}
  = parse4_run rest
      {| p4_fields := fields ++ [val]; p4_val := 0; p4_digLen := 0 |}.
Proof.
  intros Hn Hf. change ("." +:+ rest) with (String "." rest).
  cbn [parse4_run]. unfold parse4_step. cbn.
  destruct n as [|n]; [lia|]. cbn.
  by destruct fields as [|? [|? [|? [|? ?]]]]; cbn in *; try lia.
Qed.

Lemma parseIPv4_AddrFrom4 (a b c d : byte) :
  parseIPv4 (Addr_String (AddrFrom4 a b c d)) = Some (AddrFrom4 a b c d).
Proof.
  rewrite Addr_String_AddrFrom4. unfold parseIPv4.
  rewrite parse4_run_decimal, parse4_run_dot
    by (apply decimal_length || (cbn; lia)).
  rewrite parse4_run_decimal, parse4_run_dot
    by (apply decimal_length || (cbn; lia)).
  rewrite parse4_run_decimal, parse4_run_dot
    by (apply decimal_length || (cbn; lia)).
  rewrite <- (string_app_nil_r (decimal d)), parse4_run_decimal.
  cbn. pose proof (decimal_length d).
  destruct (String.length (decimal d)); [lia|]. cbn.
  by rewrite !byte_of_to_Z.
Qed.

(** Every well-formed IPv4 address is made of four bytes. *)
Lemma IPv4_AddrFrom4 (ip : Addr) :
  Addr_ok ip → Is4 ip = true → ∃ a b c d, ip = AddrFrom4 a b c d.
Proof.
  unfold Addr_ok, Is4. intros Hok Hz%bool_decide_eq_true.
  rewrite Hz in Hok. destruct Hok as [Hhi Hlo].
  set (n := Addr_lo ip - v4_prefix).
  assert (SetBytes (BEPut 4 n) = n) as Hn.
  { apply SetBytes_BEPut_small. change (Z.of_nat 4) with 4. lia. }
  cbn [BEPut] in Hn.
  eexists _, _, _, _. apply Addr_ext; [by rewrite Hhi| |by rewrite Hz].
  rewrite AddrFrom4_lo, Hn. lia.
Qed.

(** Reading the text of an IPv4 address gives the address back: the
    dotted decimal that [String] writes is accepted by the reader of the
    standard library and denotes the same four bytes. *)
Theorem parseIPv4_String (ip : Addr) :
  Addr_ok ip → Is4 ip = true → parseIPv4 (Addr_String ip) = Some ip.
Proof.
  intros Hok H4. destruct (IPv4_AddrFrom4 ip Hok H4) as (a & b & c & d & ->).
  apply parseIPv4_AddrFrom4.
Qed.

Lemma parseIPv4_String_witness :
  parseIPv4 (Addr_String (AddrFrom4 Byte.xc0 Byte.x00 Byte.x02 Byte.x01))
  = Some (AddrFrom4 Byte.xc0 Byte.x00 Byte.x02 Byte.x01).
Proof.
  apply (parseIPv4_String (AddrFrom4 Byte.xc0 Byte.x00 Byte.x02 Byte.x01));
    [apply AddrFrom4_ok | reflexivity].
Defined.

(** The text determines the IPv4 address. *)
Lemma Addr_String_inj_IPv4 (ip ip' : Addr) :
  Addr_ok ip → Addr_ok ip' → Is4 ip = true → Is4 ip' = true →
  Addr_String ip = Addr_String ip' → ip = ip'.
Proof.
  intros Hok Hok' H4 H4' Heq.
  assert (Some ip = Some ip') as [= ->]; [|done].
  destruct (IPv4_AddrFrom4 ip Hok H4) as (a & b & c & d & ->).
  destruct (IPv4_AddrFrom4 ip' Hok' H4') as (a' & b' & c' & d' & ->).
  by rewrite <- !parseIPv4_AddrFrom4, Heq.
Qed.

(** ** The bytes of the text *)

(** The bytes that a function of this file appends are in every set
    [cs] that holds the digits, and the separator it writes. *)
Section chars.
Context (cs : string) (Hdigits : all_in digits cs = true).

Lemma digit_chars (x : Z) : in_cutset (digit x) cs = true.
Proof.
  apply (all_in_elem digits); [done|]. unfold digit.
  generalize (Z.to_nat x). intros n.
  do 16 (destruct n as [|n]; [done|]). done.
Qed.

Lemma push_chars (b : string) (c : ascii) :
  all_in b cs = true → in_cutset c cs = true → all_in (push b c) cs = true.
Proof.
  intros Hb Hc. unfold push. rewrite all_in_app, Hb. cbn [all_in andb].
  by rewrite Hc.
Qed.

Lemma appendDecimal_chars (b : string) (x : Z) :
  all_in b cs = true → all_in (appendDecimal b x) cs = true.
Proof.
  intros Hb. unfold appendDecimal.
  repeat case_match; auto using push_chars, digit_chars.
Qed.

Lemma appendHex_chars (b : string) (x : Z) :
  all_in b cs = true → all_in (appendHex b x) cs = true.
Proof.
  intros Hb. unfold appendHex.
  repeat case_match; auto 6 using push_chars, digit_chars.
Qed.

Lemma appendTo4_chars (ip : Addr) (ret : string) :
  in_cutset "." cs = true →
  all_in ret cs = true → all_in (appendTo4 ip ret) cs = true.
Proof.
  intros Hdot Hret. unfold appendTo4.
  auto 10 using push_chars, appendDecimal_chars.
Qed.

Lemma groups_chars (fuel : nat) (ip : Addr) (zero : Z * Z) (i : Z)
    (ret : string) :
  in_cutset ":" cs = true →
  all_in ret cs = true → all_in (groups fuel ip zero i ret) cs = true.
Proof.
  intros Hcolon. revert i ret.
  induction fuel as [|fuel IH]; intros i ret Hret; [done|].
  cbn [groups].
  repeat case_match; auto 6 using push_chars, appendHex_chars.
Qed.

End chars.

(** The text of a valid address without zone is made of hexadecimal
    digits, dots and colons. *)
Lemma Addr_String_chars (ip : Addr) :
  Addr_z ip = z4 ∨ Addr_z ip = z6noz →
  all_in (Addr_String ip) host_chars = true.
Proof.
  unfold Addr_String, appendTo4In6, appendTo6, appendZone.
  intros [Hz|Hz]; rewrite Hz; [by apply appendTo4_chars|].
  rewrite bool_decide_eq_false_2 by (by intros []).
  case_match; [by apply appendTo4_chars|by apply groups_chars].
Qed.

(** The groups of an address do not depend on its zone. *)
Section zone.
Context (hi lo : Z) (z z' : zone).

Lemma zero_run_zone (fuel : nat) (j : Z) :
  zero_run fuel (mkAddr hi lo z) j = zero_run fuel (mkAddr hi lo z') j.
Proof.
  revert j. induction fuel as [|fuel IH]; intros j; [done|].
  cbn [zero_run]. by rewrite IH.
Qed.

Lemma longest_run_zone (fuel : nat) (i : Z) (zero : Z * Z) :
  longest_run fuel (mkAddr hi lo z) i zero
  = longest_run fuel (mkAddr hi lo z') i zero.
Proof.
  revert i zero. induction fuel as [|fuel IH]; intros i zero; [done|].
  cbn [longest_run]. by rewrite IH, zero_run_zone.
Qed.

Lemma groups_zone (fuel : nat) (zero : Z * Z) (i : Z) (ret : string) :
  groups fuel (mkAddr hi lo z) zero i ret
  = groups fuel (mkAddr hi lo z') zero i ret.
Proof.
  revert i ret. induction fuel as [|fuel IH]; intros i ret; [done|].
  cbn [groups]. by rewrite !IH.
Qed.

End zone.

(** The text of an address with a zone is the text of the address
    without it, a percent sign and the zone. *)
Lemma Addr_String_zone (hi lo : Z) (name : string) :
  Addr_String (mkAddr hi lo (z6zone name))
  = Addr_String (mkAddr hi lo z6noz) +:+ "%" +:+ name.
Proof.
  unfold Addr_String, appendTo4In6, appendTo6, appendZone, Unmap.
  cbn [Addr_z Addr_hi Addr_lo Zone].
  change (Is4In6 (mkAddr hi lo (z6zone name)))
    with (Is4In6 (mkAddr hi lo z6noz)).
  rewrite (bool_decide_eq_true_2 (z6zone name ≠ z6noz)) by done.
  rewrite (bool_decide_eq_false_2 (z6noz ≠ z6noz)) by (by intros []).
  rewrite (longest_run_zone hi lo (z6zone name) z6noz).
  rewrite (groups_zone hi lo (z6zone name) z6noz).
  unfold push. destruct (Is4In6 _); by rewrite string_app_assoc.
Qed.
