(* ===== verification/NetipParse.v ===== *)
(** * NetipParse: reading the text of an address back

    The probes hand the text of an address to package [net], which reads
    it back.  This file shows that nothing is lost on the way: a reader of
    the texts that [netip.Addr.String] writes ([ParseAddr]: dotted decimal,
    the groups of an IPv6 address with [::] for the elided zero groups, an
    IPv4-mapped address, a zone after [%]) gives every valid address back
    from its text, and so the text determines the address.

    The reader of the groups is a state machine over the bytes, like the
    loop of the standard library's parser.  The proof goes through the
    closed form of what the second loop of [appendTo6] writes
    ([groups_text]) and through the invariant of its first loop
    ([run_ok]): the groups elided by [::] are zero. *)

From Stdlib Require Import ZArith String Ascii List Lia.
From stdpp Require Import base tactics decidable option list strings.
From stdpp Require Import list_numbers.
From S2P Require Import Prelude Bytes Netip GoStrings NetipString.

#[local] Open Scope Z_scope.

(** ** The reader of the groups *)

(** The value of a hexadecimal digit. *)
Definition hex_value (c : ascii) : option Z :=
  let n := Z.of_N (N_of_ascii c) in
  if (48 <=? n) && (n <=? 57) then Some (n - 48)
  else if (97 <=? n) && (n <=? 102) then Some (n - 87)
  else if (65 <=? n) && (n <=? 70) then Some (n - 55)
  else None.

(** The state of the reader: the groups read so far, the last one first;
    the number of groups before [::], once it has been read; the number
    of digits read of the group at the head of [p6_acc]; whether the last
    byte was a colon that is not, or not yet, part of [::]. *)
Record parse6_state := {
  p6_acc : list Z;
  p6_ellipsis : option nat;
  p6_digLen : nat;
  p6_colon : bool
}.

Definition parse6_start : parse6_state :=
  {| p6_acc := []; p6_ellipsis := None; p6_digLen := 0; p6_colon := false |}.

(** A digit starts a group or adds to the one being read, which has four
    digits at most.  No group follows a single colon at the start. *)
Definition parse6_digit (st : parse6_state) (d : Z) : option parse6_state :=
  match p6_digLen st with
  | O =>
      if p6_colon st && bool_decide (p6_acc st = []) then None
      else Some {| p6_acc := d :: p6_acc st; p6_ellipsis := p6_ellipsis st;
                   p6_digLen := 1; p6_colon := false |}
  | S n =>
      match p6_acc st with
      | v :: acc =>
          if (3 <=? n)%nat then None
          else Some {| p6_acc := (v * 16 + d) :: acc;
                       p6_ellipsis := p6_ellipsis st;
                       p6_digLen := S (S n); p6_colon := false |}
      | [] => None
      end
  end.

(** A colon ends the group being read; directly after another colon it
    is the [::], of which there is one at most; the text may start with a
    colon. *)
Definition parse6_colon (st : parse6_state) : option parse6_state :=
  if (0 <? p6_digLen st)%nat then
    Some {| p6_acc := p6_acc st; p6_ellipsis := p6_ellipsis st;
            p6_digLen := 0; p6_colon := true |}
  else if p6_colon st then
    match p6_ellipsis st with
    | Some _ => None
    | None =>
        Some {| p6_acc := p6_acc st;
                p6_ellipsis := Some (length (p6_acc st));
                p6_digLen := 0; p6_colon := false |}
    end
  else
    match p6_acc st, p6_ellipsis st with
    | [], None =>
        Some {| p6_acc := []; p6_ellipsis := None; p6_digLen := 0;
                p6_colon := true |}
    | _, _ => None
    end.

Definition parse6_step (st : parse6_state) (c : ascii) :
    option parse6_state :=
  match hex_value c with
  | Some d => parse6_digit st d
  | None => if bool_decide (c = ":"%char) then parse6_colon st else None
  end.

Fixpoint parse6_run (s : string) (st : parse6_state) : option parse6_state :=
  match s with
  | "" => Some st
  | String c s => st ← parse6_step st c; parse6_run s st
  end.

(** The eight groups: those before the [::], the zero groups it stands
    for (one at least), those after it. *)
Definition expand (e : nat) (gs : list Z) : list Z :=
  take e gs ++ replicate (8 - length gs) 0 ++ drop e gs.

Definition parse6_finish (st : parse6_state) : option (list Z) :=
  if p6_colon st then None
  else
    let gs := reverse (p6_acc st) in
    match p6_ellipsis st with
    | None => if (length gs =? 8)%nat then Some gs else None
    | Some e => if (length gs <=? 7)%nat then Some (expand e gs) else None
    end.

Definition parse6 (s : string) : option (list Z) :=
  parse6_run s parse6_start ≫= parse6_finish.

(** ** The reader of an address *)

(** The 64 bits of four groups. *)
Definition word64 (gs : list Z) : Z := foldl (λ acc g, acc * 65536 + g) 0 gs.

(** The address of eight groups. *)
Definition AddrFrom8 (gs : list Z) : Addr :=
  mkAddr (word64 (take 4 gs)) (word64 (drop 4 gs)) z6noz.

(** The text up to the first [%], and what follows it. *)
Fixpoint split_zone (s : string) : string * option string :=
  match s with
  | "" => ("", None)
  | String c s =>
      if bool_decide (c = "%"%char) then ("", Some s)
      else let '(host, name) := split_zone s in (String c host, name)
  end.

Fixpoint strip_prefix (p s : string) : option string :=
  match p, s with
  | "", _ => Some s
  | String a p, String c s =>
      if bool_decide (a = c) then strip_prefix p s else None
  | _, _ => None
  end.

(** An IPv4-mapped address, written [::ffff:a.b.c.d]. *)
Definition parse4In6 (host : string) : option Addr :=
  r ← strip_prefix "::ffff:" host;
  ip ← parseIPv4 r;
  Some (mkAddr (Addr_hi ip) (Addr_lo ip) z6noz).

Definition parseIPv6 (host : string) : option Addr :=
  if in_cutset "." host then parse4In6 host else AddrFrom8 <$> parse6 host.

(** The reader: a text with a colon is an IPv6 address, which may carry
    a zone; any other text is an IPv4 address. *)
Definition ParseAddr (s : string) : option Addr :=
  let '(host, name) := split_zone s in
  if in_cutset ":" host then
    ip ← parseIPv6 host;
    match name with
    | None => Some ip
    | Some name =>
        if bool_decide (name = "") then None
        else Some (mkAddr (Addr_hi ip) (Addr_lo ip) (z6zone name))
    end
  else
    match name with
    | None => parseIPv4 host
    | Some _ => None
    end.

(** ** What [appendTo6] writes *)

(** The number of digits [appendHex] writes. *)
Definition hex_len (x : Z) : nat :=
  if 0x1000 <=? x then 4 else if 0x100 <=? x then 3
  else if 0x10 <=? x then 2 else 1.

(** The text of groups, each after a colon. *)
Definition colon_groups (l : list Z) : string :=
  foldr (λ x s, ":" +:+ hex x +:+ s) "" l.

(** The text of groups with colons between them. *)
Definition join_groups (l : list Z) : string :=
  match l with
  | [] => ""
  | x :: l => hex x +:+ colon_groups l
  end.

(** The groups [i] to [i + n - 1] of an address. *)
Definition v6groups (ip : Addr) (i n : Z) : list Z := v6u16 ip <$> seqZ i n.

(** The text of the groups of an address of which those from [zero.1] to
    [zero.2 - 1] are elided. *)
Definition groups_text (ip : Addr) (zero : Z * Z) : string :=
  if zero.1 <? 8 then
    join_groups (v6groups ip 0 zero.1) +:+ "::"
    +:+ join_groups (v6groups ip zero.2 (8 - zero.2))
  else join_groups (v6groups ip 0 8).

(** What the first loop of [appendTo6] maintains: a run it has found lies
    within the eight groups, is not empty and consists of zero groups. *)
Definition run_ok (ip : Addr) (zero : Z * Z) : Prop :=
  0 ≤ zero.1 ∧
  (zero.1 < 8 →
   zero.1 < zero.2 ≤ 8 ∧ ∀ k, zero.1 ≤ k < zero.2 → v6u16 ip k = 0).

(** ** Samples *)

Example ParseAddr_samples :
  ParseAddr "192.0.2.1" = Some (AddrFrom4 Byte.xc0 Byte.x00 Byte.x02 Byte.x01) ∧
  ParseAddr "::" = Some (addr6 0 0) ∧
  ParseAddr "::1" = Some (addr6 0 1) ∧
  ParseAddr "1::" = Some (addr6 0x0001000000000000 0) ∧
  ParseAddr "2001:db8::1:0:0:1"
  = Some (addr6 0x20010db800000000 0x0001000000000001) ∧
  ParseAddr "2001:db8:0:1:1:1:1:1"
  = Some (addr6 0x20010db800000001 0x0001000100010001) ∧
  ParseAddr "fe80::1%eth0"
  = Some (WithZone (addr6 0xfe80000000000000 1) "eth0") ∧
  ParseAddr "::ffff:192.0.2.1" = Some (addr6 0 0xffffc0000201) ∧
  ParseAddr "::ffff:192.0.2.1%eth0"
  = Some (WithZone (addr6 0 0xffffc0000201) "eth0").
Proof. by vm_compute. Qed.

(** Texts that are no address. *)
Example ParseAddr_rejects :
  ParseAddr "invalid IP" = None ∧ ParseAddr "" = None ∧
  ParseAddr ":1" = None ∧ ParseAddr "1:" = None ∧ ParseAddr ":::" = None ∧
  ParseAddr "1::2::3" = None ∧ ParseAddr "1:2:3:4:5:6:7" = None ∧
  ParseAddr "1:2:3:4:5:6:7:8:9" = None ∧ ParseAddr "1:2:3:4::5:6:7:8" = None ∧
  ParseAddr "12345::" = None ∧ ParseAddr "fe80::1%" = None ∧
  ParseAddr "192.0.2.1%eth0" = None ∧ ParseAddr "192.0.2" = None ∧
  ParseAddr "192.0.2.256" = None ∧ ParseAddr "192.0.02.1" = None.
Proof. by vm_compute. Qed.

(** ** Hexadecimal digits *)

(** The four digits of a group, [x >> 12], [(x >> 8) & 0xf],
    [(x >> 4) & 0xf] and [x & 0xf], as quotients and remainders. *)
Lemma nibbles (x : Z) :
  Z.shiftr x 12 = x / 4096 ∧ Z.land (Z.shiftr x 8) 0xf = x / 256 mod 16 ∧
  Z.land (Z.shiftr x 4) 0xf = x / 16 mod 16 ∧ Z.land x 0xf = x mod 16.
Proof.
  rewrite !Z.shiftr_div_pow2 by lia.
  change 0xf with (Z.ones 4). by rewrite !Z.land_ones by lia.
Qed.

Lemma hex_value_digit (d : Z) : 0 ≤ d < 16 → hex_value (digit d) = Some d.
Proof.
  intros Hd.
  assert (d = 0 ∨ d = 1 ∨ d = 2 ∨ d = 3 ∨ d = 4 ∨ d = 5 ∨ d = 6 ∨ d = 7 ∨
          d = 8 ∨ d = 9 ∨ d = 10 ∨ d = 11 ∨ d = 12 ∨ d = 13 ∨ d = 14 ∨
          d = 15) as Hd' by lia.
  by destruct_or!; subst.
Qed.

Lemma hex_len_pos (x : Z) : (1 ≤ hex_len x)%nat.
Proof. unfold hex_len. repeat case_match; lia. Qed.

(** ** The reader over what [appendTo6] writes *)

Lemma push_app (b : string) (c : ascii) (rest : string) :
  push b c +:+ rest = b +:+ String c rest.
Proof. unfold push. by rewrite string_app_assoc. Qed.

Section run.
Context (acc : list Z) (ell : option nat).

(** The first digit of a group. *)
Lemma parse6_run_first (rest : string) (colon : bool) (d : Z) :
  0 ≤ d < 16 → colon && bool_decide (acc = []) = false →
  parse6_run (String (digit d) rest)
    {| p6_acc := acc; p6_ellipsis := ell; p6_digLen := 0; p6_colon := colon |}
  = parse6_run rest
      {| p6_acc := d :: acc; p6_ellipsis := ell; p6_digLen := 1;
         p6_colon := false |}.
Proof.
  intros Hd Hc. cbn [parse6_run]. unfold parse6_step, parse6_digit.
  rewrite hex_value_digit by done. cbn [p6_digLen p6_colon p6_acc].
  by rewrite Hc.
Qed.

(** A further digit of a group. *)
Lemma parse6_run_next (rest : string) (v : Z) (n : nat) (d : Z) :
  0 ≤ d < 16 → (n < 3)%nat →
  parse6_run (String (digit d) rest)
    {| p6_acc := v :: acc; p6_ellipsis := ell; p6_digLen := S n;
       p6_colon := false |}
  = parse6_run rest
      {| p6_acc := (v * 16 + d) :: acc; p6_ellipsis := ell;
         p6_digLen := S (S n); p6_colon := false |}.
Proof.
  intros Hd Hn. cbn [parse6_run]. unfold parse6_step, parse6_digit.
  rewrite hex_value_digit by done. cbn [p6_digLen p6_colon p6_acc].
  by rewrite (proj2 (Nat.leb_gt 3 n)) by lia.
Qed.

(** A group. *)
Lemma parse6_run_hex (rest : string) (colon : bool) (x : Z) :
  0 ≤ x < 65536 → colon && bool_decide (acc = []) = false →
  parse6_run (hex x +:+ rest)
    {| p6_acc := acc; p6_ellipsis := ell; p6_digLen := 0; p6_colon := colon |}
  = parse6_run rest
      {| p6_acc := x :: acc; p6_ellipsis := ell; p6_digLen := hex_len x;
         p6_colon := false |}.
Proof.
  intros Hx Hc. unfold hex, appendHex, hex_len.
  destruct (nibbles x) as (-> & -> & -> & ->).
  repeat case_match; try lia; rewrite !push_app;
    change ("" +:+ ?s) with s;
    rewrite parse6_run_first, ?parse6_run_next
      by (done || lia || (Z.div_mod_to_equations; lia));
    do 3 f_equal; Z.div_mod_to_equations; lia.
Qed.

End run.

Section text.
Context (ell : option nat).

(** A colon after a group. *)
Lemma parse6_run_colon (rest : string) (acc : list Z) (n : nat) :
  (1 ≤ n)%nat →
  parse6_run (String ":" rest)
    {| p6_acc := acc; p6_ellipsis := ell; p6_digLen := n; p6_colon := false |}
  = parse6_run rest
      {| p6_acc := acc; p6_ellipsis := ell; p6_digLen := 0;
         p6_colon := true |}.
Proof. intros Hn. cbn. by destruct n; [lia|]. Qed.

(** Groups after a group. *)
Lemma parse6_run_colon_groups (l : list Z) (rest : string) (v : Z)
    (acc : list Z) (n : nat) :
  Forall (λ x, 0 ≤ x < 65536) l → (1 ≤ n)%nat →
  ∃ n', (1 ≤ n')%nat ∧
    parse6_run (colon_groups l +:+ rest)
      {| p6_acc := v :: acc; p6_ellipsis := ell; p6_digLen := n;
         p6_colon := false |}
    = parse6_run rest
        {| p6_acc := reverse l ++ v :: acc; p6_ellipsis := ell;
           p6_digLen := n'; p6_colon := false |}.
Proof.
  intros Hl. revert v acc n.
  induction Hl as [|x l Hx _ IH]; intros v acc n Hn; [by exists n|].
  destruct (IH x (v :: acc) (hex_len x) (hex_len_pos x)) as (n' & Hn' & Heq).
  exists n'. split; [done|]. cbn [colon_groups foldr].
  rewrite !string_app_assoc. change (":" +:+ ?s) with (String ":" s).
  rewrite parse6_run_colon, parse6_run_hex by done.
  by rewrite reverse_cons, <- app_assoc.
Qed.

(** Groups from the start of the text or after the [::]. *)
Lemma parse6_run_join (l : list Z) (rest : string) (acc : list Z) :
  Forall (λ x, 0 ≤ x < 65536) l →
  ∃ n, (l = [] ∧ n = 0%nat ∨ (1 ≤ n)%nat) ∧
    parse6_run (join_groups l +:+ rest)
      {| p6_acc := acc; p6_ellipsis := ell; p6_digLen := 0;
         p6_colon := false |}
    = parse6_run rest
        {| p6_acc := reverse l ++ acc; p6_ellipsis := ell; p6_digLen := n;
           p6_colon := false |}.
Proof.
  intros Hl. destruct Hl as [|x l Hx Hl]; [exists 0%nat; by split; [left|]|].
  destruct (parse6_run_colon_groups l rest x acc (hex_len x) Hl
              (hex_len_pos x)) as (n & Hn & Heq).
  exists n. split; [by right|]. cbn [join_groups].
  rewrite string_app_assoc, parse6_run_hex by done.
  by rewrite reverse_cons, <- app_assoc.
Qed.

End text.

(** The [::], at the start of the text or after a group. *)
Lemma parse6_run_ellipsis (rest : string) (acc : list Z) (n : nat) :
  acc = [] ∧ n = 0%nat ∨ (1 ≤ n)%nat →
  parse6_run ("::" +:+ rest)
    {| p6_acc := acc; p6_ellipsis := None; p6_digLen := n;
       p6_colon := false |}
  = parse6_run rest
      {| p6_acc := acc; p6_ellipsis := Some (length acc); p6_digLen := 0;
         p6_colon := false |}.
Proof.
  change ("::" +:+ rest) with (String ":" (String ":" rest)).
  intros [[-> ->]|Hn]; [done|]. by rewrite parse6_run_colon.
Qed.

(** The end of the text. *)
Lemma parse6_finish_eq (acc : list Z) (ell : option nat) (n : nat) :
  parse6_run "" {| p6_acc := acc; p6_ellipsis := ell; p6_digLen := n;
                   p6_colon := false |} ≫= parse6_finish
  = match ell with
    | None => if (length acc =? 8)%nat then Some (reverse acc) else None
    | Some e =>
        if (length acc <=? 7)%nat then Some (expand e (reverse acc)) else None
    end.
Proof.
  cbn [parse6_run mbind option_bind]. unfold parse6_finish.
  cbn [p6_colon p6_ellipsis p6_acc]. by rewrite length_reverse.
Qed.

(** Eight groups with colons between them are read as they are. *)
Lemma parse6_join (l : list Z) :
  Forall (λ x, 0 ≤ x < 65536) l → length l = 8%nat →
  parse6 (join_groups l) = Some l.
Proof.
  intros Hl Hlen. unfold parse6, parse6_start.
  destruct (parse6_run_join None l "" [] Hl) as (n & _ & Heq).
  rewrite string_app_nil_r in Heq. rewrite Heq, parse6_finish_eq.
  by rewrite app_nil_r, length_reverse, reverse_involutive, Hlen.
Qed.

(** Groups around a [::] are read with zero groups in its place. *)
Lemma parse6_elided (h t : list Z) :
  Forall (λ x, 0 ≤ x < 65536) h → Forall (λ x, 0 ≤ x < 65536) t →
  (length h + length t ≤ 7)%nat →
  parse6 (join_groups h +:+ "::" +:+ join_groups t)
  = Some (h ++ replicate (8 - (length h + length t)) 0 ++ t).
Proof.
  intros Hh Ht Hlen. unfold parse6, parse6_start.
  destruct (parse6_run_join None h ("::" +:+ join_groups t) [] Hh)
    as (n & Hn & ->).
  rewrite app_nil_r, parse6_run_ellipsis
    by (destruct Hn as [[-> ->]|]; auto).
  destruct (parse6_run_join (Some (length (reverse h))) t "" (reverse h) Ht)
    as (n' & _ & Heq).
  rewrite string_app_nil_r in Heq. rewrite Heq, parse6_finish_eq.
  rewrite <- reverse_app, reverse_involutive, !length_reverse, length_app.
  rewrite (proj2 (Nat.leb_le _ 7)) by done. unfold expand.
  by rewrite length_app, take_app_length, drop_app_length.
Qed.

(** ** The loops of [appendTo6] *)

Section loops.
Context (ip : Addr).

Lemma v6u16_range (k : Z) : 0 ≤ v6u16 ip k < 65536.
Proof. unfold v6u16. apply Z.mod_pos_bound. lia. Qed.

Lemma v6groups_range (i n : Z) :
  Forall (λ x, 0 ≤ x < 65536) (v6groups ip i n).
Proof. apply Forall_fmap, Forall_true. intros k. apply v6u16_range. Qed.

Lemma length_v6groups (i n : Z) : length (v6groups ip i n) = Z.to_nat n.
Proof. unfold v6groups. by rewrite length_fmap, length_seqZ. Qed.

Lemma v6groups_cons (i n : Z) :
  0 < n → v6groups ip i n = v6u16 ip i :: v6groups ip (i + 1) (n - 1).
Proof. intros Hn. unfold v6groups. by rewrite seqZ_cons. Qed.

Lemma v6groups_nil (i : Z) : v6groups ip i 0 = [].
Proof. done. Qed.

Lemma v6groups_app (i n m : Z) :
  0 ≤ n → 0 ≤ m →
  v6groups ip i (n + m) = v6groups ip i n ++ v6groups ip (i + n) m.
Proof. intros Hn Hm. unfold v6groups. by rewrite seqZ_app, fmap_app. Qed.

Lemma v6groups_zero (i n : Z) :
  (∀ k, i ≤ k < i + n → v6u16 ip k = 0) →
  v6groups ip i n = replicate (Z.to_nat n) 0.
Proof.
  intros Hz. symmetry. apply replicate_as_Forall_2; [apply length_v6groups|].
  apply Forall_fmap, Forall_forall. intros k Hk%elem_of_seqZ. cbn.
  symmetry. apply Hz. lia.
Qed.

(** One turn of the second loop. *)
Lemma groups_step (fuel : nat) (zs ze i : Z) :
  i < 8 →
  groups (S fuel) ip (zs, ze) i ""
  = if i =? zs then
      "::" +:+ (if 8 <=? ze then ""
                else hex (v6u16 ip ze) +:+ groups fuel ip (zs, ze) (ze + 1) "")
    else (if 0 <? i then ":" else "") +:+ hex (v6u16 ip i)
         +:+ groups fuel ip (zs, ze) (i + 1) "".
Proof.
  intros Hi. cbn [groups fst snd]. rewrite (proj2 (Z.ltb_lt i 8)) by done.
  repeat case_match; try done; rewrite groups_app, appendHex_hex;
    unfold push; by rewrite ?string_app_assoc.
Qed.

(** The groups after the elided run, or all but the first when none is
    elided. *)
Lemma groups_tail (fuel : nat) (zs ze i : Z) :
  1 ≤ i ≤ 8 → 8 - i ≤ Z.of_nat fuel → ¬ (i ≤ zs < 8) →
  groups fuel ip (zs, ze) i "" = colon_groups (v6groups ip i (8 - i)).
Proof.
  revert i. induction fuel as [|fuel IH]; intros i Hi Hfuel Hzs.
  { by replace i with 8 by lia. }
  destruct (decide (i = 8)) as [->|Hi8]; [done|].
  rewrite groups_step, v6groups_cons by lia.
  rewrite (proj2 (Z.eqb_neq i zs)), (proj2 (Z.ltb_lt 0 i)), IH by lia.
  by replace (8 - (i + 1)) with (8 - i - 1) by lia.
Qed.

(** What follows the [::]. *)
Lemma groups_rest (fuel : nat) (zs ze : Z) :
  0 ≤ zs < ze → ze ≤ 8 → 7 - ze ≤ Z.of_nat fuel →
  (if 8 <=? ze then ""
   else hex (v6u16 ip ze) +:+ groups fuel ip (zs, ze) (ze + 1) "")
  = join_groups (v6groups ip ze (8 - ze)).
Proof.
  intros Hzs Hze Hfuel. destruct (decide (ze = 8)) as [->|Hze8]; [done|].
  rewrite (proj2 (Z.leb_gt 8 ze)), v6groups_cons, groups_tail by lia.
  cbn [join_groups]. by replace (8 - (ze + 1)) with (8 - ze - 1) by lia.
Qed.

(** The groups before the elided run, the [::] and what follows it. *)
Lemma groups_head (fuel : nat) (zs ze i : Z) :
  1 ≤ i ≤ zs → zs < ze → ze ≤ 8 → 8 - i ≤ Z.of_nat fuel →
  groups fuel ip (zs, ze) i ""
  = colon_groups (v6groups ip i (zs - i)) +:+ "::"
    +:+ join_groups (v6groups ip ze (8 - ze)).
Proof.
  revert i. induction fuel as [|fuel IH]; intros i Hi Hzs Hze Hfuel; [lia|].
  rewrite groups_step by lia. destruct (decide (i = zs)) as [->|Hne].
  - by rewrite Z.eqb_refl, groups_rest, Z.sub_diag by lia.
  - rewrite (proj2 (Z.eqb_neq i zs)), (proj2 (Z.ltb_lt 0 i)), IH by lia.
    rewrite (v6groups_cons i) by lia. cbn [colon_groups foldr].
    replace (zs - (i + 1)) with (zs - i - 1) by lia.
    by rewrite !string_app_assoc.
Qed.

(** What the second loop writes. *)
Lemma groups_text_eq (zero : Z * Z) :
  run_ok ip zero → groups 8 ip zero 0 "" = groups_text ip zero.
Proof.
  destruct zero as [zs ze]. unfold run_ok, groups_text. cbn [fst snd].
  intros [Hzs Hrun]. rewrite groups_step by lia.
  destruct (decide (zs = 0)) as [->|Hne].
  { destruct Hrun as [Hze _]; [lia|]. by rewrite groups_rest by (cbn; lia). }
  rewrite (proj2 (Z.eqb_neq 0 zs)) by lia. change (0 <? 0) with false.
  change ("" +:+ ?s) with s. destruct (decide (zs < 8)) as [Hlt|Hge].
  - destruct Hrun as [Hze _]; [done|].
    rewrite (proj2 (Z.ltb_lt zs 8)), groups_head by (cbn; lia).
    rewrite (v6groups_cons 0 zs) by lia. cbn [join_groups].
    by rewrite !string_app_assoc.
  - rewrite (proj2 (Z.ltb_ge zs 8)), groups_tail by (cbn; lia).
    by rewrite (v6groups_cons 0 8).
Qed.

(** The run of zero groups that starts at [j]. *)
Lemma zero_run_spec (fuel : nat) (j : Z) :
  0 ≤ j → 8 - j ≤ Z.of_nat fuel →
  j ≤ zero_run fuel ip j ∧ (j ≤ 8 → zero_run fuel ip j ≤ 8) ∧
  ∀ k, j ≤ k < zero_run fuel ip j → v6u16 ip k = 0.
Proof.
  revert j. induction fuel as [|fuel IH]; intros j Hj Hfuel; cbn [zero_run].
  { split_and!; intros; lia. }
  destruct (j <? 8) eqn:Hlt; destruct (v6u16 ip j =? 0) eqn:Hz; cbn [andb];
    try (split_and!; intros; lia).
  destruct (IH (j + 1)) as (H1 & H2 & H3); [lia..|].
  split_and!; [lia|lia|]. intros k Hk.
  destruct (decide (k = j)) as [->|Hne]; [by apply Z.eqb_eq|apply H3; lia].
Qed.

(** The first loop keeps [run_ok]. *)
Lemma longest_run_ok (fuel : nat) (i : Z) (zero : Z * Z) :
  0 ≤ i → run_ok ip zero → run_ok ip (longest_run fuel ip i zero).
Proof.
  revert i zero. induction fuel as [|fuel IH]; intros i zero Hi Hok; [done|].
  cbn [longest_run]. case_match; [|done]. apply IH; [lia|].
  case_match eqn:Hc; [|done]. apply andb_true_iff in Hc as [Hl _].
  destruct (zero_run_spec 8 i) as (H1 & H2 & H3); [cbn; lia..|].
  split; cbn [fst snd]; [done|]. intros _. split; [lia|done].
Qed.

(** The reader gives the eight groups back. *)
Lemma parse6_groups_text (zero : Z * Z) :
  run_ok ip zero → parse6 (groups_text ip zero) = Some (v6groups ip 0 8).
Proof.
  destruct zero as [zs ze]. unfold run_ok, groups_text. cbn [fst snd].
  intros [Hzs Hrun]. case_match eqn:Hlt.
  - destruct Hrun as [Hze Hz]; [lia|].
    rewrite parse6_elided
      by (apply v6groups_range || (rewrite !length_v6groups; lia)).
    rewrite !length_v6groups.
    replace (8 - (Z.to_nat zs + Z.to_nat (8 - ze)))%nat
      with (Z.to_nat (ze - zs)) by lia.
    rewrite <- (v6groups_zero zs (ze - zs)) by (intros; apply Hz; lia).
    transitivity (Some (v6groups ip 0 (zs + ((ze - zs) + (8 - ze)))));
      [|do 2 f_equal; lia].
    rewrite !v6groups_app by lia. do 4 f_equal; lia.
  - apply parse6_join; [apply v6groups_range|by rewrite length_v6groups].
Qed.

End loops.

(** ** From the groups to the address *)

(** A 64-bit word is its four groups. *)
Lemma word64_groups (w : Z) :
  0 ≤ w < 2 ^ 64 →
  word64 [Z.shiftr w 48 mod 2 ^ 16; Z.shiftr w 32 mod 2 ^ 16;
          Z.shiftr w 16 mod 2 ^ 16; Z.shiftr w 0 mod 2 ^ 16] = w.
Proof.
  intros Hw. unfold word64. cbn [foldl]. rewrite !Z.shiftr_div_pow2 by lia.
  Z.div_mod_to_equations. lia.
Qed.

Lemma AddrFrom8_v6groups (ip : Addr) :
  0 ≤ Addr_hi ip < 2 ^ 64 → 0 ≤ Addr_lo ip < 2 ^ 64 →
  AddrFrom8 (v6groups ip 0 8) = mkAddr (Addr_hi ip) (Addr_lo ip) z6noz.
Proof.
  intros Hhi Hlo. unfold AddrFrom8.
  f_equal; [exact (word64_groups _ Hhi)|exact (word64_groups _ Hlo)].
Qed.

(** ** The parts of a text *)

Lemma split_zone_None (host : string) :
  in_cutset "%" host = false → split_zone host = (host, None).
Proof.
  induction host as [|c host IH]; [done|]. cbn [in_cutset split_zone].
  intros [Hc Hh]%orb_false_iff. apply bool_decide_eq_false in Hc.
  rewrite bool_decide_eq_false_2, IH by done. done.
Qed.

Lemma split_zone_Some (host name : string) :
  in_cutset "%" host = false →
  split_zone (host +:+ "%" +:+ name) = (host, Some name).
Proof.
  induction host as [|c host IH]; [done|].
  change (String c host +:+ ?s) with (String c (host +:+ s)).
  cbn [in_cutset split_zone].
  intros [Hc Hh]%orb_false_iff. apply bool_decide_eq_false in Hc.
  rewrite bool_decide_eq_false_2, IH by done. done.
Qed.

(** ** The text of an address without zone *)

(** The text of an IPv4 address has no colon and no percent sign, and is
    read as the address. *)
Lemma parseIPv4_appendTo4 (ip : Addr) :
  Addr_ok ip → Addr_z ip = z4 →
  all_in (appendTo4 ip "") dot_chars = true ∧
  in_cutset "." (appendTo4 ip "") = true ∧
  parseIPv4 (appendTo4 ip "") = Some ip.
Proof.
  intros Hok Hz. split; [by apply appendTo4_chars|]. split.
  { rewrite appendTo4_eq, !in_cutset_app. cbn. by rewrite !orb_true_r. }
  destruct (IPv4_AddrFrom4 ip Hok) as (a & b & c & d & ->);
    [by apply bool_decide_eq_true|].
  apply parseIPv4_AddrFrom4.
Qed.

Section host.
Context (hi lo : Z) (Hhi : 0 ≤ hi < 2 ^ 64) (Hlo : 0 ≤ lo < 2 ^ 64).

(** An IPv4-mapped address. *)
Lemma parseIPv6_mapped :
  Is4In6 (mkAddr hi lo z6noz) = true →
  in_cutset ":" (Addr_String (mkAddr hi lo z6noz)) = true ∧
  in_cutset "%" (Addr_String (mkAddr hi lo z6noz)) = false ∧
  parseIPv6 (Addr_String (mkAddr hi lo z6noz)) = Some (mkAddr hi lo z6noz).
Proof.
  intros H4. unfold Addr_String. cbn [Addr_z]. rewrite H4.
  unfold appendTo4In6, appendZone, Unmap. rewrite H4.
  cbn [Addr_z Addr_hi Addr_lo].
  rewrite bool_decide_eq_false_2 by (by intros []).
  apply andb_true_iff in H4 as [[_ Hhi0%Z.eqb_eq]%andb_true_iff Hlo0%Z.eqb_eq].
  cbn [Addr_hi Addr_lo] in Hhi0, Hlo0.
  rewrite Z.shiftr_div_pow2 in Hlo0 by lia.
  destruct (parseIPv4_appendTo4 (mkAddr hi lo z4)) as (Hcs & Hdot & Hp);
    [|done|].
  { unfold Addr_ok, v4_prefix. cbn. split; [done|].
    Z.div_mod_to_equations. lia. }
  rewrite appendTo4_eq in *. change ("" +:+ ?s) with s in *.
  change (("" +:+ "::ffff:") +:+ ?s) with ("::ffff:" +:+ s).
  split; [done|]. split.
  { rewrite in_cutset_app. by rewrite (all_in_not_in _ _ _ Hcs). }
  unfold parseIPv6, parse4In6. rewrite in_cutset_app, Hdot, orb_true_r.
  change (strip_prefix "::ffff:" ("::ffff:" +:+ ?s)) with (Some s).
  cbn [mbind option_bind]. by rewrite Hp.
Qed.

(** Any other IPv6 address. *)
Lemma parseIPv6_groups :
  Is4In6 (mkAddr hi lo z6noz) = false →
  in_cutset ":" (Addr_String (mkAddr hi lo z6noz)) = true ∧
  in_cutset "%" (Addr_String (mkAddr hi lo z6noz)) = false ∧
  parseIPv6 (Addr_String (mkAddr hi lo z6noz)) = Some (mkAddr hi lo z6noz).
Proof.
  intros H4. unfold Addr_String. cbn [Addr_z]. rewrite H4.
  unfold appendTo6, appendZone. cbn [Addr_z].
  rewrite bool_decide_eq_false_2 by (by intros []).
  set (ip := mkAddr hi lo z6noz). set (zero := longest_run 8 ip 0 (255, 255)).
  assert (all_in (groups 8 ip zero 0 "") colon_chars = true) as Hcs
    by (by apply groups_chars).
  assert (run_ok ip zero) as Hrun.
  { apply longest_run_ok; [done|]. split; cbn; lia. }
  split; [|split; [by apply (all_in_not_in _ _ _ Hcs)|]].
  - rewrite groups_text_eq by done. unfold groups_text.
    case_match; [by rewrite !in_cutset_app, orb_true_r|].
    rewrite (v6groups_cons ip 0 8), (v6groups_cons ip (0 + 1)) by lia.
    cbn [join_groups colon_groups foldr].
    by rewrite !in_cutset_app, orb_true_r.
  - unfold parseIPv6. rewrite (all_in_not_in _ _ _ Hcs) by done.
    rewrite groups_text_eq, parse6_groups_text by done.
    cbn [fmap option_fmap option_map]. f_equal.
    by apply (AddrFrom8_v6groups ip).
Qed.

Lemma parseIPv6_String :
  in_cutset ":" (Addr_String (mkAddr hi lo z6noz)) = true ∧
  in_cutset "%" (Addr_String (mkAddr hi lo z6noz)) = false ∧
  parseIPv6 (Addr_String (mkAddr hi lo z6noz)) = Some (mkAddr hi lo z6noz).
Proof.
  destruct (Is4In6 (mkAddr hi lo z6noz)) eqn:H4;
    [by apply parseIPv6_mapped|by apply parseIPv6_groups].
Qed.

End host.

(** ** The text of an address *)

(** The reader gives a valid address back from its text. *)
Lemma ParseAddr_valid (ip : Addr) :
  Addr_ok ip → IsValid ip = true → ParseAddr (Addr_String ip) = Some ip.
Proof.
  destruct ip as [hi lo [| | |name]]; unfold Addr_ok;
    cbn [Addr_z Addr_hi Addr_lo]; intros Hok Hv; [done|..]; unfold ParseAddr.
  - destruct (parseIPv4_appendTo4 (mkAddr hi lo z4)) as (Hcs & _ & Hp);
      [done..|].
    change (Addr_String (mkAddr hi lo z4)) with (appendTo4 (mkAddr hi lo z4) "").
    pose proof (all_in_not_in _ _ "%"%char Hcs eq_refl) as Hpct.
    pose proof (all_in_not_in _ _ ":"%char Hcs eq_refl) as Hc.
    by rewrite split_zone_None, Hc.
  - destruct Hok as [Hhi Hlo].
    destruct (parseIPv6_String hi lo Hhi Hlo) as (Hc & Hpct & Hp).
    by rewrite split_zone_None, Hc, Hp.
  - destruct Hok as (Hhi & Hlo & Hname).
    destruct (parseIPv6_String hi lo Hhi Hlo) as (Hc & Hpct & Hp).
    rewrite Addr_String_zone, split_zone_Some, Hc, Hp by done.
    cbn. by rewrite bool_decide_eq_false_2.
Qed.

(** The text determines the address. *)
Lemma Addr_String_inj (ip ip' : Addr) :
  Addr_ok ip → Addr_ok ip' → Addr_String ip = Addr_String ip' → ip = ip'.
Proof.
  intros Hok Hok' Heq.
  destruct (IsValid ip) eqn:Hv, (IsValid ip') eqn:Hv'.
  - assert (Some ip = Some ip') as [= ->]; [|done].
    by rewrite <- !ParseAddr_valid, Heq.
  - apply bool_decide_eq_false, dec_stable in Hv'.
    pose proof (ParseAddr_valid ip Hok Hv) as Hp.
    unfold Addr_String in Heq at 2. rewrite Hv' in Heq. by rewrite Heq in Hp.
  - apply bool_decide_eq_false, dec_stable in Hv.
    pose proof (ParseAddr_valid ip' Hok' Hv') as Hp.
    unfold Addr_String in Heq at 1. rewrite Hv in Heq. by rewrite <- Heq in Hp.
  - apply bool_decide_eq_false, dec_stable in Hv, Hv'.
    unfold Addr_ok in Hok, Hok'. rewrite Hv in Hok. rewrite Hv' in Hok'.
    apply Addr_ext; [lia..|congruence].
Qed.

(** C21: reading the text of an address gives the address back: the
    reader accepts what [String] writes for every valid address, of either
    family, IPv4-mapped or not, with or without a zone, and returns that
    address; the text of the zero [Addr] is no address. *)
Theorem ParseAddr_String (ip : Addr) :
  Addr_ok ip →
  ParseAddr (Addr_String ip) = if IsValid ip then Some ip else None.
Proof.
  intros Hok. destruct (IsValid ip) eqn:Hv; [by apply ParseAddr_valid|].
  apply bool_decide_eq_false, dec_stable in Hv.
  unfold Addr_String. by rewrite Hv.
Qed.

Lemma ParseAddr_String_witness :
  ParseAddr (Addr_String (mkAddr 0x20010db800000000 0x1000000000001
                            (z6zone "eth0")))
  = Some (mkAddr 0x20010db800000000 0x1000000000001 (z6zone "eth0")).
Proof.
  apply (ParseAddr_String
           (mkAddr 0x20010db800000000 0x1000000000001 (z6zone "eth0"))).
  unfold Addr_ok. cbn. split_and!; done || lia.
Defined.
