(* ===== verification/NetipRun.v ===== *)
(** * NetipRun: the groups that [::] stands for

    The first loop of [appendTo6] chooses the groups of an IPv6 address
    that the text leaves out.  File [NetipParse] shows that the groups it
    chooses are zero, which is what the round trip needs.  This file shows
    which groups it chooses, as the canonical text of an address requires:
    the longest run of at least two zero groups, the first of them when
    several are as long, and none when no two neighbouring groups are
    zero.

    The proof is the invariant of the loop ([best]): after the turns for
    the groups before [i], the run found is the first longest among the
    runs that start before [i]. *)

From Stdlib Require Import ZArith String List Lia.
From stdpp Require Import base tactics decidable option list strings.
From S2P Require Import Prelude Bytes Netip GoStrings NetipString NetipParse.

#[local] Open Scope Z_scope.

(** ** Runs of zero groups *)

(** The groups from [a] up to [b], [b] not included, are zero. *)
Definition zero_groups (ip : Addr) (a b : Z) : Prop :=
  ∀ k, a ≤ k < b → v6u16 ip k = 0.

(** The length of the run of zero groups that starts at [k]. *)
Definition run_length (ip : Addr) (k : Z) : Z := zero_run 8 ip k - k.

(** What the text of an address leaves out: nothing, as [(255, 255)],
    when no two neighbouring groups are zero; otherwise a run of at
    least two zero groups than which none is longer, and which starts
    before every other run as long. *)
Definition compressed (ip : Addr) (zero : Z * Z) : Prop :=
  if decide (zero = (255, 255)) then
    ∀ a, 0 ≤ a → a + 2 ≤ 8 → ¬ zero_groups ip a (a + 2)
  else
    0 ≤ zero.1 ∧ zero.1 + 2 ≤ zero.2 ≤ 8 ∧ zero_groups ip zero.1 zero.2 ∧
    ∀ a b, 0 ≤ a → a ≤ b ≤ 8 → zero_groups ip a b →
      b - a ≤ zero.2 - zero.1 ∧ (b - a = zero.2 - zero.1 → zero.1 ≤ a).

(** The invariant of the loop, at the turn for group [i]. *)
Definition best (ip : Addr) (i : Z) (zero : Z * Z) : Prop :=
  (zero = (255, 255) ∧ ∀ k, 0 ≤ k < i → run_length ip k < 2) ∨
  (0 ≤ zero.1 < i ∧ zero.2 = zero_run 8 ip zero.1 ∧
   2 ≤ run_length ip zero.1 ∧
   (∀ k, 0 ≤ k < i → run_length ip k ≤ run_length ip zero.1) ∧
   (∀ k, 0 ≤ k < zero.1 → run_length ip k < run_length ip zero.1)).

(** Addresses with two runs as long, with runs of different lengths, and
    with single zero groups only. *)
Definition ip_two_runs : Addr :=
  addr6 0x20010db800000000 0x0001000000000001.
Definition ip_late_run : Addr :=
  addr6 0x0001000000000002 0x0000000000000003.
Definition ip_single_zeros : Addr :=
  addr6 0x0001000000020000 0x0003000000040000.

Section run.
Context (ip : Addr).

(** ** The inner loop stops at a group that is not zero *)

Lemma zero_run_stop (fuel : nat) (j : Z) :
  0 ≤ j → 8 - j ≤ Z.of_nat fuel → zero_run fuel ip j < 8 →
  v6u16 ip (zero_run fuel ip j) ≠ 0.
Proof.
  revert j. induction fuel as [|fuel IH]; intros j Hj Hfuel; cbn [zero_run].
  { lia. }
  destruct (j <? 8) eqn:Hlt; destruct (v6u16 ip j =? 0) eqn:Hz; cbn [andb];
    try lia.
  apply IH; lia.
Qed.

(** A run of zero groups that starts at [a] ends where the inner loop
    stops, or before. *)
Lemma zero_groups_run (a b : Z) :
  0 ≤ a → a ≤ b ≤ 8 → zero_groups ip a b → b - a ≤ run_length ip a.
Proof.
  intros Ha Hb Hz. unfold run_length.
  destruct (zero_run_spec ip 8 a) as (H1 & H2 & _); [cbn; lia..|].
  destruct (decide (b ≤ zero_run 8 ip a)) as [|Hlt]; [lia|].
  destruct (zero_run_stop 8 a); [lia|cbn; lia|lia|]. apply Hz. lia.
Qed.

Lemma run_zero_groups (a : Z) :
  0 ≤ a ≤ 8 → zero_groups ip a (zero_run 8 ip a) ∧ zero_run 8 ip a ≤ 8.
Proof.
  intros Ha. destruct (zero_run_spec ip 8 a) as (_ & H2 & H3); [cbn; lia..|].
  split; [exact H3|lia].
Qed.

(** ** The outer loop keeps the invariant *)

Lemma best_start : best ip 0 (255, 255).
Proof. left. split; [done|]. lia. Qed.

Lemma best_step (i : Z) (zero : Z * Z) :
  0 ≤ i < 8 → best ip i zero →
  best ip (i + 1)
    (if (2 <=? zero_run 8 ip i - i)
        && (zero.2 - zero.1 <? zero_run 8 ip i - i)
     then (i, zero_run 8 ip i) else zero).
Proof.
  intros Hi Hbest. fold (run_length ip i).
  assert (∀ k, 0 ≤ k < i + 1 → k = i ∨ 0 ≤ k < i) as Hk by lia.
  destruct Hbest as [[-> Hnone]|(Hzs & Hze & Hlen & Hmax & Hfirst)].
  - cbn [fst snd]. destruct (2 <=? run_length ip i) eqn:Hl; cbn [andb].
    + apply Z.leb_le in Hl. rewrite (proj2 (Z.ltb_lt _ _)) by lia.
      right. cbn [fst snd]. split_and!; [lia|lia|done|done| |].
      * intros k [->|Hlt]%Hk; [lia|]. specialize (Hnone k Hlt). lia.
      * intros k Hlt. specialize (Hnone k Hlt). lia.
    + apply Z.leb_gt in Hl. left. split; [done|].
      intros k [->|Hlt]%Hk; [done|by apply Hnone].
  - assert (zero.2 - zero.1 = run_length ip zero.1) as ->
      by (unfold run_length; lia).
    destruct (run_length ip zero.1 <? run_length ip i) eqn:Hl.
    + apply Z.ltb_lt in Hl. rewrite (proj2 (Z.leb_le _ _)) by lia.
      right. cbn [andb fst snd]. split_and!; [lia|lia|done|lia| |].
      * intros k [->|Hlt]%Hk; [lia|]. specialize (Hmax k Hlt). lia.
      * intros k Hlt. specialize (Hmax k Hlt). lia.
    + apply Z.ltb_ge in Hl. rewrite andb_false_r.
      right. split_and!; [lia|lia|done|done| |done].
      intros k [->|Hlt]%Hk; [done|by apply Hmax].
Qed.

Lemma longest_run_best (fuel : nat) (i : Z) (zero : Z * Z) :
  0 ≤ i ≤ 8 → 8 - i ≤ Z.of_nat fuel → best ip i zero →
  best ip 8 (longest_run fuel ip i zero).
Proof.
  revert i zero. induction fuel as [|fuel IH]; intros i zero Hi Hfuel Hbest;
    cbn [longest_run].
  { by replace 8 with i by lia. }
  destruct (i <? 8) eqn:Hlt; [|by replace 8 with i by lia].
  apply Z.ltb_lt in Hlt. apply IH; [lia..|]. apply best_step; [lia|done].
Qed.

(** ** At the end of the loop *)

Lemma best_compressed (zero : Z * Z) : best ip 8 zero → compressed ip zero.
Proof.
  unfold compressed.
  intros [[-> Hnone]|(Hzs & Hze & Hlen & Hmax & Hfirst)].
  - rewrite decide_True by done. intros a Ha Ha8 Hz.
    pose proof (zero_groups_run a (a + 2) Ha ltac:(lia) Hz).
    specialize (Hnone a). lia.
  - rewrite decide_False by (intros Heq; rewrite Heq in Hzs; cbn in Hzs; lia).
    destruct (run_zero_groups zero.1) as [Hz H8]; [lia|].
    unfold run_length in Hlen. rewrite <- Hze in *.
    split_and!; [lia..|done|]. intros a b Ha Hb Hab.
    pose proof (zero_groups_run a b Ha Hb Hab) as Hrun.
    assert (zero.2 - zero.1 = run_length ip zero.1) as Heq
      by (unfold run_length; lia).
    destruct (decide (a < 8)) as [Ha8|Ha8].
    + specialize (Hmax a ltac:(lia)). split; [lia|]. intros Hsame.
      destruct (decide (zero.1 ≤ a)) as [|Hlt]; [done|].
      specialize (Hfirst a ltac:(lia)). lia.
    + split; lia.
Qed.

End run.

(** ** Theorems *)

(** The first loop of [appendTo6] finds the groups the canonical text of
    an IPv6 address leaves out: the first of the longest runs of at least
    two zero groups, and no run when no two neighbouring groups are
    zero. *)
Theorem longest_run_first_longest (ip : Addr) :
  compressed ip (longest_run 8 ip 0 (255, 255)).
Proof.
  apply best_compressed, longest_run_best; [lia|cbn; lia|apply best_start].
Qed.

(** Of two runs as long the first is left out; of two runs the longer;
    a single zero group is written. *)
Example longest_run_samples :
  longest_run 8 ip_two_runs 0 (255, 255) = (2, 4) ∧
  Addr_String ip_two_runs = "2001:db8::1:0:0:1"%string ∧
  longest_run 8 ip_late_run 0 (255, 255) = (4, 7) ∧
  Addr_String ip_late_run = "1:0:0:2::3"%string ∧
  longest_run 8 ip_single_zeros 0 (255, 255) = (255, 255) ∧
  Addr_String ip_single_zeros = "1:0:2:0:3:0:4:0"%string.
Proof. by vm_compute. Qed.
