(* ===== verification/Geoip2.v ===== *)
(** * Geoip2: the database library as [geo.go] uses it

    [geo.go] imports [github.com/oschwald/geoip2-golang/v2] and uses four
    things of it: [geoip2.Open], and the methods [Country], [City] and [ASN]
    of the [*geoip2.Reader] it returns.  The library is not part of the
    repository, so nothing here fixes what it answers.  This file gives the
    shape of its answers: the raw records, restricted to the fields that
    [geo.go] reads, a reader as the record of its three queries, and the file
    system as the function from paths to what opening them yields.
    [handle_ok] and [fs_ok] state the library's contract (a call that reports
    no error has a result); theorems that need it take it as a hypothesis. *)

From Stdlib Require Import ZArith List.
From stdpp Require Import base tactics decidable option list strings.
From S2P Require Import Prelude Float64 Netip.

(** ** Raw records *)

(** [geoip2.Names]: localised names; the code reads [English]. *)
Record Names := { Names_English : string }.

(** [geoip2.CountryRecord], for the country and the registered country. *)
Record CountryRecord := {
  CountryRecord_Names : Names;
  CountryRecord_ISOCode : string;
  CountryRecord_IsInEuropeanUnion : bool
}.

(** [geoip2.Country]: the answer of a country database. *)
Record geoip2_Country := {
  geoip2_Country_Country : CountryRecord;
  geoip2_Country_RegisteredCountry : CountryRecord
}.

Record CityRecord := { CityRecord_Names : Names }.

Record CitySubdivision := {
  CitySubdivision_Names : Names;
  CitySubdivision_ISOCode : string
}.

(** [geoip2.Location]: the coordinates are pointers, nil when unknown. *)
Record Location := {
  Location_Latitude : option float64.t;
  Location_Longitude : option float64.t;
  Location_TimeZone : string
}.

Record CityPostal := { CityPostal_Code : string }.

(** [geoip2.City]: the answer of a city database. *)
Record geoip2_City := {
  geoip2_City_City : CityRecord;
  geoip2_City_Subdivisions : list CitySubdivision;
  geoip2_City_Location : Location;
  geoip2_City_Postal : CityPostal
}.

(** [geoip2.ASN]: the answer of an ASN database; the number is a [uint]. *)
Record geoip2_ASN := {
  geoip2_ASN_AutonomousSystemNumber : Z;
  geoip2_ASN_AutonomousSystemOrganization : string
}.

(** ** Readers *)

(** A [*geoip2.Reader] that is not nil: an open database, that is, what it
    answers.  Each query returns a pointer to a record and an error. *)
Record geoip2_Reader := {
  geoip2_Reader_Country : Addr → option geoip2_Country * option error;
  geoip2_Reader_City : Addr → option geoip2_City * option error;
  geoip2_Reader_ASN : Addr → option geoip2_ASN * option error
}.

(** The files of the machine, as [geoip2.Open] sees them. *)
Definition FileSystem : Type := string → option geoip2_Reader * option error.

(** The part of the process state that [geoip2.Open] changes: the paths of
    the databases that are open, in the order they were opened. *)
Definition Opened : Type := list string.

(** [geoip2.Open(path)].  A reader that is returned is open from then on. *)
Definition geoip2_Open (fs : FileSystem) (path : string) :
    stateful Opened (option geoip2_Reader * option error) :=
  λ opened,
    let r := fs path in
    (r, match r.1 with Some _ => opened ++ [path] | None => opened end).

(** ** The library's contract *)

(** A query that reports no error returns a record. *)
Definition query_ok {T : Type} (q : Addr → option T * option error) : Prop :=
  ∀ ip, (q ip).2 = None → is_Some (q ip).1.

Definition handle_ok (r : geoip2_Reader) : Prop :=
  query_ok (geoip2_Reader_Country r) ∧
  query_ok (geoip2_Reader_City r) ∧
  query_ok (geoip2_Reader_ASN r).

(** An ASN database answers with numbers that fit a [uint]. *)
Definition asn_in_range (r : geoip2_Reader) : Prop :=
  ∀ ip rec, (geoip2_Reader_ASN r ip).1 = Some rec →
    uint_ok (geoip2_ASN_AutonomousSystemNumber rec).

(** Opening yields a reader or an error, never both and never neither, and
    the readers it yields keep the contract. *)
Definition fs_ok (fs : FileSystem) : Prop :=
  ∀ path,
    match fs path with
    | (Some r, None) => handle_ok r
    | (None, Some _) => True
    | _ => False
    end.

(** ** Zero values of the raw records *)

#[export] Instance Names_zero : Zero Names := {| Names_English := zero |}.
#[export] Instance CountryRecord_zero : Zero CountryRecord :=
  {| CountryRecord_Names := zero; CountryRecord_ISOCode := zero;
     CountryRecord_IsInEuropeanUnion := zero |}.
#[export] Instance geoip2_Country_zero : Zero geoip2_Country :=
  {| geoip2_Country_Country := zero; geoip2_Country_RegisteredCountry := zero |}.
#[export] Instance CityRecord_zero : Zero CityRecord :=
  {| CityRecord_Names := zero |}.
#[export] Instance Location_zero : Zero Location :=
  {| Location_Latitude := zero; Location_Longitude := zero;
     Location_TimeZone := zero |}.
#[export] Instance CityPostal_zero : Zero CityPostal :=
  {| CityPostal_Code := zero |}.
#[export] Instance geoip2_City_zero : Zero geoip2_City :=
  {| geoip2_City_City := zero; geoip2_City_Subdivisions := zero;
     geoip2_City_Location := zero; geoip2_City_Postal := zero |}.
#[export] Instance geoip2_ASN_zero : Zero geoip2_ASN :=
  {| geoip2_ASN_AutonomousSystemNumber := zero;
     geoip2_ASN_AutonomousSystemOrganization := zero |}.

(** ** Lemmas *)

Lemma query_ok_deref {T : Type} (q : Addr → option T * option error)
    (ip : Addr) :
  query_ok q → (q ip).2 = None → ∃ rec, (q ip).1 = Some rec.
Proof. intros Hq Herr. by apply Hq. Qed.

Lemma geoip2_Open_result (fs : FileSystem) (path : string) (st : Opened) :
  (geoip2_Open fs path st).1 = fs path.
Proof. done. Qed.

Lemma geoip2_Open_state (fs : FileSystem) (path : string) (st : Opened) :
  (geoip2_Open fs path st).2
  = match (fs path).1 with Some _ => st ++ [path] | None => st end.
Proof. done. Qed.

(** Opening never closes anything: what was open stays open. *)
Lemma geoip2_Open_grows (fs : FileSystem) (path : string) (st : Opened) :
  st `prefix_of` (geoip2_Open fs path st).2.
Proof.
  unfold geoip2_Open; simpl. destruct (fs path).1.
  - by apply prefix_app_r.
  - done.
Qed.

Lemma fs_ok_reader (fs : FileSystem) (path : string) (r : geoip2_Reader) :
  fs_ok fs → (fs path).1 = Some r → handle_ok r ∧ (fs path).2 = None.
Proof.
  intros Hfs Hr. specialize (Hfs path).
  destruct (fs path) as [[r'|] [e|]]; simplify_eq/=; done.
Qed.

#[export] Hint Resolve geoip2_Open_grows : go.
