(* ===== verification/Samples.v ===== *)
(** * Samples: concrete databases, files and addresses

    The inputs at which the theorems of the development are evaluated: two
    addresses, raw records as a database could hold them, one reader per
    kind of database and a file system with three database files.  Nothing
    here models the repository; the theorems hold for every reader and every
    file system. *)

From Stdlib Require Import ZArith List Floats.SpecFloat.
From stdpp Require Import base tactics decidable option list strings.
From S2P Require Import Prelude Float64 Bytes Netip Geoip2.

#[local] Open Scope string_scope.

(** ** Addresses *)

(** 192.0.2.1 *)
Definition ip_a : Addr := AddrFrom4 Byte.xc0 Byte.x00 Byte.x02 Byte.x01.
(** 198.51.100.7 *)
Definition ip_b : Addr := AddrFrom4 Byte.xc6 Byte.x33 Byte.x64 Byte.x07.
(** 203.0.113.9: in no sample database *)
Definition ip_c : Addr := AddrFrom4 Byte.xcb Byte.x00 Byte.x71 Byte.x09.

(** ** Raw records *)

Definition names (en : string) : Names := {| Names_English := en |}.

Definition france : CountryRecord :=
  {| CountryRecord_Names := names "France"; CountryRecord_ISOCode := "FR";
     CountryRecord_IsInEuropeanUnion := true |}.
Definition united_states : CountryRecord :=
  {| CountryRecord_Names := names "United States";
     CountryRecord_ISOCode := "US";
     CountryRecord_IsInEuropeanUnion := false |}.

(** Located in the United States, registered in France. *)
Definition rec_us_fr : geoip2_Country :=
  {| geoip2_Country_Country := united_states;
     geoip2_Country_RegisteredCountry := france |}.
(** No located country; registered in France. *)
Definition rec_none_fr : geoip2_Country :=
  {| geoip2_Country_Country := zero;
     geoip2_Country_RegisteredCountry := france |}.

Definition subdivision (en code : string) : CitySubdivision :=
  {| CitySubdivision_Names := names en; CitySubdivision_ISOCode := code |}.

(** A city with two subdivisions, a NaN latitude and no longitude. *)
Definition rec_lyon : geoip2_City :=
  {| geoip2_City_City := {| CityRecord_Names := names "Lyon" |};
     geoip2_City_Subdivisions :=
       [subdivision "Auvergne-Rhone-Alpes" "ARA"; subdivision "Rhone" "69"];
     geoip2_City_Location :=
       {| Location_Latitude := Some S754_nan; Location_Longitude := None;
          Location_TimeZone := "Europe/Paris" |};
     geoip2_City_Postal := {| CityPostal_Code := "69001" |} |}.

(** A city without subdivision, at 48 degrees north, 2 degrees east. *)
Definition rec_paris : geoip2_City :=
  {| geoip2_City_City := {| CityRecord_Names := names "Paris" |};
     geoip2_City_Subdivisions := [];
     geoip2_City_Location :=
       {| Location_Latitude := Some (float64.of_Z 48);
          Location_Longitude := Some (float64.of_Z 2);
          Location_TimeZone := "Europe/Paris" |};
     geoip2_City_Postal := {| CityPostal_Code := "" |} |}.

Definition rec_as64500 : geoip2_ASN :=
  {| geoip2_ASN_AutonomousSystemNumber := 64500;
     geoip2_ASN_AutonomousSystemOrganization := "Example Net" |}.
(** The reserved number zero, with a name. *)
Definition rec_as0 : geoip2_ASN :=
  {| geoip2_ASN_AutonomousSystemNumber := 0;
     geoip2_ASN_AutonomousSystemOrganization := "Reserved" |}.

(** ** Readers *)

Definition wrong_kind {T : Type} : Addr → option T * option error :=
  λ _, (None, Some (Err "invalid method for this database")).

Definition lookup2 {T : Type} (a b : T) : Addr → option T * option error :=
  λ ip,
    if decide (ip = ip_a) then (Some a, None)
    else if decide (ip = ip_b) then (Some b, None)
    else (None, Some (Err "address not in database")).

Definition db_country : geoip2_Reader :=
  {| geoip2_Reader_Country := lookup2 rec_us_fr rec_none_fr;
     geoip2_Reader_City := wrong_kind; geoip2_Reader_ASN := wrong_kind |}.
Definition db_city : geoip2_Reader :=
  {| geoip2_Reader_Country := wrong_kind;
     geoip2_Reader_City := lookup2 rec_lyon rec_paris;
     geoip2_Reader_ASN := wrong_kind |}.
Definition db_asn : geoip2_Reader :=
  {| geoip2_Reader_Country := wrong_kind; geoip2_Reader_City := wrong_kind;
     geoip2_Reader_ASN := lookup2 rec_as64500 rec_as0 |}.

(** ** Files *)

Definition sample_fs : FileSystem :=
  λ path,
    if decide (path = "country.mmdb") then (Some db_country, None)
    else if decide (path = "city.mmdb") then (Some db_city, None)
    else if decide (path = "asn.mmdb") then (Some db_asn, None)
    else (None, Some (Err "no such file")).

(** ** The samples keep the library's contract *)

Lemma lookup2_ok {T : Type} (a b : T) : query_ok (lookup2 a b).
Proof. intros ip. unfold lookup2. by repeat case_decide. Qed.

Lemma wrong_kind_ok {T : Type} : query_ok (@wrong_kind T).
Proof. by intros ip. Qed.

Lemma db_country_ok : handle_ok db_country.
Proof. repeat split; (apply lookup2_ok || apply wrong_kind_ok). Qed.

Lemma db_city_ok : handle_ok db_city.
Proof. repeat split; (apply lookup2_ok || apply wrong_kind_ok). Qed.

Lemma db_asn_ok : handle_ok db_asn.
Proof. repeat split; (apply lookup2_ok || apply wrong_kind_ok). Qed.

Lemma sample_fs_ok : fs_ok sample_fs.
Proof.
  intros path. unfold sample_fs.
  repeat case_decide; auto using db_country_ok, db_city_ok, db_asn_ok.
Qed.

#[export] Hint Resolve db_country_ok db_city_ok db_asn_ok sample_fs_ok : go.
