(* ===== verification/Geo.v ===== *)
(** * Geo: package [geo] ([src/iputil/geo/geo.go])

    The data types [Country], [City], [ASN] and [geoip], the interface
    [Reader] and the four methods of [*geoip], each translated statement
    by statement (the constructor [Open] is in file [GeoOpen]).  A field assignment [x.F = v] is the
    setter [set_T_F v]; an [if cond { x.F = v }] is [when cond (set_T_F v)].
    Every read through the pointer a query returned goes through [deref],
    every [s[0]] through [index], so that the absence of panics is proved
    and not assumed.

    The theorems give, for each lookup, the result on each of its three
    paths (source absent, query failed, query answered), the properties of
    the merge that the specification names, the pairing of errors with zero
    records and the absence of panics under the library's contract; for
    [IsEmpty], that it looks at the country and city sources only. *)

From Stdlib Require Import ZArith List Floats.SpecFloat.
From stdpp Require Import base tactics decidable option list strings.
From S2P Require Import Prelude Float64 Netip Geoip2 Samples.

(** ** Data *)

Record Country := {
  Country_Name : string;
  Country_ISO : string;
  Country_IsEU : option bool      (* *bool *)
}.

Record City := {
  City_Name : string;
  City_Latitude : float64.t;
  City_Longitude : float64.t;
  City_PostalCode : string;
  City_Timezone : string;
  City_RegionName : string;
  City_RegionCode : string
}.

Record ASN := {
  ASN_AutonomousSystemNumber : Z;  (* uint *)
  ASN_AutonomousSystemOrganization : string
}.

(** The struct behind the interface: three readers, each possibly nil. *)
Record geoip := {
  geoip_country : option geoip2_Reader;
  geoip_city : option geoip2_Reader;
  geoip_asn : option geoip2_Reader
}.

(** The interface [Reader]: what a client may call. *)
Class Reader (R : Type) := {
  Reader_Country : R → Addr → run (Country * option error);
  Reader_City : R → Addr → run (City * option error);
  Reader_ASN : R → Addr → run (ASN * option error);
  Reader_IsEmpty : R → bool
}.

#[export] Instance Country_eq_dec : EqDecision Country.
Proof. solve_decision. Defined.
#[export] Instance City_eq_dec : EqDecision City.
Proof. solve_decision. Defined.
#[export] Instance ASN_eq_dec : EqDecision ASN.
Proof. solve_decision. Defined.

(** The composite literals [Country{}], [City{}] and [ASN{}]. *)
#[export] Instance Country_zero : Zero Country :=
  {| Country_Name := zero; Country_ISO := zero; Country_IsEU := zero |}.
#[export] Instance City_zero : Zero City :=
  {| City_Name := zero; City_Latitude := zero; City_Longitude := zero;
     City_PostalCode := zero; City_Timezone := zero;
     City_RegionName := zero; City_RegionCode := zero |}.
#[export] Instance ASN_zero : Zero ASN :=
  {| ASN_AutonomousSystemNumber := zero;
     ASN_AutonomousSystemOrganization := zero |}.

(** ** Field assignments *)

Definition set_Country_Name (v : string) (c : Country) : Country :=
  {| Country_Name := v; Country_ISO := c.(Country_ISO);
     Country_IsEU := c.(Country_IsEU) |}.
Definition set_Country_ISO (v : string) (c : Country) : Country :=
  {| Country_Name := c.(Country_Name); Country_ISO := v;
     Country_IsEU := c.(Country_IsEU) |}.
Definition set_Country_IsEU (v : option bool) (c : Country) : Country :=
  {| Country_Name := c.(Country_Name); Country_ISO := c.(Country_ISO);
     Country_IsEU := v |}.

Definition set_City_Name (v : string) (c : City) : City :=
  {| City_Name := v; City_Latitude := c.(City_Latitude);
     City_Longitude := c.(City_Longitude);
     City_PostalCode := c.(City_PostalCode);
     City_Timezone := c.(City_Timezone);
     City_RegionName := c.(City_RegionName);
     City_RegionCode := c.(City_RegionCode) |}.
Definition set_City_Latitude (v : float64.t) (c : City) : City :=
  {| City_Name := c.(City_Name); City_Latitude := v;
     City_Longitude := c.(City_Longitude);
     City_PostalCode := c.(City_PostalCode);
     City_Timezone := c.(City_Timezone);
     City_RegionName := c.(City_RegionName);
     City_RegionCode := c.(City_RegionCode) |}.
Definition set_City_Longitude (v : float64.t) (c : City) : City :=
  {| City_Name := c.(City_Name); City_Latitude := c.(City_Latitude);
     City_Longitude := v;
     City_PostalCode := c.(City_PostalCode);
     City_Timezone := c.(City_Timezone);
     City_RegionName := c.(City_RegionName);
     City_RegionCode := c.(City_RegionCode) |}.
Definition set_City_PostalCode (v : string) (c : City) : City :=
  {| City_Name := c.(City_Name); City_Latitude := c.(City_Latitude);
     City_Longitude := c.(City_Longitude);
     City_PostalCode := v;
     City_Timezone := c.(City_Timezone);
     City_RegionName := c.(City_RegionName);
     City_RegionCode := c.(City_RegionCode) |}.
Definition set_City_Timezone (v : string) (c : City) : City :=
  {| City_Name := c.(City_Name); City_Latitude := c.(City_Latitude);
     City_Longitude := c.(City_Longitude);
     City_PostalCode := c.(City_PostalCode);
     City_Timezone := v;
     City_RegionName := c.(City_RegionName);
     City_RegionCode := c.(City_RegionCode) |}.
Definition set_City_RegionName (v : string) (c : City) : City :=
  {| City_Name := c.(City_Name); City_Latitude := c.(City_Latitude);
     City_Longitude := c.(City_Longitude);
     City_PostalCode := c.(City_PostalCode);
     City_Timezone := c.(City_Timezone);
     City_RegionName := v;
     City_RegionCode := c.(City_RegionCode) |}.
Definition set_City_RegionCode (v : string) (c : City) : City :=
  {| City_Name := c.(City_Name); City_Latitude := c.(City_Latitude);
     City_Longitude := c.(City_Longitude);
     City_PostalCode := c.(City_PostalCode);
     City_Timezone := c.(City_Timezone);
     City_RegionName := c.(City_RegionName);
     City_RegionCode := v |}.

Definition set_ASN_AutonomousSystemNumber (v : Z) (a : ASN) : ASN :=
  {| ASN_AutonomousSystemNumber := v;
     ASN_AutonomousSystemOrganization :=
       a.(ASN_AutonomousSystemOrganization) |}.
Definition set_ASN_AutonomousSystemOrganization (v : string) (a : ASN) : ASN :=
  {| ASN_AutonomousSystemNumber := a.(ASN_AutonomousSystemNumber);
     ASN_AutonomousSystemOrganization := v |}.

(** ** The lookups *)

(** [(g *geoip) Country(ip)]. *)
Definition geoip_Country (g : geoip) (ip : Addr) :
    run (Country * option error) :=
  let country : Country := zero in
  match g.(geoip_country) with
  | None => mret (country, nil)
  | Some db =>
    let '(record, err) := db.(geoip2_Reader_Country) ip in
    match err with
    | Some e => mret (country, Some e)
    | None =>
      record ← deref record;
      let country :=
        when (nonempty
                record.(geoip2_Country_Country).(CountryRecord_Names)
                      .(Names_English))
          (set_Country_Name
             record.(geoip2_Country_Country).(CountryRecord_Names)
                   .(Names_English))
          country in
      let country :=
        when (nonempty
                record.(geoip2_Country_RegisteredCountry)
                      .(CountryRecord_Names).(Names_English)
              && isempty country.(Country_Name))
          (set_Country_Name
             record.(geoip2_Country_RegisteredCountry)
                   .(CountryRecord_Names).(Names_English))
          country in
      let country :=
        when (nonempty
                record.(geoip2_Country_Country).(CountryRecord_ISOCode))
          (set_Country_ISO
             record.(geoip2_Country_Country).(CountryRecord_ISOCode))
          country in
      let country :=
        when (nonempty
                record.(geoip2_Country_RegisteredCountry)
                      .(CountryRecord_ISOCode)
              && isempty country.(Country_ISO))
          (set_Country_ISO
             record.(geoip2_Country_RegisteredCountry)
                   .(CountryRecord_ISOCode))
          country in
      let isEU :=
        record.(geoip2_Country_Country).(CountryRecord_IsInEuropeanUnion)
        || record.(geoip2_Country_RegisteredCountry)
                 .(CountryRecord_IsInEuropeanUnion) in
      let country := set_Country_IsEU (Some isEU) country in
      mret (country, nil)
    end
  end.

(** A coordinate of the record: [p != nil && !math.IsNaN( *p )]. *)
Definition usable (p : option float64.t) : run bool :=
  and_then (negb (is_nil p)) (v ← deref p; mret (negb (float64.IsNaN v))).

(** [(g *geoip) City(ip)]. *)
Definition geoip_City (g : geoip) (ip : Addr) : run (City * option error) :=
  let city : City := zero in
  match g.(geoip_city) with
  | None => mret (city, nil)
  | Some db =>
    let '(record, err) := db.(geoip2_Reader_City) ip in
    match err with
    | Some e => mret (city, Some e)
    | None =>
      record ← deref record;
      let city :=
        when (nonempty
                record.(geoip2_City_City).(CityRecord_Names).(Names_English))
          (set_City_Name
             record.(geoip2_City_City).(CityRecord_Names).(Names_English))
          city in
      city ←
        (if (0 <? length record.(geoip2_City_Subdivisions))%nat then
           s ← index record.(geoip2_City_Subdivisions) 0;
           city ←
             (if nonempty s.(CitySubdivision_Names).(Names_English) then
                s ← index record.(geoip2_City_Subdivisions) 0;
                mret (set_City_RegionName
                        s.(CitySubdivision_Names).(Names_English) city)
              else mret city);
           s ← index record.(geoip2_City_Subdivisions) 0;
           (if nonempty s.(CitySubdivision_ISOCode) then
              s ← index record.(geoip2_City_Subdivisions) 0;
              mret (set_City_RegionCode s.(CitySubdivision_ISOCode) city)
            else mret city)
         else mret city);
      lat_ok ← usable record.(geoip2_City_Location).(Location_Latitude);
      city ←
        (if lat_ok : bool then
           v ← deref record.(geoip2_City_Location).(Location_Latitude);
           mret (set_City_Latitude v city)
         else mret city);
      lon_ok ← usable record.(geoip2_City_Location).(Location_Longitude);
      city ←
        (if lon_ok : bool then
           v ← deref record.(geoip2_City_Location).(Location_Longitude);
           mret (set_City_Longitude v city)
         else mret city);
      let city :=
        when (nonempty record.(geoip2_City_Postal).(CityPostal_Code))
          (set_City_PostalCode record.(geoip2_City_Postal).(CityPostal_Code))
          city in
      let city :=
        when (nonempty record.(geoip2_City_Location).(Location_TimeZone))
          (set_City_Timezone
             record.(geoip2_City_Location).(Location_TimeZone))
          city in
      mret (city, nil)
    end
  end.

(** [(g *geoip) ASN(ip)]. *)
Definition geoip_ASN (g : geoip) (ip : Addr) : run (ASN * option error) :=
  let asn : ASN := zero in
  match g.(geoip_asn) with
  | None => mret (asn, nil)
  | Some db =>
    let '(record, err) := db.(geoip2_Reader_ASN) ip in
    match err with
    | Some e => mret (asn, Some e)
    | None =>
      record ← deref record;
      let asn :=
        when (0 <? record.(geoip2_ASN_AutonomousSystemNumber))%Z
          (set_ASN_AutonomousSystemNumber
             record.(geoip2_ASN_AutonomousSystemNumber))
          asn in
      let asn :=
        when (nonempty record.(geoip2_ASN_AutonomousSystemOrganization))
          (set_ASN_AutonomousSystemOrganization
             record.(geoip2_ASN_AutonomousSystemOrganization))
          asn in
      mret (asn, nil)
    end
  end.

(** [(g *geoip) IsEmpty()]. *)
Definition geoip_IsEmpty (g : geoip) : bool :=
  is_nil g.(geoip_country) && is_nil g.(geoip_city).

(** [*geoip] implements [Reader]. *)
#[export] Instance geoip_Reader : Reader geoip := {|
  Reader_Country := geoip_Country;
  Reader_City := geoip_City;
  Reader_ASN := geoip_ASN;
  Reader_IsEmpty := geoip_IsEmpty
|}.

(** ** What the contract prescribes for one field *)

(** A coordinate the database gives: nil and NaN become zero. *)
Definition coordinate_or_zero (p : option float64.t) : float64.t :=
  match p with
  | Some v => if float64.IsNaN v then zero else v
  | None => zero
  end.

(** The first element's field, or the empty string for an empty slice. *)
Definition first_or_empty {T : Type} (f : T → string) (s : list T) : string :=
  match s with
  | x :: _ => f x
  | [] => ""%string
  end.

(** The three readers of a [geoip] keep the library's contract. *)
Definition geoip_ok (g : geoip) : Prop :=
  (∀ db, g.(geoip_country) = Some db → handle_ok db) ∧
  (∀ db, g.(geoip_city) = Some db → handle_ok db) ∧
  (∀ db, g.(geoip_asn) = Some db → handle_ok db).

(** A sample [geoip] with all three sources, and one without any. *)
Definition sample_geoip : geoip :=
  {| geoip_country := Some db_country; geoip_city := Some db_city;
     geoip_asn := Some db_asn |}.
Definition empty_geoip : geoip :=
  {| geoip_country := None; geoip_city := None; geoip_asn := None |}.

Lemma sample_geoip_ok : geoip_ok sample_geoip.
Proof. unfold geoip_ok. split_and!; intros db [= <-]; auto with go. Qed.

(** ** [Country] *)

Section country.
Context (g : geoip) (ip : Addr).

(** No country source: the zero record and no error. *)
Lemma geoip_Country_absent :
  g.(geoip_country) = None → geoip_Country g ip = Normal (zero, nil).
Proof. intros Hg. unfold geoip_Country. by rewrite Hg. Qed.

(** The query failed: the zero record and the query's error. *)
Lemma geoip_Country_failed db record e :
  g.(geoip_country) = Some db →
  db.(geoip2_Reader_Country) ip = (record, Some e) →
  geoip_Country g ip = Normal (zero, Some e).
Proof. intros Hg Hq. unfold geoip_Country. by rewrite Hg, Hq. Qed.

(** The query reported no error and returned no record: the first read
    through the nil pointer panics. *)
Lemma geoip_Country_nil_record db :
  g.(geoip_country) = Some db →
  db.(geoip2_Reader_Country) ip = (None, None) →
  geoip_Country g ip = Panic NilDereference.
Proof. intros Hg Hq. unfold geoip_Country. by rewrite Hg, Hq. Qed.

(** The query answered: the merged record, field by field. *)
Lemma geoip_Country_answered db record :
  g.(geoip_country) = Some db →
  db.(geoip2_Reader_Country) ip = (Some record, None) →
  geoip_Country g ip =
    Normal
      ({| Country_Name :=
            if nonempty record.(geoip2_Country_Country)
                              .(CountryRecord_Names).(Names_English)
            then record.(geoip2_Country_Country)
                       .(CountryRecord_Names).(Names_English)
            else record.(geoip2_Country_RegisteredCountry)
                       .(CountryRecord_Names).(Names_English);
          Country_ISO :=
            if nonempty record.(geoip2_Country_Country)
                              .(CountryRecord_ISOCode)
            then record.(geoip2_Country_Country).(CountryRecord_ISOCode)
            else record.(geoip2_Country_RegisteredCountry)
                       .(CountryRecord_ISOCode);
          Country_IsEU :=
            Some (record.(geoip2_Country_Country)
                        .(CountryRecord_IsInEuropeanUnion)
                  || record.(geoip2_Country_RegisteredCountry)
                           .(CountryRecord_IsInEuropeanUnion)) |},
       nil).
Proof.
  intros Hg Hq. unfold geoip_Country. rewrite Hg, Hq.
  destruct record as [[[cen] ciso ceu] [[ren] riso reu]]. simpl. go_crush.
Qed.

(** Every outcome of [Country] is one of the four above. *)
Lemma geoip_Country_cases :
  (g.(geoip_country) = None ∧ geoip_Country g ip = Normal (zero, nil)) ∨
  (∃ db record e, g.(geoip_country) = Some db ∧
     db.(geoip2_Reader_Country) ip = (record, Some e) ∧
     geoip_Country g ip = Normal (zero, Some e)) ∨
  (∃ db, g.(geoip_country) = Some db ∧
     db.(geoip2_Reader_Country) ip = (None, None) ∧
     geoip_Country g ip = Panic NilDereference) ∨
  (∃ db record c, g.(geoip_country) = Some db ∧
     db.(geoip2_Reader_Country) ip = (Some record, None) ∧
     geoip_Country g ip = Normal (c, nil) ∧ c.(Country_IsEU) ≠ None).
Proof.
  destruct (geoip_country g) as [db|] eqn:Hg;
    [|left; eauto using geoip_Country_absent].
  right.
  destruct (geoip2_Reader_Country db ip) as [[record|] [e|]] eqn:Hq.
  - left. exists db, (Some record), e. eauto using geoip_Country_failed.
  - do 2 right. eexists db, record, _. split_and!; [done..| |];
      [by eapply geoip_Country_answered | done].
  - left. exists db, None, e. eauto using geoip_Country_failed.
  - right; left. exists db. eauto using geoip_Country_nil_record.
Qed.

(** An error comes with the zero record. *)
Lemma geoip_Country_error (c : Country) (e : error) :
  geoip_Country g ip = Normal (c, Some e) → c = zero.
Proof.
  destruct geoip_Country_cases
    as [[_ H]|[(?&?&?&_&_&H)|[(?&_&_&H)|(?&?&?&_&_&H&_)]]];
    rewrite H; congruence.
Qed.

(** Under the library's contract the lookup returns. *)
Lemma geoip_Country_safe :
  (∀ db, g.(geoip_country) = Some db → query_ok db.(geoip2_Reader_Country)) →
  panics (geoip_Country g ip) = false.
Proof.
  intros Hok.
  destruct geoip_Country_cases
    as [[_ H]|[(?&?&?&_&_&H)|[(db&Hg&Hq&_)|(?&?&?&_&_&H&_)]]];
    try by rewrite H.
  destruct (Hok db Hg ip) as [? HS]; by rewrite Hq in *.
Qed.

End country.

(** C1: on a successful country query the name is the located country's
    English name when that is not empty, and the registered country's English
    name otherwise (which is the empty string when both are empty). *)
Theorem Country_name_fallback (g : geoip) (ip : Addr) db record :
  g.(geoip_country) = Some db →
  db.(geoip2_Reader_Country) ip = (Some record, None) →
  ∃ c, geoip_Country g ip = Normal (c, nil) ∧
    let located :=
      record.(geoip2_Country_Country).(CountryRecord_Names).(Names_English) in
    let registered :=
      record.(geoip2_Country_RegisteredCountry).(CountryRecord_Names)
            .(Names_English) in
    (located ≠ ""%string → c.(Country_Name) = located) ∧
    (located = ""%string → c.(Country_Name) = registered).
Proof.
  intros Hg Hq. eexists. split; [by eapply geoip_Country_answered|].
  simpl. unfold nonempty. split; intros H; by case_bool_decide.
Qed.

Lemma Country_name_fallback_witness :
  ∃ c, geoip_Country sample_geoip ip_b = Normal (c, nil) ∧
    let located :=
      rec_none_fr.(geoip2_Country_Country).(CountryRecord_Names)
                 .(Names_English) in
    let registered :=
      rec_none_fr.(geoip2_Country_RegisteredCountry).(CountryRecord_Names)
                 .(Names_English) in
    (located ≠ ""%string → c.(Country_Name) = located) ∧
    (located = ""%string → c.(Country_Name) = registered).
Proof.
  apply (Country_name_fallback sample_geoip ip_b db_country rec_none_fr);
    reflexivity.
Defined.

(** On a successful country query the ISO code is the located
    country's code when that is not empty, and the registered country's code
    otherwise. *)
Theorem Country_ISO_fallback (g : geoip) (ip : Addr) db record :
  g.(geoip_country) = Some db →
  db.(geoip2_Reader_Country) ip = (Some record, None) →
  ∃ c, geoip_Country g ip = Normal (c, nil) ∧
    let located := record.(geoip2_Country_Country).(CountryRecord_ISOCode) in
    let registered :=
      record.(geoip2_Country_RegisteredCountry).(CountryRecord_ISOCode) in
    (located ≠ ""%string → c.(Country_ISO) = located) ∧
    (located = ""%string → c.(Country_ISO) = registered).
Proof.
  intros Hg Hq. eexists. split; [by eapply geoip_Country_answered|].
  simpl. unfold nonempty. split; intros H; by case_bool_decide.
Qed.

Lemma Country_ISO_fallback_witness :
  ∃ c, geoip_Country sample_geoip ip_a = Normal (c, nil) ∧
    let located := rec_us_fr.(geoip2_Country_Country).(CountryRecord_ISOCode) in
    let registered :=
      rec_us_fr.(geoip2_Country_RegisteredCountry).(CountryRecord_ISOCode) in
    (located ≠ ""%string → c.(Country_ISO) = located) ∧
    (located = ""%string → c.(Country_ISO) = registered).
Proof.
  apply (Country_ISO_fallback sample_geoip ip_a db_country rec_us_fr);
    reflexivity.
Defined.

(** C12: on a successful country query [IsEU] is not nil and points to the
    disjunction of the two European Union flags of the record. *)
Theorem Country_IsEU_or (g : geoip) (ip : Addr) db record :
  g.(geoip_country) = Some db →
  db.(geoip2_Reader_Country) ip = (Some record, None) →
  ∃ c, geoip_Country g ip = Normal (c, nil) ∧
    c.(Country_IsEU) =
      Some (record.(geoip2_Country_Country)
                  .(CountryRecord_IsInEuropeanUnion)
            || record.(geoip2_Country_RegisteredCountry)
                     .(CountryRecord_IsInEuropeanUnion)).
Proof.
  intros Hg Hq. eexists. split; [by eapply geoip_Country_answered|done].
Qed.

Lemma Country_IsEU_or_witness :
  ∃ c, geoip_Country sample_geoip ip_a = Normal (c, nil) ∧
    c.(Country_IsEU) = Some (false || true).
Proof.
  apply (Country_IsEU_or sample_geoip ip_a db_country rec_us_fr);
    reflexivity.
Defined.

(** C33: whenever [Country] returns an error, the record it returns with it
    is the zero record: there is no partly filled record beside an error. *)
Theorem Country_error_zero (g : geoip) (ip : Addr) (c : Country) (e : error) :
  geoip_Country g ip = Normal (c, Some e) → c = zero.
Proof. apply geoip_Country_error. Qed.

Lemma Country_error_zero_witness :
  {| Country_Name := ""; Country_ISO := ""; Country_IsEU := None |} = zero.
Proof.
  apply (Country_error_zero sample_geoip ip_c _
           (Err "address not in database")).
  reflexivity.
Defined.

(** If the country reader keeps the library's contract (a query
    without error returns a record), [Country] does not panic. *)
Theorem Country_no_panic (g : geoip) (ip : Addr) :
  (∀ db, g.(geoip_country) = Some db →
     query_ok db.(geoip2_Reader_Country)) →
  panics (geoip_Country g ip) = false.
Proof. apply geoip_Country_safe. Qed.

Lemma Country_no_panic_witness :
  panics (geoip_Country sample_geoip ip_c) = false.
Proof.
  apply (Country_no_panic sample_geoip ip_c).
  intros db [= <-]. apply db_country_ok.
Defined.

(** The [IsEU] pointer of the record [Country] returns is set exactly
    when a country source is configured and the query succeeded; without a
    source and on a query error it is nil. *)
Theorem Country_IsEU_set_iff (g : geoip) (ip : Addr) (c : Country)
    (err : option error) :
  geoip_Country g ip = Normal (c, err) →
  (is_Some c.(Country_IsEU) ↔ is_Some g.(geoip_country) ∧ err = None).
Proof.
  destruct (geoip_Country_cases g ip)
    as [[Hg H]|[(?&?&?&Hg&_&H)|[(?&_&_&H)|(?&?&c'&Hg&_&H&HEU)]]];
    rewrite H, ?Hg; intros [= <- <-]; try done.
  - split; [by intros [? ?]|by intros [[? ?] _]].
  - split; [by intros [? ?]|by intros [_ ?]].
  - split; [done|intros _; by destruct (Country_IsEU c')].
Qed.

Lemma Country_IsEU_set_iff_witness :
  is_Some (Some true) ↔ is_Some sample_geoip.(geoip_country) ∧ @None error = None.
Proof.
  apply (Country_IsEU_set_iff sample_geoip ip_a
           {| Country_Name := "United States"; Country_ISO := "US";
              Country_IsEU := Some true |}).
  reflexivity.
Defined.

(** ** [City] *)

Lemma usable_Normal (p : option float64.t) :
  usable p =
    Normal (match p with
            | Some v => negb (float64.IsNaN v)
            | None => false
            end).
Proof. by destruct p. Qed.

Lemma coordinate_or_zero_not_NaN (p : option float64.t) :
  float64.IsNaN (coordinate_or_zero p) = false.
Proof.
  destruct p as [v|]; simpl; [|done].
  by destruct (float64.IsNaN v) eqn:Hv.
Qed.

Lemma coordinate_or_zero_ok (p : option float64.t) :
  (∀ v, p = Some v → float64.ok v = true) →
  float64.ok (coordinate_or_zero p) = true.
Proof.
  intros Hp. destruct p as [v|]; simpl; [|done].
  destruct (float64.IsNaN v); [done|by apply Hp].
Qed.

Section city.
Context (g : geoip) (ip : Addr).

Lemma geoip_City_absent :
  g.(geoip_city) = None → geoip_City g ip = Normal (zero, nil).
Proof. intros Hg. unfold geoip_City. by rewrite Hg. Qed.

Lemma geoip_City_failed db record e :
  g.(geoip_city) = Some db →
  db.(geoip2_Reader_City) ip = (record, Some e) →
  geoip_City g ip = Normal (zero, Some e).
Proof. intros Hg Hq. unfold geoip_City. by rewrite Hg, Hq. Qed.

Lemma geoip_City_nil_record db :
  g.(geoip_city) = Some db →
  db.(geoip2_Reader_City) ip = (None, None) →
  geoip_City g ip = Panic NilDereference.
Proof. intros Hg Hq. unfold geoip_City. by rewrite Hg, Hq. Qed.

(** The query answered: the record [City] builds, field by field. *)
Lemma geoip_City_answered db record :
  g.(geoip_city) = Some db →
  db.(geoip2_Reader_City) ip = (Some record, None) →
  geoip_City g ip =
    Normal
      ({| City_Name :=
            record.(geoip2_City_City).(CityRecord_Names).(Names_English);
          City_Latitude :=
            coordinate_or_zero
              record.(geoip2_City_Location).(Location_Latitude);
          City_Longitude :=
            coordinate_or_zero
              record.(geoip2_City_Location).(Location_Longitude);
          City_PostalCode := record.(geoip2_City_Postal).(CityPostal_Code);
          City_Timezone := record.(geoip2_City_Location).(Location_TimeZone);
          City_RegionName :=
            first_or_empty
              (λ s, s.(CitySubdivision_Names).(Names_English))
              record.(geoip2_City_Subdivisions);
          City_RegionCode :=
            first_or_empty CitySubdivision_ISOCode
              record.(geoip2_City_Subdivisions) |},
       nil).
Proof.
  intros Hg Hq. unfold geoip_City. rewrite Hg, Hq.
  destruct record as [[[name]] subs [lat lon tz] [postal]].
  cbn [deref mbind run_bind geoip2_City_City geoip2_City_Subdivisions
       geoip2_City_Location geoip2_City_Postal CityRecord_Names Names_English
       Location_Latitude Location_Longitude Location_TimeZone CityPostal_Code].
  rewrite !usable_Normal.
  destruct subs as [|[[sn] sc] rest], lat as [lat|], lon as [lon|];
    cbn; unfold coordinate_or_zero;
    repeat (destruct (float64.IsNaN _)); go_crush.
Qed.

(** Every outcome of [City] is one of the four above. *)
Lemma geoip_City_cases :
  (g.(geoip_city) = None ∧ geoip_City g ip = Normal (zero, nil)) ∨
  (∃ db record e, g.(geoip_city) = Some db ∧
     db.(geoip2_Reader_City) ip = (record, Some e) ∧
     geoip_City g ip = Normal (zero, Some e)) ∨
  (∃ db, g.(geoip_city) = Some db ∧
     db.(geoip2_Reader_City) ip = (None, None) ∧
     geoip_City g ip = Panic NilDereference) ∨
  (∃ db record c, g.(geoip_city) = Some db ∧
     db.(geoip2_Reader_City) ip = (Some record, None) ∧
     geoip_City g ip = Normal (c, nil) ∧
     c.(City_Latitude) =
       coordinate_or_zero record.(geoip2_City_Location).(Location_Latitude) ∧
     c.(City_Longitude) =
       coordinate_or_zero record.(geoip2_City_Location).(Location_Longitude)).
Proof.
  destruct (geoip_city g) as [db|] eqn:Hg;
    [|left; eauto using geoip_City_absent].
  right.
  destruct (geoip2_Reader_City db ip) as [[record|] [e|]] eqn:Hq.
  - left. exists db, (Some record), e. eauto using geoip_City_failed.
  - do 2 right. eexists db, record, _. split_and!; [done..| | |];
      [by eapply geoip_City_answered | done..].
  - left. exists db, None, e. eauto using geoip_City_failed.
  - right; left. exists db. eauto using geoip_City_nil_record.
Qed.

(** No coordinate of a returned record is NaN. *)
Lemma geoip_City_not_NaN (c : City) (err : option error) :
  geoip_City g ip = Normal (c, err) →
  float64.IsNaN c.(City_Latitude) = false ∧
  float64.IsNaN c.(City_Longitude) = false.
Proof.
  destruct geoip_City_cases
    as [[_ H]|[(?&?&?&_&_&H)|[(?&_&_&H)|(?&?&c'&_&_&H&Hlat&Hlon)]]];
    rewrite H; intros [= <- <-]; try done.
  rewrite Hlat, Hlon. split; apply coordinate_or_zero_not_NaN.
Qed.

(** An error comes with the zero record. *)
Lemma geoip_City_error (c : City) (e : error) :
  geoip_City g ip = Normal (c, Some e) → c = zero.
Proof.
  destruct geoip_City_cases
    as [[_ H]|[(?&?&?&_&_&H)|[(?&_&_&H)|(?&?&?&_&_&H&_)]]];
    rewrite H; congruence.
Qed.

(** Under the library's contract the lookup returns. *)
Lemma geoip_City_safe :
  (∀ db, g.(geoip_city) = Some db → query_ok db.(geoip2_Reader_City)) →
  panics (geoip_City g ip) = false.
Proof.
  intros Hok.
  destruct geoip_City_cases
    as [[_ H]|[(?&?&?&_&_&H)|[(db&Hg&Hq&_)|(?&?&?&_&_&H&_)]]];
    try by rewrite H.
  destruct (Hok db Hg ip) as [? HS]; by rewrite Hq in *.
Qed.

End city.

(** C2: no coordinate of a record that [City] returns is NaN, whatever
    the database answers. *)
Theorem City_coordinates_not_NaN (g : geoip) (ip : Addr) (c : City)
    (err : option error) :
  geoip_City g ip = Normal (c, err) →
  float64.IsNaN c.(City_Latitude) = false ∧
  float64.IsNaN c.(City_Longitude) = false.
Proof. apply geoip_City_not_NaN. Qed.

Lemma City_coordinates_not_NaN_witness :
  float64.IsNaN (S754_zero false) = false ∧
  float64.IsNaN (S754_zero false) = false.
Proof.
  apply (City_coordinates_not_NaN sample_geoip ip_a
           {| City_Name := "Lyon"; City_Latitude := S754_zero false;
              City_Longitude := S754_zero false; City_PostalCode := "69001";
              City_Timezone := "Europe/Paris";
              City_RegionName := "Auvergne-Rhone-Alpes";
              City_RegionCode := "ARA" |} None).
  reflexivity.
Defined.

(** C35: on a successful city query each coordinate is the database's
    value when the database gives one that is not NaN, and zero when the
    pointer is nil or the value is NaN. *)
Theorem City_coordinates_value (g : geoip) (ip : Addr) db record :
  g.(geoip_city) = Some db →
  db.(geoip2_Reader_City) ip = (Some record, None) →
  ∃ c, geoip_City g ip = Normal (c, nil) ∧
    (∀ v, record.(geoip2_City_Location).(Location_Latitude) = Some v →
          float64.IsNaN v = false → c.(City_Latitude) = v) ∧
    (record.(geoip2_City_Location).(Location_Latitude) = None ∨
     record.(geoip2_City_Location).(Location_Latitude) = Some S754_nan →
       c.(City_Latitude) = zero) ∧
    (∀ v, record.(geoip2_City_Location).(Location_Longitude) = Some v →
          float64.IsNaN v = false → c.(City_Longitude) = v) ∧
    (record.(geoip2_City_Location).(Location_Longitude) = None ∨
     record.(geoip2_City_Location).(Location_Longitude) = Some S754_nan →
       c.(City_Longitude) = zero).
Proof.
  intros Hg Hq. eexists. split; [by eapply geoip_City_answered|]. simpl.
  split_and!; try (intros v -> Hv; simpl; by rewrite Hv);
    by intros [-> | ->].
Qed.

Lemma City_coordinates_value_witness :
  ∃ c, geoip_City sample_geoip ip_b = Normal (c, nil) ∧
    (∀ v, rec_paris.(geoip2_City_Location).(Location_Latitude) = Some v →
          float64.IsNaN v = false → c.(City_Latitude) = v) ∧
    (rec_paris.(geoip2_City_Location).(Location_Latitude) = None ∨
     rec_paris.(geoip2_City_Location).(Location_Latitude) = Some S754_nan →
       c.(City_Latitude) = zero) ∧
    (∀ v, rec_paris.(geoip2_City_Location).(Location_Longitude) = Some v →
          float64.IsNaN v = false → c.(City_Longitude) = v) ∧
    (rec_paris.(geoip2_City_Location).(Location_Longitude) = None ∨
     rec_paris.(geoip2_City_Location).(Location_Longitude) = Some S754_nan →
       c.(City_Longitude) = zero).
Proof.
  apply (City_coordinates_value sample_geoip ip_b db_city rec_paris);
    reflexivity.
Defined.

(** C11: on a successful city query the region name and code are those of
    the first subdivision of the record, and empty when it has none; later
    subdivisions are not read. *)
Theorem City_region_first_subdivision (g : geoip) (ip : Addr) db record :
  g.(geoip_city) = Some db →
  db.(geoip2_Reader_City) ip = (Some record, None) →
  ∃ c, geoip_City g ip = Normal (c, nil) ∧
    match record.(geoip2_City_Subdivisions) with
    | s :: _ =>
        c.(City_RegionName) = s.(CitySubdivision_Names).(Names_English) ∧
        c.(City_RegionCode) = s.(CitySubdivision_ISOCode)
    | [] =>
        c.(City_RegionName) = ""%string ∧ c.(City_RegionCode) = ""%string
    end.
Proof.
  intros Hg Hq. eexists. split; [by eapply geoip_City_answered|]. simpl.
  by destruct (geoip2_City_Subdivisions record).
Qed.

Lemma City_region_first_subdivision_witness :
  ∃ c, geoip_City sample_geoip ip_a = Normal (c, nil) ∧
    match rec_lyon.(geoip2_City_Subdivisions) with
    | s :: _ =>
        c.(City_RegionName) = s.(CitySubdivision_Names).(Names_English) ∧
        c.(City_RegionCode) = s.(CitySubdivision_ISOCode)
    | [] =>
        c.(City_RegionName) = ""%string ∧ c.(City_RegionCode) = ""%string
    end.
Proof.
  apply (City_region_first_subdivision sample_geoip ip_a db_city rec_lyon);
    reflexivity.
Defined.

(** On a successful city query the city name, the postal code and the
    time zone are the strings of the record: the tests for the empty string
    change nothing, because the fields start empty. *)
Theorem City_strings_copied (g : geoip) (ip : Addr) db record :
  g.(geoip_city) = Some db →
  db.(geoip2_Reader_City) ip = (Some record, None) →
  ∃ c, geoip_City g ip = Normal (c, nil) ∧
    c.(City_Name) =
      record.(geoip2_City_City).(CityRecord_Names).(Names_English) ∧
    c.(City_PostalCode) = record.(geoip2_City_Postal).(CityPostal_Code) ∧
    c.(City_Timezone) = record.(geoip2_City_Location).(Location_TimeZone).
Proof.
  intros Hg Hq. eexists. split; [by eapply geoip_City_answered|done].
Qed.

Lemma City_strings_copied_witness :
  ∃ c, geoip_City sample_geoip ip_a = Normal (c, nil) ∧
    c.(City_Name) = "Lyon"%string ∧
    c.(City_PostalCode) = "69001"%string ∧
    c.(City_Timezone) = "Europe/Paris"%string.
Proof.
  apply (City_strings_copied sample_geoip ip_a db_city rec_lyon);
    reflexivity.
Defined.

(** Whenever [City] returns an error, the record it returns with it is
    the zero record. *)
Theorem City_error_zero (g : geoip) (ip : Addr) (c : City) (e : error) :
  geoip_City g ip = Normal (c, Some e) → c = zero.
Proof. apply geoip_City_error. Qed.

Lemma City_error_zero_witness :
  {| City_Name := ""; City_Latitude := S754_zero false;
     City_Longitude := S754_zero false; City_PostalCode := "";
     City_Timezone := ""; City_RegionName := ""; City_RegionCode := "" |}
  = zero.
Proof.
  apply (City_error_zero sample_geoip ip_c _ (Err "address not in database")).
  reflexivity.
Defined.

(** If the city reader keeps the library's contract, [City] does not
    panic: the record pointer is not nil when it is read, [Subdivisions[0]]
    is read only when the slice is not empty, and a coordinate pointer is
    dereferenced only when it is not nil. *)
Theorem City_no_panic (g : geoip) (ip : Addr) :
  (∀ db, g.(geoip_city) = Some db → query_ok db.(geoip2_Reader_City)) →
  panics (geoip_City g ip) = false.
Proof. apply geoip_City_safe. Qed.

Lemma City_no_panic_witness : panics (geoip_City sample_geoip ip_a) = false.
Proof.
  apply (City_no_panic sample_geoip ip_a).
  intros db [= <-]. apply db_city_ok.
Defined.

(** If the coordinates of the database are binary64 values, so are
    the coordinates of every record [City] returns. *)
Theorem City_coordinates_ok (g : geoip) (ip : Addr) (c : City)
    (err : option error) :
  (∀ db record v, g.(geoip_city) = Some db →
     (db.(geoip2_Reader_City) ip).1 = Some record →
     record.(geoip2_City_Location).(Location_Latitude) = Some v ∨
     record.(geoip2_City_Location).(Location_Longitude) = Some v →
     float64.ok v = true) →
  geoip_City g ip = Normal (c, err) →
  float64.ok c.(City_Latitude) = true ∧ float64.ok c.(City_Longitude) = true.
Proof.
  intros Hok.
  destruct (geoip_City_cases g ip)
    as [[_ H]|[(?&?&?&_&_&H)|[(?&_&_&H)|(db&record&c'&Hg&Hq&H&Hlat&Hlon)]]];
    rewrite H; intros [= <- <-]; try done.
  rewrite Hlat, Hlon.
  split; apply coordinate_or_zero_ok; intros v Hv;
    apply (Hok db record v Hg); rewrite ?Hq; auto.
Qed.

Lemma City_coordinates_ok_witness :
  float64.ok (float64.of_Z 48) = true ∧ float64.ok (float64.of_Z 2) = true.
Proof.
  apply (City_coordinates_ok sample_geoip ip_b
           {| City_Name := "Paris"; City_Latitude := float64.of_Z 48;
              City_Longitude := float64.of_Z 2; City_PostalCode := "";
              City_Timezone := "Europe/Paris"; City_RegionName := "";
              City_RegionCode := "" |} None); [|reflexivity].
  intros db record v [= <-] Hq Hv. vm_compute in Hq. injection Hq as <-.
  by destruct Hv as [[= <-]|[= <-]].
Defined.

(** ** [ASN] *)

Section asn.
Context (g : geoip) (ip : Addr).

Lemma geoip_ASN_absent :
  g.(geoip_asn) = None → geoip_ASN g ip = Normal (zero, nil).
Proof. intros Hg. unfold geoip_ASN. by rewrite Hg. Qed.

Lemma geoip_ASN_failed db record e :
  g.(geoip_asn) = Some db →
  db.(geoip2_Reader_ASN) ip = (record, Some e) →
  geoip_ASN g ip = Normal (zero, Some e).
Proof. intros Hg Hq. unfold geoip_ASN. by rewrite Hg, Hq. Qed.

Lemma geoip_ASN_nil_record db :
  g.(geoip_asn) = Some db →
  db.(geoip2_Reader_ASN) ip = (None, None) →
  geoip_ASN g ip = Panic NilDereference.
Proof. intros Hg Hq. unfold geoip_ASN. by rewrite Hg, Hq. Qed.

(** The query answered: the record [ASN] builds. *)
Lemma geoip_ASN_answered db record :
  g.(geoip_asn) = Some db →
  db.(geoip2_Reader_ASN) ip = (Some record, None) →
  geoip_ASN g ip =
    Normal
      ({| ASN_AutonomousSystemNumber :=
            if (0 <? record.(geoip2_ASN_AutonomousSystemNumber))%Z
            then record.(geoip2_ASN_AutonomousSystemNumber) else 0%Z;
          ASN_AutonomousSystemOrganization :=
            record.(geoip2_ASN_AutonomousSystemOrganization) |},
       nil).
Proof.
  intros Hg Hq. unfold geoip_ASN. rewrite Hg, Hq.
  destruct record as [n org]. simpl. go_crush.
Qed.

Lemma geoip_ASN_cases :
  (g.(geoip_asn) = None ∧ geoip_ASN g ip = Normal (zero, nil)) ∨
  (∃ db record e, g.(geoip_asn) = Some db ∧
     db.(geoip2_Reader_ASN) ip = (record, Some e) ∧
     geoip_ASN g ip = Normal (zero, Some e)) ∨
  (∃ db, g.(geoip_asn) = Some db ∧
     db.(geoip2_Reader_ASN) ip = (None, None) ∧
     geoip_ASN g ip = Panic NilDereference) ∨
  (∃ db record a, g.(geoip_asn) = Some db ∧
     db.(geoip2_Reader_ASN) ip = (Some record, None) ∧
     geoip_ASN g ip = Normal (a, nil) ∧
     a.(ASN_AutonomousSystemNumber) =
       Z.max 0 record.(geoip2_ASN_AutonomousSystemNumber)).
Proof.
  destruct (geoip_asn g) as [db|] eqn:Hg;
    [|left; eauto using geoip_ASN_absent].
  right.
  destruct (geoip2_Reader_ASN db ip) as [[record|] [e|]] eqn:Hq.
  - left. exists db, (Some record), e. eauto using geoip_ASN_failed.
  - do 2 right. eexists db, record, _. split_and!; [done..| |];
      [by eapply geoip_ASN_answered | simpl; case_match; lia].
  - left. exists db, None, e. eauto using geoip_ASN_failed.
  - right; left. exists db. eauto using geoip_ASN_nil_record.
Qed.

(** An error comes with the zero record. *)
Lemma geoip_ASN_error (a : ASN) (e : error) :
  geoip_ASN g ip = Normal (a, Some e) → a = zero.
Proof.
  destruct geoip_ASN_cases
    as [[_ H]|[(?&?&?&_&_&H)|[(?&_&_&H)|(?&?&?&_&_&H&_)]]];
    rewrite H; congruence.
Qed.

(** Under the library's contract the lookup returns. *)
Lemma geoip_ASN_safe :
  (∀ db, g.(geoip_asn) = Some db → query_ok db.(geoip2_Reader_ASN)) →
  panics (geoip_ASN g ip) = false.
Proof.
  intros Hok.
  destruct geoip_ASN_cases
    as [[_ H]|[(?&?&?&_&_&H)|[(db&Hg&Hq&_)|(?&?&?&_&_&H&_)]]];
    try by rewrite H.
  destruct (Hok db Hg ip) as [? HS]; by rewrite Hq in *.
Qed.

End asn.

(** C10: on a successful ASN query the AS number is the record's number
    when that is greater than zero and zero otherwise, and the organization
    is the record's. *)
Theorem ASN_number_rule (g : geoip) (ip : Addr) db record :
  g.(geoip_asn) = Some db →
  db.(geoip2_Reader_ASN) ip = (Some record, None) →
  ∃ a, geoip_ASN g ip = Normal (a, nil) ∧
    (0 < record.(geoip2_ASN_AutonomousSystemNumber) →
       a.(ASN_AutonomousSystemNumber) =
         record.(geoip2_ASN_AutonomousSystemNumber))%Z ∧
    (record.(geoip2_ASN_AutonomousSystemNumber) ≤ 0 →
       a.(ASN_AutonomousSystemNumber) = 0)%Z ∧
    a.(ASN_AutonomousSystemOrganization) =
      record.(geoip2_ASN_AutonomousSystemOrganization).
Proof.
  intros Hg Hq. eexists. split; [by eapply geoip_ASN_answered|]. simpl.
  split_and!; [intros H; case_match; lia..|done].
Qed.

Lemma ASN_number_rule_witness :
  ∃ a, geoip_ASN sample_geoip ip_a = Normal (a, nil) ∧
    (0 < 64500 → a.(ASN_AutonomousSystemNumber) = 64500)%Z ∧
    (64500 ≤ 0 → a.(ASN_AutonomousSystemNumber) = 0)%Z ∧
    a.(ASN_AutonomousSystemOrganization) = "Example Net"%string.
Proof.
  apply (ASN_number_rule sample_geoip ip_a db_asn rec_as64500); reflexivity.
Defined.

(** The AS number of every record [ASN] returns fits a [uint], provided
    the numbers of the database do; and when the database's number is a
    [uint] the test against zero changes nothing: the number is copied. *)
Theorem ASN_number_uint (g : geoip) (ip : Addr) (a : ASN)
    (err : option error) :
  (∀ db, g.(geoip_asn) = Some db → asn_in_range db) →
  geoip_ASN g ip = Normal (a, err) →
  uint_ok a.(ASN_AutonomousSystemNumber) ∧
  (∀ db record, g.(geoip_asn) = Some db →
     db.(geoip2_Reader_ASN) ip = (Some record, None) →
     a.(ASN_AutonomousSystemNumber) =
       record.(geoip2_ASN_AutonomousSystemNumber)).
Proof.
  intros Hok.
  destruct (geoip_ASN_cases g ip)
    as [[Hg H]|[(?&?&?&Hg&Hq&H)|[(?&_&_&H)|(db&record&a'&Hg&Hq&H&Hn)]]];
    rewrite H; intros [= <- <-]; (split; [try done|]);
    try (intros db' record' Hg' Hq'; congruence).
  - assert (uint_ok record.(geoip2_ASN_AutonomousSystemNumber)) as Hr
      by (apply (Hok db Hg ip); by rewrite Hq).
    rewrite Hn. unfold uint_ok, uint_bits in *. lia.
  - intros db' record' Hg' Hq'.
    rewrite Hg in Hg'. injection Hg' as <-.
    rewrite Hq in Hq'. injection Hq' as <-.
    assert (uint_ok record.(geoip2_ASN_AutonomousSystemNumber)) as Hr
      by (apply (Hok db Hg ip); by rewrite Hq).
    rewrite Hn. unfold uint_ok, uint_bits in *. lia.
Qed.

Lemma sample_asn_in_range : asn_in_range db_asn.
Proof.
  intros ip rec. cbn. unfold lookup2.
  repeat case_decide; intros [= <-]; by compute.
Qed.

Lemma ASN_number_uint_witness :
  uint_ok 0 ∧
  (∀ db record, sample_geoip.(geoip_asn) = Some db →
     db.(geoip2_Reader_ASN) ip_b = (Some record, None) →
     0%Z = record.(geoip2_ASN_AutonomousSystemNumber)).
Proof.
  apply (ASN_number_uint sample_geoip ip_b
           {| ASN_AutonomousSystemNumber := 0;
              ASN_AutonomousSystemOrganization := "Reserved" |} None);
    [|reflexivity].
  intros db [= <-]. apply sample_asn_in_range.
Defined.

(** Whenever [ASN] returns an error, the record it returns with it is
    the zero record. *)
Theorem ASN_error_zero (g : geoip) (ip : Addr) (a : ASN) (e : error) :
  geoip_ASN g ip = Normal (a, Some e) → a = zero.
Proof. apply geoip_ASN_error. Qed.

Lemma ASN_error_zero_witness :
  {| ASN_AutonomousSystemNumber := 0;
     ASN_AutonomousSystemOrganization := "" |} = zero.
Proof.
  apply (ASN_error_zero sample_geoip ip_c _ (Err "address not in database")).
  reflexivity.
Defined.

(** If the ASN reader keeps the library's contract, [ASN] does not
    panic. *)
Theorem ASN_no_panic (g : geoip) (ip : Addr) :
  (∀ db, g.(geoip_asn) = Some db → query_ok db.(geoip2_Reader_ASN)) →
  panics (geoip_ASN g ip) = false.
Proof. apply geoip_ASN_safe. Qed.

Lemma ASN_no_panic_witness : panics (geoip_ASN sample_geoip ip_a) = false.
Proof.
  apply (ASN_no_panic sample_geoip ip_a).
  intros db [= <-]. apply db_asn_ok.
Defined.

(** ** [IsEmpty] *)

Lemma IsEmpty_iff_aux (g : geoip) :
  geoip_IsEmpty g = true → g.(geoip_country) = None ∧ g.(geoip_city) = None.
Proof.
  unfold geoip_IsEmpty. by rewrite andb_true_iff, !is_nil_true.
Qed.

(** C9: [IsEmpty] is true exactly when neither the country source nor the
    city source is configured. *)
Theorem IsEmpty_iff (g : geoip) :
  geoip_IsEmpty g = true ↔ g.(geoip_country) = None ∧ g.(geoip_city) = None.
Proof.
  unfold geoip_IsEmpty. rewrite andb_true_iff, !is_nil_true. done.
Qed.

(** [IsEmpty] does not depend on the ASN source: a reader with only
    an ASN database is empty. *)
Theorem IsEmpty_ignores_asn (g : geoip) (asn : option geoip2_Reader) :
  geoip_IsEmpty
    {| geoip_country := g.(geoip_country); geoip_city := g.(geoip_city);
       geoip_asn := asn |}
  = geoip_IsEmpty g
  ∧ geoip_IsEmpty
      {| geoip_country := None; geoip_city := None; geoip_asn := asn |}
    = true.
Proof. done. Qed.

(** On an empty reader the country and city lookups return the zero
    record and no error for every address. *)
Theorem IsEmpty_no_geo_data (g : geoip) (ip : Addr) :
  geoip_IsEmpty g = true →
  geoip_Country g ip = Normal (zero, nil) ∧
  geoip_City g ip = Normal (zero, nil).
Proof.
  intros [Hc Hy]%IsEmpty_iff_aux.
  split; [by apply geoip_Country_absent | by apply geoip_City_absent].
Qed.

Lemma IsEmpty_no_geo_data_witness :
  geoip_Country
    {| geoip_country := None; geoip_city := None; geoip_asn := Some db_asn |}
    ip_a = Normal (zero, nil) ∧
  geoip_City
    {| geoip_country := None; geoip_city := None; geoip_asn := Some db_asn |}
    ip_a = Normal (zero, nil).
Proof.
  apply (IsEmpty_no_geo_data
           {| geoip_country := None; geoip_city := None;
              geoip_asn := Some db_asn |} ip_a).
  reflexivity.
Defined.
