(* ===== verification/GeoOpen.v ===== *)
(** * GeoOpen: the constructor [Open] of package [geo]

    [Open] is the one operation of the package that changes the state of the
    process: it opens up to three database files.  It is translated
    statement by statement, with the early returns as the monad
    [fallible] of file [Prelude].  [opens] is its
    specification: which files are opened and which error, if any, ends the
    construction, as a recursion over the paths in the order country, city,
    ASN.  The theorems show that [Open] implements it, that a reader is
    returned exactly when there is no error, that the readers of a [geoip]
    built from a well-behaved file system keep the library's contract, and
    what is left open when the construction fails. *)

From Stdlib Require Import ZArith List.
From stdpp Require Import base tactics decidable option list strings.
From S2P Require Import Prelude Float64 Netip Geoip2 Samples Geo.

(** ** The constructor *)

(** The zero value of the interface type [Reader] is the nil interface. *)
#[export] Instance Reader_value_zero : Zero (option geoip) := None.

(** [Open(countryDB, cityDB, asnDB)].  Each named database is opened in
    turn; the first failure ends the function with [nil, err]. *)
Definition Open (fs : FileSystem) (countryDB cityDB asnDB : string) :
    stateful Opened (option geoip * option error) :=
  or_return (
    let country : option geoip2_Reader := nil in
    let city : option geoip2_Reader := nil in
    let asn : option geoip2_Reader := nil in
    country ←
      (if nonempty countryDB
       then r ← try (geoip2_Open fs countryDB); mret r
       else mret country);
    city ←
      (if nonempty cityDB
       then r ← try (geoip2_Open fs cityDB); mret r
       else mret city);
    asn ←
      (if nonempty asnDB
       then r ← try (geoip2_Open fs asnDB); mret r
       else mret asn);
    mret (Some {| geoip_country := country; geoip_city := city;
                  geoip_asn := asn |})).

(** ** Specification *)

(** The paths that get opened, in order, and the error that stops the
    construction: an empty path is skipped, a path that fails to open ends
    the walk. *)
Fixpoint opens (fs : FileSystem) (paths : list string) :
    list string * option error :=
  match paths with
  | [] => ([], None)
  | p :: rest =>
      if nonempty p then
        match (fs p).2 with
        | Some e => ([], Some e)
        | None => let '(o, e) := opens fs rest in (p :: o, e)
        end
      else opens fs rest
  end.

(** The reader [Open] stores for a path. *)
Definition reader_for (fs : FileSystem) (path : string) :
    option geoip2_Reader :=
  if nonempty path then (fs path).1 else None.

(** ** One step of [Open] *)

Section step.
Context (fs : FileSystem).

(** The block [if path != "" { r, err := geoip2.Open(path); if err != nil
    { return nil, err }; x = r }], on a file system that returns a reader
    exactly when it returns no error. *)
Lemma open_step (path : string) (st : Opened) :
  (match fs path with (Some _, None) | (None, Some _) => True | _ => False
   end) →
  (if nonempty path
   then r ← try (geoip2_Open fs path); mret r
   else mret (None : option geoip2_Reader)) st
  = if nonempty path then
      match (fs path).2 with
      | Some e => (inl e, st)
      | None => (inr (fs path).1, st ++ [path])
      end
    else (inr None, st).
Proof.
  intros Hfs. unfold try, geoip2_Open, mbind, fallible_bind, mret, fallible_ret.
  destruct (nonempty path); [|done].
  by destruct (fs path) as [[r|] [e|]].
Qed.

(** The same block on any file system. *)
Lemma open_step_any (path : string) (st : Opened) :
  (if nonempty path
   then r ← try (geoip2_Open fs path); mret r
   else mret (None : option geoip2_Reader)) st
  = if nonempty path then
      match (fs path).2 with
      | Some e => (inl e, (geoip2_Open fs path st).2)
      | None => (inr (fs path).1, (geoip2_Open fs path st).2)
      end
    else (inr None, st).
Proof.
  unfold try, geoip2_Open, mbind, fallible_bind, mret, fallible_ret.
  destruct (nonempty path); [|done].
  by destruct (fs path) as [[r|] [e|]].
Qed.

End step.

Lemma fs_ok_shape (fs : FileSystem) (path : string) :
  fs_ok fs →
  match fs path with (Some _, None) | (None, Some _) => True | _ => False end.
Proof. intros Hfs. specialize (Hfs path). by destruct (fs path) as [[?|] [?|]]. Qed.

(** ** Opening only adds to the open files *)

(** A computation under which the list of open files only grows. *)
Definition grows {A : Type} (m : Opened → A * Opened) : Prop :=
  ∀ st, st `prefix_of` (m st).2.

Lemma grows_ret {A : Type} (v : A) : grows (mret v : fallible Opened A).
Proof. by intros st. Qed.

Lemma grows_bind {A B : Type} (m : fallible Opened A)
    (f : A → fallible Opened B) :
  grows m → (∀ v, grows (f v)) → grows (m ≫= f).
Proof.
  intros Hm Hf st. rewrite fallible_bind_eq. specialize (Hm st).
  destruct (m st) as [[e|v] st']; [done|].
  etrans; [exact Hm | apply Hf].
Qed.

Lemma grows_try {T : Type} (call : stateful Opened (T * option error)) :
  grows call → grows (try call).
Proof.
  intros Hc st. specialize (Hc st). unfold try.
  by destruct (call st) as [[v [e|]] st'].
Qed.

Lemma grows_or_return {T : Type} `{!Zero T} (body : fallible Opened T) :
  grows body → grows (or_return body).
Proof.
  intros Hb st. specialize (Hb st). unfold or_return.
  by destruct (body st) as [[e|v] st'].
Qed.

(** One block of [Open] on a well-behaved file system, then the cases. *)
Ltac open_block fs path :=
  rewrite fallible_bind_eq, open_step by (by apply fs_ok_shape);
  destruct (nonempty path), ((fs path).2);
  rewrite ?app_nil_r, <- ?app_assoc; try done.

(** One block of [Open] on any file system, then the cases. *)
Ltac open_block_any fs path :=
  try (rewrite fallible_bind_eq, open_step_any;
       destruct (nonempty path), ((fs path).2); try done).

(** ** [Open] implements its specification *)

(** C3: on a file system that returns a reader exactly when it returns no
    error, [Open] opens the named databases in the order country, city, ASN
    until one fails; it returns the error of that one and no reader, or else
    no error and a [geoip] that holds the reader of each named path and nil
    for each empty path. *)
Theorem Open_implements_opens (fs : FileSystem)
    (countryDB cityDB asnDB : string) (st : Opened) :
  fs_ok fs →
  Open fs countryDB cityDB asnDB st =
    let '(o, err) := opens fs [countryDB; cityDB; asnDB] in
    ((match err with
      | None => Some {| geoip_country := reader_for fs countryDB;
                        geoip_city := reader_for fs cityDB;
                        geoip_asn := reader_for fs asnDB |}
      | Some _ => None
      end, err), st ++ o).
Proof.
  intros Hfs. unfold Open, or_return, reader_for. cbn [opens].
  open_block fs countryDB; open_block fs cityDB; open_block fs asnDB.
Qed.

Lemma Open_implements_opens_witness :
  Open sample_fs "country.mmdb" "" "asn.mmdb" [] =
    let '(o, err) := opens sample_fs ["country.mmdb"; ""; "asn.mmdb"]%string in
    ((match err with
      | None => Some {| geoip_country := reader_for sample_fs "country.mmdb";
                        geoip_city := reader_for sample_fs "";
                        geoip_asn := reader_for sample_fs "asn.mmdb" |}
      | Some _ => None
      end, err), [] ++ o).
Proof.
  apply (Open_implements_opens sample_fs "country.mmdb" "" "asn.mmdb" []).
  apply sample_fs_ok.
Defined.

(** [Open] returns a reader exactly when it returns no error, on every
    file system: an error always comes with the nil reader. *)
Theorem Open_reader_iff_no_error (fs : FileSystem)
    (countryDB cityDB asnDB : string) (st : Opened) :
  is_Some (Open fs countryDB cityDB asnDB st).1.1 ↔
  (Open fs countryDB cityDB asnDB st).1.2 = None.
Proof.
  unfold Open, or_return.
  open_block_any fs countryDB; open_block_any fs cityDB;
    open_block_any fs asnDB;
    simpl; split; by (intros [? ?] || eauto).
Qed.

(** The error [Open] returns is the error of the first named path, in
    the order country, city, ASN, that fails to open, on every file system;
    there is none exactly when every named path opens. *)
Theorem Open_first_error (fs : FileSystem) (countryDB cityDB asnDB : string)
    (st : Opened) :
  (Open fs countryDB cityDB asnDB st).1.2
  = (opens fs [countryDB; cityDB; asnDB]).2.
Proof.
  unfold Open, or_return. cbn [opens].
  open_block_any fs countryDB; open_block_any fs cityDB;
    open_block_any fs asnDB.
Qed.

(** With three empty paths [Open] returns, without opening any file
    and on every file system, a reader none of whose sources is configured. *)
Theorem Open_no_paths (fs : FileSystem) (st : Opened) :
  Open fs "" "" "" st = ((Some empty_geoip, None), st).
Proof. done. Qed.

(** [Open] closes nothing: the files that were open before the call
    are still open after it, whether it succeeds or fails. *)
Theorem Open_only_opens (fs : FileSystem) (countryDB cityDB asnDB : string)
    (st : Opened) :
  st `prefix_of` (Open fs countryDB cityDB asnDB st).2.
Proof.
  revert st. apply grows_or_return.
  repeat first
    [ apply grows_ret
    | apply grows_try; intros ?; apply geoip2_Open_grows
    | apply grows_bind; [|intros ?] | case_match ].
Qed.

(** C40: when the country database opens and the city database does not,
    [Open] returns the error and no reader, and the country database stays
    open: the construction does not close what it opened before it failed. *)
Theorem Open_failure_leaves_open (fs : FileSystem)
    (countryDB cityDB asnDB : string) (st : Opened) r e :
  countryDB ≠ ""%string → cityDB ≠ ""%string →
  fs countryDB = (Some r, None) →
  fs cityDB = (None, Some e) →
  Open fs countryDB cityDB asnDB st = ((None, Some e), st ++ [countryDB]).
Proof.
  intros Hc%nonempty_true Hy%nonempty_true Hfc Hfy.
  unfold Open, or_return.
  rewrite fallible_bind_eq, open_step_any, Hc, geoip2_Open_state, Hfc.
  cbn [fst snd].
  rewrite fallible_bind_eq, open_step_any, Hy, geoip2_Open_state, Hfy.
  done.
Qed.

Lemma Open_failure_leaves_open_witness :
  Open sample_fs "country.mmdb" "missing.mmdb" "asn.mmdb" []
  = ((None, Some (Err "no such file")), [] ++ ["country.mmdb"%string]).
Proof.
  by apply (Open_failure_leaves_open sample_fs "country.mmdb" "missing.mmdb"
              "asn.mmdb" [] db_country (Err "no such file")).
Defined.

(** ** Readers built by [Open] *)

Lemma reader_for_ok (fs : FileSystem) (path : string) (db : geoip2_Reader) :
  fs_ok fs → reader_for fs path = Some db → handle_ok db.
Proof.
  unfold reader_for. intros Hfs. destruct (nonempty path); [|done].
  intros Hdb. by eapply fs_ok_reader.
Qed.

(** The [geoip] that a successful [Open] returns. *)
Lemma Open_reader (fs : FileSystem) (countryDB cityDB asnDB : string)
    (st : Opened) (g : geoip) :
  (Open fs countryDB cityDB asnDB st).1.1 = Some g →
  g = {| geoip_country := reader_for fs countryDB;
         geoip_city := reader_for fs cityDB;
         geoip_asn := reader_for fs asnDB |}.
Proof.
  unfold Open, or_return, reader_for.
  open_block_any fs countryDB; open_block_any fs cityDB;
    open_block_any fs asnDB; simpl; congruence.
Qed.

Lemma Open_geoip_ok (fs : FileSystem) (countryDB cityDB asnDB : string)
    (st : Opened) (g : geoip) :
  fs_ok fs → (Open fs countryDB cityDB asnDB st).1.1 = Some g → geoip_ok g.
Proof.
  intros Hfs ->%Open_reader.
  unfold geoip_ok; split_and!; intros db; by apply reader_for_ok.
Qed.

(** A [geoip] whose readers keep the library's contract returns from
    every lookup. *)
Lemma geoip_ok_returns (g : geoip) (ip : Addr) :
  geoip_ok g →
  panics (geoip_Country g ip) = false ∧
  panics (geoip_City g ip) = false ∧
  panics (geoip_ASN g ip) = false.
Proof.
  intros (Hc & Hy & Ha).
  split_and!;
    [apply geoip_Country_safe | apply geoip_City_safe | apply geoip_ASN_safe];
    intros db Hdb; [apply Hc in Hdb | apply Hy in Hdb | apply Ha in Hdb];
    apply Hdb.
Qed.

(** The files a successful [Open] has opened: the named paths, in the
    order country, city, ASN. *)
Lemma opens_all (fs : FileSystem) (paths : list string) :
  (opens fs paths).2 = None → (opens fs paths).1 = filter nonempty paths.
Proof.
  induction paths as [|p paths IH]; [done|]. cbn [opens].
  rewrite filter_cons. destruct (nonempty p) eqn:Hp.
  - rewrite decide_True by exact I. destruct ((fs p).2); [done|].
    destruct (opens fs paths) as [o e]. cbn in *. intros He. by rewrite IH.
  - rewrite decide_False by exact id. exact IH.
Qed.

Lemma Open_opened (fs : FileSystem) (countryDB cityDB asnDB : string)
    (st : Opened) (g : geoip) :
  fs_ok fs → (Open fs countryDB cityDB asnDB st).1.1 = Some g →
  (Open fs countryDB cityDB asnDB st).2
  = st ++ filter nonempty [countryDB; cityDB; asnDB].
Proof.
  intros Hfs Hg. rewrite <- (opens_all fs).
  - unfold Open, or_return. cbn [opens].
    open_block fs countryDB; open_block fs cityDB; open_block fs asnDB.
  - rewrite <- (Open_first_error fs _ _ _ st).
    apply Open_reader_iff_no_error. by eexists.
Qed.

(** C36: on a reader that [Open] built from a file system that keeps the
    library's contract, no lookup panics, for any address. *)
Theorem Open_lookups_no_panic (fs : FileSystem)
    (countryDB cityDB asnDB : string) (st : Opened) (g : geoip) (ip : Addr) :
  fs_ok fs →
  (Open fs countryDB cityDB asnDB st).1.1 = Some g →
  panics (geoip_Country g ip) = false ∧
  panics (geoip_City g ip) = false ∧
  panics (geoip_ASN g ip) = false.
Proof.
  intros Hfs Hg. apply geoip_ok_returns. by eapply Open_geoip_ok.
Qed.

Lemma Open_lookups_no_panic_witness :
  panics (geoip_Country sample_geoip ip_a) = false ∧
  panics (geoip_City sample_geoip ip_a) = false ∧
  panics (geoip_ASN sample_geoip ip_a) = false.
Proof.
  apply (Open_lookups_no_panic sample_fs "country.mmdb" "city.mmdb"
           "asn.mmdb" [] sample_geoip ip_a);
    [apply sample_fs_ok | reflexivity].
Defined.

(** C34: a reader constructed with three empty paths returns, for every
    address, zero records and nil errors from all three lookups, and reports
    itself empty. *)
Theorem Open_no_paths_reader (fs : FileSystem) (st : Opened) (ip : Addr) :
  ∃ g, (Open fs "" "" "" st).1 = (Some g, None) ∧
    geoip_Country g ip = Normal (zero, nil) ∧
    geoip_City g ip = Normal (zero, nil) ∧
    geoip_ASN g ip = Normal (zero, nil) ∧
    geoip_IsEmpty g = true.
Proof. by exists empty_geoip. Qed.

(** When [Open] returns a reader, every named path opened without error. *)
Lemma Open_success_named (fs : FileSystem) (countryDB cityDB asnDB : string)
    (st : Opened) (g : geoip) :
  (Open fs countryDB cityDB asnDB st).1.1 = Some g →
  Forall (λ p, nonempty p = true → (fs p).2 = None)
    [countryDB; cityDB; asnDB].
Proof.
  unfold Open, or_return.
  rewrite fallible_bind_eq, open_step_any.
  destruct (nonempty countryDB) eqn:?, ((fs countryDB).2) eqn:?; try done;
    (rewrite fallible_bind_eq, open_step_any;
     destruct (nonempty cityDB) eqn:?, ((fs cityDB).2) eqn:?; try done);
    (rewrite fallible_bind_eq, open_step_any;
     destruct (nonempty asnDB) eqn:?, ((fs asnDB).2) eqn:?; try done);
    intros _; rewrite !Forall_cons, Forall_nil; split_and!;
    try done; intros; congruence.
Qed.

Lemma reader_for_None (fs : FileSystem) (path : string) :
  fs_ok fs → (nonempty path = true → (fs path).2 = None) →
  (reader_for fs path = None ↔ path = ""%string).
Proof.
  intros Hfs Hp. unfold reader_for. rewrite <- nonempty_false.
  destruct (nonempty path); [|done].
  specialize (Hfs path). specialize (Hp eq_refl).
  by destruct (fs path) as [[?|] [?|]].
Qed.

(** After a successful [Open] on a file system that keeps the
    library's contract, a source is absent exactly when its path was
    empty. *)
Theorem Open_absent_iff_unnamed (fs : FileSystem)
    (countryDB cityDB asnDB : string) (st : Opened) (g : geoip) :
  fs_ok fs →
  (Open fs countryDB cityDB asnDB st).1.1 = Some g →
  (g.(geoip_country) = None ↔ countryDB = ""%string) ∧
  (g.(geoip_city) = None ↔ cityDB = ""%string) ∧
  (g.(geoip_asn) = None ↔ asnDB = ""%string).
Proof.
  intros Hfs Hg. pose proof (Open_success_named _ _ _ _ _ _ Hg) as Hn.
  apply Open_reader in Hg as ->. cbn.
  rewrite !Forall_cons in Hn. destruct Hn as (?&?&?&_).
  split_and!; by apply reader_for_None.
Qed.

Lemma Open_absent_iff_unnamed_witness :
  (Some db_country = None ↔ "country.mmdb" = ""%string) ∧
  (@None geoip2_Reader = None ↔ "" = ""%string) ∧
  (Some db_asn = None ↔ "asn.mmdb" = ""%string).
Proof.
  apply (Open_absent_iff_unnamed sample_fs "country.mmdb" "" "asn.mmdb" []
           {| geoip_country := Some db_country; geoip_city := None;
              geoip_asn := Some db_asn |});
    [apply sample_fs_ok | reflexivity].
Defined.
