(* ===== verification/GeoTypes.v ===== *)
(** * GeoTypes: the records hold values of their Go types

    In the model a [float64] is a [spec_float] and a [uint] is a [Z]; both
    are larger than the Go types.  This file states which values of the
    model are values of the Go types ([City_typed], [ASN_typed] for the
    output records, [city_in_range] and [asn_in_range] for what a database
    answers) and shows that the lookups keep them: what [City] and [ASN]
    return is typed when what the database answers is. *)

From Stdlib Require Import ZArith String List Lia Floats.SpecFloat.
From stdpp Require Import base tactics decidable option.
From S2P Require Import Prelude Float64 Netip Geoip2 Samples Geo.

(** ** Typed records *)

(** Both coordinates are binary64 values. *)
Definition City_typed (c : City) : Prop :=
  float64.ok c.(City_Latitude) = true ∧ float64.ok c.(City_Longitude) = true.

(** The AS number is a [uint]. *)
Definition ASN_typed (a : ASN) : Prop :=
  uint_ok a.(ASN_AutonomousSystemNumber).

#[export] Instance City_typed_dec c : Decision (City_typed c).
Proof. unfold City_typed. apply _. Defined.
#[export] Instance ASN_typed_dec a : Decision (ASN_typed a).
Proof. unfold ASN_typed. apply _. Defined.

(** A city database answers with coordinates that are binary64 values. *)
Definition city_in_range (r : geoip2_Reader) : Prop :=
  ∀ ip rec v, (geoip2_Reader_City r ip).1 = Some rec →
    rec.(geoip2_City_Location).(Location_Latitude) = Some v ∨
    rec.(geoip2_City_Location).(Location_Longitude) = Some v →
    float64.ok v = true.

(** The databases of a [geoip] answer with values of the Go types. *)
Definition geoip_typed (g : geoip) : Prop :=
  (∀ db, g.(geoip_city) = Some db → city_in_range db) ∧
  (∀ db, g.(geoip_asn) = Some db → asn_in_range db).

(** A database whose city record has a latitude that is not of this
    world and no longitude that a coordinate can be: plus infinity, and
    1000 degrees. *)
Definition rec_nowhere : geoip2_City :=
  {| geoip2_City_City := {| CityRecord_Names := names "" |};
     geoip2_City_Subdivisions := [];
     geoip2_City_Location :=
       {| Location_Latitude := Some (S754_infinity false);
          Location_Longitude := Some (float64.of_Z 1000);
          Location_TimeZone := "" |};
     geoip2_City_Postal := {| CityPostal_Code := "" |} |}.

Definition geoip_nowhere : geoip :=
  {| geoip_country := None;
     geoip_city :=
       Some {| geoip2_Reader_Country := wrong_kind;
               geoip2_Reader_City := λ _, (Some rec_nowhere, None);
               geoip2_Reader_ASN := wrong_kind |};
     geoip_asn := None |}.

(** ** The zero records are typed *)

Lemma zero_City_typed : City_typed zero.
Proof. done. Qed.

Lemma zero_ASN_typed : ASN_typed zero.
Proof. by compute. Qed.

(** ** The lookups keep the types *)

Lemma geoip_City_typed (g : geoip) (ip : Addr) (c : City)
    (err : option error) :
  (∀ db, g.(geoip_city) = Some db → city_in_range db) →
  geoip_City g ip = Normal (c, err) → City_typed c.
Proof.
  intros Hok.
  destruct (geoip_City_cases g ip)
    as [[_ H]|[(?&?&?&_&_&H)|[(?&_&_&H)|(db&record&c'&Hg&Hq&H&Hlat&Hlon)]]];
    rewrite H; intros [= <- <-]; try done.
  unfold City_typed. rewrite Hlat, Hlon.
  split; apply coordinate_or_zero_ok; intros v Hv;
    apply (Hok db Hg ip record v); rewrite ?Hq; auto.
Qed.

Lemma geoip_ASN_typed (g : geoip) (ip : Addr) (a : ASN)
    (err : option error) :
  (∀ db, g.(geoip_asn) = Some db → asn_in_range db) →
  geoip_ASN g ip = Normal (a, err) → ASN_typed a.
Proof.
  intros Hok.
  destruct (geoip_ASN_cases g ip)
    as [[Hg H]|[(?&?&?&Hg&Hq&H)|[(?&_&_&H)|(db&record&a'&Hg&Hq&H&Hn)]]];
    rewrite H; intros [= <- <-]; try apply zero_ASN_typed.
  assert (uint_ok record.(geoip2_ASN_AutonomousSystemNumber)) as Hr
    by (apply (Hok db Hg ip); by rewrite Hq).
  unfold ASN_typed. rewrite Hn. unfold uint_ok, uint_bits in *. lia.
Qed.

Lemma sample_geoip_typed : geoip_typed sample_geoip.
Proof.
  split; intros db [= <-].
  - intros ip rec v. unfold db_city, geoip2_Reader_City, lookup2.
    repeat case_decide; intros [= <-]; by intros [[= <-]|[= <-]].
  - apply sample_asn_in_range.
Qed.



(** The one value [City] filters is NaN: an infinite latitude and a
    longitude of 1000 degrees are values of the type, the database is
    typed, and [City] returns them as they are. *)
Example City_copies_infinity :
  geoip_typed geoip_nowhere ∧
  ∃ c, geoip_City geoip_nowhere ip_a = Normal (c, nil) ∧
       c.(City_Latitude) = S754_infinity false ∧
       c.(City_Longitude) = float64.of_Z 1000.
Proof.
  split; [|by eexists].
  split; intros db [= <-]. intros ip rec v [= <-]. by intros [[= <-]|[= <-]].
Qed.
