(* ===== verification/GeoSpec.v ===== *)
(** * GeoSpec: the contract of the Geo Reader, and that the code keeps it

    The specification describes the three lookups by one scheme: no source
    means the zero record and no error; a source that fails means the zero
    record and its error; a source that answers means the merge of the raw
    record.  [lookup] is that scheme, the three [merge_] functions are the
    merges of sections 4.2 to 4.4 written over optional values (a coordinate
    is known or not, an AS number is assigned or not) and [first_nonempty]
    is the fallback rule.  The refinement theorems state that each method of
    [*geoip] computes [lookup] of its merge on the abstraction of its reader.

    [ReaderLaws] is the contract of the interface [Reader] for its clients;
    [geoip_ReaderLaws] shows that [*geoip] keeps it. *)

From Stdlib Require Import ZArith List Floats.SpecFloat.
From stdpp Require Import base tactics decidable option list strings.
From S2P Require Import Prelude Float64 Netip Geoip2 Samples Geo.

(** ** The contract *)

(** A configured source as the specification sees it: for an address, an
    error or a raw record. *)
Definition source (T : Type) : Type := Addr → error + T.

(** The scheme of every lookup. *)
Definition lookup {T R : Type} `{!Zero R} (merge : T → R)
    (src : option (source T)) (ip : Addr) : R * option error :=
  match src with
  | None => (zero, None)
  | Some query =>
      match query ip with
      | inl e => (zero, Some e)
      | inr record => (merge record, None)
      end
  end.

(** The first string of a list that is not empty, or the empty string. *)
Fixpoint first_nonempty (candidates : list string) : string :=
  match candidates with
  | [] => ""%string
  | s :: rest => if nonempty s then s else first_nonempty rest
  end.

(** A coordinate is known when the database has it and it is a number. *)
Definition known_coordinate (p : option float64.t) : option float64.t :=
  v ← p; if float64.IsNaN v then None else Some v.

(** An AS number is assigned when it is positive; zero is reserved. *)
Definition assigned_number (n : Z) : option Z :=
  if (0 <? n)%Z then Some n else None.

(** Section 4.2: fallback from the located to the registered country. *)
Definition merge_Country (record : geoip2_Country) : Country :=
  let located := record.(geoip2_Country_Country) in
  let registered := record.(geoip2_Country_RegisteredCountry) in
  {| Country_Name :=
       first_nonempty [located.(CountryRecord_Names).(Names_English);
                       registered.(CountryRecord_Names).(Names_English)];
     Country_ISO :=
       first_nonempty [located.(CountryRecord_ISOCode);
                       registered.(CountryRecord_ISOCode)];
     Country_IsEU :=
       Some (existsb CountryRecord_IsInEuropeanUnion [located; registered]) |}.

(** Section 4.3: the first subdivision only; unknown coordinates are zero. *)
Definition merge_City (record : geoip2_City) : City :=
  let region := head record.(geoip2_City_Subdivisions) in
  {| City_Name := record.(geoip2_City_City).(CityRecord_Names).(Names_English);
     City_Latitude :=
       default zero
         (known_coordinate record.(geoip2_City_Location).(Location_Latitude));
     City_Longitude :=
       default zero
         (known_coordinate record.(geoip2_City_Location).(Location_Longitude));
     City_PostalCode := record.(geoip2_City_Postal).(CityPostal_Code);
     City_Timezone := record.(geoip2_City_Location).(Location_TimeZone);
     City_RegionName :=
       default ""%string
         ((λ s, s.(CitySubdivision_Names).(Names_English)) <$> region);
     City_RegionCode :=
       default ""%string (CitySubdivision_ISOCode <$> region) |}.

(** Section 4.4: an unassigned number is reported as zero. *)
Definition merge_ASN (record : geoip2_ASN) : ASN :=
  {| ASN_AutonomousSystemNumber :=
       default 0%Z
         (assigned_number record.(geoip2_ASN_AutonomousSystemNumber));
     ASN_AutonomousSystemOrganization :=
       record.(geoip2_ASN_AutonomousSystemOrganization) |}.

(** ** Abstraction of a reader *)

(** What a query function of the library means as a source.  A query that
    returns neither record nor error is outside the library's contract; the
    abstraction gives it the zero record, and the theorems exclude it. *)
Definition abs_query {T : Type} `{!Zero T}
    (q : Addr → option T * option error) : source T :=
  λ ip,
    let '(record, err) := q ip in
    match err with
    | Some e => inl e
    | None => inr (default zero record)
    end.

(** The three sources of a [geoip]. *)
Definition abs_country (g : geoip) : option (source geoip2_Country) :=
  (λ db, abs_query db.(geoip2_Reader_Country)) <$> g.(geoip_country).
Definition abs_city (g : geoip) : option (source geoip2_City) :=
  (λ db, abs_query db.(geoip2_Reader_City)) <$> g.(geoip_city).
Definition abs_asn (g : geoip) : option (source geoip2_ASN) :=
  (λ db, abs_query db.(geoip2_Reader_ASN)) <$> g.(geoip_asn).

(** ** The contract of the interface *)

Class ReaderLaws (R : Type) `{!Reader R} := {
  Country_error_law r ip c e :
    Reader_Country r ip = Normal (c, Some e) → c = zero;
  City_error_law r ip c e :
    Reader_City r ip = Normal (c, Some e) → c = zero;
  ASN_error_law r ip a e :
    Reader_ASN r ip = Normal (a, Some e) → a = zero;
  City_number_law r ip c err :
    Reader_City r ip = Normal (c, err) →
    float64.IsNaN c.(City_Latitude) = false ∧
    float64.IsNaN c.(City_Longitude) = false;
  IsEmpty_law r ip :
    Reader_IsEmpty r = true →
    Reader_Country r ip = Normal (zero, nil) ∧
    Reader_City r ip = Normal (zero, nil)
}.

(** ** Lemmas on the contract *)

Lemma first_nonempty_two (a b : string) :
  first_nonempty [a; b] = if nonempty a then a else b.
Proof.
  simpl. destruct (nonempty a); [done|].
  destruct (nonempty b) eqn:Hb; [done|]. by apply nonempty_false in Hb.
Qed.

(** The fallback returns one of the candidates, or the empty string. *)
Lemma first_nonempty_elem (candidates : list string) :
  first_nonempty candidates ∈ candidates ∨
  first_nonempty candidates = ""%string.
Proof.
  induction candidates as [|s rest IH]; [by right|]. simpl.
  destruct (nonempty s); [left; by constructor|].
  destruct IH as [IH|IH]; [left; by constructor|by right].
Qed.

(** The fallback is empty only when every candidate is. *)
Lemma first_nonempty_empty (candidates : list string) :
  first_nonempty candidates = ""%string ↔
  Forall (λ s, s = ""%string) candidates.
Proof.
  induction candidates as [|s rest IH]; [by split|]. simpl.
  rewrite Forall_cons, <- IH. destruct (nonempty s) eqn:Hs.
  - apply nonempty_true in Hs. tauto.
  - apply nonempty_false in Hs. tauto.
Qed.

(** Candidates after the first non-empty one do not matter. *)
Lemma first_nonempty_prefers (s : string) (rest : list string) :
  s ≠ ""%string → first_nonempty (s :: rest) = s.
Proof. intros Hs%nonempty_true. simpl. by rewrite Hs. Qed.

Lemma known_coordinate_default (p : option float64.t) :
  default zero (known_coordinate p) = coordinate_or_zero p.
Proof. destruct p as [v|]; simpl; [|done]. by destruct (float64.IsNaN v). Qed.

Lemma known_coordinate_not_NaN (p : option float64.t) (v : float64.t) :
  known_coordinate p = Some v → float64.IsNaN v = false.
Proof.
  destruct p as [w|]; simpl; [|done].
  destruct (float64.IsNaN w) eqn:Hw; [done|congruence].
Qed.

Lemma lookup_error_zero {T R : Type} `{!Zero R} (merge : T → R)
    (src : option (source T)) (ip : Addr) (e : error) :
  (lookup merge src ip).2 = Some e → (lookup merge src ip).1 = zero.
Proof.
  unfold lookup. destruct src as [q|]; simpl; [|done].
  destruct (q ip); simpl; done.
Qed.

Lemma abs_query_failed {T : Type} `{!Zero T}
    (q : Addr → option T * option error) ip record e :
  q ip = (record, Some e) → abs_query q ip = inl e.
Proof. unfold abs_query. by intros ->. Qed.

Lemma abs_query_answered {T : Type} `{!Zero T}
    (q : Addr → option T * option error) ip record :
  q ip = (Some record, None) → abs_query q ip = inr record.
Proof. unfold abs_query. by intros ->. Qed.

#[export] Hint Rewrite first_nonempty_two known_coordinate_default : go.

(** A query inside the contract does not answer with nothing at all. *)
Lemma query_ok_not_nil {T : Type} (q : Addr → option T * option error) ip :
  query_ok q → q ip ≠ (None, None).
Proof. intros Hq Hnil. destruct (Hq ip) as [? H]; by rewrite Hnil in *. Qed.

(** The merges of the contract are the records the lookups build. *)
Lemma merge_Country_eq (record : geoip2_Country) :
  merge_Country record =
    {| Country_Name :=
         if nonempty record.(geoip2_Country_Country)
                           .(CountryRecord_Names).(Names_English)
         then record.(geoip2_Country_Country)
                    .(CountryRecord_Names).(Names_English)
         else record.(geoip2_Country_RegisteredCountry)
                    .(CountryRecord_Names).(Names_English);
       Country_ISO :=
         if nonempty record.(geoip2_Country_Country).(CountryRecord_ISOCode)
         then record.(geoip2_Country_Country).(CountryRecord_ISOCode)
         else record.(geoip2_Country_RegisteredCountry)
                    .(CountryRecord_ISOCode);
       Country_IsEU :=
         Some (record.(geoip2_Country_Country)
                     .(CountryRecord_IsInEuropeanUnion)
               || record.(geoip2_Country_RegisteredCountry)
                        .(CountryRecord_IsInEuropeanUnion)) |}.
Proof.
  unfold merge_Country. rewrite !first_nonempty_two. cbn [existsb].
  by rewrite orb_false_r.
Qed.

Lemma merge_City_eq (record : geoip2_City) :
  merge_City record =
    {| City_Name :=
         record.(geoip2_City_City).(CityRecord_Names).(Names_English);
       City_Latitude :=
         coordinate_or_zero record.(geoip2_City_Location).(Location_Latitude);
       City_Longitude :=
         coordinate_or_zero record.(geoip2_City_Location).(Location_Longitude);
       City_PostalCode := record.(geoip2_City_Postal).(CityPostal_Code);
       City_Timezone := record.(geoip2_City_Location).(Location_TimeZone);
       City_RegionName :=
         first_or_empty (λ s, s.(CitySubdivision_Names).(Names_English))
           record.(geoip2_City_Subdivisions);
       City_RegionCode :=
         first_or_empty CitySubdivision_ISOCode
           record.(geoip2_City_Subdivisions) |}.
Proof.
  unfold merge_City. rewrite !known_coordinate_default.
  by destruct (geoip2_City_Subdivisions record).
Qed.

Lemma merge_ASN_eq (record : geoip2_ASN) :
  merge_ASN record =
    {| ASN_AutonomousSystemNumber :=
         if (0 <? record.(geoip2_ASN_AutonomousSystemNumber))%Z
         then record.(geoip2_ASN_AutonomousSystemNumber) else 0%Z;
       ASN_AutonomousSystemOrganization :=
         record.(geoip2_ASN_AutonomousSystemOrganization) |}.
Proof. unfold merge_ASN, assigned_number. by case_match. Qed.

(** ** Refinement *)

(** The three refinement proofs share their shape: split on the source and
    on the answer of the query, then use the lookup's equation of that
    case. *)
Ltac refine_lookup Hok absent failed answered merge_eq :=
  match goal with
  | |- _ = Normal (lookup _ (?abs ?g) ?ip) =>
      unfold abs, lookup;
      match goal with
      | |- context [?field g] =>
          let Hg := fresh "Hg" in
          destruct (field g) eqn:Hg; [|by rewrite absent]
      end
  end;
  cbn [fmap option_fmap option_map]; unfold abs_query;
  match goal with
  | |- context [?q ?db ?ip] =>
      let Hq := fresh "Hq" in
      pose proof (query_ok_not_nil (q db) ip (Hok db eq_refl));
      destruct (q db ip) as [[?|] [?|]] eqn:Hq; try done
  end;
  [ by erewrite failed
  | erewrite answered by done; by rewrite merge_eq
  | by erewrite failed ].

(** C13: under the library's contract, [Country] is the lookup scheme of the
    specification applied to the country source with the merge of section
    4.2. *)
Theorem Country_refines_lookup (g : geoip) (ip : Addr) :
  (∀ db, g.(geoip_country) = Some db →
     query_ok db.(geoip2_Reader_Country)) →
  geoip_Country g ip = Normal (lookup merge_Country (abs_country g) ip).
Proof.
  intros Hok.
  refine_lookup Hok geoip_Country_absent geoip_Country_failed
    geoip_Country_answered merge_Country_eq.
Qed.

Lemma Country_refines_lookup_witness :
  geoip_Country sample_geoip ip_b
  = Normal (lookup merge_Country (abs_country sample_geoip) ip_b).
Proof.
  apply (Country_refines_lookup sample_geoip ip_b).
  intros db [= <-]. apply db_country_ok.
Defined.

(** C14: under the library's contract, [City] is the lookup scheme of the
    specification applied to the city source with the merge of section
    4.3. *)
Theorem City_refines_lookup (g : geoip) (ip : Addr) :
  (∀ db, g.(geoip_city) = Some db → query_ok db.(geoip2_Reader_City)) →
  geoip_City g ip = Normal (lookup merge_City (abs_city g) ip).
Proof.
  intros Hok.
  refine_lookup Hok geoip_City_absent geoip_City_failed
    geoip_City_answered merge_City_eq.
Qed.

Lemma City_refines_lookup_witness :
  geoip_City sample_geoip ip_a
  = Normal (lookup merge_City (abs_city sample_geoip) ip_a).
Proof.
  apply (City_refines_lookup sample_geoip ip_a).
  intros db [= <-]. apply db_city_ok.
Defined.

(** C15: under the library's contract, [ASN] is the lookup scheme of the
    specification applied to the ASN source with the merge of section
    4.4. *)
Theorem ASN_refines_lookup (g : geoip) (ip : Addr) :
  (∀ db, g.(geoip_asn) = Some db → query_ok db.(geoip2_Reader_ASN)) →
  geoip_ASN g ip = Normal (lookup merge_ASN (abs_asn g) ip).
Proof.
  intros Hok.
  refine_lookup Hok geoip_ASN_absent geoip_ASN_failed
    geoip_ASN_answered merge_ASN_eq.
Qed.

Lemma ASN_refines_lookup_witness :
  geoip_ASN sample_geoip ip_b
  = Normal (lookup merge_ASN (abs_asn sample_geoip) ip_b).
Proof.
  apply (ASN_refines_lookup sample_geoip ip_b).
  intros db [= <-]. apply db_asn_ok.
Defined.

(** ** [*geoip] keeps the contract of [Reader] *)

#[export] Instance geoip_ReaderLaws : ReaderLaws geoip.
Proof.
  split; cbn [Reader_Country Reader_City Reader_ASN Reader_IsEmpty
              geoip_Reader].
  - apply geoip_Country_error.
  - apply geoip_City_error.
  - apply geoip_ASN_error.
  - apply geoip_City_not_NaN.
  - intros g ip [Hc Hy]%IsEmpty_iff_aux.
    split; [by apply geoip_Country_absent | by apply geoip_City_absent].
Qed.
