(* ===== verification/Net.v ===== *)
(** * Net: the resolver and the TCP stack, as [iputil] uses them

    [iputil.go] calls [net.LookupAddr], [net.DialTimeout] and the [Close]
    method of the connection it gets.  The operating system behind these is
    not modelled; what it answers is a parameter ([Network]).  What the
    calls do to the process is modelled: a [World] holds the set of open
    connections, the next free connection number and the trace of calls in
    order.  [World_ok] is the invariant of the world (an open connection
    has a number that was handed out), preserved by every operation. *)

From Stdlib Require Import ZArith List.
From stdpp Require Import base tactics decidable option list strings gmap.
From S2P Require Import Prelude.

(** ** Time *)

(** [time.Duration] is an [int64] of nanoseconds; [time.Second]. *)
Definition time_Second : Z := 1000000000.

(** ** The outside *)

(** What the resolver answers for the text of an address, and whether a
    connection to [address] on [network] is established within [timeout]
    (nil) or not (the error). *)
Record Network := {
  Network_ptr : string → list string * option error;
  Network_connect : string → string → Z → option error
}.

(** ** The process *)

(** A [net.Conn] that is not nil, by its number. *)
Record Conn := { Conn_id : nat }.

Inductive Event :=
| Resolved (addr : string)
| Dialed (network address : string) (timeout : Z) (conn : option nat)
| Closed (conn : nat).

Record World := {
  World_open : gset nat;
  World_next : nat;
  World_trace : list Event
}.

#[export] Instance Conn_eq_dec : EqDecision Conn.
Proof. solve_decision. Defined.
#[export] Instance Event_eq_dec : EqDecision Event.
Proof. solve_decision. Defined.

(** A process that has made no call yet. *)
Definition World_init : World :=
  {| World_open := ∅; World_next := 0; World_trace := [] |}.

Definition log (e : Event) (w : World) : World :=
  {| World_open := w.(World_open); World_next := w.(World_next);
     World_trace := w.(World_trace) ++ [e] |}.

(** The calls made between two worlds. *)
Definition since (w w' : World) : list Event :=
  drop (length (World_trace w)) (World_trace w').

(** ** Operations *)

(** [net.LookupAddr(addr)]. *)
Definition net_LookupAddr (net : Network) (addr : string) :
    stateful World (list string * option error) :=
  λ w, (net.(Network_ptr) addr, log (Resolved addr) w).

(** [net.DialTimeout(network, address, timeout)]: a new open connection, or
    the error and no connection. *)
Definition net_DialTimeout (net : Network) (network address : string)
    (timeout : Z) : stateful World (option Conn * option error) :=
  λ w,
    match net.(Network_connect) network address timeout with
    | Some e =>
        ((None, Some e), log (Dialed network address timeout None) w)
    | None =>
        let c := w.(World_next) in
        ((Some {| Conn_id := c |}, None),
         log (Dialed network address timeout (Some c))
           {| World_open := {[c]} ∪ w.(World_open); World_next := S c;
              World_trace := w.(World_trace) |})
    end.

(** [conn.Close()]: the connection is no longer open; closing a connection
    that is not open is an error. *)
Definition Conn_Close (conn : Conn) : stateful World (option error) :=
  λ w,
    if decide (conn.(Conn_id) ∈ w.(World_open)) then
      (None,
       log (Closed conn.(Conn_id))
         {| World_open := w.(World_open) ∖ {[conn.(Conn_id)]};
            World_next := w.(World_next);
            World_trace := w.(World_trace) |})
    else (Some (Err "use of closed network connection"), w).

(** ** Invariant *)

(** Every open connection has a number below the next free one. *)
Definition World_ok (w : World) : Prop :=
  ∀ c, c ∈ w.(World_open) → c < w.(World_next).

Lemma World_init_ok : World_ok World_init.
Proof. intros c. unfold World_init; simpl. set_solver. Qed.

Lemma log_ok (e : Event) (w : World) : World_ok w → World_ok (log e w).
Proof. done. Qed.

Lemma net_LookupAddr_ok net addr w :
  World_ok w → World_ok (net_LookupAddr net addr w).2.
Proof. done. Qed.

Lemma net_DialTimeout_ok net network address timeout w :
  World_ok w → World_ok (net_DialTimeout net network address timeout w).2.
Proof.
  intros Hw. unfold net_DialTimeout.
  destruct (Network_connect _ _ _ _); [done|].
  intros c. cbn. rewrite elem_of_union, elem_of_singleton.
  intros [->|Hc%Hw]; lia.
Qed.

Lemma Conn_Close_ok conn w : World_ok w → World_ok (Conn_Close conn w).2.
Proof.
  intros Hw. unfold Conn_Close. case_decide; [|done].
  intros c. cbn. rewrite elem_of_difference. intros [Hc%Hw _]. done.
Qed.

(** ** The calls made since *)

Lemma since_app (w w' : World) (t : list Event) :
  World_trace w' = World_trace w ++ t → since w w' = t.
Proof. intros Ht. unfold since. by rewrite Ht, drop_app_length. Qed.

Lemma since_refl (w : World) : since w w = [].
Proof. apply since_app. by rewrite app_nil_r. Qed.

(** ** Effects on the open connections *)

Lemma net_LookupAddr_open net addr w :
  World_open (net_LookupAddr net addr w).2 = World_open w.
Proof. done. Qed.

(** The connection that a dial returns is new and open. *)
Lemma net_DialTimeout_conn net network address timeout w conn :
  World_ok w →
  (net_DialTimeout net network address timeout w).1.1 = Some conn →
  (Conn_id conn ∉ World_open w) ∧
  (World_open (net_DialTimeout net network address timeout w).2
   = {[conn.(Conn_id)]} ∪ World_open w).
Proof.
  intros Hw. unfold net_DialTimeout.
  destruct (Network_connect _ _ _ _); [done|].
  intros [= <-]. cbn. split; [|done]. intros Hc%Hw. lia.
Qed.

(** Closing right after dialing restores the set of open connections. *)
Lemma dial_close_open (open : gset nat) (c : nat) :
  c ∉ open → ({[c]} ∪ open) ∖ {[c]} = open.
Proof.
  intros Hc. apply set_eq; intros x.
  rewrite elem_of_difference, elem_of_union, elem_of_singleton.
  split; [by intros [[->|?] ?]|].
  intros Hx. split; [by right|by intros ->].
Qed.

#[export] Hint Resolve World_init_ok log_ok net_LookupAddr_ok
  net_DialTimeout_ok Conn_Close_ok : go.
