(* ===== verification/Iputil.v ===== *)
(** * Iputil: package [iputil] ([src/iputil/iputil.go])

    [LookupAddr], [LookupPort] and [ToDecimal], translated statement by
    statement.  The two probes run in the [World] of file [Net] against a
    [Network] that is a parameter.  The text of an address, [ip.String()],
    is a parameter as well ([Addr_String]): the theorems hold for every
    rendering of addresses.

    The theorems give the result of each function on every path; that the
    name [LookupAddr] returns has no trailing dot; that [LookupPort] dials
    TCP with a timeout of two seconds, returns the dialer's verdict and
    leaves the set of open connections as it found it; that [ToDecimal] is
    the number the bits of the address denote, within 32 or 128 bits, and
    how far it is injective. *)

From Stdlib Require Import ZArith List Lia.
From stdpp Require Import base tactics decidable option list strings gmap
  pretty.
From S2P Require Import Prelude Bytes Netip Samples GoStrings Net.

#[local] Open Scope Z_scope.

(** ** Formatting *)

(** [fmt.Sprintf("[%s]:%d", ip, port)]: the text of the address in
    brackets, a colon, the port in decimal. *)
Definition Sprintf_address (ip_text : string) (port : Z) : string :=
  ("[" +:+ ip_text +:+ "]:" +:+ pretty (Z.to_N port))%string.

(** ** [math/big] *)

(** [big.NewInt(x)]: a new integer with value [x]. *)
Definition NewInt (x : Z) : Z := x.

(** [(z *big.Int) SetBytes(buf)]: [z] becomes the number [buf] denotes. *)
Definition Int_SetBytes (z : Z) (buf : list byte) : Z := SetBytes buf.

(** ** The functions of the package *)

Section iputil.
Context (net : Network) (Addr_String : Addr → string).

(** [LookupAddr(ip)]. *)
Definition LookupAddr (ip : Addr) :
    stateful World (run (string * option error)) :=
  λ w,
    let '((names, err), w) := net_LookupAddr net (Addr_String ip) w in
    if negb (is_nil err) || (length names =? 0)%nat
    then (Normal (""%string, err), w)
    else
      (name ← index names 0;
       (* Always return unrooted name *)
       mret (TrimRight name ".", nil),
       w).

(** [LookupPort(ip, port)]. *)
Definition LookupPort (ip : Addr) (port : Z) :
    stateful World (run (option error)) :=
  λ w,
    let address := Sprintf_address (Addr_String ip) port in
    let '((conn, err), w) :=
      net_DialTimeout net "tcp" address (2 * time_Second) w in
    match err with
    | Some e => (Normal (Some e), w)
    | None =>
        (* defer conn.Close(); return nil *)
        match deref conn with
        | Normal c => let '(_, w) := Conn_Close c w in (Normal nil, w)
        | Panic p => (Panic p, w)
        end
    end.

(** [LookupPort] up to its [defer]: the address, the dial and the test of
    the error.  It ends with the error to return, or with the connection
    whose [Close] is deferred. *)
Definition LookupPort_dial (ip : Addr) (port : Z) :
    stateful World (error + option Conn) :=
  λ w,
    let address := Sprintf_address (Addr_String ip) port in
    let '((conn, err), w) :=
      net_DialTimeout net "tcp" address (2 * time_Second) w in
    match err with
    | Some e => (inl e, w)
    | None => (inr conn, w)
    end.

(** [LookupPort] from its [defer] on: [return nil] runs the deferred
    [conn.Close()], whose error is dropped. *)
Definition LookupPort_close (conn : option Conn) :
    stateful World (run (option error)) :=
  λ w,
    match deref conn with
    | Normal c => let '(_, w) := Conn_Close c w in (Normal nil, w)
    | Panic p => (Panic p, w)
    end.

End iputil.

(** [ToDecimal(ip)]. *)
Definition ToDecimal (ip : Addr) : Z :=
  let i := NewInt 0 in
  let i := Int_SetBytes i (AsSlice ip) in
  i.

(** The address and timeout [LookupPort] dials with. *)
Definition dialed (net : Network) (Addr_String : Addr → string)
    (ip : Addr) (port : Z) : option error :=
  net.(Network_connect) "tcp" (Sprintf_address (Addr_String ip) port)
    2000000000.


(** ** Sample network *)

#[local] Open Scope string_scope.

(** Texts for the sample addresses. *)
Definition sample_String (ip : Addr) : string :=
  if decide (ip = ip_a) then "192.0.2.1"
  else if decide (ip = ip_b) then "198.51.100.7"
  else if decide (ip = ip_c) then "203.0.113.9"
  else "invalid IP".

(** 192.0.2.1 has a rooted name and listens on port 80; 198.51.100.7 has the
    root itself as name; everything else fails. *)
Definition sample_net : Network :=
  {| Network_ptr := λ addr,
       if decide (addr = "192.0.2.1") then (["example.com."; "www.example.com."], None)
       else if decide (addr = "198.51.100.7") then (["."], None)
       else if decide (addr = "203.0.113.9") then ([], None)
       else ([], Some (Err "no such host"));
     Network_connect := λ network address timeout,
       if decide (network = "tcp" ∧ address = "[192.0.2.1]:80"
                  ∧ timeout = 2000000000%Z)
       then None else Some (Err "connection refused") |}.

#[local] Close Scope string_scope.

(** The IPv6 loopback address. *)
Definition ip_loopback6 : Addr :=
  AddrFrom16 (replicate 15 Byte.x00 ++ [Byte.x01]).

(** ** [ToDecimal] *)

Lemma ToDecimal_SetBytes (ip : Addr) : ToDecimal ip = SetBytes (AsSlice ip).
Proof. done. Qed.

Lemma ToDecimal_IPv4_aux (ip : Addr) :
  Addr_ok ip → Is4 ip = true →
  ToDecimal ip = Addr_lo ip - v4_prefix ∧ 0 ≤ ToDecimal ip < 2 ^ 32.
Proof.
  intros Hok H4. rewrite ToDecimal_SetBytes, SetBytes_AsSlice_ok by done.
  unfold Is4 in H4. apply bool_decide_eq_true in H4.
  unfold Addr_ok in Hok. rewrite H4 in *. lia.
Qed.

Lemma ToDecimal_IPv6_aux (ip : Addr) :
  Addr_ok ip → Is6 ip = true →
  ToDecimal ip = Addr_hi ip * 2 ^ 64 + Addr_lo ip ∧
  0 ≤ ToDecimal ip < 2 ^ 128.
Proof.
  intros Hok H6. rewrite ToDecimal_SetBytes, SetBytes_AsSlice_ok by done.
  unfold Is6 in H6. apply andb_true_iff in H6 as [H0%bool_decide_eq_true
    H4%bool_decide_eq_true].
  unfold Addr_ok, Addr_bits in *. destruct (Addr_z ip); try done; lia.
Qed.

(** C4: for an IPv4 address [ToDecimal] is the 32-bit number of the
    address: the low 32 bits, without the prefix, and so below 2^32. *)
Theorem ToDecimal_IPv4 (ip : Addr) :
  Addr_ok ip → Is4 ip = true →
  ToDecimal ip = Addr_lo ip - v4_prefix ∧ 0 ≤ ToDecimal ip < 2 ^ 32.
Proof. apply ToDecimal_IPv4_aux. Qed.

Lemma ToDecimal_IPv4_witness :
  ToDecimal ip_a = Addr_lo ip_a - v4_prefix ∧ 0 ≤ ToDecimal ip_a < 2 ^ 32.
Proof.
  apply (ToDecimal_IPv4 ip_a); [apply AddrFrom4_ok | reflexivity].
Defined.

(** For an IPv6 address [ToDecimal] is the 128-bit number of the
    address, the high half times 2^64 plus the low half, and so below
    2^128. *)
Theorem ToDecimal_IPv6 (ip : Addr) :
  Addr_ok ip → Is6 ip = true →
  ToDecimal ip = Addr_hi ip * 2 ^ 64 + Addr_lo ip ∧
  0 ≤ ToDecimal ip < 2 ^ 128.
Proof. apply ToDecimal_IPv6_aux. Qed.

(** ::1 *)
Lemma ToDecimal_IPv6_witness :
  ToDecimal ip_loopback6
    = Addr_hi ip_loopback6 * 2 ^ 64 + Addr_lo ip_loopback6 ∧
  0 ≤ ToDecimal ip_loopback6 < 2 ^ 128.
Proof.
  apply (ToDecimal_IPv6 ip_loopback6); [by apply AddrFrom16_ok | reflexivity].
Defined.

(** [ToDecimal] of the address made of the bytes [a.b.c.d] is
    [a * 2^24 + b * 2^16 + c * 2^8 + d]; 0.0.0.1 gives 1, 255.255.255.255
    gives 4294967295 and ::1 gives 1. *)
Theorem ToDecimal_bytes (a b c d : byte) :
  ToDecimal (AddrFrom4 a b c d)
  = byte_to_Z a * 2 ^ 24 + byte_to_Z b * 2 ^ 16 + byte_to_Z c * 2 ^ 8
    + byte_to_Z d
  ∧ ToDecimal (AddrFrom4 Byte.x00 Byte.x00 Byte.x00 Byte.x01) = 1
  ∧ ToDecimal (AddrFrom4 Byte.xff Byte.xff Byte.xff Byte.xff) = 4294967295
  ∧ ToDecimal ip_loopback6 = 1.
Proof.
  split; [|by vm_compute].
  rewrite ToDecimal_SetBytes, AsSlice_AddrFrom4, SetBytes_be_sum.
  cbn [be_sum length]. change (Z.of_nat 3) with 3. change (Z.of_nat 2) with 2.
  change (Z.of_nat 1) with 1. change (Z.of_nat 0) with 0. lia.
Qed.

(** Writing [ToDecimal] of an address back as big-endian bytes, as
    many as the address has, gives the bytes of the address. *)
Theorem ToDecimal_roundtrip (ip : Addr) :
  BEPut (length (AsSlice ip)) (ToDecimal ip) = AsSlice ip.
Proof. rewrite ToDecimal_SetBytes. apply BEPut_SetBytes. Qed.

(** Equal numbers, equal bytes, for addresses of one version. *)
Lemma ToDecimal_inj_bytes (ip ip' : Addr) :
  length (AsSlice ip) = length (AsSlice ip') →
  ToDecimal ip = ToDecimal ip' → AsSlice ip = AsSlice ip'.
Proof. intros Hlen. rewrite !ToDecimal_SetBytes. by apply SetBytes_inj. Qed.

(** On IPv4 addresses [ToDecimal] is injective. *)
Theorem ToDecimal_inj_IPv4 (ip ip' : Addr) :
  Addr_ok ip → Addr_ok ip' → Is4 ip = true → Is4 ip' = true →
  ToDecimal ip = ToDecimal ip' → ip = ip'.
Proof.
  intros Hok Hok' H4 H4'.
  destruct (ToDecimal_IPv4_aux ip Hok H4) as [-> _].
  destruct (ToDecimal_IPv4_aux ip' Hok' H4') as [-> _].
  unfold Is4 in *. apply bool_decide_eq_true in H4, H4'.
  unfold Addr_ok in *. rewrite H4 in Hok. rewrite H4' in Hok'.
  destruct ip, ip'; simpl in *. intros. f_equal; lia || congruence.
Qed.

Lemma ToDecimal_inj_IPv4_witness :
  ip_a = {| Addr_hi := 0; Addr_lo := 0xffffc0000201; Addr_z := z4 |}.
Proof.
  apply (ToDecimal_inj_IPv4 ip_a
           {| Addr_hi := 0; Addr_lo := 0xffffc0000201; Addr_z := z4 |});
    [apply AddrFrom4_ok | by vm_compute | reflexivity..].
Defined.

(** On IPv6 addresses [ToDecimal] is injective up to the zone: two
    addresses with the same number have the same 128 bits, and are equal if
    they have the same zone. *)
Theorem ToDecimal_inj_IPv6 (ip ip' : Addr) :
  Addr_ok ip → Addr_ok ip' → Is6 ip = true → Is6 ip' = true →
  ToDecimal ip = ToDecimal ip' →
  Addr_hi ip = Addr_hi ip' ∧ Addr_lo ip = Addr_lo ip' ∧
  (Addr_z ip = Addr_z ip' → ip = ip').
Proof.
  intros Hok Hok' H6 H6'.
  destruct (ToDecimal_IPv6_aux ip Hok H6) as [-> _].
  destruct (ToDecimal_IPv6_aux ip' Hok' H6') as [-> _].
  unfold Is6 in *.
  apply andb_true_iff in H6 as [H0%bool_decide_eq_true H4%bool_decide_eq_true].
  apply andb_true_iff in H6' as [H0'%bool_decide_eq_true
    H4'%bool_decide_eq_true].
  unfold Addr_ok in *. intros Heq.
  assert (Addr_hi ip = Addr_hi ip' ∧ Addr_lo ip = Addr_lo ip') as [Hh Hl]
    by (destruct (Addr_z ip), (Addr_z ip'); try done; lia).
  split_and!; [done..|]. destruct ip, ip'; simpl in *. congruence.
Qed.

Lemma ToDecimal_inj_IPv6_witness :
  Addr_hi ip_loopback6 = Addr_hi (WithZone ip_loopback6 "eth0") ∧
  Addr_lo ip_loopback6 = Addr_lo (WithZone ip_loopback6 "eth0") ∧
  (Addr_z ip_loopback6 = Addr_z (WithZone ip_loopback6 "eth0") →
   ip_loopback6 = WithZone ip_loopback6 "eth0").
Proof.
  apply (ToDecimal_inj_IPv6 ip_loopback6 (WithZone ip_loopback6 "eth0"));
    try reflexivity; [|apply WithZone_ok]; by apply AddrFrom16_ok.
Defined.

(** [ToDecimal] does not see the zone. *)
#[export] Instance ToDecimal_proper : Proper (same_bits ==> (=)) ToDecimal.
Proof. intros ip ip' H. by rewrite !ToDecimal_SetBytes, H. Qed.

(** C20: two well-formed addresses of one family have the same decimal
    exactly when they have the same bits: [ToDecimal] identifies the
    addresses that differ in the zone only, and no others. *)
Theorem ToDecimal_kernel (ip ip' : Addr) :
  Addr_ok ip → Addr_ok ip' → BitLen ip = BitLen ip' →
  ToDecimal ip = ToDecimal ip' ↔ same_bits ip ip'.
Proof.
  intros Hok Hok' Hlen. split; [|intros H; by rewrite H].
  rewrite !ToDecimal_SetBytes, !SetBytes_AsSlice_ok by done.
  unfold same_bits, Addr_ok, Addr_bits, BitLen in *.
  destruct (Addr_z ip), (Addr_z ip'); try done; intros; split_and!; lia.
Qed.

Lemma ToDecimal_kernel_witness :
  ToDecimal ip_loopback6 = ToDecimal (WithZone ip_loopback6 "eth0")
  ↔ same_bits ip_loopback6 (WithZone ip_loopback6 "eth0").
Proof.
  apply (ToDecimal_kernel ip_loopback6 (WithZone ip_loopback6 "eth0"));
    [apply AddrFrom16_ok | apply WithZone_ok, AddrFrom16_ok | ]; reflexivity.
Defined.


(** ** [LookupAddr] *)

Section lookup_addr.
Context (net : Network) (Addr_String : Addr → string).
Context (ip : Addr) (w : World).

(** The result of [LookupAddr] on every path, and the world after it. *)
Lemma LookupAddr_eq :
  LookupAddr net Addr_String ip w =
    (Normal
       (match net.(Network_ptr) (Addr_String ip) with
        | (name :: _, None) => (trim_ref name ".", nil)
        | (_, err) => (""%string, err)
        end),
     log (Resolved (Addr_String ip)) w).
Proof.
  unfold LookupAddr, net_LookupAddr.
  destruct (Network_ptr net (Addr_String ip)) as [[|name rest] [e|]]; try done.
  simpl. by rewrite TrimRight_ref.
Qed.

End lookup_addr.

(** C7: the name [LookupAddr] returns never ends with a dot. *)
Theorem LookupAddr_unrooted (net : Network) (Addr_String : Addr → string)
    (ip : Addr) (w : World) (name : string) (err : option error) :
  (LookupAddr net Addr_String ip w).1 = Normal (name, err) →
  ends_in name "." = false.
Proof.
  rewrite LookupAddr_eq. cbn [fst].
  destruct (Network_ptr _ _) as [[|n rest] [e|]]; intros [= <- <-]; try done.
  apply trim_ref_ends.
Qed.

Lemma LookupAddr_unrooted_witness : ends_in "example.com" "." = false.
Proof.
  apply (LookupAddr_unrooted sample_net sample_String ip_a World_init
           "example.com" None).
  reflexivity.
Defined.

(** C28: when the resolver reports no error and at least one name,
    [LookupAddr] returns no error and the first name without the dots at
    its end: the first name is the result followed by dots only. *)
Theorem LookupAddr_first_name (net : Network) (Addr_String : Addr → string)
    (ip : Addr) (w : World) (first : string) (others : list string) :
  net.(Network_ptr) (Addr_String ip) = (first :: others, None) →
  ∃ name dots,
    (LookupAddr net Addr_String ip w).1 = Normal (name, nil) ∧
    first = (name +:+ dots)%string ∧ all_in dots "." = true ∧
    ends_in name "." = false.
Proof.
  intros Hptr. rewrite LookupAddr_eq, Hptr. cbn [fst].
  destruct (trim_ref_split first ".") as (dots & Hsplit & Hdots).
  exists (trim_ref first "."), dots. split_and!; try done.
  apply trim_ref_ends.
Qed.

Lemma LookupAddr_first_name_witness :
  ∃ name dots,
    (LookupAddr sample_net sample_String ip_a World_init).1
    = Normal (name, nil) ∧
    "example.com."%string = (name +:+ dots)%string ∧
    all_in dots "." = true ∧ ends_in name "." = false.
Proof.
  apply (LookupAddr_first_name sample_net sample_String ip_a World_init
           "example.com." ["www.example.com."%string]).
  reflexivity.
Defined.

(** C37: when the resolver reports an error or no name, [LookupAddr]
    returns the empty name and the resolver's error, nil included. *)
Theorem LookupAddr_failure (net : Network) (Addr_String : Addr → string)
    (ip : Addr) (w : World) (names : list string) (err : option error) :
  net.(Network_ptr) (Addr_String ip) = (names, err) →
  err ≠ None ∨ names = [] →
  (LookupAddr net Addr_String ip w).1 = Normal (""%string, err).
Proof.
  intros Hptr Hfail. rewrite LookupAddr_eq, Hptr. cbn [fst].
  destruct names as [|n rest], err as [e|]; try done. by destruct Hfail.
Qed.

Lemma LookupAddr_failure_witness :
  (LookupAddr sample_net sample_String ip_c World_init).1
  = Normal (""%string, None).
Proof.
  apply (LookupAddr_failure sample_net sample_String ip_c World_init [] None);
    [reflexivity | by right].
Defined.

(** C38: [LookupAddr] removes every dot at the end of the first name, not
    one: a name followed by any run of dots gives the same result as the
    name alone, and the root name, a single dot, gives the empty name with
    no error. *)
Theorem LookupAddr_strips_every_dot (net : Network)
    (Addr_String : Addr → string) (ip : Addr) (w : World)
    (base dots : string) (others : list string) :
  net.(Network_ptr) (Addr_String ip) = ((base +:+ dots)%string :: others, None) →
  all_in dots "." = true →
  (LookupAddr net Addr_String ip w).1 = Normal (trim_ref base ".", nil).
Proof.
  intros Hptr Hdots. rewrite LookupAddr_eq, Hptr. cbn [fst].
  by rewrite trim_ref_app.
Qed.

Lemma LookupAddr_strips_every_dot_witness :
  (LookupAddr sample_net sample_String ip_b World_init).1
  = Normal (trim_ref "" ".", nil).
Proof.
  apply (LookupAddr_strips_every_dot sample_net sample_String ip_b World_init
           "" "." []); reflexivity.
Defined.

(** [LookupAddr] opens no connection: it leaves the set of open
    connections unchanged and adds one resolver call to the trace. *)
Theorem LookupAddr_world (net : Network) (Addr_String : Addr → string)
    (ip : Addr) (w : World) :
  World_open (LookupAddr net Addr_String ip w).2 = World_open w ∧
  World_trace (LookupAddr net Addr_String ip w).2
  = World_trace w ++ [Resolved (Addr_String ip)].
Proof. by rewrite LookupAddr_eq. Qed.

(** ** [LookupPort] *)

Section lookup_port.
Context (net : Network) (Addr_String : Addr → string).
Context (ip : Addr) (port : Z) (w : World).

(** The result of [LookupPort] on both paths, and the world after it. *)
Lemma LookupPort_eq :
  LookupPort net Addr_String ip port w =
    (Normal (dialed net Addr_String ip port),
     match dialed net Addr_String ip port with
     | Some e =>
         log (Dialed "tcp" (Sprintf_address (Addr_String ip) port)
                2000000000 None) w
     | None =>
         {| World_open :=
              ({[w.(World_next)]} ∪ w.(World_open)) ∖ {[w.(World_next)]};
            World_next := S w.(World_next);
            World_trace :=
              (w.(World_trace)
               ++ [Dialed "tcp" (Sprintf_address (Addr_String ip) port)
                     2000000000 (Some w.(World_next))])
              ++ [Closed w.(World_next)] |}
     end).
Proof.
  unfold LookupPort, net_DialTimeout, dialed.
  change (2 * time_Second)%Z with 2000000000%Z.
  destruct (Network_connect _ _ _ _) as [e|]; [done|].
  cbn [deref]. unfold Conn_Close. cbn [Conn_id log World_open World_next
    World_trace].
  rewrite decide_True; [done|]. apply elem_of_union_l, elem_of_singleton_2.
  done.
Qed.

(** [LookupPort] is its two halves, one after the other. *)
Lemma LookupPort_split :
  LookupPort net Addr_String ip port w =
    let '(r, w1) := LookupPort_dial net Addr_String ip port w in
    match r with
    | inl e => (Normal (Some e), w1)
    | inr conn => LookupPort_close conn w1
    end.
Proof.
  unfold LookupPort, LookupPort_dial, LookupPort_close.
  destruct (net_DialTimeout _ _ _ _ _) as [[conn [e|]] w1]; done.
Qed.

(** The first half: a failed dial changes the trace only; a successful one
    opens the connection numbered [World_next w]. *)
Lemma LookupPort_dial_eq :
  LookupPort_dial net Addr_String ip port w =
    match dialed net Addr_String ip port with
    | Some e =>
        (inl e,
         log (Dialed "tcp" (Sprintf_address (Addr_String ip) port)
                2000000000 None) w)
    | None =>
        (inr (Some {| Conn_id := w.(World_next) |}),
         {| World_open := {[w.(World_next)]} ∪ w.(World_open);
            World_next := S w.(World_next);
            World_trace :=
              w.(World_trace)
              ++ [Dialed "tcp" (Sprintf_address (Addr_String ip) port)
                    2000000000 (Some w.(World_next))] |})
    end.
Proof.
  unfold LookupPort_dial, net_DialTimeout, dialed.
  change (2 * time_Second)%Z with 2000000000%Z.
  by destruct (Network_connect _ _ _ _).
Qed.

End lookup_port.

(** The second half, on a connection that is open: it is closed. *)
Lemma LookupPort_close_eq (c : nat) (w : World) :
  c ∈ World_open w →
  LookupPort_close (Some {| Conn_id := c |}) w =
    (Normal nil,
     {| World_open := World_open w ∖ {[c]}; World_next := World_next w;
        World_trace := World_trace w ++ [Closed c] |}).
Proof.
  intros Hc. unfold LookupPort_close, Conn_Close. cbn [deref Conn_id].
  by rewrite decide_True.
Qed.

(** C26: [LookupPort] returns what dialing TCP to [[ip]:port] with a
    timeout of two seconds yields: nil when the connection is established,
    the dial error otherwise; it does not panic. *)
Theorem LookupPort_result (net : Network) (Addr_String : Addr → string)
    (ip : Addr) (port : Z) (w : World) :
  (LookupPort net Addr_String ip port w).1
  = Normal (net.(Network_connect) "tcp"
              ("[" +:+ Addr_String ip +:+ "]:" +:+ pretty (Z.to_N port))%string
              (2 * 1000000000)).
Proof. by rewrite LookupPort_eq. Qed.

(** C8: [LookupPort] leaves no connection open: after it, whether the
    dial succeeded or failed, the open connections are those that were open
    before. *)
Theorem LookupPort_releases (net : Network) (Addr_String : Addr → string)
    (ip : Addr) (port : Z) (w : World) :
  World_ok w →
  World_open (LookupPort net Addr_String ip port w).2 = World_open w.
Proof.
  intros Hw. rewrite LookupPort_eq. cbn [snd].
  destruct (dialed _ _ _ _); [done|]. cbn [World_open].
  apply dial_close_open. intros Hc%Hw. lia.
Qed.

Lemma LookupPort_releases_witness :
  World_open (LookupPort sample_net sample_String ip_a 80 World_init).2
  = World_open World_init.
Proof.
  apply (LookupPort_releases sample_net sample_String ip_a 80 World_init).
  apply World_init_ok.
Defined.

(** [LookupPort] makes one dial, and one close of the connection it
    got when the dial succeeded, in this order and nothing else. *)
Theorem LookupPort_trace (net : Network) (Addr_String : Addr → string)
    (ip : Addr) (port : Z) (w : World) :
  World_trace (LookupPort net Addr_String ip port w).2 =
    World_trace w ++
    match dialed net Addr_String ip port with
    | Some e =>
        [Dialed "tcp" (Sprintf_address (Addr_String ip) port) 2000000000 None]
    | None =>
        [Dialed "tcp" (Sprintf_address (Addr_String ip) port) 2000000000
           (Some w.(World_next));
         Closed w.(World_next)]
    end.
Proof.
  rewrite LookupPort_eq. cbn [snd].
  destruct (dialed _ _ _ _); [done|]. cbn [World_trace].
  by rewrite <- app_assoc.
Qed.

(** [LookupPort] preserves the invariant of the world. *)
Theorem LookupPort_preserves_ok (net : Network) (Addr_String : Addr → string)
    (ip : Addr) (port : Z) (w : World) :
  World_ok w → World_ok (LookupPort net Addr_String ip port w).2.
Proof.
  intros Hw. rewrite LookupPort_eq. cbn [snd].
  destruct (dialed _ _ _ _); [done|].
  intros c. cbn. rewrite elem_of_difference, elem_of_union, elem_of_singleton.
  intros [[->|Hc%Hw] Hne]; [done|lia].
Qed.

Lemma LookupPort_preserves_ok_witness :
  World_ok (LookupPort sample_net sample_String ip_a 80 World_init).2.
Proof.
  apply (LookupPort_preserves_ok sample_net sample_String ip_a 80 World_init).
  apply World_init_ok.
Defined.

(** Two ports give two addresses to dial. *)
Lemma Sprintf_address_inj (ip_text : string) (port port' : Z) :
  (0 ≤ port)%Z → (0 ≤ port')%Z →
  Sprintf_address ip_text port = Sprintf_address ip_text port' →
  port = port'.
Proof.
  intros Hp Hp'. unfold Sprintf_address.
  intros H%(inj (String.app _))%(inj (String.app _))%(inj (String.app _)).
  apply (inj pretty) in H. lia.
Qed.
