(* ===== verification/IputilText.v ===== *)
(** * IputilText: the probes with the text of the standard library

    [Iputil] takes the text of an address as a parameter.  This file
    instantiates it with [NetipString.Addr_String], the model of
    [netip.Addr.String], and shows what then holds of the addresses that
    the probes hand to package [net]: the address that [LookupPort] dials
    is read back without ambiguity (the port follows the last closing
    bracket, and the text of an address determines the address), so two
    targets that differ in address or port are dialed at different
    addresses; the zero [Addr] is not refused but passed on as the text
    "invalid IP". *)

From Stdlib Require Import ZArith String Ascii List Lia.
From stdpp Require Import base tactics decidable option list strings pretty.
From S2P Require Import Prelude Bytes Netip GoStrings NetipString NetipParse.
From S2P Require Import Samples Net.
From S2P Require Import Iputil.

#[local] Open Scope Z_scope.

(** ** The probes of the package *)

(** [LookupAddr] and [LookupPort] as the package has them, with
    [ip.String()]. *)
Definition iputil_LookupAddr (net : Network) (ip : Addr) :
    stateful World (run (string * option error)) :=
  LookupAddr net Addr_String ip.

Definition iputil_LookupPort (net : Network) (ip : Addr) (port : Z) :
    stateful World (run (option error)) :=
  LookupPort net Addr_String ip port.

(** The addresses a trace dials, in order. *)
Definition dial_addresses (t : list Event) : list string :=
  omap (λ e, match e with Dialed _ address _ _ => Some address | _ => None end)
    t.

(** ** Brackets *)

(** The decimal text of a number is made of decimal digits. *)
Lemma pretty_N_go_digits (x : N) (s : string) :
  all_in s "0123456789" = true →
  all_in (pretty_N_go x s) "0123456789" = true.
Proof.
  revert s. induction (N.lt_wf_0 x) as [x _ IH]; intros s Hs.
  destruct (decide (x = 0%N)) as [->|Hx]; [by rewrite pretty_N_go_0|].
  rewrite pretty_N_go_step by lia. apply IH; [apply N.div_lt; lia|].
  cbn [all_in]. rewrite Hs, andb_true_r. unfold pretty_N_char.
  by repeat case_match.
Qed.

Lemma pretty_N_digits (x : N) : all_in (pretty x) "0123456789" = true.
Proof.
  unfold pretty, pretty_N. case_decide; [done|by apply pretty_N_go_digits].
Qed.

Lemma port_no_bracket (x : N) : in_cutset "]" (":" +:+ pretty x) = false.
Proof.
  change (in_cutset "]" (pretty x) = false).
  by apply (all_in_not_in _ "0123456789"); [apply pretty_N_digits|].
Qed.

(** A text is cut in one way at its last closing bracket. *)
Lemma bracket_split (h h' r r' : string) :
  in_cutset "]" r = false → in_cutset "]" r' = false →
  h +:+ "]" +:+ r = h' +:+ "]" +:+ r' → h = h' ∧ r = r'.
Proof.
  intros Hr Hr'. revert h'.
  induction h as [|c h IH]; intros [|c' h'] Heq.
  - change (String "]" r = String "]" r') in Heq. by injection Heq as ->.
  - change (String "]" r = String c' (h' +:+ "]" +:+ r')) in Heq.
    injection Heq as _ ->. rewrite !in_cutset_app in Hr.
    by rewrite orb_true_r in Hr.
  - change (String c (h +:+ "]" +:+ r) = String "]" r') in Heq.
    injection Heq as _ <-. rewrite !in_cutset_app in Hr'.
    by rewrite orb_true_r in Hr'.
  - change (String c (h +:+ "]" +:+ r) = String c' (h' +:+ "]" +:+ r')) in Heq.
    injection Heq as -> Heq. by destruct (IH h' Heq) as [-> ->].
Qed.

(** The address [LookupPort] formats determines the host and the port:
    what follows the last closing bracket is the port. *)
Lemma Sprintf_address_split (h h' : string) (port port' : Z) :
  0 ≤ port → 0 ≤ port' →
  Sprintf_address h port = Sprintf_address h' port' →
  h = h' ∧ port = port'.
Proof.
  intros Hp Hp'. unfold Sprintf_address.
  intros Heq%(inj (String.app _)).
  change ("]:" +:+ ?x) with ("]" +:+ ":" +:+ x) in Heq.
  apply bracket_split in Heq as [-> Heq%(inj (String.app _))];
    [|apply port_no_bracket..].
  apply (inj pretty) in Heq. split; [done|lia].
Qed.

(** The address [LookupPort] formats determines the address, of either
    family and with its zone, and the port. *)
Lemma Sprintf_address_inj_ok (ip ip' : Addr) (port port' : Z) :
  Addr_ok ip → Addr_ok ip' → 0 ≤ port → 0 ≤ port' →
  Sprintf_address (Addr_String ip) port
  = Sprintf_address (Addr_String ip') port' →
  ip = ip' ∧ port = port'.
Proof.
  intros Hok Hok' Hp Hp' Heq.
  apply Sprintf_address_split in Heq as [Heq ->]; [|done..].
  split; [|done]. by apply Addr_String_inj.
Qed.

(** [LookupPort] dials one address, the one it has formatted, whatever
    the network answers. *)
Lemma iputil_LookupPort_dials (net : Network) (ip : Addr) (port : Z)
    (w : World) :
  dial_addresses (since w (iputil_LookupPort net ip port w).2)
  = [Sprintf_address (Addr_String ip) port].
Proof.
  unfold iputil_LookupPort.
  rewrite (since_app _ _ _ (LookupPort_trace net Addr_String ip port w)).
  by destruct (dialed _ _ _ _).
Qed.

(** C32: two probes that dial the same address have the same target: the
    address [LookupPort] dials determines the address probed, of either
    family and with its zone, and the port, whatever the network answers
    and whatever has been called before. *)
Theorem dial_address_inj (net net' : Network) (ip ip' : Addr)
    (port port' : Z) (w w' : World) :
  Addr_ok ip → Addr_ok ip' → 0 ≤ port → 0 ≤ port' →
  dial_addresses (since w (iputil_LookupPort net ip port w).2)
  = dial_addresses (since w' (iputil_LookupPort net' ip' port' w').2) →
  ip = ip' ∧ port = port'.
Proof.
  intros Hok Hok' Hp Hp'. rewrite !iputil_LookupPort_dials.
  intros Heq. apply Sprintf_address_inj_ok; [done..|]. congruence.
Qed.

Lemma dial_address_inj_witness :
  ip_a = {| Addr_hi := 0; Addr_lo := 0xffffc0000201; Addr_z := z4 |} ∧
  80 = 80.
Proof.
  apply (dial_address_inj sample_net sample_net ip_a
           {| Addr_hi := 0; Addr_lo := 0xffffc0000201; Addr_z := z4 |} 80 80
           World_init World_init);
    [apply AddrFrom4_ok | by vm_compute | lia | lia | reflexivity].
Defined.

(** The sample texts are those of [String]. *)
Example sample_String_go :
  sample_String ip_a = Addr_String ip_a ∧
  sample_String ip_b = Addr_String ip_b ∧
  sample_String ip_c = Addr_String ip_c ∧
  Sprintf_address (Addr_String ip_a) 80 = "[192.0.2.1]:80"%string ∧
  Sprintf_address (Addr_String ip_loopback6) 443 = "[::1]:443"%string.
Proof. by vm_compute. Qed.

(** The probes do not refuse the zero [Addr]: [LookupAddr] asks the
    resolver for the text "invalid IP" and [LookupPort] dials
    "[invalid IP]:port"; what they return is what package [net] makes of
    these texts. *)
Theorem probes_zero_Addr (net : Network) (port : Z) (w : World) :
  Addr_String zero = "invalid IP"%string ∧
  World_trace (iputil_LookupAddr net zero w).2
  = World_trace w ++ [Resolved "invalid IP"] ∧
  (iputil_LookupPort net zero port w).1
  = Normal (Network_connect net "tcp"
              ("[invalid IP]:" +:+ pretty (Z.to_N port)) 2000000000).
Proof.
  unfold iputil_LookupAddr, iputil_LookupPort.
  by rewrite LookupAddr_eq, LookupPort_eq.
Qed.
