(* ===== verification/Probe.v ===== *)
(** * Probe: sequences of calls to package [iputil]

    The two probes of [iputil.go] are called again and again by a server
    that lives as long as the process.  This file models such a run: a
    step relation [step] of one call from one world to the next, its
    reflexive and transitive closure [steps] over histories of calls with
    their outcomes, and the executable [exec] that runs a list of calls.
    The theorems are invariants of every run, by induction on [steps]: no
    connection is ever left open, the outcome of a call does not depend on
    the calls made before it, the trace of calls to package [net] follows
    the protocol "a connection that a dial returned is closed before
    anything else is done", and no call is retried. *)

From Stdlib Require Import ZArith String List Lia.
From stdpp Require Import base tactics decidable option list strings gmap.
From S2P Require Import Prelude Netip Samples GoStrings Net Iputil.

(** ** Calls and outcomes *)

Inductive call :=
| Call_LookupAddr (ip : Addr)
| Call_LookupPort (ip : Addr) (port : Z).

Inductive outcome :=
| Name (r : run (string * option error))
| Verdict (r : run (option error)).

#[export] Instance call_eq_dec : EqDecision call.
Proof. solve_decision. Defined.

(** An outcome that is not a panic. *)
Definition returned (o : outcome) : bool :=
  match o with
  | Name r => negb (panics r)
  | Verdict r => negb (panics r)
  end.

Definition is_LookupPort (c : call) : bool :=
  match c with Call_LookupPort _ _ => true | _ => false end.

Definition is_LookupAddr (c : call) : bool :=
  match c with Call_LookupAddr _ => true | _ => false end.

(** ** The protocol of the trace *)

(** What a client that leaks nothing does: after a dial that returned a
    connection, the next call closes that connection.  The state of the
    acceptor is the connection that waits for its close. *)
Definition accept (pending : option nat) (e : Event) : option (option nat) :=
  match pending, e with
  | None, Resolved _ => Some None
  | None, Dialed _ _ _ None => Some None
  | None, Dialed _ _ _ (Some c) => Some (Some c)
  | Some c, Closed c' => if decide (c = c') then Some None else None
  | _, _ => None
  end.

Fixpoint scan (pending : option nat) (t : list Event) :
    option (option nat) :=
  match t with
  | [] => Some pending
  | e :: t => p ← accept pending e; scan p t
  end.

(** A trace that follows the protocol and ends with nothing pending. *)
Definition disciplined (t : list Event) : bool :=
  bool_decide (scan None t = Some None).

Definition is_Dialed (e : Event) : bool :=
  match e with Dialed _ _ _ _ => true | _ => false end.

Definition is_Resolved (e : Event) : bool :=
  match e with Resolved _ => true | _ => false end.

(** The number of dials, and of resolver calls, in a trace. *)
Definition dials (t : list Event) : nat := length (List.filter is_Dialed t).
Definition resolves (t : list Event) : nat := length (List.filter is_Resolved t).

(** ** Runs *)

Section probe.
Context (net : Network) (Addr_String : Addr → string).

(** One call, as a function. *)
Definition perform (c : call) : stateful World outcome :=
  λ w,
    match c with
    | Call_LookupAddr ip =>
        let '(r, w) := LookupAddr net Addr_String ip w in (Name r, w)
    | Call_LookupPort ip port =>
        let '(r, w) := LookupPort net Addr_String ip port w in (Verdict r, w)
    end.

(** One call, as a step from a world to a world. *)
Inductive step : World → call → outcome → World → Prop :=
| step_LookupAddr w ip r w' :
    LookupAddr net Addr_String ip w = (r, w') →
    step w (Call_LookupAddr ip) (Name r) w'
| step_LookupPort w ip port r w' :
    LookupPort net Addr_String ip port w = (r, w') →
    step w (Call_LookupPort ip port) (Verdict r) w'.

(** A history: the calls made, each with its outcome. *)
Inductive steps : World → list (call * outcome) → World → Prop :=
| steps_nil w : steps w [] w
| steps_cons w c o w' h w'' :
    step w c o w' → steps w' h w'' → steps w ((c, o) :: h) w''.

(** Running a list of calls. *)
Fixpoint exec (cs : list call) (w : World) :
    list (call * outcome) * World :=
  match cs with
  | [] => ([], w)
  | c :: cs =>
      let '(o, w') := perform c w in
      let '(h, w'') := exec cs w' in
      ((c, o) :: h, w'')
  end.

(** What one call does to the world: it adds [events c] to the trace,
    takes [fresh c] connection numbers and leaves the open connections as
    they were. *)
Definition events (c : call) (w : World) : list Event :=
  match c with
  | Call_LookupAddr ip => [Resolved (Addr_String ip)]
  | Call_LookupPort ip port =>
      let address := Sprintf_address (Addr_String ip) port in
      match dialed net Addr_String ip port with
      | Some e => [Dialed "tcp" address 2000000000 None]
      | None => [Dialed "tcp" address 2000000000 (Some w.(World_next));
                 Closed w.(World_next)]
      end
  end.

Definition fresh (c : call) : nat :=
  match c with
  | Call_LookupAddr ip => 0
  | Call_LookupPort ip port =>
      match dialed net Addr_String ip port with Some _ => 0 | None => 1 end
  end.

(** What one call answers: a function of the call and the outside. *)
Definition answer (c : call) : outcome :=
  match c with
  | Call_LookupAddr ip =>
      Name (Normal
        match net.(Network_ptr) (Addr_String ip) with
        | (name :: _, None) => (trim_ref name ".", nil)
        | (_, err) => (""%string, err)
        end)
  | Call_LookupPort ip port => Verdict (Normal (dialed net Addr_String ip port))
  end.

(** A world that a run from the initial world ends in. *)
Definition reachable (w : World) : Prop := ∃ h, steps World_init h w.

(** ** One step *)

(** [step] is the graph of [perform]: every call has one outcome and one
    next world. *)
Lemma step_perform (w : World) (c : call) (o : outcome) (w' : World) :
  step w c o w' ↔ perform c w = (o, w').
Proof.
  split.
  - intros [? ? ? ? H|? ? ? ? ? H]; unfold perform; by rewrite H.
  - destruct c as [ip|ip port]; unfold perform.
    + destruct (LookupAddr _ _ _ _) as [r w1] eqn:H. intros [= <- <-].
      by constructor.
    + destruct (LookupPort _ _ _ _ _) as [r w1] eqn:H. intros [= <- <-].
      by constructor.
Qed.

Lemma step_total (w : World) (c : call) :
  step w c (perform c w).1 (perform c w).2.
Proof. apply step_perform. by destruct (perform c w). Qed.

Lemma step_deterministic (w : World) (c : call) o1 w1 o2 w2 :
  step w c o1 w1 → step w c o2 w2 → o1 = o2 ∧ w1 = w2.
Proof. rewrite !step_perform. intros -> [= <- <-]. done. Qed.

Lemma step_effect (w : World) (c : call) (o : outcome) (w' : World) :
  World_ok w → step w c o w' →
  o = answer c ∧
  World_open w' = World_open w ∧
  World_next w' = (World_next w + fresh c)%nat ∧
  World_trace w' = World_trace w ++ events c w.
Proof.
  intros Hw Hs. destruct Hs as [w ip r w' H|w ip port r w' H].
  - rewrite LookupAddr_eq in H. by injection H as <- <-.
  - rewrite LookupPort_eq in H. injection H as <- <-. cbn.
    destruct (dialed _ _ _ _); cbn; split_and!;
      rewrite <- ?app_assoc; try done; try lia.
    apply dial_close_open. intros Hc%Hw. lia.
Qed.

Lemma step_ok (w : World) (c : call) (o : outcome) (w' : World) :
  World_ok w → step w c o w' → World_ok w'.
Proof.
  intros Hw Hstep. destruct (step_effect _ _ _ _ Hw Hstep) as (_ & Ho & Hn & _).
  intros x. rewrite Ho, Hn. intros Hx%Hw. lia.
Qed.

Lemma events_disciplined (c : call) (w : World) :
  scan None (events c w) = Some None.
Proof.
  destruct c as [ip|ip port]; cbn; [done|].
  destruct (dialed _ _ _ _); cbn; [done|]. by rewrite decide_True.
Qed.

Lemma events_dials (c : call) (w : World) :
  dials (events c w) = (if is_LookupPort c then 1 else 0)%nat ∧
  resolves (events c w) = (if is_LookupAddr c then 1 else 0)%nat.
Proof.
  destruct c as [ip|ip port]; cbn; [done|]. by destruct (dialed _ _ _ _).
Qed.

Lemma scan_app (p : option nat) (t t' : list Event) :
  scan p (t ++ t') = q ← scan p t; scan q t'.
Proof.
  revert p. induction t as [|e t IH]; intros p; cbn; [done|].
  destruct (accept p e); cbn; [apply IH|done].
Qed.

Lemma dials_app (t t' : list Event) :
  dials (t ++ t') = (dials t + dials t')%nat ∧
  resolves (t ++ t') = (resolves t + resolves t')%nat.
Proof. unfold dials, resolves. by rewrite !List.filter_app, !length_app. Qed.

(** ** Runs *)

Lemma exec_steps (cs : list call) (w : World) :
  steps w (exec cs w).1 (exec cs w).2.
Proof.
  revert w. induction cs as [|c cs IH]; intros w; cbn; [constructor|].
  pose proof (step_total w c) as Hs. destruct (perform c w) as [o w'].
  specialize (IH w'). destruct (exec cs w') as [h w''].
  by econstructor.
Qed.

Lemma steps_exec (w : World) (h : list (call * outcome)) (w' : World) :
  steps w h w' ↔ exec (h.*1) w = (h, w').
Proof.
  split.
  - induction 1 as [|w c o w' h w'' Hs%step_perform _ IH]; cbn; [done|].
    by rewrite Hs, IH.
  - revert w. induction h as [|[c o] h IH]; intros w; cbn.
    + intros [= <-]. constructor.
    + destruct (perform c w) as [o1 w1] eqn:Hp.
      destruct (exec h.*1 w1) as [h1 w2] eqn:He. intros [= <- <- <-].
      econstructor; [by apply step_perform|by apply IH].
Qed.

Lemma steps_app (w : World) h w' h' w'' :
  steps w h w' → steps w' h' w'' → steps w (h ++ h') w''.
Proof. induction 1; cbn; [done|]. intros. econstructor; eauto. Qed.

(** The invariants of a run, all at once. *)
Lemma steps_effect (w : World) (h : list (call * outcome)) (w' : World) :
  World_ok w → steps w h w' →
  World_ok w' ∧
  World_open w' = World_open w ∧
  h.*2 = answer <$> h.*1 ∧
  (scan None (World_trace w) = Some None →
   scan None (World_trace w') = Some None) ∧
  dials (World_trace w')
  = (dials (World_trace w) + length (List.filter is_LookupPort h.*1))%nat ∧
  resolves (World_trace w')
  = (resolves (World_trace w) + length (List.filter is_LookupAddr h.*1))%nat.
Proof.
  intros Hw Hsteps. induction Hsteps as [|w c o w' h w'' Hs _ IH]; cbn.
  { split_and!; try done; lia. }
  destruct (step_effect _ _ _ _ Hw Hs) as (-> & Ho & _ & Ht).
  destruct (IH (step_ok _ _ _ _ Hw Hs)) as (? & -> & -> & Hscan & -> & ->).
  rewrite Ht, !(proj1 (dials_app _ _)), !(proj2 (dials_app _ _)).
  destruct (events_dials c w) as [-> ->].
  split_and!; try done.
  - intros Hd. apply Hscan. rewrite Ht, scan_app, Hd. apply events_disciplined.
  - destruct c; cbn; lia.
  - destruct c; cbn; lia.
Qed.

(** In every run of the probes from a world that satisfies the
    invariant, the invariant holds at the end and the open connections are
    those of the start: no sequence of calls leaks a connection. *)
Theorem steps_no_leak (w : World) (h : list (call * outcome)) (w' : World) :
  World_ok w → steps w h w' →
  World_ok w' ∧ World_open w' = World_open w.
Proof. intros Hw Hs. by destruct (steps_effect w h w' Hw Hs) as (? & ? & _). Qed.

(** The probes are stateless: in every run the outcome of each call
    is a function of the call and of what the resolver and the network
    answer, whatever calls were made before it, and no call panics. *)
Theorem steps_stateless (w : World) (h : list (call * outcome)) (w' : World) :
  World_ok w → steps w h w' →
  h.*2 = answer <$> h.*1 ∧ Forall (λ o, returned o = true) h.*2.
Proof.
  intros Hw Hs. destruct (steps_effect w h w' Hw Hs) as (_ & _ & -> & _).
  split; [done|]. apply Forall_fmap, Forall_forall. by intros [].
Qed.

(** The trace of every run follows the protocol: a connection that a
    dial returned is closed by the next call to package [net], and nothing
    is pending at the end. *)
Theorem steps_disciplined (w : World) (h : list (call * outcome))
    (w' : World) :
  World_ok w → disciplined (World_trace w) = true → steps w h w' →
  disciplined (World_trace w') = true.
Proof.
  unfold disciplined. rewrite !bool_decide_eq_true. intros Hw Hd Hs.
  destruct (steps_effect w h w' Hw Hs) as (_ & _ & _ & Hscan & _). auto.
Qed.

(** No call is retried: a run makes one dial for each call of
    [LookupPort] and one resolver call for each call of [LookupAddr]. *)
Theorem steps_no_retry (w : World) (h : list (call * outcome)) (w' : World) :
  World_ok w → steps w h w' →
  dials (World_trace w')
  = (dials (World_trace w) + length (List.filter is_LookupPort h.*1))%nat ∧
  resolves (World_trace w')
  = (resolves (World_trace w) + length (List.filter is_LookupAddr h.*1))%nat.
Proof.
  intros Hw Hs. by destruct (steps_effect w h w' Hw Hs) as (_ & _ & _ & _ & ?).
Qed.

(** Every list of calls runs to the end, from every world. *)
Theorem exec_total (cs : list call) (w : World) :
  ∃ h w', steps w h w' ∧ h.*1 = cs.
Proof.
  exists (exec cs w).1, (exec cs w).2. split; [apply exec_steps|].
  revert w. induction cs as [|c cs IH]; intros w; cbn; [done|].
  destruct (perform c w) as [o w1]. specialize (IH w1).
  destruct (exec cs w1) as [h w2]. cbn in *. by rewrite IH.
Qed.

(** A reachable world has no open connection. *)
Theorem reachable_closed (w : World) :
  reachable w → World_ok w ∧ World_open w = ∅.
Proof.
  intros [h Hs]. by destruct (steps_effect _ h w World_init_ok Hs) as (? & ? & _).
Qed.

End probe.

(** ** A sample run *)

Definition sample_calls : list call :=
  [Call_LookupAddr ip_a; Call_LookupPort ip_a 80; Call_LookupPort ip_b 22;
   Call_LookupAddr ip_c; Call_LookupPort ip_a 80].

Definition sample_run : list (call * outcome) * World :=
  exec sample_net sample_String sample_calls World_init.

Lemma sample_run_steps :
  steps sample_net sample_String World_init sample_run.1 sample_run.2.
Proof. apply exec_steps. Qed.

Lemma steps_no_leak_witness :
  World_ok sample_run.2 ∧ World_open sample_run.2 = World_open World_init.
Proof.
  apply (steps_no_leak sample_net sample_String World_init sample_run.1);
    [apply World_init_ok | apply sample_run_steps].
Defined.

Lemma steps_stateless_witness :
  sample_run.1.*2 = answer sample_net sample_String <$> sample_run.1.*1 ∧
  Forall (λ o, returned o = true) sample_run.1.*2.
Proof.
  apply (steps_stateless sample_net sample_String World_init sample_run.1
           sample_run.2); [apply World_init_ok | apply sample_run_steps].
Defined.

Lemma steps_disciplined_witness :
  disciplined (World_trace sample_run.2) = true.
Proof.
  apply (steps_disciplined sample_net sample_String World_init sample_run.1);
    [apply World_init_ok | reflexivity | apply sample_run_steps].
Defined.

Lemma steps_no_retry_witness :
  dials (World_trace sample_run.2)
  = (dials (World_trace World_init)
     + length (List.filter is_LookupPort sample_run.1.*1))%nat ∧
  resolves (World_trace sample_run.2)
  = (resolves (World_trace World_init)
     + length (List.filter is_LookupAddr sample_run.1.*1))%nat.
Proof.
  apply (steps_no_retry sample_net sample_String World_init sample_run.1);
    [apply World_init_ok | apply sample_run_steps].
Defined.

(** The sample run: three dials, of which two succeed. *)
Example sample_run_trace :
  World_trace sample_run.2 =
    [Resolved "192.0.2.1";
     Dialed "tcp" "[192.0.2.1]:80" 2000000000 (Some 0); Closed 0;
     Dialed "tcp" "[198.51.100.7]:22" 2000000000 None;
     Resolved "203.0.113.9";
     Dialed "tcp" "[192.0.2.1]:80" 2000000000 (Some 1); Closed 1]
  ∧ World_next sample_run.2 = 2.
Proof. by vm_compute. Qed.
