(* ===== verification/Timing.v ===== *)
(** * Timing: how long the probes block

    [LookupPort] dials with a timeout of two seconds, and the
    specification promises that the probe never hangs: it answers within
    the timeout.  The model of file [Net] has no clock; the time a probe
    takes is read off the trace of its calls to package [net].  How long
    the outside takes to answer is a parameter ([Latency]); a dial takes
    the time the peer needs or the timeout, whichever is shorter
    ([elapsed]), as [net.DialTimeout] promises; closing a connection takes
    no time.

    The theorems: the calls of one [LookupPort] take two seconds at most,
    whatever the network does, and exactly two seconds, with an error, when
    the peer does not answer in time; the calls of a [LookupAddr] take as
    long as the resolver does, for which the code sets no bound; a run of
    probes takes the sum of the times of its calls. *)

From Stdlib Require Import ZArith String List Lia.
From stdpp Require Import base tactics decidable option list strings gmap.
From S2P Require Import Prelude Netip Samples GoStrings Net Iputil Probe.

#[local] Open Scope Z_scope.

(** ** The time the outside takes *)

(** The nanoseconds after which the resolver answers for a text, and
    after which the peer answers a connection request. *)
Record Latency := {
  Latency_resolve : string → Z;
  Latency_connect : string → string → Z
}.

Definition Latency_ok (lat : Latency) : Prop :=
  (∀ addr, 0 ≤ lat.(Latency_resolve) addr) ∧
  (∀ network address, 0 ≤ lat.(Latency_connect) network address).

(** A peer that does not answer within the timeout is not connected to:
    what relates the verdicts of the dialer to the latencies. *)
Definition timely (net : Network) (lat : Latency) : Prop :=
  ∀ network address timeout,
    timeout < lat.(Latency_connect) network address →
    is_Some (net.(Network_connect) network address timeout).

(** The time a call to package [net] takes. *)
Definition elapsed (lat : Latency) (e : Event) : Z :=
  match e with
  | Resolved addr => lat.(Latency_resolve) addr
  | Dialed network address timeout _ =>
      Z.min (lat.(Latency_connect) network address) timeout
  | Closed _ => 0
  end.

Definition duration (lat : Latency) (t : list Event) : Z :=
  foldr (λ e d, elapsed lat e + d) 0 t.

(** The time one call of a probe spends in package [net]. *)
Definition blocks (Addr_String : Addr → string) (lat : Latency) (c : call) :
    Z :=
  match c with
  | Call_LookupAddr ip => lat.(Latency_resolve) (Addr_String ip)
  | Call_LookupPort ip port =>
      Z.min
        (lat.(Latency_connect) "tcp" (Sprintf_address (Addr_String ip) port))
        (2 * time_Second)
  end.

(** ** Samples *)

(** A peer that answers after 30 ms on port 80 and never on any other
    port; a resolver that takes 5 ms. *)
Definition sample_latency : Latency :=
  {| Latency_resolve := λ _, 5000000;
     Latency_connect := λ network address,
       if decide (address = "[192.0.2.1]:80"%string) then 30000000
       else 3600 * time_Second |}.

(** ** Lemmas *)

Lemma duration_app (lat : Latency) (t t' : list Event) :
  duration lat (t ++ t') = duration lat t + duration lat t'.
Proof.
  unfold duration. induction t as [|e t IH]; cbn [foldr app]; [done|].
  rewrite IH. lia.
Qed.

Lemma sample_latency_ok : Latency_ok sample_latency.
Proof.
  split; intros; cbn; [lia|]. unfold time_Second. case_decide; lia.
Qed.

Lemma sample_timely : timely sample_net sample_latency.
Proof.
  intros network address timeout. cbn. intros Hlt.
  destruct (decide (network = _ ∧ _)) as [(_ & -> & ->)|]; [|by eexists].
  rewrite decide_True in Hlt by done. lia.
Qed.

Section timing.
Context (net : Network) (Addr_String : Addr → string) (lat : Latency).

Lemma duration_events (c : call) (w : World) :
  duration lat (events net Addr_String c w) = blocks Addr_String lat c.
Proof.
  unfold duration, blocks, events, time_Second.
  destruct c as [ip|ip port]; [cbn; lia|].
  destruct (dialed _ _ _ _); cbn; lia.
Qed.

(** What one call adds to the trace takes [blocks]. *)
Lemma step_duration (w : World) (c : call) (o : outcome) (w' : World) :
  World_ok w → step net Addr_String w c o w' →
  duration lat (since w w') = blocks Addr_String lat c.
Proof.
  intros Hw Hs. destruct (step_effect _ _ _ _ _ _ Hw Hs) as (_ & _ & _ & Ht).
  by rewrite (since_app _ _ _ Ht), duration_events.
Qed.

(** The calls of a history extend the trace. *)
Lemma steps_since (w : World) (h : list (call * outcome)) (w' : World) :
  World_ok w → steps net Addr_String w h w' →
  World_trace w' = World_trace w ++ since w w' ∧
  duration lat (since w w')
  = foldr (λ c d, blocks Addr_String lat c + d) 0 h.*1.
Proof.
  intros Hw Hsteps. induction Hsteps as [|w c o w' h w'' Hs Hsteps IH]; cbn.
  { by rewrite since_refl, app_nil_r. }
  destruct (step_effect _ _ _ _ _ _ Hw Hs) as (_ & _ & _ & Ht).
  destruct IH as [Ht' Hd]; [by eapply step_ok|].
  assert (World_trace w'' = World_trace w ++ events net Addr_String c w
                            ++ since w' w'') as Hall
    by (by rewrite Ht', Ht, <- app_assoc).
  rewrite (since_app _ _ _ Hall), duration_app, duration_events, Hd.
  by rewrite Hall.
Qed.

(** The calls of one [LookupPort]. *)
Lemma LookupPort_since (ip : Addr) (port : Z) (w : World) :
  since w (LookupPort net Addr_String ip port w).2
  = events net Addr_String (Call_LookupPort ip port) w.
Proof.
  apply since_app. rewrite LookupPort_eq. unfold events.
  destruct (dialed _ _ _ _); cbn; by rewrite <- ?app_assoc.
Qed.

(** The calls of one [LookupAddr]. *)
Lemma LookupAddr_since (ip : Addr) (w : World) :
  since w (LookupAddr net Addr_String ip w).2
  = events net Addr_String (Call_LookupAddr ip) w.
Proof. apply since_app. by rewrite LookupAddr_eq. Qed.

End timing.

(** ** Theorems *)

(** C27: [LookupPort] never hangs: whatever the network does, its calls to
    package [net] take two seconds at most; when the peer does not answer
    within two seconds the probe returns an error after exactly two
    seconds; when it returns nil it has taken the time the peer needed to
    answer. *)
Theorem LookupPort_within_timeout (net : Network)
    (Addr_String : Addr → string) (lat : Latency) (ip : Addr) (port : Z)
    (w : World) :
  Latency_ok lat → timely net lat →
  let address := Sprintf_address (Addr_String ip) port in
  let r := LookupPort net Addr_String ip port w in
  0 ≤ duration lat (since w r.2) ≤ 2 * time_Second ∧
  (2 * time_Second < lat.(Latency_connect) "tcp" address →
   (∃ e, r.1 = Normal (Some e)) ∧
   duration lat (since w r.2) = 2 * time_Second) ∧
  (r.1 = Normal nil →
   duration lat (since w r.2) = lat.(Latency_connect) "tcp" address).
Proof.
  intros [_ Hc] Htimely address r. subst r.
  rewrite LookupPort_since, duration_events, LookupPort_eq. cbn [blocks fst].
  specialize (Hc "tcp"%string address). fold address.
  split; [unfold time_Second; lia|]. split.
  - intros Hlate. split; [|lia].
    destruct (Htimely "tcp"%string address _ Hlate) as [e He].
    exists e. unfold dialed. fold address.
    change 2000000000 with (2 * time_Second). by rewrite He.
  - intros [= Hnil]. destruct (decide (2 * time_Second
                                       < Latency_connect lat "tcp" address))
      as [Hlate|]; [|lia].
    destruct (Htimely "tcp"%string address _ Hlate) as [e He].
    unfold dialed in Hnil. fold address in Hnil.
    change 2000000000 with (2 * time_Second) in Hnil. congruence.
Qed.

Lemma LookupPort_within_timeout_witness :
  0 ≤ duration sample_latency
        (since World_init
           (LookupPort sample_net sample_String ip_b 80 World_init).2)
    ≤ 2 * time_Second ∧
  (2 * time_Second
   < Latency_connect sample_latency "tcp"
       (Sprintf_address (sample_String ip_b) 80) →
   (∃ e, (LookupPort sample_net sample_String ip_b 80 World_init).1
         = Normal (Some e)) ∧
   duration sample_latency
     (since World_init
        (LookupPort sample_net sample_String ip_b 80 World_init).2)
   = 2 * time_Second) ∧
  ((LookupPort sample_net sample_String ip_b 80 World_init).1 = Normal nil →
   duration sample_latency
     (since World_init
        (LookupPort sample_net sample_String ip_b 80 World_init).2)
   = Latency_connect sample_latency "tcp"
       (Sprintf_address (sample_String ip_b) 80)).
Proof.
  apply (LookupPort_within_timeout sample_net sample_String sample_latency
           ip_b 80 World_init);
    [apply sample_latency_ok | apply sample_timely].
Defined.

(** The time of a [LookupAddr] is the time the resolver takes: the code
    sets no bound on it. *)
Theorem LookupAddr_unbounded (net : Network) (Addr_String : Addr → string)
    (ip : Addr) (w : World) (bound : Z) :
  (∀ lat, duration lat (since w (LookupAddr net Addr_String ip w).2)
          = lat.(Latency_resolve) (Addr_String ip)) ∧
  ∃ lat, Latency_ok lat ∧
    bound < duration lat (since w (LookupAddr net Addr_String ip w).2).
Proof.
  split; [intros lat; by rewrite LookupAddr_since, duration_events|].
  exists {| Latency_resolve := λ _, Z.max 0 (bound + 1);
            Latency_connect := λ _ _, 0 |}.
  split; [split; intros; cbn; lia|].
  rewrite LookupAddr_since, duration_events. cbn. lia.
Qed.

(** A run of probes takes the sum of the times of its calls: two seconds
    at most for every [LookupPort], the time of the resolver for every
    [LookupAddr]. *)
Theorem steps_duration (net : Network) (Addr_String : Addr → string)
    (lat : Latency) (w : World) (h : list (call * outcome)) (w' : World) :
  World_ok w → steps net Addr_String w h w' →
  duration lat (since w w')
  = foldr (λ c d, blocks Addr_String lat c + d) 0 h.*1.
Proof. intros Hw Hs. by destruct (steps_since net Addr_String lat w h w'). Qed.

(** The times of the sample run: a reverse lookup, a connection that is
    established and one that times out. *)
Example sample_durations :
  duration sample_latency
    (since World_init
       (exec sample_net sample_String
          [Call_LookupAddr ip_a; Call_LookupPort ip_a 80;
           Call_LookupPort ip_b 80] World_init).2)
  = 5000000 + 30000000 + 2 * time_Second.
Proof. by vm_compute. Qed.
