(* ===== verification/ProbeTree.v ===== *)
(** * ProbeTree: the probes as trees of interactions

    In file [Iputil] a probe is a function on the [World] of file [Net], in
    which package [net] answers as a fixed [Network] prescribes.  Here the
    same lines of [iputil.go] are read without any model of package [net]:
    a probe is an interaction tree whose events are the calls it makes
    ([netE]: [net.LookupAddr], [net.DialTimeout], [Close]) and whose
    branches are the answers it may get.

    The trees are given meaning twice.  Interpreted with the operating
    system of file [Net] ([h_net]) they are the functions of file
    [Iputil].  Interpreted with an arbitrary environment ([h_env]), which
    may answer every call as it likes and differently each time, they show
    what the probes do whatever package [net] does: which calls they make,
    in which order, with which arguments, and what they return for which
    answers. *)

From Stdlib Require Import ZArith String List Lia.
From ITree Require Import ITree ITreeFacts Events.State Events.StateFacts.
From stdpp Require Import base tactics decidable option list strings gmap.
From S2P Require Import Prelude Netip Samples GoStrings Net Iputil Probe.

#[local] Open Scope Z_scope.

(** ** Events *)

(** The calls of [iputil.go] to package [net], each with the type of its
    answer. *)
Variant netE : Type → Type :=
| LookupAddrE (addr : string) : netE (list string * option error)
| DialTimeoutE (network address : string) (timeout : Z) :
    netE (option Conn * option error)
| CloseE (conn : Conn) : netE (option error).

(** Sequencing of trees, in the notation of the other files. *)
#[export] Instance itree_ret {E : Type → Type} : MRet (itree E) :=
  λ A x, Ret x.
#[export] Instance itree_bind {E : Type → Type} : MBind (itree E) :=
  λ A B k t, ITree.bind t k.

(** ** The probes *)

Section trees.
Context (Addr_String : Addr → string).

(** [LookupAddr(ip)]. *)
Definition LookupAddr_tree (ip : Addr) :
    itree netE (run (string * option error)) :=
  '(names, err) ← ITree.trigger (LookupAddrE (Addr_String ip));
  if negb (is_nil err) || (length names =? 0)%nat
  then Ret (Normal (""%string, err))
  else
    Ret (name ← index names 0;
         (* Always return unrooted name *)
         mret (TrimRight name ".", nil)).

(** [LookupPort(ip, port)]. *)
Definition LookupPort_tree (ip : Addr) (port : Z) :
    itree netE (run (option error)) :=
  let address := Sprintf_address (Addr_String ip) port in
  '(conn, err) ← ITree.trigger (DialTimeoutE "tcp" address (2 * time_Second));
  match err with
  | Some e => Ret (Normal (Some e))
  | None =>
      (* defer conn.Close(); return nil *)
      match deref conn with
      | Normal c => _ ← ITree.trigger (CloseE c); Ret (Normal nil)
      | Panic p => Ret (Panic p)
      end
  end.

(** One call of a probe. *)
Definition perform_tree (c : call) : itree netE outcome :=
  match c with
  | Call_LookupAddr ip => r ← LookupAddr_tree ip; Ret (Name r)
  | Call_LookupPort ip port => r ← LookupPort_tree ip port; Ret (Verdict r)
  end.

(** A list of calls, one after the other. *)
Fixpoint exec_tree (cs : list call) : itree netE (list (call * outcome)) :=
  match cs with
  | [] => Ret []
  | c :: cs => o ← perform_tree c; h ← exec_tree cs; Ret ((c, o) :: h)
  end.

End trees.

(** ** The operating system of file [Net] *)

(** Package [net] over a [World], with the answers of a [Network]. *)
Definition h_net (net : Network) :
    netE ~> Monads.stateT World (itree void1) :=
  λ _ e w,
    match e with
    | LookupAddrE addr =>
        let '(r, w) := net_LookupAddr net addr w in Ret (w, r)
    | DialTimeoutE network address timeout =>
        let '(r, w) := net_DialTimeout net network address timeout w in
        Ret (w, r)
    | CloseE conn => let '(r, w) := Conn_Close conn w in Ret (w, r)
    end.

(** ** Any environment *)

(** A call with the answer it got. *)
Inductive answered : Type :=
| Answered {T : Type} (e : netE T) (a : T).

(** An environment answers a call knowing all that went before. *)
Definition environment : Type := ∀ T, list answered → netE T → T.

Definition h_env (env : environment) :
    netE ~> Monads.stateT (list answered) (itree void1) :=
  λ T e hist, Ret (hist ++ [Answered e (env T hist e)], env T hist e).

(** The event of file [Net] that an answered call is. *)
Definition event_of (x : answered) : Event :=
  match x with
  | Answered e a =>
      match e in netE T return T → Event with
      | LookupAddrE addr => λ _, Resolved addr
      | DialTimeoutE network address timeout =>
          λ a, Dialed network address timeout (Conn_id <$> a.1)
      | CloseE conn => λ _, Closed (Conn_id conn)
      end a
  end.

(** What [LookupPort] does in an environment: the history after the call
    and what the call returns. *)
Definition LookupPort_play (Addr_String : Addr → string) (ip : Addr)
    (port : Z) (env : environment) (hist : list answered) :
    list answered * run (option error) :=
  let dial :=
    DialTimeoutE "tcp" (Sprintf_address (Addr_String ip) port) 2000000000 in
  let hist1 := hist ++ [Answered dial (env _ hist dial)] in
  match env _ hist dial with
  | (_, Some e) => (hist1, Normal (Some e))
  | (Some c, None) =>
      (hist1 ++ [Answered (CloseE c) (env _ hist1 (CloseE c))], Normal nil)
  | (None, None) => (hist1, Panic NilDereference)
  end.

(** What [LookupAddr] does in an environment. *)
Definition LookupAddr_play (Addr_String : Addr → string) (ip : Addr)
    (env : environment) (hist : list answered) :
    list answered * run (string * option error) :=
  let ask := LookupAddrE (Addr_String ip) in
  (hist ++ [Answered ask (env _ hist ask)],
   Normal (match env _ hist ask with
           | (name :: _, None) => (trim_ref name ".", nil)
           | (_, err) => (""%string, err)
           end)).

Section play.
Context (Addr_String : Addr → string) (env : environment).

Definition perform_play (c : call) (hist : list answered) :
    list answered * outcome :=
  match c with
  | Call_LookupAddr ip =>
      ((LookupAddr_play Addr_String ip env hist).1,
       Name (LookupAddr_play Addr_String ip env hist).2)
  | Call_LookupPort ip port =>
      ((LookupPort_play Addr_String ip port env hist).1,
       Verdict (LookupPort_play Addr_String ip port env hist).2)
  end.

Fixpoint exec_play (cs : list call) (hist : list answered) :
    list answered * list (call * outcome) :=
  match cs with
  | [] => (hist, [])
  | c :: cs =>
      let '(hist, o) := perform_play c hist in
      let '(hist, h) := exec_play cs hist in
      (hist, (c, o) :: h)
  end.

End play.

(** What package [net] promises of a dial: a connection or an error,
    never both ([dial_exclusive]) and never neither ([dial_answers]). *)
Definition dial_exclusive (env : environment) : Prop :=
  ∀ hist network address timeout,
    (env _ hist (DialTimeoutE network address timeout)).2 ≠ None →
    (env _ hist (DialTimeoutE network address timeout)).1 = None.

Definition dial_answers (env : environment) : Prop :=
  ∀ hist network address timeout,
    (env _ hist (DialTimeoutE network address timeout)).2 = None →
    is_Some (env _ hist (DialTimeoutE network address timeout)).1.

(** The dials of a history are those of [LookupPort]: TCP, two seconds. *)
Definition dial_args (e : Event) : bool :=
  match e with
  | Dialed network _ timeout _ =>
      bool_decide (network = "tcp"%string ∧ timeout = 2000000000)
  | _ => true
  end.

(** An environment in which every connection is refused and no address
    has a name. *)
Definition env_refuse : environment :=
  λ T _ e,
    match e in netE T return T with
    | LookupAddrE _ => ([], Some (Err "no such host"))
    | DialTimeoutE _ _ _ => (None, Some (Err "connection refused"))
    | CloseE _ => None
    end.

(** An environment that accepts a connection when none has been asked
    for before, and refuses it otherwise: its answers change over time. *)
Definition env_once : environment :=
  λ T hist e,
    match e in netE T return T with
    | LookupAddrE _ => (["example.com."%string], None)
    | DialTimeoutE _ _ _ =>
        match hist with
        | [] => (Some {| Conn_id := 7 |}, None)
        | _ => (None, Some (Err "connection refused"))
        end
    | CloseE _ => Some (Err "close failed")
    end.

(** ** The trees are the functions of [Iputil] *)

Section net.
Context (net : Network) (Addr_String : Addr → string).

Lemma LookupAddr_tree_net (ip : Addr) (w : World) :
  interp_state (h_net net) (LookupAddr_tree Addr_String ip) w
  ≈ Ret ((LookupAddr net Addr_String ip w).2,
         (LookupAddr net Addr_String ip w).1).
Proof.
  unfold LookupAddr_tree, LookupAddr, mbind at 1, itree_bind.
  rewrite interp_state_bind, interp_state_trigger. cbn [h_net].
  destruct (net_LookupAddr _ _ _) as [[names err] w1]. rewrite bind_ret_l.
  cbn [fst snd]. case_match; by rewrite interp_state_ret.
Qed.

Lemma LookupPort_tree_net (ip : Addr) (port : Z) (w : World) :
  interp_state (h_net net) (LookupPort_tree Addr_String ip port) w
  ≈ Ret ((LookupPort net Addr_String ip port w).2,
         (LookupPort net Addr_String ip port w).1).
Proof.
  unfold LookupPort_tree, LookupPort, mbind, itree_bind.
  rewrite interp_state_bind, interp_state_trigger. cbn [h_net].
  destruct (net_DialTimeout _ _ _ _ _) as [[conn err] w1]. rewrite bind_ret_l.
  cbn [fst snd]. destruct err as [e|]; [by rewrite interp_state_ret|].
  destruct conn as [c|]; cbn [deref]; [|by rewrite interp_state_ret].
  rewrite interp_state_bind, interp_state_trigger. cbn [h_net].
  destruct (Conn_Close c w1) as [r w2]. rewrite bind_ret_l.
  by rewrite interp_state_ret.
Qed.

Lemma perform_tree_net (c : call) (w : World) :
  interp_state (h_net net) (perform_tree Addr_String c) w
  ≈ Ret ((perform net Addr_String c w).2, (perform net Addr_String c w).1).
Proof.
  destruct c as [ip|ip port]; unfold perform_tree, perform, mbind, itree_bind;
    rewrite interp_state_bind.
  - rewrite LookupAddr_tree_net, bind_ret_l, interp_state_ret.
    by destruct (LookupAddr _ _ _ _).
  - rewrite LookupPort_tree_net, bind_ret_l, interp_state_ret.
    by destruct (LookupPort _ _ _ _ _).
Qed.

Lemma exec_tree_net (cs : list call) (w : World) :
  interp_state (h_net net) (exec_tree Addr_String cs) w
  ≈ Ret ((exec net Addr_String cs w).2, (exec net Addr_String cs w).1).
Proof.
  revert w. induction cs as [|c cs IH]; intros w; cbn [exec_tree exec].
  { by rewrite interp_state_ret. }
  unfold mbind, itree_bind.
  rewrite interp_state_bind, perform_tree_net, bind_ret_l.
  rewrite interp_state_bind, IH, bind_ret_l, interp_state_ret.
  destruct (perform _ _ c w) as [o w1]. cbn [fst snd].
  by destruct (exec _ _ cs w1) as [h w2].
Qed.

End net.

(** ** The trees in any environment *)

Section env.
Context (Addr_String : Addr → string) (env : environment).

Lemma LookupAddr_tree_env (ip : Addr) (hist : list answered) :
  interp_state (h_env env) (LookupAddr_tree Addr_String ip) hist
  ≈ Ret (LookupAddr_play Addr_String ip env hist).
Proof.
  unfold LookupAddr_tree, LookupAddr_play, mbind at 1, itree_bind.
  rewrite interp_state_bind, interp_state_trigger. unfold h_env.
  rewrite bind_ret_l. cbn [fst snd].
  destruct (env _ hist _) as [[|name names] [e|]];
    cbn; rewrite interp_state_ret; by rewrite ?TrimRight_ref.
Qed.

Lemma LookupPort_tree_env (ip : Addr) (port : Z) (hist : list answered) :
  interp_state (h_env env) (LookupPort_tree Addr_String ip port) hist
  ≈ Ret (LookupPort_play Addr_String ip port env hist).
Proof.
  unfold LookupPort_tree, LookupPort_play, mbind, itree_bind.
  change (2 * time_Second) with 2000000000.
  rewrite interp_state_bind, interp_state_trigger. unfold h_env.
  rewrite bind_ret_l. cbn [fst snd].
  destruct (env _ hist _) as [[c|] [e|]]; cbn [deref];
    try by rewrite interp_state_ret.
  rewrite interp_state_bind, interp_state_trigger. unfold h_env.
  rewrite bind_ret_l. by rewrite interp_state_ret.
Qed.

Lemma perform_tree_env (c : call) (hist : list answered) :
  interp_state (h_env env) (perform_tree Addr_String c) hist
  ≈ Ret (perform_play Addr_String env c hist).
Proof.
  destruct c as [ip|ip port]; unfold perform_tree, mbind, itree_bind;
    rewrite interp_state_bind.
  - rewrite LookupAddr_tree_env, bind_ret_l. by rewrite interp_state_ret.
  - rewrite LookupPort_tree_env, bind_ret_l. by rewrite interp_state_ret.
Qed.

Lemma exec_tree_env (cs : list call) (hist : list answered) :
  interp_state (h_env env) (exec_tree Addr_String cs) hist
  ≈ Ret (exec_play Addr_String env cs hist).
Proof.
  revert hist. induction cs as [|c cs IH]; intros hist; cbn [exec_tree].
  { by rewrite interp_state_ret. }
  unfold mbind, itree_bind.
  rewrite interp_state_bind, perform_tree_env, bind_ret_l.
  rewrite interp_state_bind, IH, bind_ret_l, interp_state_ret.
  cbn [exec_play]. destruct (perform_play _ _ c hist) as [hist1 o].
  cbn [fst snd]. by destruct (exec_play _ _ cs hist1) as [hist2 h].
Qed.

(** What one call adds to the history. *)
Lemma perform_play_effect (c : call) (hist : list answered) :
  dial_exclusive env →
  ∃ new, (perform_play Addr_String env c hist).1 = hist ++ new ∧
    scan None (event_of <$> new) = Some None ∧
    dials (event_of <$> new) = (if is_LookupPort c then 1 else 0)%nat ∧
    resolves (event_of <$> new) = (if is_LookupAddr c then 1 else 0)%nat ∧
    forallb dial_args (event_of <$> new) = true ∧
    (dial_answers env →
     returned (perform_play Addr_String env c hist).2 = true).
Proof.
  intros Hex. destruct c as [ip|ip port]; cbn [perform_play].
  { eexists [_]. by split_and!. }
  unfold LookupPort_play.
  specialize (Hex hist "tcp"%string (Sprintf_address (Addr_String ip) port)
                2000000000).
  assert (dial_answers env →
          (env _ hist (DialTimeoutE "tcp"
                         (Sprintf_address (Addr_String ip) port)
                         2000000000)).2 = None → is_Some _) as Hans
    by (intros Hans; apply Hans).
  set (dial := DialTimeoutE _ _ _) in *.
  destruct (env _ hist dial) as [[c|] [e|]]; cbn [fst snd] in *.
  - by specialize (Hex ltac:(done)).
  - eexists [_; _]. rewrite <- app_assoc. split; [done|]. cbn.
    rewrite decide_True by done. by split_and!.
  - eexists [_]. by split_and!.
  - eexists [_]. split_and!; try done.
    intros Ha. by destruct (Hans Ha eq_refl).
Qed.

(** What a list of calls adds to the history. *)
Lemma exec_play_effect (cs : list call) (hist : list answered) :
  dial_exclusive env →
  ∃ new, (exec_play Addr_String env cs hist).1 = hist ++ new ∧
    (exec_play Addr_String env cs hist).2.*1 = cs ∧
    scan None (event_of <$> new) = Some None ∧
    dials (event_of <$> new) = length (List.filter is_LookupPort cs) ∧
    resolves (event_of <$> new) = length (List.filter is_LookupAddr cs) ∧
    forallb dial_args (event_of <$> new) = true ∧
    (dial_answers env →
     Forall (λ x, returned x.2 = true)
       (exec_play Addr_String env cs hist).2).
Proof.
  intros Hex. revert hist.
  induction cs as [|c cs IH]; intros hist; cbn [exec_play].
  { exists []. rewrite app_nil_r. by split_and!. }
  destruct (perform_play_effect c hist Hex)
    as (new1 & H1 & Hs1 & Hd1 & Hr1 & Ha1 & Hp1).
  destruct (perform_play _ _ c hist) as [hist1 o]. cbn [fst snd] in *.
  destruct (IH hist1) as (new2 & H2 & Hc2 & Hs2 & Hd2 & Hr2 & Ha2 & Hp2).
  destruct (exec_play _ _ cs hist1) as [hist2 h]. cbn [fst snd] in *.
  exists (new1 ++ new2). rewrite fmap_app, scan_app, Hs1, forallb_app.
  destruct (dials_app (event_of <$> new1) (event_of <$> new2)) as [-> ->].
  rewrite Hd1, Hd2, Hr1, Hr2, Ha1, Ha2, H2, H1, app_assoc. cbn.
  rewrite Hc2. split_and!; try done.
  - by destruct c.
  - by destruct c.
  - intros Hans. constructor; auto.
Qed.

End env.

(** ** Theorems *)

(** A probe read as a tree of calls and run on the operating system of
    file [Net] is the function of file [Iputil]: a list of calls run as
    trees leaves the world, and returns the outcomes, of the same calls
    run as functions. *)
Theorem probes_interp (net : Network) (Addr_String : Addr → string)
    (cs : list call) (w : World) :
  interp_state (h_net net) (exec_tree Addr_String cs) w
  ≈ Ret ((exec net Addr_String cs w).2, (exec net Addr_String cs w).1).
Proof. apply exec_tree_net. Qed.

(** C29: whatever package [net] answers, and however its answers change from
    one call to the next, a run of probes ends, makes one dial for each
    [LookupPort] and one resolver call for each [LookupAddr], dials TCP
    with a timeout of two seconds, and closes every connection it gets
    before it makes another call, provided a dial does not return a
    connection together with an error; when a dial always returns one of
    the two, no probe panics. *)
Theorem probes_any_environment (Addr_String : Addr → string)
    (env : environment) (cs : list call) (hist : list answered) :
  dial_exclusive env →
  ∃ new h,
    interp_state (h_env env) (exec_tree Addr_String cs) hist
    ≈ Ret (hist ++ new, h) ∧
    h.*1 = cs ∧
    disciplined (event_of <$> new) = true ∧
    dials (event_of <$> new) = length (List.filter is_LookupPort cs) ∧
    resolves (event_of <$> new) = length (List.filter is_LookupAddr cs) ∧
    forallb dial_args (event_of <$> new) = true ∧
    (dial_answers env → Forall (λ x, returned x.2 = true) h).
Proof.
  intros Hex.
  destruct (exec_play_effect Addr_String env cs hist Hex)
    as (new & Hh & Hcs & Hs & Hd & Hr & Ha & Hp).
  exists new, (exec_play Addr_String env cs hist).2. split_and!; try done.
  - rewrite exec_tree_env, <- Hh. by destruct (exec_play _ _ _ _).
  - by apply bool_decide_eq_true.
Qed.

Lemma probes_any_environment_witness :
  ∃ new h,
    interp_state (h_env env_once)
      (exec_tree sample_String
         [Call_LookupPort ip_a 80; Call_LookupAddr ip_a;
          Call_LookupPort ip_a 80]) []
    ≈ Ret ([] ++ new, h) ∧
    h.*1 = [Call_LookupPort ip_a 80; Call_LookupAddr ip_a;
            Call_LookupPort ip_a 80] ∧
    disciplined (event_of <$> new) = true ∧
    dials (event_of <$> new)
    = length (List.filter is_LookupPort
                [Call_LookupPort ip_a 80; Call_LookupAddr ip_a;
                 Call_LookupPort ip_a 80]) ∧
    resolves (event_of <$> new)
    = length (List.filter is_LookupAddr
                [Call_LookupPort ip_a 80; Call_LookupAddr ip_a;
                 Call_LookupPort ip_a 80]) ∧
    forallb dial_args (event_of <$> new) = true ∧
    (dial_answers env_once → Forall (λ x, returned x.2 = true) h).
Proof.
  apply (probes_any_environment sample_String env_once
           [Call_LookupPort ip_a 80; Call_LookupAddr ip_a;
            Call_LookupPort ip_a 80] []).
  by intros [|x hist] network address timeout.
Defined.

(** The same probe gets two answers in one run, and the error of [Close]
    is dropped. *)
Example env_once_run :
  let r := exec_play sample_String env_once
             [Call_LookupPort ip_a 80; Call_LookupAddr ip_a;
              Call_LookupPort ip_a 80] [] in
  event_of <$> r.1
  = [Dialed "tcp" "[192.0.2.1]:80" 2000000000 (Some 7%nat); Closed 7%nat;
     Resolved "192.0.2.1";
     Dialed "tcp" "[192.0.2.1]:80" 2000000000 None] ∧
  r.2.*2
  = [Verdict (Normal nil); Name (Normal ("example.com"%string, nil));
     Verdict (Normal (Some (Err "connection refused")))].
Proof. by vm_compute. Qed.

(** A dial that returns neither a connection nor an error makes
    [LookupPort] panic at the deferred [Close]. *)
Example LookupPort_nil_conn (hist : list answered) :
  (LookupPort_play sample_String ip_a 80
     (λ T _ e,
        match e in netE T return T with
        | LookupAddrE _ => ([], None)
        | DialTimeoutE _ _ _ => (None, None)
        | CloseE _ => None
        end) hist).2
  = Panic NilDereference.
Proof. done. Qed.
