(* ===== verification/Concurrent.v ===== *)
(** * Concurrent: the operations called from several goroutines

    The specification lets every operation be called concurrently.  This
    file models that: a pool of threads, each with a list of requests to
    make one after the other, over one immutable reader (any
    implementation of the interface [Reader]) and one shared [World].  A
    step is one thread doing one thing that the others can observe: a whole geo lookup (it reads the reader only), a whole
    [LookupAddr] (one resolver call), and for [LookupPort] first the dial,
    then, in a later step, the deferred [Close]; between the two the
    connection is open and other threads run.  [serve] is the sequential
    reference: the request served alone.

    The theorems hold for every schedule: each thread gets the replies that
    [serve] gives, no connection is left open once the threads are between
    two calls, every schedule is finite, bounded by twice the number of
    requests, and a thread that has requests left can always step.  The
    invariant [Inv_of] takes what is asked of each thread as a parameter:
    [thread_ok] for a network that answers every question the same way,
    [thread_shape] for the part that holds against every network (file
    [Adaptive]). *)

From Stdlib Require Import ZArith String List Lia.
From stdpp Require Import base tactics decidable option list strings gmap.
From S2P Require Import Prelude Float64 Netip Geoip2 Samples Geo GeoSpec.
From S2P Require Import GoStrings Net Iputil.

(** ** Requests and replies *)

Inductive request :=
| Req_Country (ip : Addr)
| Req_City (ip : Addr)
| Req_ASN (ip : Addr)
| Req_IsEmpty
| Req_LookupAddr (ip : Addr)
| Req_LookupPort (ip : Addr) (port : Z).

Inductive reply :=
| Rep_Country (r : run (Country * option error))
| Rep_City (r : run (City * option error))
| Rep_ASN (r : run (ASN * option error))
| Rep_IsEmpty (b : bool)
| Rep_Name (r : run (string * option error))
| Rep_Verdict (r : run (option error)).

(** Where a thread is: between two calls, or inside [LookupPort] with the
    [Close] of [conn] deferred. *)
Inductive pc :=
| Between
| Deferred (conn : option Conn).

#[export] Instance request_eq_dec : EqDecision request.
Proof. solve_decision. Defined.
#[export] Instance pc_eq_dec : EqDecision pc.
Proof. solve_decision. Defined.

Record thread := {
  thread_todo : list request;
  thread_pc : pc;
  thread_done : list reply
}.

(** A thread that has made no call yet. *)
Definition spawn (todo : list request) : thread :=
  {| thread_todo := todo; thread_pc := Between; thread_done := [] |}.

(** The connection a thread holds. *)
Definition holds (t : thread) (c : nat) : Prop :=
  thread_pc t = Deferred (Some {| Conn_id := c |}).

(** The steps a thread has left, at most: two for each request, one less
    when the dial is done. *)
Definition work (t : thread) : nat :=
  2 * length (thread_todo t)
  - match thread_pc t with Between => 0 | Deferred _ => 1 end.

Definition pool_work (pool : list thread) : nat := sum_list_with work pool.

(** The requests of a pool. *)
Definition pool_requests (pool : list thread) : nat :=
  sum_list_with (λ t, length (thread_todo t)) pool.

Definition finished (t : thread) : bool :=
  match thread_todo t, thread_pc t with
  | [], Between => true
  | _, _ => false
  end.

(** A reply that keeps the contract of [Reader]: an error comes with the
    zero record, and no coordinate is NaN. *)
Definition lawful (r : reply) : Prop :=
  match r with
  | Rep_Country (Normal (c, Some _)) => c = zero
  | Rep_City (Normal (c, err)) =>
      (is_Some err → c = zero) ∧
      float64.IsNaN c.(City_Latitude) = false ∧
      float64.IsNaN c.(City_Longitude) = false
  | Rep_ASN (Normal (a, Some _)) => a = zero
  | _ => True
  end.

Section concurrent.
Context (net : Network) (Addr_String : Addr → string).
Context {R : Type} `{!Reader R} (g : R).

(** ** The sequential reference *)

(** One request served alone. *)
Definition serve (q : request) : stateful World reply :=
  λ w,
    match q with
    | Req_Country ip => (Rep_Country (Reader_Country g ip), w)
    | Req_City ip => (Rep_City (Reader_City g ip), w)
    | Req_ASN ip => (Rep_ASN (Reader_ASN g ip), w)
    | Req_IsEmpty => (Rep_IsEmpty (Reader_IsEmpty g), w)
    | Req_LookupAddr ip =>
        let '(r, w) := LookupAddr net Addr_String ip w in (Rep_Name r, w)
    | Req_LookupPort ip port =>
        let '(r, w) := LookupPort net Addr_String ip port w in
        (Rep_Verdict r, w)
    end.

(** The reply to a request served alone in a fresh process. *)
Definition reply_of (q : request) : reply := (serve q World_init).1.

(** What a thread will have been answered when it is done, if every reply
    is the one of the sequential reference. *)
Definition answers (t : thread) : list reply :=
  thread_done t ++ (reply_of <$> thread_todo t).

(** ** Steps *)

Definition replied (t : thread) (rest : list request) (r : reply) : thread :=
  {| thread_todo := rest; thread_pc := Between;
     thread_done := thread_done t ++ [r] |}.

(** One step of one thread: a call that is a step of its own, the dial of
    [LookupPort] that fails, the dial that succeeds, the deferred
    [Close]. *)
Inductive tstep : thread → World → thread → World → Prop :=
| tstep_serve t w q rest r w' :
    thread_todo t = q :: rest → thread_pc t = Between →
    (∀ ip port, q ≠ Req_LookupPort ip port) →
    serve q w = (r, w') →
    tstep t w (replied t rest r) w'
| tstep_dial_failed t w ip port rest e w' :
    thread_todo t = Req_LookupPort ip port :: rest →
    thread_pc t = Between →
    LookupPort_dial net Addr_String ip port w = (inl e, w') →
    tstep t w (replied t rest (Rep_Verdict (Normal (Some e)))) w'
| tstep_dial t w ip port rest conn w' :
    thread_todo t = Req_LookupPort ip port :: rest →
    thread_pc t = Between →
    LookupPort_dial net Addr_String ip port w = (inr conn, w') →
    tstep t w
      {| thread_todo := thread_todo t; thread_pc := Deferred conn;
         thread_done := thread_done t |} w'
| tstep_close t w ip port rest conn r w' :
    thread_todo t = Req_LookupPort ip port :: rest →
    thread_pc t = Deferred conn →
    LookupPort_close conn w = (r, w') →
    tstep t w (replied t rest (Rep_Verdict r)) w'.

(** The same, as a function. *)
Definition advance (t : thread) : stateful World (option thread) :=
  λ w,
    match thread_todo t, thread_pc t with
    | [], _ => (None, w)
    | Req_LookupPort ip port :: rest, Between =>
        let '(r, w) := LookupPort_dial net Addr_String ip port w in
        match r with
        | inl e => (Some (replied t rest (Rep_Verdict (Normal (Some e)))), w)
        | inr conn =>
            (Some {| thread_todo := thread_todo t; thread_pc := Deferred conn;
                     thread_done := thread_done t |}, w)
        end
    | Req_LookupPort ip port :: rest, Deferred conn =>
        let '(r, w) := LookupPort_close conn w in
        (Some (replied t rest (Rep_Verdict r)), w)
    | q :: rest, Between =>
        let '(r, w) := serve q w in (Some (replied t rest r), w)
    | _ :: _, Deferred _ => (None, w)
    end.

Definition config : Type := list thread * World.

(** Thread [i] steps. *)
Inductive cstep : config → nat → config → Prop :=
| cstep_thread pool w i t t' w' :
    pool !! i = Some t →
    tstep t w t' w' →
    cstep (pool, w) i (<[i := t']> pool, w').

(** A schedule: the threads that step, in order. *)
Inductive csteps : config → list nat → config → Prop :=
| csteps_nil cfg : csteps cfg [] cfg
| csteps_cons cfg i cfg' sched cfg'' :
    cstep cfg i cfg' → csteps cfg' sched cfg'' →
    csteps cfg (i :: sched) cfg''.

(** Running a schedule; it fails when a thread that cannot step is
    scheduled. *)
Definition sched_step (i : nat) (cfg : config) : option config :=
  t ← cfg.1 !! i;
  let '(t', w') := advance t cfg.2 in
  t' ← t';
  Some (<[i := t']> cfg.1, w').

Fixpoint run_sched (sched : list nat) (cfg : config) : option config :=
  match sched with
  | [] => Some cfg
  | i :: sched => cfg' ← sched_step i cfg; run_sched sched cfg'
  end.

(** The requests of a thread served one after the other, alone. *)
Fixpoint serve_all (qs : list request) : stateful World (list reply) :=
  λ w,
    match qs with
    | [] => ([], w)
    | q :: qs =>
        let '(r, w) := serve q w in
        let '(rs, w) := serve_all qs w in
        (r :: rs, w)
    end.

(** ** The invariant *)

(** A thread inside [LookupPort] has that call at the head of its list,
    its dial has succeeded and it holds a connection. *)
Definition thread_ok (t : thread) : Prop :=
  match thread_pc t with
  | Between => True
  | Deferred conn =>
      (∃ c, conn = Some {| Conn_id := c |}) ∧
      ∃ ip port rest,
        thread_todo t = Req_LookupPort ip port :: rest ∧
        dialed net Addr_String ip port = None
  end.

(** The part of it that does not depend on what the network answers. *)
Definition thread_shape (t : thread) : Prop :=
  match thread_pc t with
  | Between => True
  | Deferred conn =>
      (∃ c, conn = Some {| Conn_id := c |}) ∧
      ∃ ip port rest, thread_todo t = Req_LookupPort ip port :: rest
  end.

(** Thread [i] of the pool holds [c]. *)
Definition held (pool : list thread) (i : nat) (c : nat) : Prop :=
  ∃ t, pool !! i = Some t ∧ holds t c.

(** The open connections are those that were open at the start ([base])
    and those the threads hold, each held by one thread; every thread
    keeps [ok]. *)
Definition Inv_of (ok : thread → Prop) (base : gset nat)
    (pool : list thread) (w : World) : Prop :=
  World_ok w ∧
  Forall ok pool ∧
  (∀ c, c ∈ World_open w ↔ c ∈ base ∨ ∃ i, held pool i c) ∧
  (∀ i c, held pool i c → c ∉ base) ∧
  (∀ i j c, held pool i c → held pool j c → i = j).

Definition Inv (base : gset nat) (pool : list thread) (w : World) : Prop :=
  Inv_of thread_ok base pool w.

(** All threads are between two calls. *)
Definition quiescent (pool : list thread) : Prop :=
  Forall (λ t, thread_pc t = Between) pool.

(** What a step does to the world, in three shapes: nothing to the open
    connections, one more that the thread now holds, one less that the
    thread held. *)
Inductive effect (t : thread) (w : World) (t' : thread) (w' : World) : Prop :=
| effect_none :
    thread_pc t = Between → thread_pc t' = Between →
    World_open w' = World_open w → World_next w' = World_next w →
    effect t w t' w'
| effect_acquire :
    thread_pc t = Between → holds t' (World_next w) →
    World_open w' = {[World_next w]} ∪ World_open w →
    World_next w' = S (World_next w) →
    effect t w t' w'
| effect_release c :
    holds t c → thread_pc t' = Between →
    World_open w' = World_open w ∖ {[c]} → World_next w' = World_next w →
    effect t w t' w'.

(** ** The sequential reference does not depend on the world *)

Lemma serve_reply (q : request) (w : World) : (serve q w).1 = reply_of q.
Proof.
  unfold reply_of, serve. destruct q as [ip|ip|ip| |ip|ip port]; try done.
  - by rewrite !LookupAddr_eq.
  - by rewrite !LookupPort_eq.
Qed.

Lemma reply_of_LookupPort (ip : Addr) (port : Z) :
  reply_of (Req_LookupPort ip port)
  = Rep_Verdict (Normal (dialed net Addr_String ip port)).
Proof. unfold reply_of, serve. by rewrite LookupPort_eq. Qed.

(** A request that is one step leaves the open connections alone. *)
Lemma serve_world (q : request) (w : World) :
  (∀ ip port, q ≠ Req_LookupPort ip port) →
  World_open (serve q w).2 = World_open w ∧
  World_next (serve q w).2 = World_next w.
Proof.
  unfold serve. destruct q as [ip|ip|ip| |ip|ip port]; try done.
  - by rewrite LookupAddr_eq.
  - by intros H; destruct (H ip port).
Qed.

(** ** One thread *)

Lemma tstep_advance (t : thread) (w : World) (t' : thread) (w' : World) :
  tstep t w t' w' ↔ advance t w = (Some t', w').
Proof.
  unfold advance. split.
  - intros [? ? q ? ? ? -> -> Hq Hs| ? ? ? ? ? ? ? -> -> Hd
           | ? ? ? ? ? ? ? Ht -> Hd| ? ? ? ? ? ? ? ? -> -> Hc].
    + rewrite Hs. by destruct q; try done; destruct (Hq ip port).
    + by rewrite Hd.
    + by rewrite Ht, Hd.
    + by rewrite Hc.
  - destruct (thread_todo t) as [|q rest] eqn:Ht; [done|].
    destruct (thread_pc t) as [|conn] eqn:Hpc.
    + destruct q as [ip|ip|ip| |ip|ip port];
        try (destruct (serve _ w) as [r w1] eqn:Hs; intros [= <- <-];
             by eapply tstep_serve).
      destruct (LookupPort_dial _ _ _ _ _) as [[e|conn] w1] eqn:Hd;
        intros [= <- <-].
      * by eapply tstep_dial_failed.
      * rewrite <- Ht. by eapply tstep_dial.
    + destruct q as [ip|ip|ip| |ip|ip port]; try done.
      destruct (LookupPort_close _ _) as [r w1] eqn:Hc. intros [= <- <-].
      by eapply tstep_close.
Qed.

Lemma thread_ok_shape (t : thread) : thread_ok t → thread_shape t.
Proof.
  unfold thread_ok, thread_shape. destruct (thread_pc t); [done|].
  intros (? & ip & port & rest & ? & _). eauto.
Qed.

(** The deferred [Close] of a thread that holds an open connection closes
    it and returns nil. *)
Lemma tstep_close_inv (t : thread) (w : World) conn r w' :
  thread_shape t → (∀ c, holds t c → c ∈ World_open w) →
  thread_pc t = Deferred conn →
  LookupPort_close conn w = (r, w') →
  ∃ c, holds t c ∧ r = Normal nil ∧
    w' = {| World_open := World_open w ∖ {[c]}; World_next := World_next w;
            World_trace := World_trace w ++ [Closed c] |}.
Proof.
  intros Hok Hheld Hpc Hc. unfold thread_shape in Hok. rewrite Hpc in Hok.
  destruct Hok as ([c ->] & _).
  rewrite LookupPort_close_eq in Hc by (by apply Hheld).
  injection Hc as <- <-. by exists c.
Qed.

(** What a step does to the world and to the work that is left, whatever
    the network answers. *)
Lemma tstep_shape (t : thread) (w : World) (t' : thread) (w' : World) :
  thread_shape t → (∀ c, holds t c → c ∈ World_open w) →
  tstep t w t' w' →
  effect t w t' w' ∧ thread_shape t' ∧ (work t' < work t)%nat.
Proof.
  intros Hok Hheld Hstep. unfold work.
  destruct Hstep as [t w q rest r w' Ht Hpc Hq Hs
    | t w ip port rest e w' Ht Hpc Hd
    | t w ip port rest conn w' Ht Hpc Hd
    | t w ip port rest conn r w' Ht Hpc Hc];
    cbn [replied thread_todo thread_pc thread_done]; rewrite ?Ht, ?Hpc;
    (split; [|split; [|cbn; lia]]); try done.
  - destruct (serve_world q w Hq) as [Ho Hn]. rewrite Hs in *.
    by apply effect_none.
  - rewrite LookupPort_dial_eq in Hd.
    destruct (dialed _ _ _ _) as [e'|]; [|done]. injection Hd as <- <-.
    by apply effect_none.
  - rewrite LookupPort_dial_eq in Hd.
    destruct (dialed _ _ _ _) as [e'|]; [done|]. injection Hd as <- <-.
    by apply effect_acquire.
  - rewrite LookupPort_dial_eq in Hd. unfold thread_shape. cbn. rewrite ?Ht.
    destruct (dialed _ _ _ _) as [e'|]; [done|].
    injection Hd as <- <-. eauto 8.
  - destruct (tstep_close_inv t w _ _ _ Hok Hheld Hpc Hc)
      as (c & Hc' & -> & ->). by eapply effect_release.
Qed.

(** A step against a network that answers every question the same way
    every time changes the answers of no thread. *)
Lemma tstep_effect (t : thread) (w : World) (t' : thread) (w' : World) :
  thread_ok t → (∀ c, holds t c → c ∈ World_open w) →
  tstep t w t' w' →
  effect t w t' w' ∧ thread_ok t' ∧ answers t' = answers t ∧
  (work t' < work t)%nat.
Proof.
  intros Hok Hheld Hstep.
  destruct (tstep_shape t w t' w' (thread_ok_shape t Hok) Hheld Hstep)
    as (Heff & _ & Hwork).
  split_and!; [done| | |done]; unfold answers;
    destruct Hstep as [t w q rest r w' Ht Hpc Hq Hs
      | t w ip port rest e w' Ht Hpc Hd
      | t w ip port rest conn w' Ht Hpc Hd
      | t w ip port rest conn r w' Ht Hpc Hc];
    cbn [replied thread_todo thread_pc thread_done];
    rewrite ?Ht, ?fmap_cons, <- ?(assoc_L (++)); try done.
  - rewrite LookupPort_dial_eq in Hd. unfold thread_ok. cbn. rewrite ?Ht.
    destruct (dialed _ _ _ _) as [e'|] eqn:Hdialed; [done|].
    injection Hd as <- <-. eauto 8.
  - pose proof (serve_reply q w) as Hr. rewrite Hs in Hr. cbn in Hr.
    by rewrite Hr.
  - rewrite LookupPort_dial_eq in Hd. rewrite reply_of_LookupPort.
    destruct (dialed _ _ _ _) as [e'|]; [|done]. by injection Hd as <- <-.
  - destruct (tstep_close_inv t w _ _ _ (thread_ok_shape t Hok) Hheld Hpc Hc)
      as (c & _ & -> & _).
    unfold thread_ok in Hok. rewrite Hpc, Ht in Hok.
    destruct Hok as (_ & ? & ? & ? & [= <- <- <-] & Hdialed).
    by rewrite reply_of_LookupPort, Hdialed.
Qed.

(** ** The pool *)

Lemma holds_functional (t : thread) (c c' : nat) :
  holds t c → holds t c' → c = c'.
Proof. unfold holds. intros -> [= ->]. done. Qed.

Lemma holds_Between (t : thread) (c : nat) :
  thread_pc t = Between → ¬ holds t c.
Proof. unfold holds. by intros ->. Qed.

Lemma held_insert (pool : list thread) (i : nat) (t t' : thread) j c :
  pool !! i = Some t →
  held (<[i:=t']> pool) j c ↔ (j = i ∧ holds t' c) ∨ (j ≠ i ∧ held pool j c).
Proof.
  intros Hi. unfold held. destruct (decide (j = i)) as [->|Hne].
  - rewrite list_lookup_insert_eq by (by eapply lookup_lt_Some). split.
    + intros (? & [= <-] & ?). by left.
    + intros [[_ ?]|[? _]]; [eauto|done].
  - rewrite list_lookup_insert_ne by done. split; [by right|].
    by intros [[? _]|[_ ?]].
Qed.

Section update.
Context (base : gset nat) (pool : list thread) (w : World).
Context (i : nat) (t t' : thread) (w' : World).
Context (ok : thread → Prop).
Context (HInv : Inv_of ok base pool w) (Hi : pool !! i = Some t).
Context (Hok' : ok t').

Lemma Inv_held_open (c : nat) : holds t c → c ∈ World_open w.
Proof. intros Hc. apply HInv. right. by exists i, t. Qed.

Lemma Inv_thread_ok : ok t.
Proof.
  destruct HInv as (_ & Hoks & _). by eapply (Forall_lookup_1 _ _ _ _ Hoks).
Qed.

Lemma Inv_insert_ok : Forall ok (<[i:=t']> pool).
Proof. apply Forall_insert; [apply HInv|done]. Qed.

(** A step that opens and closes nothing keeps the invariant. *)
Lemma Inv_none :
  thread_pc t = Between → thread_pc t' = Between →
  World_open w' = World_open w → World_next w' = World_next w →
  Inv_of ok base (<[i:=t']> pool) w'.
Proof.
  intros Hpc Hpc' Ho Hn. destruct HInv as (Hw & _ & Hopen & Hbase & Huniq).
  assert (∀ j c, held (<[i:=t']> pool) j c ↔ held pool j c) as Hheld.
  { intros j c. rewrite (held_insert _ _ _ _ _ _ Hi). split.
    - intros [[_ H]|[_ H]]; [by apply holds_Between in H|done].
    - intros H. right. split; [|done]. intros ->.
      destruct H as (? & ? & H). simplify_eq. by apply holds_Between in H. }
  split_and!.
  - intros c. rewrite Ho, Hn. apply Hw.
  - apply Inv_insert_ok.
  - intros c. rewrite Ho, Hopen. by setoid_rewrite Hheld.
  - intros j c. rewrite Hheld. apply Hbase.
  - intros j k c. rewrite !Hheld. apply Huniq.
Qed.

(** A dial that succeeds keeps the invariant: the new connection is held
    by the thread that dialed. *)
Lemma Inv_acquire :
  thread_pc t = Between → holds t' (World_next w) →
  World_open w' = {[World_next w]} ∪ World_open w →
  World_next w' = S (World_next w) →
  Inv_of ok base (<[i:=t']> pool) w'.
Proof.
  intros Hpc Hc' Ho Hn. destruct HInv as (Hw & _ & Hopen & Hbase & Huniq).
  assert (World_next w ∉ World_open w) as Hfresh by (intros ?%Hw; lia).
  assert (∀ j c, held (<[i:=t']> pool) j c ↔
                 (j = i ∧ c = World_next w) ∨ held pool j c) as Hheld.
  { intros j c. rewrite (held_insert _ _ _ _ _ _ Hi). split.
    - intros [[-> H]|[_ H]]; [left|by right].
      split; [done|]. by eapply holds_functional.
    - intros [[-> ->]|H]; [by left|]. right. split; [|done]. intros ->.
      destruct H as (? & ? & H). simplify_eq. by apply holds_Between in H. }
  split_and!.
  - intros c. rewrite Ho, Hn, elem_of_union, elem_of_singleton.
    intros [->|?%Hw]; lia.
  - apply Inv_insert_ok.
  - intros c. rewrite Ho, elem_of_union, elem_of_singleton, Hopen.
    setoid_rewrite Hheld. split.
    + intros [->|[?|[j ?]]]; eauto.
    + intros [?|[j [[_ ->]|?]]]; eauto.
  - intros j c [[_ ->]|H]%Hheld; [|by eapply Hbase].
    intros Hb. apply Hfresh, Hopen. by left.
  - intros j k c [[-> ->]|Hj]%Hheld [[-> Hk]|Hk]%Hheld; try done.
    + destruct Hfresh. apply Hopen. eauto.
    + subst c. destruct Hfresh. apply Hopen. eauto.
    + by eapply Huniq.
Qed.

(** The deferred [Close] keeps the invariant: the connection was held by
    the thread that closes it, and by no other. *)
Lemma Inv_release (c0 : nat) :
  holds t c0 → thread_pc t' = Between →
  World_open w' = World_open w ∖ {[c0]} → World_next w' = World_next w →
  Inv_of ok base (<[i:=t']> pool) w'.
Proof.
  intros Hc0 Hpc' Ho Hn. destruct HInv as (Hw & _ & Hopen & Hbase & Huniq).
  assert (held pool i c0) as Hi0 by (by exists t).
  assert (∀ j c, held (<[i:=t']> pool) j c ↔ j ≠ i ∧ held pool j c) as Hheld.
  { intros j c. rewrite (held_insert _ _ _ _ _ _ Hi). split; [|by right].
    intros [[_ H]|?]; [by apply holds_Between in H|done]. }
  split_and!.
  - intros c. rewrite Ho, Hn, elem_of_difference. intros [?%Hw _]. done.
  - apply Inv_insert_ok.
  - intros c. rewrite Ho, elem_of_difference, elem_of_singleton, Hopen.
    setoid_rewrite Hheld. split.
    + intros [[?|[j Hj]] Hne]; [by left|]. right. exists j. split; [|done].
      intros ->. apply Hne. destruct Hj as (? & ? & Hj). simplify_eq.
      by eapply holds_functional.
    + intros [Hb|[j [Hne Hj]]].
      * split; [by left|]. intros ->. by eapply Hbase.
      * split; [eauto|]. intros ->. by apply Hne, (Huniq j i c0).
  - intros j c [_ H]%Hheld. by eapply Hbase.
  - intros j k c [_ Hj]%Hheld [_ Hk]%Hheld. by eapply Huniq.
Qed.

(** Every effect of a step keeps the invariant. *)
Lemma Inv_effect :
  effect t w t' w' → Inv_of ok base (<[i:=t']> pool) w'.
Proof. intros []; eauto using Inv_none, Inv_acquire, Inv_release. Qed.

End update.

(** Every step keeps the invariant. *)
Lemma cstep_Inv (base : gset nat) (cfg : config) (i : nat) (cfg' : config) :
  Inv base cfg.1 cfg.2 → cstep cfg i cfg' → Inv base cfg'.1 cfg'.2.
Proof.
  intros HInv Hstep. destruct Hstep as [pool w i t t' w' Hi Hstep].
  cbn [fst snd] in *.
  destruct (tstep_effect t w t' w' (Inv_thread_ok _ _ _ _ _ _ HInv Hi)
              (Inv_held_open _ _ _ _ _ _ HInv Hi) Hstep)
    as (Heff & Hok' & _).
  by eapply Inv_effect.
Qed.

(** So does every step against any network, for the part of the invariant
    that does not depend on what the network answers; and it uses up
    work. *)
Lemma cstep_Inv_shape (base : gset nat) (cfg : config) (i : nat)
    (cfg' : config) :
  Inv_of thread_shape base cfg.1 cfg.2 → cstep cfg i cfg' →
  Inv_of thread_shape base cfg'.1 cfg'.2 ∧
  (pool_work cfg'.1 < pool_work cfg.1)%nat.
Proof.
  intros HInv Hstep. destruct Hstep as [pool w i t t' w' Hi Hstep].
  cbn [fst snd] in *.
  destruct (tstep_shape t w t' w' (Inv_thread_ok _ _ _ _ _ _ HInv Hi)
              (Inv_held_open _ _ _ _ _ _ HInv Hi) Hstep)
    as (Heff & Hok' & Hwork).
  split; [by eapply Inv_effect|].
  pose proof (sum_list_with_insert work pool i t t' Hi). unfold pool_work.
  lia.
Qed.

(** ** Schedules *)

Lemma cstep_sched_step (cfg : config) (i : nat) (cfg' : config) :
  cstep cfg i cfg' ↔ sched_step i cfg = Some cfg'.
Proof.
  unfold sched_step. split.
  - intros [pool w ? t t' w' Hi Hs%tstep_advance]. cbn. rewrite Hi. cbn.
    by rewrite Hs.
  - destruct cfg as [pool w]. cbn. destruct (pool !! i) as [t|] eqn:Hi; [|done].
    cbn. destruct (advance t w) as [[t'|] w'] eqn:Ha; [|done].
    intros [= <-]. constructor 1 with t; [done|by apply tstep_advance].
Qed.

Lemma csteps_run_sched (cfg : config) (sched : list nat) (cfg' : config) :
  csteps cfg sched cfg' ↔ run_sched sched cfg = Some cfg'.
Proof.
  split.
  - induction 1 as [|? ? ? ? ? Hs%cstep_sched_step _ IH]; [done|].
    cbn. by rewrite Hs.
  - revert cfg. induction sched as [|i sched IH]; intros cfg; cbn.
    + intros [= <-]. constructor.
    + destruct (sched_step i cfg) as [cfg1|] eqn:Hs; [|done]. cbn.
      intros H. econstructor; [by apply cstep_sched_step|by apply IH].
Qed.

Lemma serve_all_replies (qs : list request) (w : World) :
  (serve_all qs w).1 = reply_of <$> qs.
Proof.
  revert w. induction qs as [|q qs IH]; intros w; [done|]. cbn.
  pose proof (serve_reply q w) as Hq. destruct (serve q w) as [r w1].
  specialize (IH w1). destruct (serve_all qs w1) as [rs w2].
  cbn in *. by rewrite Hq, IH.
Qed.

(** A step changes the answers of no thread and uses up work. *)
Lemma cstep_effect (base : gset nat) (cfg : config) (i : nat)
    (cfg' : config) :
  Inv base cfg.1 cfg.2 → cstep cfg i cfg' →
  answers <$> cfg'.1 = answers <$> cfg.1 ∧
  (pool_work cfg'.1 < pool_work cfg.1)%nat.
Proof.
  intros HInv Hstep. destruct Hstep as [pool w i t t' w' Hi Hstep].
  cbn [fst snd] in *.
  destruct (tstep_effect t w t' w' (Inv_thread_ok _ _ _ _ _ _ HInv Hi)
              (Inv_held_open _ _ _ _ _ _ HInv Hi) Hstep)
    as (_ & _ & Hans & Hwork).
  split.
  - rewrite list_fmap_insert, Hans. apply list_insert_id.
    by rewrite list_lookup_fmap, Hi.
  - pose proof (sum_list_with_insert work pool i t t' Hi). unfold pool_work.
    lia.
Qed.

(** The invariants of a schedule, all at once. *)
Lemma csteps_effect (base : gset nat) (cfg : config) (sched : list nat)
    (cfg' : config) :
  Inv base cfg.1 cfg.2 → csteps cfg sched cfg' →
  Inv base cfg'.1 cfg'.2 ∧
  answers <$> cfg'.1 = answers <$> cfg.1 ∧
  (length sched + pool_work cfg'.1 ≤ pool_work cfg.1)%nat.
Proof.
  intros HInv Hsteps.
  induction Hsteps as [|cfg i cfg1 sched cfg2 Hs _ IH]; [by split_and!|].
  destruct (cstep_effect base cfg i cfg1 HInv Hs) as [Hans Hwork].
  destruct (IH (cstep_Inv base cfg i cfg1 HInv Hs)) as (? & -> & ?).
  split_and!; [done..|]. cbn. lia.
Qed.

(** The invariant with less asked of the threads. *)
Lemma Inv_of_impl (ok ok' : thread → Prop) (base : gset nat)
    (pool : list thread) (w : World) :
  (∀ t, ok t → ok' t) → Inv_of ok base pool w → Inv_of ok' base pool w.
Proof.
  intros Himpl (? & Hoks & ?). split; [done|]. split; [|done].
  by eapply Forall_impl.
Qed.

(** Threads that have made no call yet keep the invariant. *)
Lemma Inv_spawn (todos : list (list request)) (w : World) :
  World_ok w → Inv (World_open w) (spawn <$> todos) w.
Proof.
  intros Hw.
  assert (∀ i c, ¬ held (spawn <$> todos) i c) as Hnone.
  { intros i c (t & Ht & Hc). rewrite list_lookup_fmap in Ht.
    destruct (todos !! i); [|done]. injection Ht as <-. done. }
  split_and!; [done| | | |].
  - apply Forall_fmap, Forall_forall. by intros.
  - intros c. split; [by left|]. by intros [?|[i ?%Hnone]].
  - by intros i c ?%Hnone.
  - by intros i j c ?%Hnone.
Qed.

Lemma pool_work_spawn (todos : list (list request)) :
  pool_work (spawn <$> todos) = (2 * sum_list_with length todos)%nat.
Proof.
  unfold pool_work. induction todos as [|qs todos IH]; [done|].
  cbn [fmap list_fmap sum_list_with] in *. rewrite IH. unfold work. cbn. lia.
Qed.

(** A thread that keeps the invariant and has requests left can step,
    whatever the network answers. *)
Lemma thread_shape_progress (t : thread) (w : World) :
  thread_shape t → thread_todo t ≠ [] → ∃ t' w', tstep t w t' w'.
Proof.
  intros Hok Htodo. exists (default t (advance t w).1), (advance t w).2.
  apply tstep_advance. unfold advance, thread_shape in *.
  destruct (thread_todo t) as [|q rest]; [done|].
  destruct (thread_pc t) as [|conn].
  - destruct q; try by destruct (serve _ w).
    by destruct (LookupPort_dial _ _ _ _ _) as [[e|conn] w1].
  - destruct Hok as (_ & ? & ? & ? & [= -> ->]).
    by destruct (LookupPort_close _ _).
Qed.

Lemma thread_progress (t : thread) (w : World) :
  thread_ok t → thread_todo t ≠ [] → ∃ t' w', tstep t w t' w'.
Proof. intros ?%thread_ok_shape. by apply thread_shape_progress. Qed.

(** A thread that keeps the invariant and is not finished has requests
    left. *)
Lemma thread_shape_todo (t : thread) :
  thread_shape t → finished t = false → thread_todo t ≠ [].
Proof.
  unfold thread_shape, finished. destruct (thread_pc t).
  - by destruct (thread_todo t).
  - by intros (_ & ? & ? & ? & ->).
Qed.

Lemma unfinished_todo (t : thread) :
  thread_ok t → finished t = false → thread_todo t ≠ [].
Proof. intros ?%thread_ok_shape. by apply thread_shape_todo. Qed.

(** What holds after every schedule of threads that start fresh. *)
Lemma csteps_spawn (todos : list (list request)) (w : World)
    (sched : list nat) (pool' : list thread) (w' : World) :
  World_ok w → csteps (spawn <$> todos, w) sched (pool', w') →
  Inv (World_open w) pool' w' ∧
  answers <$> pool' = fmap reply_of <$> todos ∧
  (length sched + pool_work pool' ≤ 2 * sum_list_with length todos)%nat.
Proof.
  intros Hw Hsteps.
  destruct (csteps_effect (World_open w) (spawn <$> todos, w) sched
              (pool', w') (Inv_spawn todos w Hw) Hsteps) as (? & Hans & ?).
  cbn [fst snd] in *. rewrite pool_work_spawn in *. split_and!; [done| |done].
  rewrite Hans, <- list_fmap_compose. by apply list_fmap_ext.
Qed.

(** When all threads are between two calls, the open connections are
    those of the start. *)
Lemma Inv_quiescent_open (ok : thread → Prop) (base : gset nat)
    (pool : list thread) (w : World) :
  Inv_of ok base pool w → quiescent pool → World_open w = base.
Proof.
  intros (_ & _ & Hopen & _) Hq. apply set_eq. intros c.
  rewrite Hopen. split; [|by left]. intros [?|[i (t & Ht & Hc)]]; [done|].
  eapply Forall_lookup_1 in Hq; [|done]. by apply holds_Between in Hc.
Qed.

Lemma finished_Between (t : thread) :
  finished t = true → thread_todo t = [] ∧ thread_pc t = Between.
Proof. unfold finished. by destruct (thread_todo t), (thread_pc t). Qed.

(** A pool that has no work left is at rest. *)
Lemma shape_idle (pool : list thread) :
  Forall thread_shape pool → pool_work pool = 0%nat →
  Forall (λ t, finished t = true) pool.
Proof.
  intros Hoks H0%sum_list_with_pos.
  rewrite Forall_forall in H0, Hoks.
  apply Forall_forall. intros t Ht. specialize (H0 t Ht).
  destruct (finished t) eqn:Hf; [done|].
  pose proof (thread_shape_todo t (Hoks t Ht) Hf). unfold work in H0.
  destruct (thread_todo t), (thread_pc t); cbn in *; done || lia.
Qed.

Lemma Inv_idle (base : gset nat) (pool : list thread) (w : World) :
  Inv base pool w → pool_work pool = 0%nat →
  Forall (λ t, finished t = true) pool.
Proof.
  intros (_ & Hoks & _). apply shape_idle.
  eapply Forall_impl; [done|]. apply thread_ok_shape.
Qed.

(** From every configuration that keeps the invariant some schedule
    finishes all threads. *)
Lemma Inv_complete (base : gset nat) (n : nat) (pool : list thread)
    (w : World) :
  (pool_work pool ≤ n)%nat → Inv base pool w →
  ∃ sched cfg', csteps (pool, w) sched cfg' ∧
    Forall (λ t, finished t = true) cfg'.1.
Proof.
  revert pool w. induction n as [|n IH]; intros pool w Hn HInv.
  - exists [], (pool, w). split; [constructor|].
    apply (Inv_idle base pool w HInv). lia.
  - destruct (decide (Forall (λ t, finished t = true) pool)) as [|Hex].
    { exists [], (pool, w). split; [constructor|done]. }
    apply not_Forall_Exists in Hex; [|apply _].
    apply Exists_exists in Hex as (t & [i Hi]%list_elem_of_lookup & Hf).
    apply not_true_is_false in Hf.
    assert (thread_ok t) as Hok by (by eapply Inv_thread_ok).
    destruct (thread_progress t w Hok (unfinished_todo t Hok Hf))
      as (t' & w' & Hstep).
    assert (cstep (pool, w) i (<[i:=t']> pool, w')) as Hc by (by econstructor).
    destruct (cstep_effect base (pool, w) _ _ HInv Hc) as [_ Hwork].
    destruct (IH (<[i:=t']> pool) w') as (sched & cfg' & Hsteps & Hfin);
      [cbn [fst snd] in Hwork; lia
      |by apply (cstep_Inv base (pool, w) _ _ HInv Hc)|].
    exists (i :: sched), cfg'. split; [by econstructor|done].
Qed.

(** Whatever the schedule, the open connections are at every moment
    those of the start and one for each thread that is inside [LookupPort];
    when all threads are between two calls, they are those of the start:
    no interleaving of calls leaks a connection. *)
Theorem concurrent_no_leak (todos : list (list request)) (w : World)
    (sched : list nat) (pool' : list thread) (w' : World) :
  World_ok w → csteps (spawn <$> todos, w) sched (pool', w') →
  World_ok w' ∧
  (∀ c, c ∈ World_open w' ↔ c ∈ World_open w ∨ ∃ i, held pool' i c) ∧
  (quiescent pool' → World_open w' = World_open w).
Proof.
  intros Hw Hsteps.
  destruct (csteps_spawn todos w sched pool' w' Hw Hsteps) as (HInv & _).
  pose proof HInv as (Hw' & _ & Hopen & _).
  split_and!; [done..|]. by apply (Inv_quiescent_open _ _ _ _ HInv).
Qed.


(** Every schedule is finite: no schedule of a pool has more steps
    than twice the number of its requests. *)
Theorem concurrent_terminates (todos : list (list request)) (w : World)
    (sched : list nat) (cfg' : config) :
  World_ok w → csteps (spawn <$> todos, w) sched cfg' →
  (length sched ≤ 2 * sum_list_with length todos)%nat.
Proof.
  intros Hw Hsteps. destruct cfg' as [pool' w'].
  destruct (csteps_spawn todos w sched pool' w' Hw Hsteps) as (_ & _ & ?).
  lia.
Qed.


(** ** A client of the contract *)

Section lawful.
Context `{!ReaderLaws R}.

Lemma reply_of_lawful (q : request) : lawful (reply_of q).
Proof.
  unfold reply_of, serve.
  destruct q as [ip|ip|ip| |ip|ip port]; cbn [fst lawful];
    try by repeat case_match.
  - destruct (Reader_Country g ip) as [[c [e|]]|] eqn:Hq; [|done..].
    by eapply Country_error_law.
  - destruct (Reader_City g ip) as [[c err]|] eqn:Hq; [|done].
    split; [|by eapply City_number_law].
    intros [e ->]. by eapply City_error_law.
  - destruct (Reader_ASN g ip) as [[a [e|]]|] eqn:Hq; [|done..].
    by eapply ASN_error_law.
Qed.

(** Over every reader that keeps the contract of the interface, and
    whatever the schedule, every reply a thread has got keeps the contract:
    an error comes with the zero record and no coordinate is NaN. *)
Theorem concurrent_lawful (todos : list (list request)) (w : World)
    (sched : list nat) (pool' : list thread) (w' : World) (i : nat)
    (t : thread) :
  World_ok w → csteps (spawn <$> todos, w) sched (pool', w') →
  pool' !! i = Some t → Forall lawful (thread_done t).
Proof.
  intros Hw Hsteps Ht.
  destruct (csteps_spawn todos w sched pool' w' Hw Hsteps) as (_ & Hans & _).
  apply (f_equal (.!! i)) in Hans. rewrite !list_lookup_fmap, Ht in Hans.
  destruct (todos !! i) as [qs|]; [|done]. injection Hans as Hans.
  assert (Forall lawful (answers t)) as [? _]%Forall_app; [|done].
  rewrite Hans. apply Forall_fmap, Forall_forall. intros q _.
  apply reply_of_lawful.
Qed.

End lawful.

End concurrent.

(** ** A sample pool *)

(** Three threads; the dials of the first two succeed and overlap, the
    dial of the third fails. *)
Definition sample_todos : list (list request) :=
  [[Req_LookupPort ip_a 80; Req_Country ip_a];
   [Req_LookupPort ip_a 80; Req_LookupAddr ip_a];
   [Req_LookupPort ip_b 22; Req_City ip_a; Req_IsEmpty]].

Definition sample_sched : list nat := [0; 1; 2; 1; 0; 0; 1; 2; 2].

Definition sample_run_from (sched : list nat) : config :=
  default (spawn <$> sample_todos, World_init)
    (run_sched sample_net sample_String sample_geoip sched
       (spawn <$> sample_todos, World_init)).

Definition sample_end : config := sample_run_from sample_sched.

(** After the first two steps: both dials done, no close yet. *)
Definition sample_mid : config := sample_run_from [0; 1].

Lemma sample_csteps :
  csteps sample_net sample_String sample_geoip
    (spawn <$> sample_todos, World_init) sample_sched
    (sample_end.1, sample_end.2).
Proof. apply csteps_run_sched. by vm_compute. Qed.

Lemma sample_mid_csteps :
  csteps sample_net sample_String sample_geoip
    (spawn <$> sample_todos, World_init) [0; 1] (sample_mid.1, sample_mid.2).
Proof. apply csteps_run_sched. by vm_compute. Qed.

Lemma concurrent_no_leak_witness :
  World_ok sample_mid.2 ∧
  (∀ c, c ∈ World_open sample_mid.2 ↔
        c ∈ World_open World_init ∨ ∃ i, held sample_mid.1 i c) ∧
  (quiescent sample_mid.1 → World_open sample_mid.2 = World_open World_init).
Proof.
  apply (concurrent_no_leak sample_net sample_String sample_geoip
           sample_todos World_init [0; 1]);
    [apply World_init_ok | apply sample_mid_csteps].
Defined.


Lemma concurrent_terminates_witness :
  (length sample_sched ≤ 2 * sum_list_with length sample_todos)%nat.
Proof.
  apply (concurrent_terminates sample_net sample_String sample_geoip
           sample_todos World_init sample_sched (sample_end.1, sample_end.2));
    [apply World_init_ok | apply sample_csteps].
Defined.


Lemma concurrent_lawful_witness :
  Forall lawful
    [Rep_Verdict (Normal (Some (Err "connection refused")));
     Rep_City (geoip_City sample_geoip ip_a);
     Rep_IsEmpty false].
Proof.
  apply (concurrent_lawful sample_net sample_String sample_geoip
           sample_todos World_init sample_sched sample_end.1 sample_end.2 2
           {| thread_todo := []; thread_pc := Between;
              thread_done :=
                [Rep_Verdict (Normal (Some (Err "connection refused")));
                 Rep_City (geoip_City sample_geoip ip_a);
                 Rep_IsEmpty false] |});
    [apply World_init_ok | apply sample_csteps | by vm_compute].
Defined.

(** In the middle of the sample run two connections are open, one held by
    each of the first two threads; at its end none is, and the trace shows
    the two dials overlapping. *)
Example sample_mid_open :
  World_open sample_mid.2 = {[0; 1]} ∧
  held sample_mid.1 0 0 ∧ held sample_mid.1 1 1.
Proof. split_and!; [by vm_compute|eexists; split; by vm_compute..]. Qed.

Example sample_end_closed :
  World_open sample_end.2 = ∅ ∧
  finished <$> sample_end.1 = [true; true; true] ∧
  World_trace sample_end.2 =
    [Dialed "tcp" "[192.0.2.1]:80" 2000000000 (Some 0);
     Dialed "tcp" "[192.0.2.1]:80" 2000000000 (Some 1);
     Dialed "tcp" "[198.51.100.7]:22" 2000000000 None;
     Closed 1; Closed 0; Resolved "192.0.2.1"].
Proof.
  split_and!; by vm_compute.
Qed.
