(* ===== verification/Replay.v ===== *)
(** * Replay: the trace accounts for the state of the process

    A [World] holds the open connections and the next connection number
    beside the trace of the calls made.  This file shows that the trace
    alone determines the other two: replaying the events of a run from the
    open connections and the next number of its start ([replay]) gives
    those of its end.  The relation [traced] says so of two worlds; it is a
    preorder, every operation of [Net] and of [iputil.go] is in it, and so
    is every run, sequential ([Probe.steps]) or concurrent
    ([Concurrent.csteps]).  From the replay alone: connection numbers are
    handed out in order, no connection is closed twice, and when the open
    connections are those of the start, the connections closed are those
    dialed ([replays_balanced]). *)

From Stdlib Require Import ZArith String List Lia.
From stdpp Require Import base tactics decidable option list strings gmap.
From S2P Require Import Prelude Netip Geoip2 Samples Geo GeoSpec.
From S2P Require Import GoStrings Net Iputil Probe Concurrent.

(** ** Replaying a trace *)

(** What the trace is replayed on: the open connections and the next
    connection number. *)
Definition pstate : Type := gset nat * nat.

Definition pstate_of (w : World) : pstate := (World_open w, World_next w).

Definition pstate_ok (s : pstate) : Prop := ∀ c, c ∈ s.1 → c < s.2.

(** One event: a dial that succeeded took the next number, a close closed
    a connection that was open. *)
Definition replay_event (e : Event) (s : pstate) : option pstate :=
  match e with
  | Resolved _ | Dialed _ _ _ None => Some s
  | Dialed _ _ _ (Some c) =>
      if decide (c = s.2) then Some ({[c]} ∪ s.1, S c) else None
  | Closed c => if decide (c ∈ s.1) then Some (s.1 ∖ {[c]}, s.2) else None
  end.

Fixpoint replay (t : list Event) (s : pstate) : option pstate :=
  match t with
  | [] => Some s
  | e :: t => s' ← replay_event e s; replay t s'
  end.

(** The connections a trace opens and those it closes, in order. *)
Definition opened_by (e : Event) : option nat :=
  match e with Dialed _ _ _ conn => conn | _ => None end.

Definition closed_by (e : Event) : option nat :=
  match e with Closed c => Some c | _ => None end.

Definition opened (t : list Event) : list nat := omap opened_by t.
Definition closed (t : list Event) : list nat := omap closed_by t.

(** The replay as a relation, in the three shapes of an event. *)
Inductive replayed (e : Event) (s : pstate) : pstate → Prop :=
| replayed_quiet :
    opened_by e = None → closed_by e = None → replayed e s s
| replayed_open :
    opened_by e = Some s.2 → closed_by e = None →
    replayed e s ({[s.2]} ∪ s.1, S s.2)
| replayed_close c :
    opened_by e = None → closed_by e = Some c → c ∈ s.1 →
    replayed e s (s.1 ∖ {[c]}, s.2).

Inductive replays : pstate → list Event → pstate → Prop :=
| replays_nil s : replays s [] s
| replays_cons e s s1 t s' :
    replayed e s s1 → replays s1 t s' → replays s (e :: t) s'.

(** The world [w'] comes after [w], and its state is the replay of what the
    trace has grown by. *)
Definition traced (w w' : World) : Prop :=
  ∃ t, World_trace w' = World_trace w ++ t ∧
       replay t (pstate_of w) = Some (pstate_of w').

(** ** The replay *)

Lemma replay_event_replayed (e : Event) (s s' : pstate) :
  replay_event e s = Some s' ↔ replayed e s s'.
Proof.
  split.
  - destruct e as [a|n a d [c|]|c]; cbn; repeat case_decide;
      intros ?; simplify_eq; by econstructor.
  - intros [Ho Hc|Ho Hc|c Ho Hc Hin];
      destruct e as [a|n a d [c'|]|c']; simplify_eq/=; try done;
      by rewrite decide_True.
Qed.

Lemma replay_replays (t : list Event) (s s' : pstate) :
  replay t s = Some s' ↔ replays s t s'.
Proof.
  split.
  - revert s. induction t as [|e t IH]; intros s; cbn.
    + intros [= <-]. constructor.
    + destruct (replay_event e s) as [s1|] eqn:He; [|done]. cbn.
      intros Hr. econstructor; [by apply replay_event_replayed|by apply IH].
  - induction 1 as [|e s s1 t s' He%replay_event_replayed _ IH]; [done|].
    cbn. by rewrite He.
Qed.

Lemma replay_app (t1 t2 : list Event) (s : pstate) :
  replay (t1 ++ t2) s = replay t1 s ≫= replay t2.
Proof.
  revert s. induction t1 as [|e t1 IH]; intros s; [done|]. cbn.
  destruct (replay_event e s); [apply IH|done].
Qed.

Lemma opened_cons (e : Event) (t : list Event) :
  opened (e :: t) = option_list (opened_by e) ++ opened t.
Proof. unfold opened. cbn. by destruct (opened_by e). Qed.

Lemma closed_cons (e : Event) (t : list Event) :
  closed (e :: t) = option_list (closed_by e) ++ closed t.
Proof. unfold closed. cbn. by destruct (closed_by e). Qed.

Lemma replayed_ok (e : Event) (s s' : pstate) :
  pstate_ok s → replayed e s s' → pstate_ok s'.
Proof.
  intros Hs [Ho Hc|Ho Hc|c Ho Hc Hin] x; cbn; [apply Hs| |].
  - rewrite elem_of_union, elem_of_singleton. intros [->|?%Hs]; lia.
  - rewrite elem_of_difference. intros [?%Hs _]. done.
Qed.

Lemma replays_ok (s : pstate) (t : list Event) (s' : pstate) :
  pstate_ok s → replays s t s' → pstate_ok s'.
Proof. intros Hs Hr. induction Hr; eauto using replayed_ok. Qed.

(** Connection numbers are handed out in order. *)
Lemma replays_opened (s : pstate) (t : list Event) (s' : pstate) :
  replays s t s' →
  opened t = seq s.2 (length (opened t)) ∧
  s'.2 = (s.2 + length (opened t))%nat.
Proof.
  induction 1 as [s|e s s1 t s' He Hr [IHo IHn]]; [by cbn; split; [|lia]|].
  rewrite opened_cons.
  destruct He as [-> Hc| -> Hc|c -> Hc Hin]; cbn in *;
    rewrite ?IHn; (split; [|lia]); [done| |done].
  f_equal. done.
Qed.

Lemma replays_opened_ge (s : pstate) (t : list Event) (s' : pstate) (c : nat) :
  replays s t s' → c ∈ opened t → s.2 ≤ c.
Proof.
  intros [Ho _]%replays_opened. rewrite Ho, elem_of_seq. lia.
Qed.

(** The open connections at the end: those of the start and those opened,
    but for those closed. *)
Lemma replays_open (s : pstate) (t : list Event) (s' : pstate) :
  pstate_ok s → replays s t s' →
  ∀ c, c ∈ s'.1 ↔ (c ∈ s.1 ∨ c ∈ opened t) ∧ c ∉ closed t.
Proof.
  intros Hs Hr. induction Hr as [s|e s s1 t s' He Hr IH]; intros c.
  { unfold opened, closed. cbn. rewrite !elem_of_nil. tauto. }
  specialize (IH (replayed_ok _ _ _ Hs He) c). rewrite IH.
  rewrite opened_cons, closed_cons.
  pose proof (replays_opened_ge _ _ _ c Hr) as Hge.
  destruct He as [-> ->| -> ->|c0 -> -> Hin]; cbn in *; [done| |].
  - rewrite elem_of_union, elem_of_singleton, elem_of_cons. tauto.
  - rewrite elem_of_difference, elem_of_singleton, not_elem_of_cons.
    apply Hs in Hin. split; [|tauto].
    intros [[[? ?]|Ho] ?]; [tauto|]. pose proof (Hge Ho).
    split; [tauto|]. split; [lia|done].
Qed.

(** No connection is closed twice, and a connection that is closed was
    open at the start or has been opened. *)
Lemma replays_closed (s : pstate) (t : list Event) (s' : pstate) :
  pstate_ok s → replays s t s' →
  NoDup (closed t) ∧ ∀ c, c ∈ closed t → c ∈ s.1 ∨ c ∈ opened t.
Proof.
  intros Hs Hr. induction Hr as [s|e s s1 t s' He Hr IH].
  { split; [constructor|]. intros c. unfold closed. cbn.
    by rewrite elem_of_nil. }
  destruct (IH (replayed_ok _ _ _ Hs He)) as [IHd IHc].
  rewrite opened_cons, closed_cons.
  pose proof (λ c, replays_opened_ge _ _ _ c Hr) as Hge.
  destruct He as [-> ->| -> ->|c0 -> -> Hin]; cbn in *; [done| |].
  - split; [done|]. intros c Hc0.
    destruct (IHc _ Hc0) as [Hc|Hc]; [|right; by right].
    apply elem_of_union in Hc as [->%elem_of_singleton|Hc];
      [right; by left|by left].
  - split.
    + constructor; [|done]. intros Hc0. apply Hs in Hin.
      destruct (IHc _ Hc0) as [Hc|Hc].
      * apply elem_of_difference in Hc as [_ Hc].
        by apply Hc, elem_of_singleton.
      * apply Hge in Hc. lia.
    + intros c [->|Hc0]%elem_of_cons; [by left|].
      destruct (IHc _ Hc0) as [Hc|Hc]; [left|by right].
      by apply elem_of_difference in Hc as [? _].
Qed.

(** When the open connections are those of the start, the connections
    closed are those opened. *)
Lemma replays_balanced (s : pstate) (t : list Event) (s' : pstate) :
  pstate_ok s → replays s t s' → s'.1 = s.1 → closed t ≡ₚ opened t.
Proof.
  intros Hs Hr Heq.
  destruct (replays_closed _ _ _ Hs Hr) as [Hd Hc].
  pose proof (replays_open _ _ _ Hs Hr) as Ho. rewrite Heq in Ho.
  apply NoDup_Permutation; [done| |].
  { destruct (replays_opened _ _ _ Hr) as [-> _]. apply NoDup_seq. }
  intros c. split.
  - intros Hin. destruct (Hc c Hin) as [Hs1|?]; [|done].
    by apply Ho in Hs1 as [_ ?].
  - intros Hin. destruct (decide (c ∈ closed t)) as [|Hn]; [done|].
    assert (c ∈ s.1) as ?%Hs by (apply Ho; auto).
    apply (replays_opened_ge _ _ _ _ Hr) in Hin. lia.
Qed.

(** ** Worlds *)

#[export] Instance traced_preorder : PreOrder traced.
Proof.
  split.
  - intros w. exists []. by rewrite app_nil_r.
  - intros w1 w2 w3 (t1 & Ht1 & Hr1) (t2 & Ht2 & Hr2). exists (t1 ++ t2).
    split; [by rewrite Ht2, Ht1, app_assoc|].
    by rewrite replay_app, Hr1.
Qed.

Lemma traced_ok (w w' : World) : World_ok w → traced w w' → World_ok w'.
Proof.
  intros Hw (t & _ & Hr%replay_replays).
  exact (replays_ok (pstate_of w) t (pstate_of w') Hw Hr).
Qed.

(** The three operations of [Net]. *)
Lemma net_LookupAddr_traced (net : Network) (addr : string) (w : World) :
  traced w (net_LookupAddr net addr w).2.
Proof. by exists [Resolved addr]. Qed.

Lemma net_DialTimeout_traced (net : Network) (network address : string)
    (timeout : Z) (w : World) :
  traced w (net_DialTimeout net network address timeout w).2.
Proof.
  unfold net_DialTimeout. destruct (Network_connect _ _ _ _).
  - by exists [Dialed network address timeout None].
  - exists [Dialed network address timeout (Some (World_next w))].
    split; [done|]. cbn. by rewrite decide_True.
Qed.

Lemma Conn_Close_traced (conn : Conn) (w : World) :
  traced w (Conn_Close conn w).2.
Proof.
  unfold Conn_Close. case_decide; [|done].
  exists [Closed (Conn_id conn)]. split; [done|]. cbn. by rewrite decide_True.
Qed.

Section traced.
Context (net : Network) (Addr_String : Addr → string).

(** The functions of [iputil.go]. *)
Lemma LookupAddr_traced (ip : Addr) (w : World) :
  traced w (LookupAddr net Addr_String ip w).2.
Proof.
  unfold LookupAddr.
  pose proof (net_LookupAddr_traced net (Addr_String ip) w) as H.
  destruct (net_LookupAddr _ _ _) as [[names err] w1].
  by destruct (_ || _).
Qed.

Lemma LookupPort_dial_traced (ip : Addr) (port : Z) (w : World) :
  traced w (LookupPort_dial net Addr_String ip port w).2.
Proof.
  unfold LookupPort_dial.
  pose proof (net_DialTimeout_traced net "tcp"
    (Sprintf_address (Addr_String ip) port) (2 * time_Second) w) as H.
  destruct (net_DialTimeout _ _ _ _ _) as [[conn [e|]] w1]; done.
Qed.

Lemma LookupPort_close_traced (conn : option Conn) (w : World) :
  traced w (LookupPort_close conn w).2.
Proof.
  unfold LookupPort_close. destruct conn as [c|]; cbn [deref]; [|done].
  pose proof (Conn_Close_traced c w) as H.
  by destruct (Conn_Close c w).
Qed.

Lemma LookupPort_traced (ip : Addr) (port : Z) (w : World) :
  traced w (LookupPort net Addr_String ip port w).2.
Proof.
  rewrite LookupPort_split.
  pose proof (LookupPort_dial_traced ip port w) as H.
  destruct (LookupPort_dial _ _ _ _ _) as [[e|conn] w1]; [done|].
  etrans; [done|]. apply LookupPort_close_traced.
Qed.

(** Sequential runs. *)
Lemma steps_traced (w : World) (h : list (call * outcome)) (w' : World) :
  steps net Addr_String w h w' → traced w w'.
Proof.
  induction 1 as [|w c o w1 h w' Hs _ IH]; [done|].
  etrans; [|done].
  destruct Hs as [w ip r w1 H|w ip port r w1 H].
  - pose proof (LookupAddr_traced ip w) as Ht. by rewrite H in Ht.
  - pose proof (LookupPort_traced ip port w) as Ht. by rewrite H in Ht.
Qed.

Context {R : Type} `{!Reader R} (g : R).

(** Concurrent runs. *)
Lemma serve_traced (q : request) (w : World) :
  traced w (serve net Addr_String g q w).2.
Proof.
  unfold serve. destruct q as [ip|ip|ip| |ip|ip port]; try reflexivity.
  - pose proof (LookupAddr_traced ip w). by destruct (LookupAddr _ _ _ _).
  - pose proof (LookupPort_traced ip port w).
    by destruct (LookupPort _ _ _ _ _).
Qed.

Lemma tstep_traced (t : thread) (w : World) (t' : thread) (w' : World) :
  tstep net Addr_String g t w t' w' → traced w w'.
Proof.
  intros Hstep.
  destruct Hstep as [t w q rest r w' _ _ _ Hs | t w ip port rest e w' _ _ Hd
    | t w ip port rest conn w' _ _ Hd | t w ip port rest conn r w' _ _ Hc].
  - pose proof (serve_traced q w) as Ht. by rewrite Hs in Ht.
  - pose proof (LookupPort_dial_traced ip port w) as Ht. by rewrite Hd in Ht.
  - pose proof (LookupPort_dial_traced ip port w) as Ht. by rewrite Hd in Ht.
  - pose proof (LookupPort_close_traced conn w) as Ht. by rewrite Hc in Ht.
Qed.

Lemma cstep_traced (cfg : config) (i : nat) (cfg' : config) :
  cstep net Addr_String g cfg i cfg' → traced cfg.2 cfg'.2.
Proof. intros [pool w ? t t' w' _ Ht]. by eapply tstep_traced. Qed.

Lemma csteps_traced (cfg : config) (sched : list nat) (cfg' : config) :
  csteps net Addr_String g cfg sched cfg' → traced cfg.2 cfg'.2.
Proof.
  induction 1 as [|cfg i cfg' sched cfg'' Hc _ IH]; [done|].
  etrans; [by eapply cstep_traced|done].
Qed.

End traced.

(** What the replay says of a run of threads that keeps the invariant of
    file [Concurrent]. *)
Lemma traced_balanced (ok : thread → Prop) (w w' : World)
    (pool' : list thread) :
  World_ok w → traced w w' → Inv_of ok (World_open w) pool' w' →
  ∃ t, World_trace w' = World_trace w ++ t ∧
       replay t (World_open w, World_next w)
       = Some (World_open w', World_next w') ∧
       NoDup (closed t) ∧
       (quiescent pool' → closed t ≡ₚ opened t).
Proof.
  intros Hw (t & Ht & Hr) HInv. exists t.
  split; [done|]. split; [done|]. apply replay_replays in Hr.
  split; [by destruct (replays_closed (pstate_of w) t (pstate_of w') Hw Hr)|].
  intros Hq. apply (replays_balanced (pstate_of w) t (pstate_of w') Hw Hr).
  cbn. by eapply Inv_quiescent_open.
Qed.

(** ** Theorems *)



(** The connections of the sample run: two opened, the same two closed,
    the second one first. *)
Example sample_end_balance :
  opened (World_trace sample_end.2) = [0; 1]%nat ∧
  closed (World_trace sample_end.2) = [1; 0]%nat.
Proof. by vm_compute. Qed.
