(* ===== verification/Adaptive.v ===== *)
(** * Adaptive: the pool against a network that changes its mind

    In file [Concurrent] the network is an oracle: it answers a question
    the same way whenever it is asked.  A real network does not: a peer
    may accept one connection and refuse the next, a name may resolve now
    and not later.  Here the network is chosen anew before every step,
    from the world as it is then, the trace of all calls so far included
    ([adaptive]).

    What the pool guarantees of itself does not depend on the answers:
    for every such network and every schedule the open connections are
    those the threads hold, none is open when the threads are between two
    calls, a schedule has two steps per request at most, and a thread that
    is not finished can step.  What a thread is answered does depend on
    them: [busy_answers] shows a network with which the answer to one
    request differs between two schedules, so the equivalence with
    sequential calls of file [Concurrent] is a property of networks that
    answer every question the same way.  What every network leaves of it
    is in file [Linearize]: each reply is the sequential one at one moment
    of the run. *)

From Stdlib Require Import ZArith String List Lia.
From stdpp Require Import base tactics decidable option list strings gmap.
From S2P Require Import Prelude Netip Geoip2 Samples Geo GeoSpec.
From S2P Require Import GoStrings Net Iputil Probe Concurrent Replay.

(** ** Networks that depend on the past *)

(** The network the next call meets, given the world as it is. *)
Definition adaptive : Type := World → Network.

(** A network in which a peer accepts one connection at a time: while a
    connection is open every dial is refused. *)
Definition busy_net (net : Network) : adaptive :=
  λ w,
    if decide (World_open w = ∅) then net
    else {| Network_ptr := Network_ptr net;
            Network_connect := λ _ _ _, Some (Err "connection refused") |}.

Section adaptive.
Context (env : adaptive) (Addr_String : Addr → string).
Context {R : Type} `{!Reader R} (g : R).

(** A schedule: each step meets the network of its moment. *)
Inductive asteps : config → list nat → config → Prop :=
| asteps_nil cfg : asteps cfg [] cfg
| asteps_cons cfg i cfg' sched cfg'' :
    cstep (env cfg.2) Addr_String g cfg i cfg' →
    asteps cfg' sched cfg'' →
    asteps cfg (i :: sched) cfg''.

(** The same, as a function. *)
Fixpoint run_adaptive (sched : list nat) (cfg : config) : option config :=
  match sched with
  | [] => Some cfg
  | i :: sched =>
      cfg' ← sched_step (env cfg.2) Addr_String g i cfg;
      run_adaptive sched cfg'
  end.

(** A schedule with an observer, who is told after every step which
    thread has stepped and which calls it has made ([since]), and keeps a
    record [A] of what it is told. *)
Inductive osteps {A : Type} (observe : nat → list Event → A → A) :
    A → config → list nat → A → config → Prop :=
| osteps_nil a cfg : osteps observe a cfg [] a cfg
| osteps_cons a cfg i cfg' sched a'' cfg'' :
    cstep (env cfg.2) Addr_String g cfg i cfg' →
    osteps observe (observe i (since cfg.2 cfg'.2) a) cfg' sched a'' cfg'' →
    osteps observe a cfg (i :: sched) a'' cfg''.

Fixpoint run_observed {A : Type} (observe : nat → list Event → A → A)
    (sched : list nat) (a : A) (cfg : config) : option (A * config) :=
  match sched with
  | [] => Some (a, cfg)
  | i :: sched =>
      cfg' ← sched_step (env cfg.2) Addr_String g i cfg;
      run_observed observe sched (observe i (since cfg.2 cfg'.2) a) cfg'
  end.

(** ** Lemmas *)

Lemma asteps_run_adaptive (cfg : config) (sched : list nat) (cfg' : config) :
  asteps cfg sched cfg' ↔ run_adaptive sched cfg = Some cfg'.
Proof.
  split.
  - induction 1 as [|? ? ? ? ? Hs%cstep_sched_step _ IH]; [done|].
    cbn. by rewrite Hs.
  - revert cfg. induction sched as [|i sched IH]; intros cfg; cbn.
    + intros [= <-]. constructor.
    + destruct (sched_step _ _ _ i cfg) as [cfg1|] eqn:Hs; [|done]. cbn.
      intros H. econstructor; [by apply cstep_sched_step|by apply IH].
Qed.

Section observed.
Context {A : Type} (observe : nat → list Event → A → A).

Lemma osteps_run_observed (a : A) (cfg : config) (sched : list nat)
    (a' : A) (cfg' : config) :
  osteps observe a cfg sched a' cfg'
  ↔ run_observed observe sched a cfg = Some (a', cfg').
Proof.
  split.
  - induction 1 as [|a cfg i cfg1 sched a'' cfg'' Hc _ IH]; [done|].
    apply cstep_sched_step in Hc. cbn. by rewrite Hc.
  - revert a cfg. induction sched as [|i sched IH]; intros a cfg; cbn.
    + intros [= <- <-]. constructor.
    + destruct (sched_step _ _ _ i cfg) as [cfg1|] eqn:Hc; [|done]. cbn.
      intros Hr. econstructor; [by apply cstep_sched_step|by apply IH].
Qed.

(** The observer does not change the schedule. *)
Lemma osteps_asteps (a : A) (cfg : config) (sched : list nat)
    (a' : A) (cfg' : config) :
  osteps observe a cfg sched a' cfg' → asteps cfg sched cfg'.
Proof. induction 1; by econstructor. Qed.

Lemma asteps_osteps (a : A) (cfg : config) (sched : list nat)
    (cfg' : config) :
  asteps cfg sched cfg' → ∃ a', osteps observe a cfg sched a' cfg'.
Proof.
  intros Hsteps. revert a.
  induction Hsteps as [|cfg i cfg1 sched cfg'' Hc _ IH]; intros a.
  - exists a. constructor.
  - destruct (IH (observe i (since cfg.2 cfg1.2) a)) as [a' ?].
    exists a'. by econstructor.
Qed.

End observed.

(** The invariant and the measure, along every schedule. *)
Lemma asteps_effect (base : gset nat) (cfg : config) (sched : list nat)
    (cfg' : config) :
  Inv_of thread_shape base cfg.1 cfg.2 → asteps cfg sched cfg' →
  Inv_of thread_shape base cfg'.1 cfg'.2 ∧
  (length sched + pool_work cfg'.1 ≤ pool_work cfg.1)%nat.
Proof.
  intros HInv Hsteps.
  induction Hsteps as [|cfg i cfg1 sched cfg2 Hs _ IH]; [by split|].
  destruct (cstep_Inv_shape _ _ _ base cfg i cfg1 HInv Hs) as [HInv1 Hwork].
  destruct (IH HInv1) as [? ?]. split; [done|]. cbn. lia.
Qed.

Lemma asteps_traced (cfg : config) (sched : list nat) (cfg' : config) :
  asteps cfg sched cfg' → traced cfg.2 cfg'.2.
Proof.
  induction 1 as [|cfg i cfg' sched cfg'' Hc _ IH]; [done|].
  etrans; [by eapply cstep_traced|done].
Qed.

(** What holds after every schedule of threads that start fresh. *)
Lemma asteps_spawn (todos : list (list request)) (w : World)
    (sched : list nat) (cfg' : config) :
  World_ok w → asteps (spawn <$> todos, w) sched cfg' →
  Inv_of thread_shape (World_open w) cfg'.1 cfg'.2 ∧
  (length sched + pool_work cfg'.1 ≤ 2 * sum_list_with length todos)%nat.
Proof.
  intros Hw Hsteps. rewrite <- pool_work_spawn.
  refine (asteps_effect (World_open w) (spawn <$> todos, w) sched cfg'
            _ Hsteps).
  eapply Inv_of_impl; [|apply (Inv_spawn (env w) Addr_String todos w Hw)].
  apply thread_ok_shape.
Qed.

End adaptive.

Lemma asteps_const (env : adaptive) (net : Network)
    (Addr_String : Addr → string) {R : Type} `{!Reader R} (g : R)
    (cfg : config) (sched : list nat) (cfg' : config) :
  (∀ w, env w = net) → asteps env Addr_String g cfg sched cfg' →
  csteps net Addr_String g cfg sched cfg'.
Proof.
  intros Henv. induction 1 as [|cfg i cfg1 sched cfg2 Hc _ IH]; [constructor|].
  rewrite Henv in Hc. by econstructor.
Qed.

(** With a network that does not change, the schedules are those of file
    [Concurrent]. *)
Lemma asteps_csteps (net : Network) (Addr_String : Addr → string)
    {R : Type} `{!Reader R} (g : R) (cfg : config) (sched : list nat)
    (cfg' : config) :
  asteps (λ _, net) Addr_String g cfg sched cfg'
  ↔ csteps net Addr_String g cfg sched cfg'.
Proof. split; induction 1; by econstructor. Qed.

(** ** The sample pool against a busy peer *)

Definition busy_run (sched : list nat) : option config :=
  run_adaptive (busy_net sample_net) sample_String sample_geoip sched
    (spawn <$> sample_todos, World_init).

(** A schedule in which the dials of the first two threads overlap, and
    one in which they do not. *)
Definition busy_overlap : list nat := [0; 1; 2; 1; 0; 0; 2; 2]%nat.
Definition busy_apart : list nat := [0; 0; 1; 1; 2; 0; 1; 2; 2]%nat.

Definition busy_end : config :=
  default (spawn <$> sample_todos, World_init) (busy_run busy_overlap).

Lemma busy_asteps :
  asteps (busy_net sample_net) sample_String sample_geoip
    (spawn <$> sample_todos, World_init) busy_overlap
    (busy_end.1, busy_end.2).
Proof. apply asteps_run_adaptive. by vm_compute. Qed.

(** ** Theorems *)

(** C6: whatever the network answers, and however its answers depend on
    what has happened before, and whatever the schedule: the open
    connections are those of the start and one for each thread that is
    inside [LookupPort]; none is left when the threads are between two
    calls; the schedule has two steps per request at most; a thread that
    is not finished can step. *)
Theorem adaptive_safe (env : adaptive) (Addr_String : Addr → string)
    {R : Type} `{!Reader R} (g : R) (todos : list (list request))
    (w : World) (sched : list nat) (pool' : list thread) (w' : World) :
  World_ok w →
  asteps env Addr_String g (spawn <$> todos, w) sched (pool', w') →
  World_ok w' ∧
  (∀ c, c ∈ World_open w' ↔ c ∈ World_open w ∨ ∃ i, held pool' i c) ∧
  (quiescent pool' → World_open w' = World_open w) ∧
  (length sched ≤ 2 * sum_list_with length todos)%nat ∧
  (∀ i t, pool' !! i = Some t → finished t = false →
          ∃ cfg'', cstep (env w') Addr_String g (pool', w') i cfg'').
Proof.
  intros Hw Hsteps.
  destruct (asteps_spawn env Addr_String g todos w sched _ Hw Hsteps)
    as [HInv Hlen]. cbn [fst snd] in *.
  pose proof HInv as (Hw' & Hoks & Hopen & _).
  split_and!; [done|done| |lia|].
  - by apply (Inv_quiescent_open _ _ _ _ HInv).
  - intros i t Hi Hf.
    pose proof (Forall_lookup_1 _ _ _ _ Hoks Hi) as Hok.
    destruct (thread_shape_progress (env w') Addr_String g t w' Hok
                (thread_shape_todo t Hok Hf)) as (t' & w'' & Hstep).
    exists (<[i:=t']> pool', w''). by econstructor.
Qed.

Lemma adaptive_safe_witness :
  World_ok busy_end.2 ∧
  (∀ c, c ∈ World_open busy_end.2 ↔
        c ∈ World_open World_init ∨ ∃ i, held busy_end.1 i c) ∧
  (quiescent busy_end.1 → World_open busy_end.2 = World_open World_init) ∧
  (length busy_overlap ≤ 2 * sum_list_with length sample_todos)%nat ∧
  (∀ i t, busy_end.1 !! i = Some t → finished t = false →
          ∃ cfg'', cstep (busy_net sample_net busy_end.2) sample_String
                     sample_geoip (busy_end.1, busy_end.2) i cfg'').
Proof.
  apply (adaptive_safe (busy_net sample_net) sample_String sample_geoip
           sample_todos World_init busy_overlap busy_end.1 busy_end.2);
    [apply World_init_ok | apply busy_asteps].
Defined.

(** The trace of a run against any network replays to the state, no
    connection is closed twice, and at rest the connections closed are
    those dialed. *)
Theorem adaptive_trace_balanced (env : adaptive)
    (Addr_String : Addr → string) {R : Type} `{!Reader R} (g : R)
    (todos : list (list request)) (w : World) (sched : list nat)
    (pool' : list thread) (w' : World) :
  World_ok w →
  asteps env Addr_String g (spawn <$> todos, w) sched (pool', w') →
  ∃ t, World_trace w' = World_trace w ++ t ∧
       replay t (World_open w, World_next w)
       = Some (World_open w', World_next w') ∧
       NoDup (closed t) ∧
       (quiescent pool' → closed t ≡ₚ opened t).
Proof.
  intros Hw Hsteps.
  destruct (asteps_spawn env Addr_String g todos w sched _ Hw Hsteps)
    as [HInv _].
  eapply traced_balanced; [done| |done].
  apply (asteps_traced env Addr_String g _ _ _ Hsteps).
Qed.

(** With a peer that accepts one connection at a time, what the second
    thread is answered for its probe depends on the schedule: an error
    when the dials overlap, nil when they do not. *)
Example busy_answers :
  (t ← busy_run busy_overlap ≫= λ cfg, cfg.1 !! 1%nat;
   head (thread_done t))
  = Some (Rep_Verdict (Normal (Some (Err "connection refused")))) ∧
  (t ← busy_run busy_apart ≫= λ cfg, cfg.1 !! 1%nat;
   head (thread_done t))
  = Some (Rep_Verdict (Normal nil)).
Proof. by vm_compute. Qed.
