(* ===== verification/Scheduler.v ===== *)
(** * Scheduler: every scheduler that does not idle serves every request

    Files [Concurrent] and [Adaptive] show what holds after every
    schedule.  This file runs the pool under a scheduler: a function that
    picks the thread to step next from the schedule so far and the
    configuration, as the Go runtime does in ways the program cannot see.
    A scheduler is work-conserving when it picks a thread that is not
    finished as long as there is one.  Under every such scheduler, and
    against every network, the pool comes to rest within two steps per
    request, with no connection left open; when the network answers every
    question the same way, every request has been answered as it is
    answered when served alone.  [lowest] and [round_robin] are two such
    schedulers. *)

From Stdlib Require Import ZArith String List Lia.
From stdpp Require Import base tactics decidable option list strings gmap.
From S2P Require Import Prelude Float64 Netip Geoip2 Samples Geo GeoSpec.
From S2P Require Import GoStrings Net Iputil Concurrent Replay Adaptive.

(** ** Schedulers *)

(** The thread to step next, or [None] to stop. *)
Definition scheduler : Type := list nat → config → option nat.

(** A scheduler that stops only when every thread is finished, and never
    picks a finished thread. *)
Definition work_conserving (s : scheduler) : Prop :=
  ∀ past pool w,
    match s past (pool, w) with
    | Some i => ∃ t, pool !! i = Some t ∧ finished t = false
    | None => Forall (λ t, finished t = true) pool
    end.

(** The first thread that is not finished. *)
Definition lowest : scheduler :=
  λ _ cfg, fst <$> list_find (λ t, finished t = false) cfg.1.

(** The first thread that is not finished after the one that stepped
    last, starting again with the first thread at the end of the pool. *)
Definition round_robin : scheduler :=
  λ past cfg,
    let start := from_option S 0%nat (last past) in
    match list_find (λ t, finished t = false) (drop start cfg.1) with
    | Some (j, _) => Some (start + j)%nat
    | None => fst <$> list_find (λ t, finished t = false) cfg.1
    end.

Section scheduler.
Context (env : adaptive) (Addr_String : Addr → string).
Context {R : Type} `{!Reader R} (g : R).

(** The pool under a scheduler: the schedule it makes and the
    configuration it ends in.  The fuel bounds the number of steps. *)
Fixpoint run_scheduler (fuel : nat) (s : scheduler) (past : list nat)
    (cfg : config) : list nat * config :=
  match fuel with
  | O => ([], cfg)
  | S fuel =>
      match s past cfg with
      | None => ([], cfg)
      | Some i =>
          match sched_step (env cfg.2) Addr_String g i cfg with
          | None => ([], cfg)
          | Some cfg' =>
              let '(sched, cfg'') :=
                run_scheduler fuel s (past ++ [i]) cfg' in
              (i :: sched, cfg'')
          end
      end
  end.

(** ** Lemmas *)

(** With enough fuel for the work that is left, a work-conserving
    scheduler brings the pool to rest. *)
Lemma run_scheduler_rest (base : gset nat) (s : scheduler) (fuel : nat)
    (past : list nat) (pool : list thread) (w : World) :
  work_conserving s → Inv_of thread_shape base pool w →
  (pool_work pool ≤ fuel)%nat →
  asteps env Addr_String g (pool, w)
    (run_scheduler fuel s past (pool, w)).1
    (run_scheduler fuel s past (pool, w)).2 ∧
  Forall (λ t, finished t = true) (run_scheduler fuel s past (pool, w)).2.1.
Proof.
  intros Hs. revert past pool w.
  induction fuel as [|fuel IH]; intros past pool w HInv Hfuel.
  { split; [constructor|]. destruct HInv as (_ & Hoks & _).
    apply shape_idle; [done|cbn [run_scheduler fst snd]; lia]. }
  cbn [run_scheduler]. specialize (Hs past pool w).
  destruct (s past (pool, w)) as [i|]; [|by split; [constructor|]].
  destruct Hs as (t & Hi & Hf).
  assert (thread_shape t) as Hok by (by eapply Inv_thread_ok).
  destruct (thread_shape_progress (env w) Addr_String g t w Hok
              (thread_shape_todo t Hok Hf))
    as (t' & w' & Hstep).
  assert (cstep (env w) Addr_String g (pool, w) i (<[i:=t']> pool, w'))
    as Hc by (by econstructor).
  cbn [snd]. rewrite (proj1 (cstep_sched_step _ _ _ _ _ _) Hc).
  destruct (cstep_Inv_shape _ _ _ base (pool, w) _ _ HInv Hc)
    as [HInv' Hwork].
  destruct (IH (past ++ [i]) (<[i:=t']> pool) w') as [Hsteps Hfin];
    [done|cbn [fst snd] in Hwork; lia|].
  destruct (run_scheduler fuel s _ _) as [sched cfg''].
  split; [by econstructor|done].
Qed.

End scheduler.

(** The two schedulers do not idle. *)
Lemma lowest_work_conserving : work_conserving lowest.
Proof.
  intros past pool w. unfold lowest. cbn [fst].
  destruct (list_find _ pool) as [[i t]|] eqn:Hfind; cbn.
  - apply list_find_Some in Hfind as (Hi & Hf & _). by exists t.
  - apply list_find_None in Hfind. eapply Forall_impl; [done|].
    intros t. cbn. by destruct (finished t).
Qed.

Lemma round_robin_work_conserving : work_conserving round_robin.
Proof.
  intros past pool w. unfold round_robin. cbn [fst].
  destruct (list_find _ (drop _ pool)) as [[j t]|] eqn:Hfind.
  - apply list_find_Some in Hfind as (Hj & Hf & _).
    rewrite lookup_drop in Hj. by exists t.
  - apply (lowest_work_conserving past pool w).
Qed.

(** What every thread of a pool at rest has got, when the network answers
    every question the same way. *)
Lemma finished_answers (net : Network) (Addr_String : Addr → string)
    {R : Type} `{!Reader R} (g : R) (pool : list thread) :
  Forall (λ t, finished t = true) pool →
  thread_done <$> pool = answers net Addr_String g <$> pool.
Proof.
  intros Hfin. apply Forall_fmap_ext_1.
  eapply Forall_impl; [done|]. intros t [Ht _]%finished_Between.
  unfold answers. by rewrite Ht, app_nil_r.
Qed.

(** ** Theorems *)

(** C23: under every scheduler that does not idle, whatever the network
    answers and however its answers depend on the past, a pool that is
    given two steps for each request comes to rest: every thread is
    finished and the open connections are those of the start.  When the
    network answers every question the same way, every thread has got,
    for each of its requests and in their order, the reply the request
    gets when it is served alone. *)
Theorem scheduler_completes (env : adaptive) (Addr_String : Addr → string)
    {R : Type} `{!Reader R} (g : R) (s : scheduler)
    (todos : list (list request)) (w : World) (fuel : nat) :
  work_conserving s → World_ok w →
  (2 * sum_list_with length todos ≤ fuel)%nat →
  let r := run_scheduler env Addr_String g fuel s [] (spawn <$> todos, w) in
  asteps env Addr_String g (spawn <$> todos, w) r.1 r.2 ∧
  (length r.1 ≤ 2 * sum_list_with length todos)%nat ∧
  Forall (λ t, finished t = true) r.2.1 ∧
  World_open r.2.2 = World_open w ∧
  ∀ net, (∀ w, env w = net) →
    thread_done <$> r.2.1 = fmap (reply_of net Addr_String g) <$> todos.
Proof.
  intros Hs Hw Hfuel r.
  assert (Inv_of thread_shape (World_open w) (spawn <$> todos) w) as HInv0.
  { eapply Inv_of_impl; [|apply (Inv_spawn (env w) Addr_String todos w Hw)].
    apply thread_ok_shape. }
  destruct (run_scheduler_rest env Addr_String g (World_open w) s fuel []
              (spawn <$> todos) w Hs HInv0)
    as [Hsteps Hfin]; [by rewrite pool_work_spawn|].
  fold r in Hsteps, Hfin. destruct r as [sched [pool' w']].
  cbn [fst snd] in *.
  destruct (asteps_spawn env Addr_String g todos w sched _ Hw Hsteps)
    as [HInv Hlen]. cbn [fst snd] in *.
  split_and!; [done|lia|done| |].
  - eapply Inv_quiescent_open; [done|].
    eapply Forall_impl; [done|]. by intros t [_ ?]%finished_Between.
  - intros net Hnet. apply (asteps_const env net) in Hsteps; [|done].
    destruct (csteps_spawn _ _ _ todos w sched pool' w' Hw Hsteps)
      as (_ & <- & _).
    by apply finished_answers.
Qed.

Lemma scheduler_completes_witness :
  let r := run_scheduler (λ _, sample_net) sample_String sample_geoip 14
             round_robin [] (spawn <$> sample_todos, World_init) in
  asteps (λ _, sample_net) sample_String sample_geoip
    (spawn <$> sample_todos, World_init) r.1 r.2 ∧
  (length r.1 ≤ 2 * sum_list_with length sample_todos)%nat ∧
  Forall (λ t, finished t = true) r.2.1 ∧
  World_open r.2.2 = World_open World_init ∧
  ∀ net, (∀ w, (λ _ : World, sample_net) w = net) →
    thread_done <$> r.2.1
    = fmap (reply_of net sample_String sample_geoip) <$> sample_todos.
Proof.
  apply (scheduler_completes (λ _, sample_net) sample_String sample_geoip
           round_robin sample_todos World_init 14);
    [apply round_robin_work_conserving | apply World_init_ok | cbn; lia].
Defined.

(** The schedules the two schedulers make of the sample pool: [lowest]
    runs the threads one after the other, [round_robin] takes them in
    turns, so that the two connections are open at the same time. *)
Example sample_schedules :
  (run_scheduler (λ _, sample_net) sample_String sample_geoip 14 lowest []
     (spawn <$> sample_todos, World_init)).1
  = [0; 0; 0; 1; 1; 1; 2; 2; 2]%nat ∧
  (run_scheduler (λ _, sample_net) sample_String sample_geoip 14
     round_robin [] (spawn <$> sample_todos, World_init)).1
  = [0; 1; 2; 0; 1; 2; 0; 1; 2]%nat.
Proof. by vm_compute. Qed.

(** Against the peer that accepts one connection at a time the schedule
    of [round_robin] is shorter: the dial of the second thread is refused,
    so there is no connection to close. *)
Example busy_schedule :
  (run_scheduler (busy_net sample_net) sample_String sample_geoip 14
     round_robin [] (spawn <$> sample_todos, World_init)).1
  = [0; 1; 2; 0; 1; 2; 0; 2]%nat.
Proof. by vm_compute. Qed.
