(* ===== verification/Parallel.v ===== *)
(** * Parallel: how long each thread is blocked

    [LookupPort] blocks the thread that calls it for up to two seconds, and
    the specification tells callers that need concurrency to run the probes
    on threads of their own.  This file gives every thread of the pool of
    file [Concurrent] a clock: a step of a thread advances the clock of
    that thread, and of no other, by the time the calls of the step take
    (file [Timing]).  Threads are blocked at the same time, so the time a
    pool takes is the largest of its clocks, not their sum.  The network
    is that of file [Adaptive]: it may answer differently at every step.

    The theorems: whatever the schedule, the clock of a thread and the time
    its remaining requests need ([owed]) add up to the time its requests
    need when they are served alone; so a thread is never blocked for
    longer than its own requests take, however many threads there are, and
    a thread that makes no reverse lookup is blocked for two seconds per
    request at most. *)

From Stdlib Require Import ZArith String List Lia.
From stdpp Require Import base tactics decidable option list strings gmap.
From S2P Require Import Prelude Netip Geoip2 Samples Geo GeoSpec.
From S2P Require Import GoStrings Net Iputil Probe Timing Concurrent.
From S2P Require Import Replay Adaptive.

#[local] Open Scope Z_scope.

(** ** Clocks *)

(** The nanoseconds each thread has spent in package [net]. *)
Definition clocks : Type := nat → Z.

Definition tick (i : nat) (d : Z) (cl : clocks) : clocks :=
  λ j, if decide (j = i) then cl j + d else cl j.

(** The largest clock of the first [n] threads: the time the pool has
    taken when its threads are blocked side by side. *)
Definition makespan (n : nat) (cl : clocks) : Z :=
  foldr (λ i m, Z.max (cl i) m) 0 (seq 0 n).

Section parallel.
Context (env : adaptive) (Addr_String : Addr → string) (lat : Latency).
Context {R : Type} `{!Reader R} (g : R).

(** The time a request takes when it is served alone: a geo lookup reads
    memory and makes no call. *)
Definition request_time (q : request) : Z :=
  match q with
  | Req_LookupAddr ip => blocks Addr_String lat (Call_LookupAddr ip)
  | Req_LookupPort ip port => blocks Addr_String lat (Call_LookupPort ip port)
  | _ => 0
  end.

Definition requests_time (qs : list request) : Z :=
  foldr (λ q d, request_time q + d) 0 qs.

(** The time the requests a thread has left will take: inside
    [LookupPort] the dial is done and the [Close] takes no time. *)
Definition owed (t : thread) : Z :=
  match thread_pc t, thread_todo t with
  | Deferred _, _ :: rest => requests_time rest
  | _, todo => requests_time todo
  end.

Definition owed_at (pool : list thread) (i : nat) : Z :=
  from_option owed 0 (pool !! i).

(** The observer that keeps the clocks: the thread that steps is blocked
    for the time of the calls the step makes. *)
Definition timekeeper (i : nat) (evs : list Event) (cl : clocks) : clocks :=
  tick i (duration lat evs) cl.

(** A schedule with clocks, and the same as a function. *)
Definition tsteps : clocks → config → list nat → clocks → config → Prop :=
  osteps env Addr_String g timekeeper.

Definition run_clocks (sched : list nat) (cl : clocks) (cfg : config) :
    option (clocks * config) :=
  run_observed env Addr_String g timekeeper sched cl cfg.

(** ** The time of one step *)

Lemma request_time_nonneg (q : request) :
  Latency_ok lat → 0 ≤ request_time q.
Proof.
  intros [Hr Hc]. destruct q as [ip|ip|ip| |ip|ip port]; cbn; try done.
  specialize (Hc "tcp"%string (Sprintf_address (Addr_String ip) port)).
  unfold time_Second. lia.
Qed.

Lemma requests_time_cons (q : request) (qs : list request) :
  requests_time (q :: qs) = request_time q + requests_time qs.
Proof. done. Qed.

Lemma requests_time_nonneg (qs : list request) :
  Latency_ok lat → 0 ≤ requests_time qs.
Proof.
  intros Hlat. induction qs as [|q qs IH]; [done|].
  rewrite requests_time_cons. pose proof (request_time_nonneg q Hlat). lia.
Qed.

(** A request that is not a reverse lookup takes two seconds at most. *)
Lemma requests_time_bound (qs : list request) :
  Forall (λ q, ∀ ip, q ≠ Req_LookupAddr ip) qs →
  requests_time qs ≤ 2 * time_Second * Z.of_nat (length qs).
Proof.
  induction 1 as [|q qs Hq _ IH]; [done|].
  rewrite requests_time_cons. cbn [length]. rewrite Nat2Z.inj_succ.
  assert (request_time q ≤ 2 * time_Second); [|lia].
  destruct q as [ip|ip|ip| |ip|ip port]; cbn; unfold time_Second; try lia.
  by destruct (Hq ip).
Qed.

Lemma owed_nonneg (t : thread) : Latency_ok lat → 0 ≤ owed t.
Proof.
  intros Hlat. unfold owed.
  destruct (thread_pc t), (thread_todo t); by apply requests_time_nonneg.
Qed.

Lemma owed_finished (t : thread) : finished t = true → owed t = 0.
Proof. intros [Ht Hpc]%finished_Between. unfold owed. by rewrite Ht, Hpc. Qed.

Lemma serve_time (net : Network) (q : request) (w : World) :
  (∀ ip port, q ≠ Req_LookupPort ip port) →
  duration lat (since w (serve net Addr_String g q w).2) = request_time q.
Proof.
  intros Hq. unfold serve.
  destruct q as [ip|ip|ip| |ip|ip port]; cbn [snd request_time];
    rewrite ?since_refl; try done.
  - pose proof (LookupAddr_since net Addr_String ip w) as Hs.
    destruct (LookupAddr _ _ _ _) as [r w1]. cbn [snd] in *.
    by rewrite Hs, duration_events.
  - by destruct (Hq ip port).
Qed.

Lemma LookupPort_dial_time (net : Network) (ip : Addr) (port : Z)
    (w : World) :
  duration lat (since w (LookupPort_dial net Addr_String ip port w).2)
  = request_time (Req_LookupPort ip port).
Proof.
  rewrite LookupPort_dial_eq. unfold request_time, blocks, time_Second.
  by destruct (dialed _ _ _ _);
    (erewrite since_app; [|reflexivity]); cbn; rewrite Z.add_0_r.
Qed.

Lemma LookupPort_close_time (conn : option Conn) (w : World) :
  duration lat (since w (LookupPort_close conn w).2) = 0.
Proof.
  unfold LookupPort_close, Conn_Close.
  destruct conn as [c|]; cbn [deref]; [|by rewrite since_refl].
  case_decide; cbn [snd]; [|by rewrite since_refl].
  by erewrite since_app; [|reflexivity].
Qed.

(** A step takes what the thread owes less after it. *)
Lemma tstep_time (net : Network) (t : thread) (w : World) (t' : thread)
    (w' : World) :
  tstep net Addr_String g t w t' w' →
  duration lat (since w w') = owed t - owed t' ∧
  (Latency_ok lat → 0 ≤ duration lat (since w w')).
Proof.
  intros Hstep.
  destruct Hstep as [t w q rest r w' Ht Hpc Hq Hs
    | t w ip port rest e w' Ht Hpc Hd
    | t w ip port rest conn w' Ht Hpc Hd
    | t w ip port rest conn r w' Ht Hpc Hc];
    unfold owed; cbn [replied thread_todo thread_pc]; rewrite Ht, Hpc;
    rewrite ?requests_time_cons;
    [pose proof (serve_time net q w Hq) as Hd'; rewrite Hs in Hd'
    |pose proof (LookupPort_dial_time net ip port w) as Hd';
     rewrite Hd in Hd'..
    |pose proof (LookupPort_close_time conn w) as Hd'; rewrite Hc in Hd'];
    cbn [snd] in Hd'; rewrite Hd';
    (split; [lia|try done; apply request_time_nonneg]).
Qed.

(** ** Schedules *)

(** One step of the pool: the clock of the thread that steps and what it
    owes add up to what they were, and nothing changes for the others. *)
Lemma cstep_owed (cl : clocks) (cfg : config) (i : nat) (cfg' : config)
    (j : nat) :
  cstep (env cfg.2) Addr_String g cfg i cfg' →
  tick i (duration lat (since cfg.2 cfg'.2)) cl j + owed_at cfg'.1 j
  = cl j + owed_at cfg.1 j.
Proof.
  intros [pool w i0 t t' w' Hi Ht]. cbn [fst snd]. unfold tick, owed_at.
  destruct (decide (j = i0)) as [->|Hne].
  - rewrite list_lookup_insert_eq by (by eapply lookup_lt_Some).
    rewrite Hi. cbn. destruct (tstep_time _ _ _ _ _ Ht) as [-> _]. lia.
  - by rewrite list_lookup_insert_ne.
Qed.

Lemma tsteps_owed (cl : clocks) (cfg : config) (sched : list nat)
    (cl' : clocks) (cfg' : config) (j : nat) :
  tsteps cl cfg sched cl' cfg' →
  cl' j + owed_at cfg'.1 j = cl j + owed_at cfg.1 j.
Proof.
  unfold tsteps.
  induction 1 as [|cl cfg i cfg1 sched cl'' cfg'' Hc _ IH]; [done|].
  rewrite IH. by apply cstep_owed.
Qed.

Lemma owed_at_nonneg (pool : list thread) (j : nat) :
  Latency_ok lat → 0 ≤ owed_at pool j.
Proof.
  intros Hlat. unfold owed_at. destruct (pool !! j); [|done].
  by apply owed_nonneg.
Qed.

Lemma owed_at_spawn (todos : list (list request)) (i : nat)
    (qs : list request) :
  todos !! i = Some qs → owed_at (spawn <$> todos) i = requests_time qs.
Proof. intros Hi. unfold owed_at. by rewrite list_lookup_fmap, Hi. Qed.

(** Clocks do not run backwards. *)
Lemma tsteps_clock_nonneg (cl : clocks) (cfg : config) (sched : list nat)
    (cl' : clocks) (cfg' : config) :
  Latency_ok lat → (∀ j, 0 ≤ cl j) → tsteps cl cfg sched cl' cfg' →
  ∀ j, 0 ≤ cl' j.
Proof.
  intros Hlat Hcl Hsteps. unfold tsteps in Hsteps.
  induction Hsteps as [|cl cfg i cfg1 sched cl'' cfg'' Hc _ IH]; [done|].
  apply IH. intros j. unfold timekeeper, tick. case_decide; [|done].
  destruct Hc as [pool w i0 t t' w' Hi Ht].
  destruct (tstep_time _ _ _ _ _ Ht) as [_ Hd]. specialize (Hd Hlat).
  specialize (Hcl j). cbn [snd]. lia.
Qed.

(** The clock of a thread of a pool that started with the clocks at zero. *)
Lemma tsteps_spawn_clock (todos : list (list request)) (w : World)
    (sched : list nat) (cl' : clocks) (cfg' : config) (i : nat)
    (qs : list request) :
  Latency_ok lat →
  tsteps (λ _, 0) (spawn <$> todos, w) sched cl' cfg' →
  todos !! i = Some qs →
  0 ≤ cl' i ∧ cl' i + owed_at cfg'.1 i = requests_time qs.
Proof.
  intros Hlat Hsteps Hi.
  pose proof (tsteps_owed _ _ _ _ _ i Hsteps) as Hsum.
  cbn [fst] in Hsum. rewrite (owed_at_spawn _ _ _ Hi) in Hsum.
  split; [|lia].
  by apply (tsteps_clock_nonneg _ _ _ _ _ Hlat (λ _, Z.le_refl 0) Hsteps).
Qed.

End parallel.

(** The largest clock is at most what bounds every clock. *)
Lemma makespan_bound (n : nat) (cl : clocks) (b : Z) :
  0 ≤ b → (∀ i, (i < n)%nat → cl i ≤ b) → makespan n cl ≤ b.
Proof.
  intros Hb Hcl. unfold makespan.
  assert (∀ i, i ∈ seq 0 n → cl i ≤ b) as Hin
    by (intros i [_ ?]%elem_of_seq; by apply Hcl).
  induction (seq 0 n) as [|i l IH]; cbn; [done|].
  apply Z.max_lub; [apply Hin; by left|].
  apply IH. intros j Hj. apply Hin. by right.
Qed.

(** ** A sample pool with clocks *)

(** The sample pool of file [Concurrent] against the peer of file
    [Adaptive] that accepts one connection at a time, with the latencies
    of file [Timing]. *)
Definition sample_clocks : clocks * config :=
  default ((λ _, 0), (spawn <$> sample_todos, World_init))
    (run_clocks (busy_net sample_net) sample_String sample_latency
       sample_geoip busy_overlap (λ _, 0)
       (spawn <$> sample_todos, World_init)).

Lemma sample_tsteps :
  tsteps (busy_net sample_net) sample_String sample_latency sample_geoip
    (λ _, 0) (spawn <$> sample_todos, World_init) busy_overlap
    sample_clocks.1 (sample_clocks.2.1, sample_clocks.2.2).
Proof. apply osteps_run_observed. by vm_compute. Qed.

(** ** Theorems *)



(** Probes on threads of their own: when no thread makes a reverse lookup
    and none has more than [k] requests, the pool has taken [2 k] seconds
    at most, however many threads it has. *)
Theorem parallel_makespan (env : adaptive) (Addr_String : Addr → string)
    (lat : Latency) {R : Type} `{!Reader R} (g : R)
    (todos : list (list request)) (w : World) (sched : list nat)
    (cl' : clocks) (cfg' : config) (k : nat) :
  Latency_ok lat →
  Forall (λ qs, Forall (λ q, ∀ ip, q ≠ Req_LookupAddr ip) qs ∧
                (length qs ≤ k)%nat) todos →
  tsteps env Addr_String lat g (λ _, 0) (spawn <$> todos, w) sched cl' cfg' →
  makespan (length todos) cl' ≤ 2 * time_Second * Z.of_nat k.
Proof.
  intros Hlat Htodos Hsteps.
  apply makespan_bound; [unfold time_Second; lia|]. intros i Hi.
  destruct (lookup_lt_is_Some_2 todos i Hi) as [qs Hqs].
  destruct (Forall_lookup_1 _ _ _ _ Htodos Hqs) as [Hno Hlen].
  destruct (tsteps_spawn_clock _ _ _ _ _ _ _ _ _ _ _ Hlat Hsteps Hqs)
    as [_ Hsum].
  pose proof (owed_at_nonneg Addr_String lat cfg'.1 i Hlat).
  pose proof (requests_time_bound Addr_String lat qs Hno).
  unfold time_Second in *. nia.
Qed.

(** The clocks of the sample run: the first two threads wait 30 ms for
    the answer to their dial, the second 5 ms more for the resolver; the
    third waits two seconds for the peer that does not answer.  The pool
    has taken the two seconds of the third, not the sum. *)
Example sample_clocks_values :
  sample_clocks.1 0%nat = 30000000 ∧
  sample_clocks.1 1%nat = 30000000 + 5000000 ∧
  sample_clocks.1 2%nat = 2 * time_Second ∧
  makespan 3 sample_clocks.1 = 2 * time_Second.
Proof. by vm_compute. Qed.
