(* ===== verification/Interleave.v ===== *)
(** * Interleave: what each thread does, read out of the shared trace

    The trace of a pool is that of all threads together, and it does not
    follow the protocol of file [Probe] (a connection that a dial returned
    is closed by the next call): between the dial of one thread and its
    close other threads make calls.  This file tags every call with the
    thread that made it ([tagged]), so that the calls of one thread can be
    read out of the trace ([events_of]).

    The theorems, for every network and every schedule: the trace of the
    pool is the tagged trace without its tags, so it is an interleaving of
    the calls of the threads; the calls of each thread, taken alone, follow
    the protocol, with the connection the thread holds as the one that
    waits for its close; a thread that is between two calls has closed
    every connection it was given. *)

From Stdlib Require Import ZArith String List Lia.
From stdpp Require Import base tactics decidable option list strings gmap.
From S2P Require Import Prelude Netip Geoip2 Samples Geo GeoSpec.
From S2P Require Import GoStrings Net Iputil Probe Concurrent Replay Adaptive.

(** ** Tagged traces *)

(** The calls of a pool in order, each with the thread that made it. *)
Definition tagged : Type := list (nat * Event).

(** The observer that keeps the tagged trace. *)
Definition tagger (i : nat) (evs : list Event) (tg : tagged) : tagged :=
  tg ++ (pair i <$> evs).

(** The calls of thread [i], in order. *)
Definition events_of (i : nat) (tg : list (nat * Event)) : list Event :=
  snd <$> filter (λ x, x.1 = i) tg.

(** The connection a thread holds: the one whose close is deferred. *)
Definition pending (t : thread) : option nat :=
  match thread_pc t with
  | Deferred (Some c) => Some (Conn_id c)
  | _ => None
  end.

(** ** Lemmas *)

Lemma events_of_tagger (i j : nat) (evs : list Event) (tg : tagged) :
  events_of j (tagger i evs tg)
  = events_of j tg ++ (if decide (i = j) then evs else []).
Proof.
  unfold events_of, tagger. rewrite filter_app, fmap_app. f_equal.
  induction evs as [|e evs IH]; [by case_decide|].
  rewrite fmap_cons, filter_cons. cbn [fst].
  repeat case_decide; simplify_eq; cbn; by rewrite ?IH.
Qed.

Lemma tagger_events (i : nat) (evs : list Event) (tg : tagged) :
  (tagger i evs tg).*2 = tg.*2 ++ evs.
Proof.
  unfold tagger. rewrite fmap_app. f_equal.
  rewrite <- list_fmap_compose. by rewrite list_fmap_id.
Qed.

Lemma pending_holds (t : thread) (c : nat) :
  pending t = Some c ↔ holds t c.
Proof.
  unfold pending, holds. destruct (thread_pc t) as [|[[c']|]]; cbn.
  - by split.
  - split; [by intros [= ->]|by intros [= ->]].
  - by split.
Qed.

Section interleave.
Context (net : Network) (Addr_String : Addr → string).
Context {R : Type} `{!Reader R} (g : R).

(** The calls of one step, taken after the calls the thread has made
    before, follow the protocol. *)
Lemma tstep_scan (t : thread) (w : World) (t' : thread) (w' : World) :
  thread_shape t → (∀ c, holds t c → c ∈ World_open w) →
  tstep net Addr_String g t w t' w' →
  World_trace w' = World_trace w ++ since w w' ∧
  scan (pending t) (since w w') = Some (pending t').
Proof.
  intros Hok Hheld Hstep.
  destruct Hstep as [t w q rest r w' Ht Hpc Hq Hs
    | t w ip port rest e w' Ht Hpc Hd
    | t w ip port rest conn w' Ht Hpc Hd
    | t w ip port rest conn r w' Ht Hpc Hc];
    unfold pending; cbn [replied thread_pc]; rewrite ?Hpc.
  - unfold serve in Hs.
    destruct q as [ip|ip|ip| |ip|ip port]; simplify_eq;
      rewrite ?since_refl, ?app_nil_r; try done.
    + rewrite LookupAddr_eq in Hs. simplify_eq.
      by erewrite since_app by done.
    + by destruct (Hq ip port).
  - rewrite LookupPort_dial_eq in Hd.
    destruct (dialed _ _ _ _); simplify_eq. by erewrite since_app by done.
  - rewrite LookupPort_dial_eq in Hd.
    destruct (dialed _ _ _ _); simplify_eq. by erewrite since_app by done.
  - destruct (tstep_close_inv t w _ _ _ Hok Hheld Hpc Hc)
      as (c & Hc' & -> & ->).
    unfold holds in Hc'. rewrite Hpc in Hc'. simplify_eq.
    erewrite since_app by done. cbn. by rewrite decide_True.
Qed.

End interleave.

Section tagged.
Context (env : adaptive) (Addr_String : Addr → string).
Context {R : Type} `{!Reader R} (g : R).

(** What the tagged trace says of the threads: the calls of each follow
    the protocol up to the connection the thread holds. *)
Definition threads_scanned (tg : tagged) (pool : list thread) : Prop :=
  ∀ i t, pool !! i = Some t → scan None (events_of i tg) = Some (pending t).

Lemma cstep_scanned (base : gset nat) (tg : tagged) (pool : list thread)
    (w : World) (i : nat) (cfg' : config) :
  Inv_of thread_shape base pool w → threads_scanned tg pool →
  cstep (env w) Addr_String g (pool, w) i cfg' →
  World_trace cfg'.2 = World_trace w ++ since w cfg'.2 ∧
  threads_scanned (tagger i (since w cfg'.2) tg) cfg'.1.
Proof.
  intros HInv Hsc Hstep. inversion Hstep as [? ? ? t t' w' Hi Hts]; subst.
  cbn [fst snd] in *.
  destruct (tstep_scan _ _ _ t w t' w' (Inv_thread_ok _ _ _ _ _ _ HInv Hi)
              (Inv_held_open _ _ _ _ _ _ HInv Hi) Hts) as [Htr Hscan].
  split; [done|]. intros j tj Hj. rewrite events_of_tagger, scan_app.
  destruct (decide (i = j)) as [<-|Hne].
  - rewrite list_lookup_insert_eq in Hj by (by eapply lookup_lt_Some).
    simplify_eq. by rewrite (Hsc i t Hi).
  - rewrite list_lookup_insert_ne in Hj by done. by rewrite (Hsc j tj Hj).
Qed.

Lemma osteps_scanned (base : gset nat) (tg : tagged) (cfg : config)
    (sched : list nat) (tg' : tagged) (cfg' : config) :
  Inv_of thread_shape base cfg.1 cfg.2 → threads_scanned tg cfg.1 →
  osteps env Addr_String g tagger tg cfg sched tg' cfg' →
  (∃ new, tg' = tg ++ new ∧
          World_trace cfg'.2 = World_trace cfg.2 ++ new.*2) ∧
  threads_scanned tg' cfg'.1.
Proof.
  intros HInv Hsc Hsteps.
  induction Hsteps as [|tg cfg i cfg1 sched tg'' cfg'' Hc _ IH].
  { split; [|done]. exists []. by rewrite !app_nil_r. }
  destruct cfg as [pool w].
  destruct (cstep_scanned base tg pool w i cfg1 HInv Hsc Hc) as [Htr Hsc1].
  destruct (cstep_Inv_shape _ _ _ base (pool, w) i cfg1 HInv Hc)
    as [HInv1 _].
  destruct (IH HInv1 Hsc1) as [(new & -> & Htr') ?]. split; [|done].
  exists ((pair i <$> since w cfg1.2) ++ new). cbn [snd] in *.
  unfold tagger. rewrite <- app_assoc. split; [done|].
  rewrite Htr', Htr, fmap_app, <- app_assoc. do 2 f_equal.
  rewrite <- list_fmap_compose. by rewrite list_fmap_id.
Qed.

End tagged.

(** ** The sample pool, tagged *)

Definition busy_tagged : tagged * config :=
  default ([], (spawn <$> sample_todos, World_init))
    (run_observed (busy_net sample_net) sample_String sample_geoip tagger
       busy_overlap [] (spawn <$> sample_todos, World_init)).

Lemma busy_osteps :
  osteps (busy_net sample_net) sample_String sample_geoip tagger []
    (spawn <$> sample_todos, World_init) busy_overlap
    busy_tagged.1 (busy_tagged.2.1, busy_tagged.2.2).
Proof. apply osteps_run_observed. by vm_compute. Qed.

(** ** Theorems *)

(** C24: whatever the network answers and whatever the schedule, the trace
    of a pool is an interleaving of the calls of its threads, and the
    calls of each thread, taken alone, follow the protocol of a client
    that leaks nothing: a connection that a dial has returned to the
    thread is closed by the next call of that thread, and a thread that is
    between two calls has closed every connection it was given. *)
Theorem threads_disciplined (env : adaptive) (Addr_String : Addr → string)
    {R : Type} `{!Reader R} (g : R) (todos : list (list request))
    (w : World) (sched : list nat) (tg' : tagged) (pool' : list thread)
    (w' : World) :
  World_ok w →
  osteps env Addr_String g tagger [] (spawn <$> todos, w) sched
    tg' (pool', w') →
  World_trace w' = World_trace w ++ tg'.*2 ∧
  ∀ i t, pool' !! i = Some t →
    scan None (events_of i tg') = Some (pending t) ∧
    (thread_pc t = Between → disciplined (events_of i tg') = true).
Proof.
  intros Hw Hsteps.
  assert (Inv_of thread_shape (World_open w) (spawn <$> todos) w) as HInv.
  { eapply Inv_of_impl; [|apply (Inv_spawn (env w) Addr_String todos w Hw)].
    apply thread_ok_shape. }
  destruct (osteps_scanned env Addr_String g (World_open w) []
              (spawn <$> todos, w) sched tg' (pool', w') HInv) as
    [(new & -> & Htr) Hsc]; [|done|].
  { intros i t Ht. cbn [fst] in Ht. rewrite list_lookup_fmap in Ht.
    destruct (todos !! i); [|done]. by injection Ht as <-. }
  split; [done|]. intros i t Ht. split; [by apply Hsc|].
  intros Hpc. unfold disciplined. rewrite (Hsc i t Ht).
  unfold pending. by rewrite Hpc, bool_decide_eq_true.
Qed.

Lemma threads_disciplined_witness :
  World_trace busy_tagged.2.2 = World_trace World_init ++ busy_tagged.1.*2 ∧
  ∀ i t, busy_tagged.2.1 !! i = Some t →
    scan None (events_of i busy_tagged.1) = Some (pending t) ∧
    (thread_pc t = Between →
     disciplined (events_of i busy_tagged.1) = true).
Proof.
  apply (threads_disciplined (busy_net sample_net) sample_String
           sample_geoip sample_todos World_init busy_overlap);
    [apply World_init_ok | apply busy_osteps].
Defined.

(** The trace of the sample pool does not follow the protocol; the calls
    of its first thread do. *)
Example busy_interleaved :
  disciplined (World_trace busy_tagged.2.2) = false ∧
  events_of 0 busy_tagged.1
  = [Dialed "tcp" "[192.0.2.1]:80" 2000000000 (Some 0%nat); Closed 0%nat] ∧
  disciplined (events_of 0 busy_tagged.1) = true.
Proof. by vm_compute. Qed.
