(* ===== verification/Linearize.v ===== *)
(** * Linearize: every call is answered as at one moment of the run

    Against a network that changes its mind (file [Adaptive]) the replies
    of a pool are no longer those of sequential calls against one network.
    What remains true is that every call takes effect at one moment: a
    geo lookup, [IsEmpty] and [LookupAddr] at their one step, [LookupPort]
    at its dial, the deferred [Close] adding nothing to the answer.  The
    reply is the one of the sequential reference ([reply_of]) against the
    network of that moment, and the replies of a thread are those to its
    requests, in the order of the requests.

    A moment of a run is a world between its start and its end in the
    order [traced] of file [Replay]: its trace extends the trace of the
    start, the trace of the end extends it, and its connections are the
    replay of its trace. *)

From Stdlib Require Import ZArith String List Lia.
From stdpp Require Import base tactics decidable option list strings gmap.
From S2P Require Import Prelude Netip Geoip2 Samples Geo GeoSpec.
From S2P Require Import GoStrings Net Iputil Probe Concurrent Replay Adaptive.

Section linearize.
Context (env : adaptive) (Addr_String : Addr → string).
Context {R : Type} `{!Reader R} (g : R).

(** ** Moments and answers *)

(** [w0] is a moment of the run from [w] to [w']. *)
Definition moment (w w' w0 : World) : Prop := traced w w0 ∧ traced w0 w'.

(** [r] is the reply to [q] of the sequential reference, against the
    network of a moment of the run. *)
Definition answered_at (w w' : World) (q : request) (r : reply) : Prop :=
  ∃ w0, moment w w' w0 ∧ r = reply_of (env w0) Addr_String g q.

(** A thread inside [LookupPort] has that call at the head of its list and
    holds a connection, and the dial has succeeded at a moment of the
    run. *)
Definition dialing (w w' : World) (t : thread) : Prop :=
  match thread_pc t with
  | Between => True
  | Deferred conn =>
      (∃ c, conn = Some {| Conn_id := c |}) ∧
      ∃ ip port rest w0,
        thread_todo t = Req_LookupPort ip port :: rest ∧
        moment w w' w0 ∧ dialed (env w0) Addr_String ip port = None
  end.

(** The thread that was given the requests [todo] has answered a prefix of
    them, each reply that of its request at a moment of the run, and has
    the rest left. *)
Definition linearized (w w' : World) (todo : list request) (t : thread) :
    Prop :=
  dialing w w' t ∧
  ∃ qs, todo = qs ++ thread_todo t ∧
        Forall2 (answered_at w w') qs (thread_done t).

(** ** The run may go on *)

Lemma moment_mono (w w' w'' w0 : World) :
  traced w' w'' → moment w w' w0 → moment w w'' w0.
Proof. intros Ht [? ?]. split; [done|by etrans]. Qed.

Lemma answered_at_mono (w w' w'' : World) (q : request) (r : reply) :
  traced w' w'' → answered_at w w' q r → answered_at w w'' q r.
Proof. intros Ht (w0 & ? & ?). exists w0. eauto using moment_mono. Qed.

Lemma dialing_mono (w w' w'' : World) (t : thread) :
  traced w' w'' → dialing w w' t → dialing w w'' t.
Proof.
  intros Ht. unfold dialing. destruct (thread_pc t); [done|].
  intros (? & ip & port & rest & w0 & ? & ? & ?). split; [done|].
  exists ip, port, rest, w0. eauto using moment_mono.
Qed.

Lemma linearized_mono (w w' w'' : World) (todo : list request) (t : thread) :
  traced w' w'' → linearized w w' todo t → linearized w w'' todo t.
Proof.
  intros Ht (Hd & qs & ? & Hqs). split; [by eapply dialing_mono|].
  exists qs. split; [done|]. eapply Forall2_impl; [done|].
  intros q r. by apply answered_at_mono.
Qed.

Lemma linearized_spawn (w : World) (todo : list request) :
  linearized w w todo (spawn todo).
Proof. split; [done|]. exists []. by split; [|constructor]. Qed.

(** ** One more reply *)

(** A thread that gets the reply of this moment to the request at the
    head of its list. *)
Lemma linearized_replied (w w1 : World) (qs : list request) (t : thread)
    (q : request) (rest : list request) (r : reply) :
  thread_todo t = q :: rest →
  Forall2 (answered_at w w1) qs (thread_done t) →
  answered_at w w1 q r →
  linearized w w1 (qs ++ thread_todo t) (replied t rest r).
Proof.
  intros Ht Hqs Hr. split; [done|]. exists (qs ++ [q]).
  split; [by rewrite Ht, <- app_assoc|].
  apply Forall2_app; [done|]. by repeat constructor.
Qed.

(** The verdict of a dial is that of [LookupPort] at the same moment. *)
Lemma dial_verdict (net : Network) (ip : Addr) (port : Z) (w : World) r w' :
  LookupPort_dial net Addr_String ip port w = (r, w') →
  match r with
  | inl e => dialed net Addr_String ip port = Some e
  | inr conn =>
      dialed net Addr_String ip port = None ∧
      ∃ c, conn = Some {| Conn_id := c |}
  end.
Proof.
  rewrite LookupPort_dial_eq.
  destruct (dialed net Addr_String ip port); intros [= <- _]; eauto.
Qed.

(** ** Steps *)

Lemma tstep_linearized (w w1 : World) (todo : list request) (t t' : thread)
    (w2 : World) :
  traced w w1 → linearized w w1 todo t →
  tstep (env w1) Addr_String g t w1 t' w2 → linearized w w2 todo t'.
Proof.
  intros Hw Hlin Hstep.
  pose proof (tstep_traced _ _ _ _ _ _ _ Hstep) as Ht.
  apply (linearized_mono _ _ _ _ _ Ht) in Hlin as (Hd & qs & -> & Hqs).
  assert (moment w w2 w1) as Hm by done.
  inversion Hstep as [? ? q rest r ? Hq _ _ Hs | ? ? ip port rest e ? Hq _ Hs
    | ? ? ip port rest conn ? Hq _ Hs | ? ? ip port rest conn r ? Hq Hpc Hs];
    subst.
  - eapply linearized_replied; [exact Hq|done|]. exists w1. split; [done|].
    by rewrite <- (serve_reply _ _ _ q w1), Hs.
  - eapply linearized_replied; [exact Hq|done|]. exists w1. split; [done|].
    by rewrite reply_of_LookupPort, (dial_verdict _ _ _ _ _ _ Hs).
  - destruct (dial_verdict _ _ _ _ _ _ Hs) as [Hnone Hc].
    split; [|by exists qs]. split; [done|]. by exists ip, port, rest, w1.
  - unfold dialing in Hd. rewrite Hpc in Hd.
    destruct Hd as ([c ->] & ip' & port' & rest' & w0 & Hq' & Hm0 & Hnone).
    rewrite Hq in Hq'. injection Hq' as <- <- <-.
    eapply linearized_replied; [exact Hq|done|]. exists w0. split; [done|].
    rewrite reply_of_LookupPort, Hnone. unfold LookupPort_close in Hs.
    cbn [deref] in Hs. destruct (Conn_Close _ _) in Hs. by injection Hs as <-.
Qed.

Lemma cstep_linearized (w : World) (todos : list (list request))
    (pool : list thread) (w1 : World) (i : nat) (cfg' : config) :
  traced w w1 → Forall2 (linearized w w1) todos pool →
  cstep (env w1) Addr_String g (pool, w1) i cfg' →
  Forall2 (linearized w cfg'.2) todos cfg'.1.
Proof.
  intros Hw Hall Hstep.
  inversion Hstep as [? ? ? t t' w2 Hi Ht]; subst. cbn [fst snd].
  destruct (Forall2_lookup_r _ _ _ _ _ Hall Hi) as (todo & Htodo & Hlin).
  rewrite <- (list_insert_id todos i todo Htodo).
  apply Forall2_insert; [|by eapply tstep_linearized].
  eapply Forall2_impl; [done|]. intros qs t0.
  apply linearized_mono. by eapply tstep_traced.
Qed.

Lemma asteps_linearized (w : World) (todos : list (list request))
    (cfg : config) (sched : list nat) (cfg' : config) :
  traced w cfg.2 → Forall2 (linearized w cfg.2) todos cfg.1 →
  asteps env Addr_String g cfg sched cfg' →
  Forall2 (linearized w cfg'.2) todos cfg'.1.
Proof.
  intros Hw Hall Hsteps.
  induction Hsteps as [|[pool w1] i cfg1 sched cfg2 Hs _ IH]; [done|].
  cbn [fst snd] in *. apply IH.
  - etrans; [done|]. by apply (cstep_traced _ _ _ _ _ _ Hs).
  - by eapply cstep_linearized.
Qed.

(** Threads that start fresh. *)
Lemma asteps_spawn_linearized (todos : list (list request)) (w : World)
    (sched : list nat) (cfg' : config) :
  asteps env Addr_String g (spawn <$> todos, w) sched cfg' →
  Forall2 (linearized w cfg'.2) todos cfg'.1.
Proof.
  apply asteps_linearized; [done|]. cbn [fst snd].
  apply Forall2_fmap_r, Forall_Forall2_diag, Forall_forall.
  intros todo _. apply linearized_spawn.
Qed.

End linearize.

(** ** Theorems *)



(** The moment matters: the probe of the second thread of the sample run is
    answered as at the moment after the dial of the first thread, when the
    peer is busy, and not as at the start of the run. *)
Example busy_moment :
  let w1 := default World_init (snd <$> busy_run [0%nat]) in
  reply_of (busy_net sample_net w1) sample_String sample_geoip
    (Req_LookupPort ip_a 80)
  = Rep_Verdict (Normal (Some (Err "connection refused"))) ∧
  reply_of (busy_net sample_net World_init) sample_String sample_geoip
    (Req_LookupPort ip_a 80)
  = Rep_Verdict (Normal nil).
Proof. by vm_compute. Qed.
