(* ===== verification/System.v ===== *)
(** * System: the reader is opened once, then the requests are served

    The packages are used in one way: a process obtains a reader once, at
    startup, from up to three paths ([Open] of [geo.go]); when that fails
    it ends with the error; otherwise its threads call the four lookups of
    the reader and the two probes of [iputil.go] as requests come in, for
    as long as it lives.  [system] is that control flow, composed from the
    constructor of file [GeoOpen] and the pool of file [Concurrent], run
    against a network that may change its answers at every step (file
    [Adaptive]) under a given schedule.

    The theorem of this file composes what the other files show of the
    parts: on a file system that keeps the contract of the database
    library, every run of the system has opened the named files and no
    other, every reply a thread has got is a return, not a panic, and keeps
    the contract of the reader, and no connection is open when the threads
    are between two calls. *)

From Stdlib Require Import ZArith String List Lia.
From stdpp Require Import base tactics decidable option list strings gmap.
From S2P Require Import Prelude Netip Geoip2 Samples Geo GeoOpen GeoSpec.
From S2P Require Import GoStrings Net Iputil Probe Concurrent Replay Adaptive.
From S2P Require Import Linearize.

(** ** Replies *)

(** A reply that is a return, not a panic. *)
Definition reply_returned (r : reply) : bool :=
  match r with
  | Rep_Country r => negb (panics r)
  | Rep_City r => negb (panics r)
  | Rep_ASN r => negb (panics r)
  | Rep_IsEmpty _ => true
  | Rep_Name r => negb (panics r)
  | Rep_Verdict r => negb (panics r)
  end.

(** A reply a caller can rely on: a return that keeps the contract of the
    reader. *)
Definition sound (r : reply) : Prop := lawful r ∧ reply_returned r = true.

(** ** The process *)

(** What a run ends with: the error of [Open], or the pool and the world
    after the schedule ([None] when the schedule names a thread that
    cannot step). *)
Definition ending : Type := option error + option config.

(** The reader is opened; when there is one, the threads serve their
    requests with it. *)
Definition system (fs : FileSystem) (countryDB cityDB asnDB : string)
    (env : adaptive) (Addr_String : Addr → string)
    (todos : list (list request)) (sched : list nat) (w : World) :
    stateful Opened ending :=
  λ st,
    let '((reader, err), st) := Open fs countryDB cityDB asnDB st in
    match reader with
    | Some g =>
        (inr (run_adaptive env Addr_String g sched (spawn <$> todos, w)), st)
    | None => (inl err, st)
    end.

(** A sample run: the three sample databases, the pool of file
    [Concurrent], the network of file [Adaptive] that accepts one
    connection at a time. *)
Definition sample_system : ending * Opened :=
  system sample_fs "country.mmdb" "city.mmdb" "asn.mmdb"
    (busy_net sample_net) sample_String sample_todos busy_overlap
    World_init [].

(** ** The replies of a reader that keeps the library's contract *)

Lemma reply_of_returned (net : Network) (Addr_String : Addr → string)
    (g : geoip) (q : request) :
  geoip_ok g → reply_returned (reply_of net Addr_String g q) = true.
Proof.
  intros Hg. unfold reply_of, serve.
  destruct q as [ip|ip|ip| |ip|ip port]; cbn [fst reply_returned].
  1-3: destruct (geoip_ok_returns g ip Hg) as (Hc & Hy & Ha); cbn;
    by rewrite ?Hc, ?Hy, ?Ha.
  - done.
  - by rewrite LookupAddr_eq.
  - by rewrite LookupPort_eq.
Qed.

Lemma reply_of_sound (net : Network) (Addr_String : Addr → string)
    (g : geoip) (q : request) :
  geoip_ok g → sound (reply_of net Addr_String g q).
Proof.
  intros Hg. split; [apply reply_of_lawful, _|by apply reply_of_returned].
Qed.

(** A thread whose replies are those of the sequential reference at
    moments of the run has sound replies. *)
Lemma linearized_sound (env : adaptive) (Addr_String : Addr → string)
    (g : geoip) (w w' : World) (todo : list request) (t : thread) :
  geoip_ok g → linearized env Addr_String g w w' todo t →
  Forall sound (thread_done t).
Proof.
  intros Hg (_ & qs & _ & Hqs).
  apply (Forall2_Forall_r _ _ _ _ Hqs), Forall_forall.
  intros q _ r (w0 & _ & ->). by apply reply_of_sound.
Qed.

(** ** Theorems *)

(** C5: on a file system that keeps the contract of the database library,
    whatever the network answers and whatever the schedule, a run of the
    system in which the reader opens has opened the named databases, in
    the order country, city, ASN, and no other file; every reply a thread
    has got is a return, not a panic, and keeps the contract of the reader
    (an error comes with the zero record, no coordinate is NaN); no
    connection is open beyond those of the start when the threads are
    between two calls; the schedule has two steps per request at most. *)
Theorem system_sound (fs : FileSystem) (countryDB cityDB asnDB : string)
    (env : adaptive) (Addr_String : Addr → string)
    (todos : list (list request)) (sched : list nat) (w : World)
    (st : Opened) (pool' : list thread) (w' : World) (st' : Opened) :
  fs_ok fs → World_ok w →
  system fs countryDB cityDB asnDB env Addr_String todos sched w st
  = (inr (Some (pool', w')), st') →
  st' = st ++ filter nonempty [countryDB; cityDB; asnDB] ∧
  (∀ i t, pool' !! i = Some t → Forall sound (thread_done t)) ∧
  World_ok w' ∧
  (quiescent pool' → World_open w' = World_open w) ∧
  (length sched ≤ 2 * sum_list_with length todos)%nat.
Proof.
  intros Hfs Hw. unfold system.
  pose proof (Open_opened fs countryDB cityDB asnDB st) as Hopened.
  pose proof (Open_geoip_ok fs countryDB cityDB asnDB st) as Hok.
  destruct (Open fs countryDB cityDB asnDB st) as [[[g|] err] st1]; [|done].
  intros [= Hsteps%asteps_run_adaptive <-].
  destruct (asteps_spawn env Addr_String g todos w sched _ Hw Hsteps)
    as [HInv Hlen]. cbn [fst snd] in *.
  split_and!; [by eapply Hopened| |apply HInv| |lia].
  - intros i t Ht.
    destruct (Forall2_lookup_r _ _ _ _ _
                (asteps_spawn_linearized _ _ _ _ _ _ _ Hsteps) Ht)
      as (todo & _ & Hlin).
    eapply linearized_sound; [by eapply Hok|done].
  - by apply (Inv_quiescent_open _ _ _ _ HInv).
Qed.

Lemma system_sound_witness :
  ["country.mmdb"; "city.mmdb"; "asn.mmdb"]%string
  = [] ++ filter nonempty ["country.mmdb"; "city.mmdb"; "asn.mmdb"]%string ∧
  (∀ i t, busy_end.1 !! i = Some t → Forall sound (thread_done t)) ∧
  World_ok busy_end.2 ∧
  (quiescent busy_end.1 → World_open busy_end.2 = World_open World_init) ∧
  (length busy_overlap ≤ 2 * sum_list_with length sample_todos)%nat.
Proof.
  apply (system_sound sample_fs "country.mmdb" "city.mmdb" "asn.mmdb"
           (busy_net sample_net) sample_String sample_todos busy_overlap
           World_init [] busy_end.1 busy_end.2
           ["country.mmdb"; "city.mmdb"; "asn.mmdb"]%string);
    [apply sample_fs_ok | apply World_init_ok | by vm_compute].
Defined.

(** When the reader does not open, the run ends with the error of the first
    database that fails and no request is served, on every file system. *)
Theorem system_fails (fs : FileSystem) (countryDB cityDB asnDB : string)
    (env : adaptive) (Addr_String : Addr → string)
    (todos : list (list request)) (sched : list nat) (w : World)
    (st : Opened) (err : option error) (st' : Opened) :
  system fs countryDB cityDB asnDB env Addr_String todos sched w st
  = (inl err, st') →
  is_Some err ∧ err = (opens fs [countryDB; cityDB; asnDB]).2 ∧
  st `prefix_of` st'.
Proof.
  unfold system. rewrite <- (Open_first_error fs _ _ _ st).
  pose proof (Open_reader_iff_no_error fs countryDB cityDB asnDB st) as Hiff.
  pose proof (Open_only_opens fs countryDB cityDB asnDB st) as Hpre.
  destruct (Open fs countryDB cityDB asnDB st) as [[[g|] e] st1]; [done|].
  intros [= <- <-]. cbn in *. split_and!; [|done..].
  destruct e; [done|]. by destruct Hiff as [_ [? ?]].
Qed.

Lemma system_fails_witness :
  is_Some (Some (Err "no such file")) ∧
  Some (Err "no such file")
  = (opens sample_fs ["country.mmdb"; "missing.mmdb"; "asn.mmdb"]%string).2 ∧
  [] `prefix_of` ["country.mmdb"%string].
Proof.
  apply (system_fails sample_fs "country.mmdb" "missing.mmdb" "asn.mmdb"
           (busy_net sample_net) sample_String sample_todos busy_overlap
           World_init [] (Some (Err "no such file")) ["country.mmdb"%string]).
  reflexivity.
Defined.

(** The sample run serves, and opens the three databases. *)
Example sample_system_serves :
  sample_system
  = (inr (Some busy_end), ["country.mmdb"; "city.mmdb"; "asn.mmdb"]%string).
Proof. by vm_compute. Qed.
