(* ===== verification/Confluence.v ===== *)
(** * Confluence: what a run comes to does not depend on the schedule

    The operations share no state but the reader, which is not written
    after [Open], and the connections, which a thread shares with no other
    thread.  So the result of a pool is a function of its requests: with a
    network that answers every question the same way, every schedule that
    finishes the threads ends in the same pool, with the same connections
    open and the same number of connections made, after the same number of
    steps.

    The proof is an account that every run keeps, against any network: the
    connections made so far are one for each nil verdict of [LookupPort]
    and one for each thread inside it ([made]); the steps taken so far are
    one for each reply, one more for each nil verdict, and one for each
    thread inside [LookupPort] ([taken]). *)

From Stdlib Require Import ZArith String List Lia.
From stdpp Require Import base tactics decidable option list strings gmap.
From stdpp Require Import list_numbers.
From S2P Require Import Prelude Netip Geoip2 Samples Geo GeoSpec.
From S2P Require Import GoStrings Net Iputil Probe Concurrent Replay Adaptive.

(** ** The account of a thread *)

(** The reply that tells of a connection made: the verdict nil. *)
Definition connected (r : reply) : nat :=
  match r with Rep_Verdict (Normal None) => 1 | _ => 0 end.

(** A thread inside [LookupPort] has made one step of that call. *)
Definition inside (t : thread) : nat :=
  match thread_pc t with Between => 0 | Deferred _ => 1 end.

(** The connections a thread has made, and the steps it has taken. *)
Definition made (t : thread) : nat :=
  sum_list_with connected (thread_done t) + inside t.

Definition taken (t : thread) : nat := length (thread_done t) + made t.

Definition pool_made (pool : list thread) : nat := sum_list_with made pool.
Definition pool_taken (pool : list thread) : nat := sum_list_with taken pool.

(** The thread that has got the replies [rs] and has nothing left. *)
Definition rested (rs : list reply) : thread :=
  {| thread_todo := []; thread_pc := Between; thread_done := rs |}.

Section account.
Context (net : Network) (Addr_String : Addr → string).
Context {R : Type} `{!Reader R} (g : R).

(** The thread that has been served all of [qs]. *)
Definition served (qs : list request) : thread :=
  rested (reply_of net Addr_String g <$> qs).

(** ** One step *)

Lemma made_replied (t : thread) (rest : list request) (r : reply) :
  made (replied t rest r) + inside t = made t + connected r.
Proof.
  unfold made, replied, inside. cbn. rewrite sum_list_with_app. cbn. lia.
Qed.

Lemma taken_replied (t : thread) (rest : list request) (r : reply) :
  taken (replied t rest r) + inside t = S (taken t + connected r).
Proof.
  pose proof (made_replied t rest r). unfold taken, replied in *. cbn.
  rewrite length_app. cbn. unfold made, inside in *. cbn in *. lia.
Qed.

(** A call that is one step is not answered with a verdict. *)
Lemma serve_connected (q : request) (w : World) :
  (∀ ip port, q ≠ Req_LookupPort ip port) →
  connected (serve net Addr_String g q w).1 = 0%nat.
Proof.
  unfold serve. destruct q as [ip|ip|ip| |ip|ip port]; try done.
  - by destruct (LookupAddr _ _ _ _).
  - by intros H; destruct (H ip port).
Qed.

(** Every step is one step taken; the connection numbers handed out are
    the connections made. *)
Lemma tstep_account (t : thread) (w : World) (t' : thread) (w' : World) :
  thread_shape t → (∀ c, holds t c → c ∈ World_open w) →
  tstep net Addr_String g t w t' w' →
  (made t' + World_next w = made t + World_next w')%nat ∧
  taken t' = S (taken t).
Proof.
  intros Hok Hheld Hstep.
  destruct Hstep as [t w q rest r w' Ht Hpc Hq Hs
    | t w ip port rest e w' Ht Hpc Hd
    | t w ip port rest conn w' Ht Hpc Hd
    | t w ip port rest conn r w' Ht Hpc Hc].
  - pose proof (made_replied t rest r). pose proof (taken_replied t rest r).
    pose proof (serve_connected q w Hq) as Hr.
    destruct (serve_world net Addr_String g q w Hq) as [_ Hn].
    rewrite Hs in *. unfold inside in *. rewrite Hpc in *. cbn in *. lia.
  - pose proof (made_replied t rest (Rep_Verdict (Normal (Some e)))).
    pose proof (taken_replied t rest (Rep_Verdict (Normal (Some e)))).
    rewrite LookupPort_dial_eq in Hd.
    destruct (dialed _ _ _ _) as [e'|]; [|done]. injection Hd as <- <-.
    unfold inside in *. rewrite Hpc in *. cbn in *. lia.
  - rewrite LookupPort_dial_eq in Hd.
    destruct (dialed _ _ _ _) as [e'|]; [done|]. injection Hd as <- <-.
    unfold taken, made, inside. rewrite Hpc. cbn. lia.
  - destruct (tstep_close_inv t w _ _ _ Hok Hheld Hpc Hc)
      as (c & _ & -> & ->).
    pose proof (made_replied t rest (Rep_Verdict (Normal nil))).
    pose proof (taken_replied t rest (Rep_Verdict (Normal nil))).
    unfold inside in *. rewrite Hpc in *. cbn in *. lia.
Qed.

Lemma cstep_account (base : gset nat) (cfg : config) (i : nat)
    (cfg' : config) :
  Inv_of thread_shape base cfg.1 cfg.2 →
  cstep net Addr_String g cfg i cfg' →
  (pool_made cfg'.1 + World_next cfg.2
   = pool_made cfg.1 + World_next cfg'.2)%nat ∧
  pool_taken cfg'.1 = S (pool_taken cfg.1).
Proof.
  intros HInv Hstep. destruct Hstep as [pool w i t t' w' Hi Hstep].
  cbn [fst snd] in *.
  destruct (tstep_account t w t' w' (Inv_thread_ok _ _ _ _ _ _ HInv Hi)
              (Inv_held_open _ _ _ _ _ _ HInv Hi) Hstep) as [Hm Ht].
  pose proof (sum_list_with_insert made pool i t t' Hi).
  pose proof (sum_list_with_insert taken pool i t t' Hi).
  unfold pool_made, pool_taken. lia.
Qed.

(** ** The pool at rest *)

(** The threads of a finished pool are determined by their answers. *)
Lemma finished_rested (pool : list thread) :
  Forall (λ t, finished t = true) pool →
  pool = rested <$> (answers net Addr_String g <$> pool).
Proof.
  intros Hfin. rewrite <- list_fmap_compose.
  rewrite <- (list_fmap_id pool) at 1. apply Forall_fmap_ext_1.
  eapply Forall_impl; [done|]. intros [todo pc done].
  intros [Htodo Hpc]%finished_Between. cbn in *. subst.
  unfold rested, answers. cbn. by rewrite app_nil_r.
Qed.

End account.

(** Threads that have made no call have made no connection and taken no
    step. *)
Lemma pool_spawn_account (todos : list (list request)) :
  pool_made (spawn <$> todos) = 0%nat ∧ pool_taken (spawn <$> todos) = 0%nat.
Proof.
  unfold pool_made, pool_taken.
  induction todos as [|qs todos [IH1 IH2]]; [done|]. cbn.
  by rewrite IH1, IH2.
Qed.

(** ** Every run keeps the account *)

Lemma asteps_account (env : adaptive) (Addr_String : Addr → string)
    {R : Type} `{!Reader R} (g : R) (base : gset nat) (cfg : config)
    (sched : list nat) (cfg' : config) :
  Inv_of thread_shape base cfg.1 cfg.2 →
  asteps env Addr_String g cfg sched cfg' →
  (pool_made cfg'.1 + World_next cfg.2
   = pool_made cfg.1 + World_next cfg'.2)%nat ∧
  pool_taken cfg'.1 = (length sched + pool_taken cfg.1)%nat.
Proof.
  intros HInv Hsteps.
  induction Hsteps as [|cfg i cfg1 sched cfg2 Hs _ IH]; [done|].
  destruct (cstep_account _ _ _ base cfg i cfg1 HInv Hs) as [Hm Ht].
  destruct (cstep_Inv_shape _ _ _ base cfg i cfg1 HInv Hs) as [HInv1 _].
  destruct (IH HInv1) as [Hm' Ht']. cbn [length]. lia.
Qed.

(** The account of threads that start fresh, against any network and at
    every moment of the run. *)
Theorem adaptive_account (env : adaptive) (Addr_String : Addr → string)
    {R : Type} `{!Reader R} (g : R) (todos : list (list request))
    (w : World) (sched : list nat) (pool' : list thread) (w' : World) :
  World_ok w →
  asteps env Addr_String g (spawn <$> todos, w) sched (pool', w') →
  World_next w' = (World_next w + pool_made pool')%nat ∧
  length sched = pool_taken pool'.
Proof.
  intros Hw Hsteps.
  pose proof (Inv_of_impl _ _ _ _ _ (thread_ok_shape (env w) Addr_String)
                (Inv_spawn (env w) Addr_String todos w Hw)) as HInv.
  destruct (asteps_account env Addr_String g (World_open w)
              (spawn <$> todos, w) sched (pool', w') HInv Hsteps) as [Hm Ht].
  destruct (pool_spawn_account todos) as [Hm0 Ht0].
  cbn [fst snd] in *. lia.
Qed.

(** A pool that has finished holds the replies of the sequential
    reference. *)
Lemma csteps_finished_served (net : Network) (Addr_String : Addr → string)
    {R : Type} `{!Reader R} (g : R) (todos : list (list request))
    (w : World) (sched : list nat) (pool' : list thread) (w' : World) :
  World_ok w →
  csteps net Addr_String g (spawn <$> todos, w) sched (pool', w') →
  Forall (λ t, finished t = true) pool' →
  pool' = served net Addr_String g <$> todos.
Proof.
  intros Hw Hsteps Hfin.
  destruct (csteps_spawn net Addr_String g todos w sched pool' w' Hw Hsteps)
    as (_ & Hans & _).
  rewrite (finished_rested net Addr_String g pool' Hfin), Hans.
  by rewrite <- list_fmap_compose.
Qed.

(** ** Theorems *)



(** Two schedules of the sample pool: they end in the same pool, with the
    same connections open and made, and in traces that differ. *)
Example sample_schedules_agree :
  let other := sample_run_from [2; 2; 2; 1; 1; 1; 0; 0; 0]%nat in
  other.1 = sample_end.1 ∧
  World_open other.2 = World_open sample_end.2 ∧
  World_next other.2 = World_next sample_end.2 ∧
  World_trace other.2 ≠ World_trace sample_end.2.
Proof. by vm_compute. Qed.
