(* ===== verification/Solo.v ===== *)
(** * Solo: a process with one thread is a sequential run

    File [Probe] runs the probes one after the other; file [Concurrent]
    runs them from the threads of a pool, [LookupPort] in two steps.  The
    two agree where they must: a pool of one thread has one schedule that
    finishes it, and that schedule ends in the world in which the
    sequential run of the same calls ends, trace included, with the same
    outcomes.  So what file [Probe] shows of every sequential run holds of
    every process with one thread. *)

From Stdlib Require Import ZArith String List Lia.
From stdpp Require Import base tactics decidable option list strings gmap.
From stdpp Require Import list_numbers.
From S2P Require Import Prelude Netip Geoip2 Samples Geo GeoSpec.
From S2P Require Import GoStrings Net Iputil Probe Concurrent Replay Adaptive.
From S2P Require Import Confluence.

(** ** Calls as requests *)

Definition request_of (c : call) : request :=
  match c with
  | Call_LookupAddr ip => Req_LookupAddr ip
  | Call_LookupPort ip port => Req_LookupPort ip port
  end.

Definition reply_of_outcome (o : outcome) : reply :=
  match o with
  | Name r => Rep_Name r
  | Verdict r => Rep_Verdict r
  end.

(** The calls of the sample run of file [Probe], for one thread. *)
Definition solo_calls : list call :=
  [Call_LookupPort ip_a 80; Call_LookupAddr ip_a; Call_LookupPort ip_b 22].

Section solo.
Context (net : Network) (Addr_String : Addr → string).
Context {R : Type} `{!Reader R} (g : R).

(** ** The sequential references agree *)

Lemma serve_perform (c : call) (w : World) :
  serve net Addr_String g (request_of c) w
  = let '(o, w') := perform net Addr_String c w in (reply_of_outcome o, w').
Proof.
  destruct c as [ip|ip port]; cbn [request_of serve perform].
  - by destruct (LookupAddr net Addr_String ip w).
  - by destruct (LookupPort net Addr_String ip port w).
Qed.

Lemma serve_all_exec (cs : list call) (w : World) :
  serve_all net Addr_String g (request_of <$> cs) w
  = (reply_of_outcome <$> (exec net Addr_String cs w).1.*2,
     (exec net Addr_String cs w).2).
Proof.
  revert w. induction cs as [|c cs IH]; intros w; [done|].
  cbn [fmap list_fmap serve_all exec]. rewrite serve_perform.
  destruct (perform net Addr_String c w) as [o w1]. rewrite IH.
  by destruct (exec net Addr_String cs w1).
Qed.

(** ** A schedule that serves one thread *)

Lemma csteps_app (cfg : config) (s1 : list nat) (cfg1 : config)
    (s2 : list nat) (cfg2 : config) :
  csteps net Addr_String g cfg s1 cfg1 →
  csteps net Addr_String g cfg1 s2 cfg2 →
  csteps net Addr_String g cfg (s1 ++ s2) cfg2.
Proof. induction 1; [done|]. intros. econstructor; eauto. Qed.

Lemma cstep_solo (t : thread) (w : World) (t' : thread) (w' : World) :
  tstep net Addr_String g t w t' w' →
  cstep net Addr_String g ([t], w) 0%nat ([t'], w').
Proof. intros Hstep. by apply (cstep_thread _ _ _ [t] w 0%nat t t' w'). Qed.

(** The request at the head of the list, in one step or two. *)
Lemma solo_step (t : thread) (w : World) (q : request)
    (rest : list request) :
  thread_todo t = q :: rest → thread_pc t = Between →
  ∃ sched,
    csteps net Addr_String g ([t], w) sched
      ([replied t rest (serve net Addr_String g q w).1],
       (serve net Addr_String g q w).2).
Proof.
  intros Ht Hpc. destruct q as [ip|ip|ip| |ip|ip port].
  1-5: exists [0%nat]; (econstructor; [|constructor]); apply cstep_solo;
    (eapply tstep_serve;
       [done|done|intros ? ?; discriminate|by destruct (serve _ _ _ _ _)]).
  cbn [serve]. rewrite LookupPort_split.
  destruct (LookupPort_dial net Addr_String ip port w) as [[e|conn] w1]
    eqn:Hd.
  - exists [0%nat]. econstructor; [|constructor].
    apply cstep_solo. by eapply tstep_dial_failed.
  - destruct (LookupPort_close conn w1) as [r w2] eqn:Hc.
    exists [0%nat; 0%nat].
    econstructor; [apply cstep_solo; by eapply tstep_dial|].
    econstructor; [|constructor].
    apply cstep_solo.
    by apply (tstep_close _ _ _
                {| thread_todo := thread_todo t; thread_pc := Deferred conn;
                   thread_done := thread_done t |} w1 ip port rest conn r w2).
Qed.

(** All its requests. *)
Lemma solo_run (qs : list request) (t : thread) (w : World) :
  thread_todo t = qs → thread_pc t = Between →
  ∃ sched,
    csteps net Addr_String g ([t], w) sched
      ([rested (thread_done t ++ (serve_all net Addr_String g qs w).1)],
       (serve_all net Addr_String g qs w).2).
Proof.
  revert t w. induction qs as [|q qs IH]; intros t w Ht Hpc.
  - exists []. destruct t as [todo pc done]. cbn in *. subst.
    rewrite app_nil_r. constructor.
  - destruct (solo_step t w q qs Ht Hpc) as (s1 & Hs1).
    destruct (IH (replied t qs (serve net Addr_String g q w).1)
                (serve net Addr_String g q w).2 eq_refl eq_refl)
      as (s2 & Hs2).
    exists (s1 ++ s2). cbn [serve_all]. revert Hs1 Hs2.
    destruct (serve net Addr_String g q w) as [r w1].
    cbn [fst snd replied thread_done].
    destruct (serve_all net Addr_String g qs w1) as [rs w2].
    cbn [fst snd]. rewrite <- app_assoc. apply csteps_app.
Qed.

(** ** The schedules of one thread *)

(** In a pool of one thread only that thread steps. *)
Lemma solo_schedule (cfg : config) (sched : list nat) (cfg' : config) :
  csteps net Addr_String g cfg sched cfg' → length cfg.1 = 1%nat →
  Forall (0%nat =.) sched.
Proof.
  induction 1 as [|cfg i cfg1 sched cfg2 Hc _ IH]; [constructor|].
  intros Hlen. destruct Hc as [pool w i t t' w' Hi _]. cbn [fst] in *.
  apply lookup_lt_Some in Hi. constructor; [lia|].
  apply IH. by rewrite length_insert.
Qed.

(** Two schedules of one thread that are as long are one schedule. *)
Lemma solo_schedules_eq (cfg cfg1 cfg2 : config) (s1 s2 : list nat) :
  length cfg.1 = 1%nat → length s1 = length s2 →
  csteps net Addr_String g cfg s1 cfg1 →
  csteps net Addr_String g cfg s2 cfg2 → cfg1 = cfg2.
Proof.
  intros Hlen Hs H1 H2.
  pose proof (solo_schedule _ _ _ H1 Hlen) as Hz1.
  pose proof (solo_schedule _ _ _ H2 Hlen) as Hz2.
  assert (s1 = s2) as ->.
  { transitivity (replicate (length s1) 0%nat);
      [symmetry|rewrite Hs]; by apply replicate_as_Forall. }
  apply csteps_run_sched in H1, H2. congruence.
Qed.

End solo.

(** ** Theorems *)

(** A pool of one thread that has finished has served its requests one
    after the other: it holds the replies, and the world, trace included,
    is the one of the sequential reference. *)
Theorem solo_sequential (net : Network) (Addr_String : Addr → string)
    {R : Type} `{!Reader R} (g : R) (qs : list request) (w : World)
    (sched : list nat) (pool' : list thread) (w' : World) :
  World_ok w →
  csteps net Addr_String g ([spawn qs], w) sched (pool', w') →
  Forall (λ t, finished t = true) pool' →
  pool' = [rested (serve_all net Addr_String g qs w).1] ∧
  w' = (serve_all net Addr_String g qs w).2.
Proof.
  intros Hw Hsteps Hfin.
  destruct (solo_run net Addr_String g qs (spawn qs) w eq_refl eq_refl)
    as (sched0 & Hsteps0). cbn [spawn thread_done app] in Hsteps0.
  assert (length sched0 = length sched) as Hlen.
  { apply asteps_csteps in Hsteps as Ha, Hsteps0 as Ha0.
    destruct (adaptive_account _ _ _ [qs] _ _ _ _ Hw Ha) as [_ ->].
    destruct (adaptive_account _ _ _ [qs] _ _ _ _ Hw Ha0) as [_ ->].
    rewrite (csteps_finished_served _ _ _ [qs] _ _ _ _ Hw Hsteps Hfin).
    rewrite (csteps_finished_served _ _ _ [qs] _ _ _ _ Hw Hsteps0); [done|].
    by repeat constructor. }
  by pose proof (solo_schedules_eq net Addr_String g ([spawn qs], w) _ _ _ _
                   eq_refl Hlen Hsteps0 Hsteps) as [= <- <-].
Qed.

(** With the calls of file [Probe]: the thread ends in the world in which
    [exec] ends, with the outcomes of [exec]. *)
Theorem solo_exec (net : Network) (Addr_String : Addr → string)
    {R : Type} `{!Reader R} (g : R) (cs : list call) (w : World)
    (sched : list nat) (pool' : list thread) (w' : World) :
  World_ok w →
  csteps net Addr_String g ([spawn (request_of <$> cs)], w) sched
    (pool', w') →
  Forall (λ t, finished t = true) pool' →
  pool' = [rested (reply_of_outcome <$> (exec net Addr_String cs w).1.*2)] ∧
  w' = (exec net Addr_String cs w).2.
Proof.
  intros Hw Hsteps Hfin.
  destruct (solo_sequential net Addr_String g _ w sched pool' w' Hw Hsteps
              Hfin) as [-> ->].
  by rewrite serve_all_exec.
Qed.

(** The sample calls on one thread. *)
Example solo_sample :
  let run := run_sched sample_net sample_String sample_geoip
               [0; 0; 0; 0]%nat
               ([spawn (request_of <$> solo_calls)], World_init) in
  snd <$> run = Some (exec sample_net sample_String solo_calls World_init).2.
Proof. by vm_compute. Qed.
